(* ===== verification/_CoqProject ===== *)
-Q . S2P
Prelude.v
GoIO.v
GoStrings.v
Base64.v
Dialogue.v
Pipe.v
WireInt.v
Selector.v
Checksum.v
Delta.v
Mux.v
Flist.v
FlistProofs.v
FlistSafety.v
HashSearch.v
HashSearchProofs.v
Sort.v
FileList.v
Walk.v
Args.v
Greet.v
Handshake.v
Connect.v
Sender.v
Receiver.v
Transfer.v
Endpoint.v
Connection.v
Files.v
ModuleList.v
Lifecycle.v
RootMode.v
