(* ===== verification/Prelude.v ===== *)
(** * go-rsyncfs: the rsync daemon protocol as a Go library

    go-rsyncfs serves io/fs file systems as the modules of an rsync daemon (the
    server) and presents the modules of a daemon as an io/fs file system (the
    client). Both ends speak the protocol versions 20 to 32 over any
    io.ReadWriter. This library models the whole of the Go code under src/ except
    what is listed at the end, and proves what the two ends promise to each other
    and to the program that uses them.

    ** The program

    A connection runs through these phases; the server is
    server-handshake.go and server-send.go, the client client-connect.go and
    client-open.go, and both stand on the codecs of protocol/:

    - greeting lines, version and digest negotiation, module name, challenge and
      response, client arguments, compatibility flags, checksum negotiation, seed
      (doHandshake against runHandshake);
    - from there on multiplexed frames: the server's output at every version, the
      client's from 30 on; flushBeforeRead pushes pending output out before reads;
    - filter list, file list, then selectors with delta transfers, phase markers,
      statistics and goodbye (doServerSender against withEntry).

    A Session of the client is an fs.FS. A connection serves one operation, so
    the Session dials again for the next one; in root mode every operation dials
    for itself and the first component of a name is the module. BufPipe connects
    two ends in memory.

    ** The model

    A Go function is a function in the monad [M S A] (this file): it runs on the
    world [S] and returns a value, an error, a panic, or [NoFuel]. io.Reader and
    io.Writer are records of operations on the world ([GoIO.v]); a method of an
    object runs on the pair of the object and the world. Integers are [Z] with the
    wrap-around of their width written out, bytes and strings lists of [Z]. A
    panic is a run-time panic of the source: index and slice bounds, nil readers.

    Loops that are not bounded by their data take fuel. It is always enough: the
    theorems say that the code returns its result for all fuel from some bound on,
    never only that a result is right if there is one. The fetch loop of the
    multiplexed reader takes its bound from the world ([EnoughFuel]: more than the
    bytes still to come), because every frame has at least four of them.

    The interfaces between the components are classes. [ReaderSpec] and
    [WriterSpec] are the contracts of a reader that delivers a byte stream in
    pieces of its choice and of a writer; [Duplex] says that the two directions of
    a connection do not disturb each other; [Flushes] is the contract of a flush.
    Codecs are proved against these ([parses], [emits], [dialogue], [talks]), and
    the multiplexers, flushBeforeRead, a file handle and the in-memory transport
    are instances, so the codec theorems hold on top of each of them. [EntryOp] is
    the contract of an operation on a file list entry; Open, Lstat and ReadLink are
    its instances, so that one proof composes each of them with the handshake, the
    framing and the server. [Ledger] is what the environment of ConnectFunc records:
    the identities of the connections dialled and closed.

    ** The files

    - [Prelude.v] this file: bytes, machine integers, errors, the monad, tactics
      and the hint database shared by all files;
    - [GoIO.v] io.Reader, io.Writer, io.ReadFull, the transport [conn] used to
      evaluate the model, and the specification classes; [Dialogue.v] two-way
      connections; [GoStrings.v] packages strings, strconv and fmt, and the byte
      comparisons of the source; [Base64.v] encoding/base64;
    - [Pipe.v] pipe.go, as a step relation over concurrent calls;
    - [WireInt.v] protocol/wireint.go; [Selector.v] protocol/vstring.go and
      selector.go; [Checksum.v] protocol/checksum.go, with MD4 and MD5 as the
      class [Digests]; [Delta.v] protocol/delta.go; [Mux.v] protocol/mux/mux.go;
      [Flist.v], [FlistProofs.v], [FlistSafety.v] protocol/flist.go; [Args.v]
      protocol/args.go; [Greet.v] protocol/greet.go; [Handshake.v]
      protocol/handshake.go;
    - [HashSearch.v], [HashSearchProofs.v] the delta generation of server-send.go;
      [Sort.v] flistNameCmp and the two sorts; [FileList.v] sendFileList and
      readFileList; [Walk.v] the walk of a module, with fs.WalkDir and package
      path; [Sender.v] the rest of server-send.go;
    - [Connect.v] server.go, doHandshake, runHandshake; [Receiver.v] withEntry and
      what it calls; [Transfer.v] the two sides of the transfer phase against each
      other; [Endpoint.v] the readers and writers each end builds over its
      transport; [Connection.v] HandleConnection against Connect and an operation;
    - [Files.v] the fs.File and fs.DirEntry values; [ModuleList.v] doListRequest
      and client.go; [Lifecycle.v] the Session with its connections, ConnectFunc,
      Open, Lstat, ReadLink and root mode; [RootMode.v] the theorems on root mode.

    ** What is proved

    - Whole connections: [connection_open] composes greeting, handshake, framing,
      file list, delta transfer and goodbye at every version; [session_answers]
      does so for any sequence of operations of a program, with redialling;
      [root_is_module] and [root_lists_modules] for root mode. Each says that both
      ends complete when given what the other sends, however the transport and the
      frames cut it, and that the client's answer is what the module holds.
    - Parts of it against their specification: [handshake_agreement],
      [file_list_transfer], [delta_transfer_correct] (the block search rebuilds
      any file from any accepted sum struct with a remainder that is not negative,
      when the checksums tell the blocks apart), [walk_tree] (WalkDir with the
      callback against the tree and its files' data), [readdir_children],
      [file_ReadAll], [root_listing].
    - Invariants, under any interleaving or peer: [session_connections] (every
      connection is accounted for; only a failing call in root mode may leave its
      own open), [pipe_fifo], [pipe_no_deadlock], [pipe_delivers],
      [mux_Read_refines_demux], [SendMsg_ordered], [doHandshake_guards],
      [openFile_verified], [ReadEntry_validates], [ReadSumHead_validates],
      [ReadNdx_safe].
    - Round trips of the codecs: [flist_roundtrip], [mux_roundtrip],
      [delta_stream_roundtrip], [ndx_stream_roundtrip], [args_roundtrip] and, as
      lemmas, those of the integers, selectors, sum heads, greetings and the
      authentication lines.
    - Equivalences: the unrolled rolling checksum ([Checksum1_spec]), the file list
      order ([sortFlist_unique]), the flags ([ResolveCompatFlags_spec]), the modes
      ([mode_transfer]).
    - Defects of the source, as theorems about the code as it is: inputs that
      panic ([ReadVarint_panic_iff], [ReadEntry_prefix_panic],
      [negative_remainder_panics], [failed_reconnect_panics]), data that is lost or
      misread ([hlink_dev_dropped], [proto27_dir_name_desync],
      [honest_block_not_matched], [Negotiate_underflow], and the last clause of
      [args_roundtrip]), and a listing that cannot be authenticated
      ([list_password_auth_fails]).

    ** Parameters

    The transport and the environment that ConnectFunc dials in, the module's
    fs.FS, the authentication callbacks, MD4 and MD5 (with the length of their
    digests), the clock, the random source and the order in which Go ranges over a
    map (any rearrangement of its values) are arguments. Every theorem with a
    hypothesis is applied at a concrete input, with these instantiated.

    ** Not modelled

    - The two ends of a connection are run on each other's bytes, not side by
      side: that neither waits for the other for ever is shown for the pipe and its
      two users, not for a client and a server at its ends.
    - doc.go holds comments only. The texts of error messages are abbreviated; an
      error keeps its context and its cause. Concurrent use of a Session or a
      multiplexer is excluded by their documentation.
    - sort.Slice, which is not stable, is a stable sort: where it is used the keys
      are distinct.
*)
From stdpp Require Export base list numbers strings gmap.
From Stdlib Require Export ZArith Lia Ascii.
#[local] Open Scope Z_scope.

(** ** Bytes and strings

    A Go [byte] is a [Z] in [0, 256); a Go [string] and a [[]byte] are both a
    list of them. *)
Abbreviation byte := Z (only parsing).
Abbreviation bytes := (list Z).

Definition is_byte (b : byte) : Prop := 0 ≤ b < 256.
Abbreviation bytes_ok := (Forall is_byte).

#[global] Instance is_byte_dec b : Decision (is_byte b).
Proof. unfold is_byte. apply _. Defined.

(** The bytes of a string literal of the source. *)
Definition str (s : string) : bytes :=
  (λ a, Z.of_N (N_of_ascii a)) <$> String.list_ascii_of_string s.

(** ** Machine integers: conversion wraps around *)
Definition u8 (x : Z) : Z := x mod 2^8.
Definition u16 (x : Z) : Z := x mod 2^16.
Definition u32 (x : Z) : Z := x mod 2^32.
Definition u64 (x : Z) : Z := x mod 2^64.
Definition i32 (x : Z) : Z := (x + 2^31) mod 2^32 - 2^31.
Definition i64 (x : Z) : Z := (x + 2^63) mod 2^64 - 2^63.

(** Bitwise complement [^x] of a [byte]. *)
Definition not8 (x : Z) : Z := u8 (Z.lnot x).

Definition is_i32 (x : Z) : Prop := -2^31 ≤ x < 2^31.
Definition is_i64 (x : Z) : Prop := -2^63 ≤ x < 2^63.
Definition is_u32 (x : Z) : Prop := 0 ≤ x < 2^32.

(** [x&f != 0], the flag test of the source. *)
Definition has (x f : Z) : bool := negb (Z.land x f =? 0).

(** [if c { x |= f }] *)
Definition setif (c : bool) (f x : Z) : Z := if c then Z.lor x f else x.

(** ** Errors and outcomes

    The errors of package io, the sentinel errors of the source, and
    [fmt.Errorf] with ([Wrap]) and without ([Errorf]) a [%w] verb. *)
Inductive error :=
  | EOF
  | ErrUnexpectedEOF
  | ErrShortWrite
  | ErrClosedPipe
  | SkipDir
  | SkipAll
  | ErrPayloadTooLarge
  | UnexpectedMsg (code : Z)
  | Errorf (what : string) (args : list Z)
  | Wrap (what : string) (cause : error).

(** [errors.Is(e, target)] for a sentinel target. *)
Fixpoint errors_Is (target : error → bool) (e : error) : bool :=
  target e || match e with Wrap _ c => errors_Is target c | _ => false end.
Definition is_EOF (e : error) : bool := match e with EOF => true | _ => false end.
Definition is_SkipDir (e : error) : bool := match e with SkipDir => true | _ => false end.
Definition is_SkipAll (e : error) : bool := match e with SkipAll => true | _ => false end.

(** What a call does: return a value, return an error, panic (slice bounds,
    index out of range, negative shift), or exceed the bound the model puts on
    a loop. *)
Inductive outcome (A : Type) :=
  | Ret (a : A)
  | Fail (e : error)
  | Panic
  | NoFuel.
Arguments Ret {_} _.
Arguments Fail {_} _.
Arguments Panic {_}.
Arguments NoFuel {_}.

(** ** The state, error and panic monad of the translation *)
Definition M (S A : Type) : Type := S → outcome A * S.

Definition ret {S A} (a : A) : M S A := λ s, (Ret a, s).
Definition fail {S A} (e : error) : M S A := λ s, (Fail e, s).
Definition panic {S A} : M S A := λ s, (Panic, s).
Definition nofuel {S A} : M S A := λ s, (NoFuel, s).

Definition bind {S A B} (m : M S A) (k : A → M S B) : M S B := λ s,
  match m s with
  | (Ret a, s') => k a s'
  | (Fail e, s') => (Fail e, s')
  | (Panic, s') => (Panic, s')
  | (NoFuel, s') => (NoFuel, s')
  end.

Declare Scope go_scope.
Delimit Scope go_scope with go.
Notation "'let*' x := m 'in' k" := (bind m (λ x, k))
  (at level 10, x pattern, m at level 100, k at level 200,
   format "'[v' 'let*'  x  :=  m  'in' '/' k ']'") : go_scope.
Notation "m ;;; k" := (bind m (λ _, k))
  (at level 190, right associativity, format "'[v' m  ;;; '/' k ']'") : go_scope.
#[local] Open Scope go_scope.

(** [if err != nil { return ..., fmt.Errorf(ctx+": %w", err) }] *)
Definition wrap {S A} (ctx : string) (m : M S A) : M S A := λ s,
  match m s with
  | (Fail e, s') => (Fail (Wrap ctx e), s')
  | r => r
  end.

(** An object [O] with methods, beside the world [S] they do I/O in: a method
    runs in [O * S], so its field updates survive an error return. *)
Definition lift {O S A} (m : M S A) : M (O * S) A := λ '(o, s),
  let '(r, s') := m s in (r, (o, s')).
Definition get {O S} : M (O * S) O := λ '(o, s), (Ret o, (o, s)).
Definition put {O S} (o' : O) : M (O * S) unit := λ '(_, s), (Ret tt, (o', s)).
Definition modify {O S} (f : O → O) : M (O * S) unit := λ '(o, s), (Ret tt, (f o, s)).

(** [for _, x := range l { f(x) }] *)
Fixpoint for_each {S A} (l : list A) (f : A → M S unit) : M S unit :=
  match l with
  | [] => ret tt
  | x :: l' => f x ;;; for_each l' f
  end.

(** [n] calls in a row, collecting the results. *)
Fixpoint times {S A} (n : nat) (m : M S A) : M S (list A) :=
  match n with
  | O => ret []
  | Datatypes.S n' => let* x := m in let* l := times n' m in ret (x :: l)
  end.

(** ** Little-endian byte lists (package encoding/binary) *)
Fixpoint le_bytes (n : nat) (x : Z) : bytes :=
  match n with
  | O => []
  | S n' => x mod 256 :: le_bytes n' (x / 256)
  end.

Fixpoint le_val (bs : bytes) : Z :=
  match bs with
  | [] => 0
  | b :: bs' => b + 256 * le_val bs'
  end.

(** [binary.LittleEndian.PutUint32] and friends, as the bytes they store. *)
Definition PutUint32 (v : Z) : bytes := le_bytes 4 v.
Definition PutUint64 (v : Z) : bytes := le_bytes 8 v.
Definition Uint32 (b : bytes) : Z := le_val (take 4 b).
Definition Uint64 (b : bytes) : Z := le_val (take 8 b).

(** ** Generic lemmas *)
Create HintDb go discriminated.

Lemma bind_ret_l {S A B} (a : A) (k : A → M S B) s : bind (ret a) k s = k a s.
Proof. done. Qed.

Lemma bind_Ret {S A B} (m : M S A) (k : A → M S B) s a s' :
  m s = (Ret a, s') → bind m k s = k a s'.
Proof. unfold bind. by intros ->. Qed.

Lemma bind_state_eq {S A B} (m : M S A) (k : A → M S B) s1 s2 :
  m s1 = m s2 → bind m k s1 = bind m k s2.
Proof. unfold bind. by intros ->. Qed.

Lemma bind_get {O S B} (k : O → M (O * S) B) o s : bind get k (o, s) = k o (o, s).
Proof. done. Qed.

Lemma lift_eq {O S A} (m : M S A) (o : O) s x s' : m s = (x, s') → lift m (o, s) = (x, (o, s')).
Proof. unfold lift. by intros ->. Qed.

Lemma lift_inv {O S A} (m : M S A) (o o' : O) s x s' :
  lift m (o, s) = (x, (o', s')) → o' = o ∧ m s = (x, s').
Proof. unfold lift. destruct (m s). naive_solver. Qed.

Lemma bind_Fail {S A B} (m : M S A) (k : A → M S B) s e s' :
  m s = (Fail e, s') → bind m k s = (Fail e, s').
Proof. unfold bind. by intros ->. Qed.

Lemma bind_Panic {S A B} (m : M S A) (k : A → M S B) s s' :
  m s = (Panic, s') → bind m k s = (Panic, s').
Proof. unfold bind. by intros ->. Qed.

Lemma bind_inv_Ret {S A B} (m : M S A) (k : A → M S B) s b s2 :
  bind m k s = (Ret b, s2) → ∃ a s1, m s = (Ret a, s1) ∧ k a s1 = (Ret b, s2).
Proof. unfold bind. destruct (m s) as [[] s1]; naive_solver. Qed.

Lemma length_le_bytes n x : length (le_bytes n x) = n.
Proof. revert x. induction n; intros; simpl; auto. Qed.

Lemma le_bytes_ok n x : bytes_ok (le_bytes n x).
Proof.
  revert x. induction n as [|n IH]; intros x; constructor; auto.
  apply Z.mod_pos_bound. lia.
Qed.

Lemma le_val_le_bytes n x : le_val (le_bytes n x) = x mod 2 ^ (8 * Z.of_nat n).
Proof.
  revert x. induction n as [|n IH]; intros x; cbn [le_bytes le_val].
  - by rewrite Z.mod_1_r.
  - rewrite IH. replace (8 * Z.of_nat (S n)) with (8 + 8 * Z.of_nat n) by lia.
    rewrite Z.pow_add_r by lia. change (2 ^ 8) with 256.
    by rewrite Z.rem_mul_r by lia.
Qed.

Lemma le_val_bound bs : bytes_ok bs → 0 ≤ le_val bs < 2 ^ (8 * Z.of_nat (length bs)).
Proof.
  induction 1 as [|b bs Hb _ IH]; simpl; [lia|].
  replace (8 * Z.of_nat (S (length bs))) with (8 + 8 * Z.of_nat (length bs)) by lia.
  rewrite Z.pow_add_r by lia. change (2 ^ 8) with 256. unfold is_byte in Hb. lia.
Qed.

Lemma le_bytes_le_val bs : bytes_ok bs → le_bytes (length bs) (le_val bs) = bs.
Proof.
  induction 1 as [|b bs Hb _ IH]; simpl; [done|]. unfold is_byte in Hb.
  rewrite (Z.mul_comm 256), Z.mod_add, Z.div_add by lia.
  rewrite Z.mod_small, Z.div_small, Z.add_0_l by lia. by rewrite IH.
Qed.

Lemma le_val_app a b : le_val (a ++ b) = le_val a + 2 ^ (8 * Z.of_nat (length a)) * le_val b.
Proof.
  induction a as [|x a IH]; simpl.
  - change (8 * 0) with 0. lia.
  - rewrite IH. replace (8 * Z.of_nat (S (length a))) with (8 + 8 * Z.of_nat (length a)) by lia.
    rewrite Z.pow_add_r by lia. change (2 ^ 8) with 256. lia.
Qed.

Lemma le_val_zeros n : le_val (replicate n 0) = 0.
Proof. induction n; simpl; lia. Qed.

Lemma i32_u32 x : is_i32 x → i32 (u32 x) = x.
Proof.
  unfold is_i32, i32, u32. intros H.
  rewrite Zplus_mod_idemp_l, Z.mod_small by lia. lia.
Qed.

Lemma i64_u64 x : is_i64 x → i64 (u64 x) = x.
Proof.
  unfold is_i64, i64, u64. intros H.
  rewrite Zplus_mod_idemp_l, Z.mod_small by lia. lia.
Qed.

Lemma i32_id x : is_i32 x → i32 x = x.
Proof. unfold is_i32, i32. intros H. rewrite Z.mod_small; lia. Qed.

Lemma u32_id x : is_u32 x → u32 x = x.
Proof. unfold is_u32, u32. intros H. by rewrite Z.mod_small. Qed.

Lemma u8_id x : is_byte x → u8 x = x.
Proof. unfold is_byte, u8. intros H. by rewrite Z.mod_small. Qed.

Lemma u8_byte x : is_byte (u8 x).
Proof. apply Z.mod_pos_bound. lia. Qed.

Lemma i32_range x : is_i32 (i32 x).
Proof. unfold is_i32, i32. pose proof (Z.mod_pos_bound (x + 2^31) (2^32)). lia. Qed.

Lemma i64_range x : is_i64 (i64 x).
Proof. unfold is_i64, i64. pose proof (Z.mod_pos_bound (x + 2^63) (2^64)). lia. Qed.

(** A boolean statement about one byte is decided by its 256 instances. *)
Definition all_bytes : bytes := Z.of_nat <$> seq 0 256.

Lemma byte_forall (P : Z → bool) b :
  forallb P all_bytes = true → is_byte b → P b = true.
Proof.
  intros HP Hb. rewrite forallb_forall in HP. apply HP.
  unfold all_bytes. apply list_elem_of_In, list_elem_of_fmap.
  exists (Z.to_nat b). unfold is_byte in Hb. split; [lia|].
  apply elem_of_seq. lia.
Qed.

Lemma has_pow2 x k : 0 ≤ k → has x (2 ^ k) = Z.testbit x k.
Proof.
  intros Hk. unfold has. destruct (Z.testbit x k) eqn:E.
  - destruct (Z.eqb_spec (Z.land x (2^k)) 0) as [H0|]; [|done].
    assert (Z.testbit (Z.land x (2^k)) k = false) as H1 by (by rewrite H0, Z.bits_0).
    rewrite Z.land_spec, E, Z.pow2_bits_true in H1 by lia. done.
  - destruct (Z.eqb_spec (Z.land x (2^k)) 0) as [|H0]; [done|]. destruct H0.
    apply Z.bits_inj'. intros n Hn. rewrite Z.land_spec, Z.pow2_bits_eqb, Z.bits_0 by lia.
    destruct (Z.eqb_spec k n) as [->|]; [by rewrite E|apply andb_false_r].
Qed.

Lemma testbit_setif c k j x :
  0 ≤ k → Z.testbit (setif c (2 ^ k) x) j = (c && (k =? j)) || Z.testbit x j.
Proof.
  intros Hk. unfold setif. destruct c; simpl; [|done].
  rewrite Z.lor_spec, Z.pow2_bits_eqb by lia. apply orb_comm.
Qed.

Lemma land_ones_mod x n : 0 ≤ n → Z.land x (2 ^ n - 1) = x mod 2 ^ n.
Proof. intros Hn. by rewrite <-Z.land_ones, Z.ones_equiv by lia. Qed.

(** A word is its low byte and the rest. *)
Lemma lor_halves n : Z.lor (u8 n) (Z.shiftl (Z.shiftr n 8) 8) = n.
Proof.
  unfold u8. rewrite <-Z.land_ones by lia.
  apply Z.bits_inj'. intros i Hi. rewrite Z.lor_spec, Z.land_spec, Z.shiftl_spec by lia.
  rewrite Z.testbit_ones_nonneg by lia. destruct (Z.ltb_spec i 8).
  - rewrite (Z.testbit_neg_r _ (i - 8)) by lia. by rewrite andb_true_r, orb_false_r.
  - rewrite Z.shiftr_spec, andb_false_r by lia. simpl. f_equal. lia.
Qed.

Lemma shiftr8_bound n k : 0 ≤ k → 0 ≤ n < 2 ^ (8 + k) → 0 ≤ Z.shiftr n 8 < 2 ^ k.
Proof.
  intros Hk Hn. rewrite Z.pow_add_r in Hn by lia. rewrite Z.shiftr_div_pow2 by lia.
  split; [apply Z.div_pos; lia|apply Z.div_lt_upper_bound; lia].
Qed.

(** Flags as single bits. *)
Lemma has_bit x k : 0 ≤ k → has x (Z.shiftl 1 k) = Z.testbit x k.
Proof. intros. by rewrite Z.shiftl_1_l, has_pow2. Qed.

Lemma testbit_flag c k j x :
  0 ≤ k → Z.testbit (setif c (Z.shiftl 1 k) x) j = (c && (k =? j)) || Z.testbit x j.
Proof. intros. by rewrite Z.shiftl_1_l, testbit_setif. Qed.

Lemma lor_bound a b n : 0 ≤ n → 0 ≤ a < 2 ^ n → 0 ≤ b < 2 ^ n → 0 ≤ Z.lor a b < 2 ^ n.
Proof.
  intros Hn Ha Hb. split; [apply Z.lor_nonneg; lia|].
  assert (Z.lor a b = Z.lor a b mod 2 ^ n) as ->; [|apply Z.mod_pos_bound; lia].
  rewrite <-(Z.mod_small a (2^n)), <-(Z.mod_small b (2^n)) by lia.
  rewrite <-!Z.land_ones, <-Z.land_lor_distr_l, <-Z.land_assoc, Z.land_diag by lia. done.
Qed.

Lemma setif_bound c f x n : 0 ≤ n → 0 ≤ x < 2 ^ n → 0 ≤ f < 2 ^ n → 0 ≤ setif c f x < 2 ^ n.
Proof. intros. unfold setif. destruct c; [by apply lor_bound|done]. Qed.

Lemma take_app_exact {A} (a b : list A) n : length a = n → take n (a ++ b) = a.
Proof. intros <-. apply take_app_length. Qed.

Lemma drop_app_exact {A} (a b : list A) n : length a = n → drop n (a ++ b) = b.
Proof. intros <-. apply drop_app_length. Qed.

Lemma take_min_length {A} n (l : list A) : take (n `min` length l) l = take n l.
Proof.
  destruct (Nat.le_ge_cases n (length l)); [by rewrite Nat.min_l|].
  rewrite Nat.min_r, !take_ge; auto.
Qed.

Lemma drop_min_length {A} n (l : list A) : drop (n `min` length l) l = drop n l.
Proof.
  destruct (Nat.le_ge_cases n (length l)); [by rewrite Nat.min_l|].
  rewrite Nat.min_r, !drop_ge; auto.
Qed.

(** Split the boolean conditions of an [if] in the goal or the context. *)
Ltac case_if :=
  match goal with
  | |- context [if ?c then _ else _] => destruct c eqn:?
  end.

(** Turn boolean comparisons in the context into propositions. *)
Ltac b2p :=
  repeat match goal with
  | H : _ && _ = true |- _ => apply andb_true_iff in H as [? ?]
  | H : _ || _ = false |- _ => apply orb_false_iff in H as [? ?]
  | H : negb _ = true |- _ => apply negb_true_iff in H
  | H : negb _ = false |- _ => apply negb_false_iff in H
  | H : (_ =? _) = true |- _ => apply Z.eqb_eq in H
  | H : (_ =? _) = false |- _ => apply Z.eqb_neq in H
  | H : (_ <? _) = true |- _ => apply Z.ltb_lt in H
  | H : (_ <? _) = false |- _ => apply Z.ltb_ge in H
  | H : (_ <=? _) = true |- _ => apply Z.leb_le in H
  | H : (_ <=? _) = false |- _ => apply Z.leb_gt in H
  | H : (_ >? _) = true |- _ => rewrite Z.gtb_ltb in H
  | H : (_ >? _) = false |- _ => rewrite Z.gtb_ltb in H
  | H : (_ >=? _) = true |- _ => rewrite Z.geb_leb in H
  | H : (_ >=? _) = false |- _ => rewrite Z.geb_leb in H
  end.

#[export] Hint Resolve le_bytes_ok u8_byte i32_range i64_range : go.
