(* ===== verification/GoIO.v ===== *)
(** * io.Reader and io.Writer

    The interfaces through which every component of the library talks to its
    transport, [io.ReadFull], an in-memory transport, and the specification
    classes against which the codecs of the other files are verified:

    - [io_Reader], [io_Writer]: interface values over a world [S];
    - [ReaderSpec]: a reader delivers, in pieces of its own choosing, a byte
      stream [pending] that ends in an error [fin];
    - [WriterSpec]: a writer appends to a byte stream [written];
    - [parses], [emits] (and their object versions [reads], [writes]): Hoare-style
      triples for code that consumes or produces exactly the given bytes.

    [conn] is the transport used to evaluate the model: bytes arrive in chunks
    (so short reads happen), the peer's close is [EOF], and writes may start to
    fail after a given number of bytes. *)
From S2P Require Import Prelude.
#[local] Open Scope Z_scope.
#[local] Open Scope go_scope.

(** [Read(p []byte) (n int, err error)]: the argument is [len(p)], the result
    the bytes stored in [p[:n]] and the error. *)
Record io_Reader (S : Type) := { Read : nat → M S (bytes * option error) }.
Arguments Read {_} _ _.

(** [Write(p []byte) (n int, err error)]; the callers in the source discard
    [n]. *)
Record io_Writer (S : Type) := { Write : bytes → M S unit }.
Arguments Write {_} _ _.

(** A reader (writer) of the world, used by a method of an object. *)
Definition lift_reader {O S} (r : io_Reader S) : io_Reader (O * S) :=
  {| Read := λ n, lift (Read r n) |}.
Definition lift_writer {O S} (w : io_Writer S) : io_Writer (O * S) :=
  {| Write := λ p, lift (Write w p) |}.

(** [io.ReadFull(r, buf)] with [len(buf) = n] and [got] already stored: read
    until the buffer is full or an error comes back; an [EOF] after at least
    one byte becomes [ErrUnexpectedEOF]. Each [Read] that returns no error is
    expected to deliver at least one byte, so [n] rounds are enough. *)
Fixpoint read_full_loop {S} (fuel : nat) (r : io_Reader S) (n : nat) (got : bytes) : M S bytes :=
  if decide (n ≤ length got)%nat then ret got else
  match fuel with
  | O => nofuel
  | Datatypes.S fuel' =>
    let* (p, err) := Read r (n - length got)%nat in
    let got' := got ++ p in
    match err with
    | None => read_full_loop fuel' r n got'
    | Some e =>
      if decide (n ≤ length got')%nat then ret got'
      else if decide (got' = []) then fail e
      else match e with EOF => fail ErrUnexpectedEOF | _ => fail e end
    end
  end.

Definition ReadFull {S} (r : io_Reader S) (n : nat) : M S bytes := read_full_loop n r n [].

(** ** The in-memory transport *)
Record conn := mk_conn {
  rx : list bytes;          (** segments not yet read, in order *)
  rx_end : error;           (** what Read reports after the last segment *)
  tx : bytes;               (** everything written so far *)
  tx_room : option nat;     (** [Some k]: the transport breaks after k more bytes *)
}.

(** Drop empty segments. *)
Fixpoint skip_empty (l : list bytes) : list bytes :=
  match l with [] :: l' => skip_empty l' | _ => l end.

Definition conn_read (n : nat) : M conn (bytes * option error) := λ c,
  match skip_empty c.(rx) with
  | [] => (Ret ([], Some c.(rx_end)), mk_conn [] c.(rx_end) c.(tx) c.(tx_room))
  | seg :: l =>
      (Ret (take n seg, None), mk_conn (drop n seg :: l) c.(rx_end) c.(tx) c.(tx_room))
  end.

Definition conn_write (p : bytes) : M conn unit := λ c,
  match c.(tx_room) with
  | None => (Ret tt, mk_conn c.(rx) c.(rx_end) (c.(tx) ++ p) None)
  | Some k =>
      if decide (length p ≤ k)%nat
      then (Ret tt, mk_conn c.(rx) c.(rx_end) (c.(tx) ++ p) (Some (k - length p)%nat))
      else (Fail ErrClosedPipe, mk_conn c.(rx) c.(rx_end) (c.(tx) ++ take k p) (Some 0%nat))
  end.

Definition conn_reader : io_Reader conn := {| Read := conn_read |}.
Definition conn_writer : io_Writer conn := {| Write := conn_write |}.

(** A connection that will deliver [bs] in one segment and then close. *)
Definition conn_of (bs : bytes) : conn := mk_conn [bs] EOF [] None.
(** A connection that delivers its bytes one at a time. *)
Definition conn_dribble (bs : bytes) : conn := mk_conn ((λ b, [b]) <$> bs) EOF [] None.

(** ** Specification of readers *)
Class ReaderSpec {S} (r : io_Reader S) := {
  readable : S → Prop;
  pending : S → bytes;
  fin : S → error;
  kept : S → S → Prop;
  kept_preorder :: PreOrder kept;
  (** bytes pending: a read of [n > 0] delivers between 1 and [n] of them *)
  read_some n s :
    (0 < n)%nat → readable s → pending s ≠ [] →
    ∃ k s', Read r n s = (Ret (take k (pending s), None), s') ∧
      (0 < k ≤ n)%nat ∧ (k ≤ length (pending s))%nat ∧ readable s' ∧
      pending s' = drop k (pending s) ∧ fin s' = fin s ∧ kept s s';
  (** nothing pending: a read reports the final error *)
  read_end n s :
    (0 < n)%nat → readable s → pending s = [] →
    ∃ s', Read r n s = (Ret ([], Some (fin s)), s') ∧ kept s s';
}.
Arguments readable {S} r {_} s.
Arguments pending {S} r {_} s.
Arguments fin {S} r {_} s.
Arguments kept {S} r {_} s s'.

(** ** Specification of writers: every write succeeds and appends *)
Class WriterSpec {S} (w : io_Writer S) := {
  writable : S → Prop;
  written : S → bytes;
  untouched : S → S → Prop;
  untouched_preorder :: PreOrder untouched;
  write_ok p s :
    writable s →
    ∃ s', Write w p s = (Ret tt, s') ∧ writable s' ∧ written s' = written s ++ p ∧ untouched s s';
}.
Arguments writable {S} w {_} s.
Arguments written {S} w {_} s.
Arguments untouched {S} w {_} s s'.

Section parses.
Context {S : Type} (r : io_Reader S) `{!ReaderSpec r}.

(** The reader is in a good state with [bs] to come. *)
Definition stream (s : S) (bs : bytes) : Prop := readable r s ∧ pending r s = bs.

(** From [s] to [s'] the reader only consumed input, and [rest] is to come. *)
Definition consumed (s s' : S) (rest : bytes) : Prop :=
  stream s' rest ∧ fin r s' = fin r s ∧ kept r s s'.

(** [m] consumes exactly [bs] and returns [v]. *)
Definition parses {A} (m : M S A) (bs : bytes) (v : A) : Prop :=
  ∀ s rest, stream s (bs ++ rest) → ∃ s', m s = (Ret v, s') ∧ consumed s s' rest.

(** The same for a method of an object that goes from [o] to [o']. *)
Definition reads {O A} (m : M (O * S) A) (o : O) (bs : bytes) (v : A) (o' : O) : Prop :=
  ∀ s rest, stream s (bs ++ rest) → ∃ s', m (o, s) = (Ret v, (o', s')) ∧ consumed s s' rest.

(** The same when only a property of the final object matters. *)
Definition reads_post {O A} (m : M (O * S) A) (o : O) (bs : bytes) (v : A) (P : O → Prop) : Prop :=
  ∀ s rest, stream s (bs ++ rest) →
    ∃ o' s', m (o, s) = (Ret v, (o', s')) ∧ P o' ∧ consumed s s' rest.

Lemma consumed_refl s bs : stream s bs → consumed s s bs.
Proof. intros H. split; [done|]. split; [done|reflexivity]. Qed.

Lemma consumed_trans s1 s2 s3 rest rest' :
  consumed s1 s2 rest → consumed s2 s3 rest' → consumed s1 s3 rest'.
Proof.
  intros (_ & F1 & K1) (H & F2 & K2). split; [done|]. split; [congruence|by transitivity s2].
Qed.

Lemma parses_ret {A} (v : A) : parses (ret v) [] v.
Proof. intros s rest Hs. exists s. split; [done|by apply consumed_refl]. Qed.

Lemma parses_bind {A B} (m : M S A) (k : A → M S B) bs1 bs2 v1 v2 :
  parses m bs1 v1 → parses (k v1) bs2 v2 → parses (bind m k) (bs1 ++ bs2) v2.
Proof.
  intros H1 H2 s rest Hs. rewrite <-app_assoc in Hs.
  destruct (H1 _ _ Hs) as (s1 & E1 & C1). destruct (H2 _ _ (proj1 C1)) as (s2 & E2 & C2).
  exists s2. rewrite (bind_Ret _ _ _ _ _ E1). split; [done|by eapply consumed_trans].
Qed.

Lemma parses_bind_r {A B} (m : M S A) (k : A → M S B) bs v1 v2 :
  parses m bs v1 → parses (k v1) [] v2 → parses (bind m k) bs v2.
Proof. intros. rewrite <-(app_nil_r bs). by eapply parses_bind. Qed.

Lemma parses_wrap {A} ctx (m : M S A) bs v : parses m bs v → parses (wrap ctx m) bs v.
Proof. intros H s rest Hs. destruct (H s rest Hs) as (s' & E & ?). exists s'. unfold wrap. by rewrite E. Qed.

Lemma reads_ret {O A} (o : O) (v : A) : reads (ret v) o [] v o.
Proof. intros s rest Hs. exists s. split; [done|by apply consumed_refl]. Qed.

Lemma reads_bind {O A B} (m : M (O * S) A) (k : A → M (O * S) B) o o1 o2 bs1 bs2 v1 v2 :
  reads m o bs1 v1 o1 → reads (k v1) o1 bs2 v2 o2 → reads (bind m k) o (bs1 ++ bs2) v2 o2.
Proof.
  intros H1 H2 s rest Hs. rewrite <-app_assoc in Hs.
  destruct (H1 _ _ Hs) as (s1 & E1 & C1). destruct (H2 _ _ (proj1 C1)) as (s2 & E2 & C2).
  exists s2. rewrite (bind_Ret _ _ _ _ _ E1). split; [done|by eapply consumed_trans].
Qed.

Lemma reads_bind_0 {O A B} (m : M (O * S) A) (k : A → M (O * S) B) o o1 o2 bs v1 v2 :
  reads m o [] v1 o1 → reads (k v1) o1 bs v2 o2 → reads (bind m k) o bs v2 o2.
Proof. apply (reads_bind _ _ _ _ _ []). Qed.

Lemma reads_bind_r {O A B} (m : M (O * S) A) (k : A → M (O * S) B) o o1 o2 bs v1 v2 :
  reads m o bs v1 o1 → reads (k v1) o1 [] v2 o2 → reads (bind m k) o bs v2 o2.
Proof. intros. rewrite <-(app_nil_r bs). by eapply reads_bind. Qed.

Lemma reads_post_intro {O A} (m : M (O * S) A) o bs v o' (P : O → Prop) :
  reads m o bs v o' → P o' → reads_post m o bs v P.
Proof. intros H HP s rest Hs. destruct (H _ _ Hs) as (s' & E & ?). by exists o', s'. Qed.

Lemma reads_post_bind {O A B} (m : M (O * S) A) (k : A → M (O * S) B) o o1 bs1 bs2 v1 v2 P :
  reads m o bs1 v1 o1 → reads_post (k v1) o1 bs2 v2 P → reads_post (bind m k) o (bs1 ++ bs2) v2 P.
Proof.
  intros H1 H2 s rest Hs. rewrite <-app_assoc in Hs.
  destruct (H1 _ _ Hs) as (s1 & E1 & C1). destruct (H2 _ _ (proj1 C1)) as (o2 & s2 & E2 & HP & C2).
  exists o2, s2. rewrite (bind_Ret _ _ _ _ _ E1). split_and!; auto. by eapply consumed_trans.
Qed.

Lemma reads_lift {O A} (m : M S A) (o : O) bs v : parses m bs v → reads (lift m) o bs v o.
Proof.
  intros H s rest Hs. destruct (H _ _ Hs) as (s' & E & ?).
  exists s'. split; [by apply lift_eq|done].
Qed.

Lemma reads_get {O} (o : O) : reads get o [] o o.
Proof. intros s rest Hs. exists s. split; [done|by apply consumed_refl]. Qed.

Lemma reads_modify {O} (f : O → O) (o : O) : reads (modify f) o [] tt (f o).
Proof. intros s rest Hs. exists s. split; [done|by apply consumed_refl]. Qed.

Lemma reads_put {O} (o o' : O) : reads (put o') o [] tt o'.
Proof. intros s rest Hs. exists s. split; [done|by apply consumed_refl]. Qed.

(** ReadFull reassembles the stream whatever the sizes of the short reads. *)
Lemma read_full_loop_ok fuel n got need :
  length need = (n - length got)%nat → (n - length got ≤ fuel)%nat →
  parses (read_full_loop fuel r n got) need (got ++ need).
Proof.
  revert got need. induction fuel as [|fuel IH]; intros got need Hlen Hfuel s rest Hs.
  - destruct need; simpl in Hlen; [|lia]. unfold read_full_loop.
    destruct (decide _); [|lia]. rewrite app_nil_r. exists s. split; [done|by apply consumed_refl].
  - cbn [read_full_loop]. destruct (decide (n ≤ length got)%nat).
    { destruct need; simpl in Hlen; [|lia]. rewrite app_nil_r.
      exists s. split; [done|by apply consumed_refl]. }
    destruct Hs as [Hr Hs].
    destruct (read_some (n - length got) s) as (k & s1 & E & Hk & Hkl & Hr1 & Hp & Hf & K); [lia|done| |].
    { rewrite Hs. destruct need; simpl in *; [lia|done]. }
    rewrite (bind_Ret _ _ _ _ _ E). cbn [fst snd].
    assert (take k (pending r s) = take k need) as ->.
    { rewrite Hs, take_app_le; [done|lia]. }
    edestruct (IH (got ++ take k need) (drop k need)) as (s2 & E2 & C2).
    + rewrite length_drop, length_app, length_take. lia.
    + rewrite length_app, length_take. lia.
    + split; [done|]. rewrite Hp, Hs, drop_app_le; [done|lia].
    + exists s2. rewrite E2, <-app_assoc, take_drop. split; [done|].
      eapply consumed_trans; [|exact C2]. split; [split; [done|reflexivity]|done].
Qed.

Lemma ReadFull_ok bs n : length bs = n → parses (ReadFull r n) bs bs.
Proof. intros. apply (read_full_loop_ok n n [] bs); simpl; lia. Qed.

(** ReadFull on a stream that ends early. *)
Definition eof_error (got : bytes) (e : error) : error :=
  if decide (got = []) then e else match e with EOF => ErrUnexpectedEOF | _ => e end.

Lemma read_full_loop_short fuel n got s : readable r s →
  (length (pending r s) < n - length got)%nat → (n - length got ≤ fuel)%nat →
  ∃ s', read_full_loop fuel r n got s = (Fail (eof_error (got ++ pending r s) (fin r s)), s')
        ∧ kept r s s'.
Proof.
  revert got s. induction fuel as [|fuel IH]; intros got s Hr Hlen Hfuel; [lia|].
  cbn [read_full_loop]. destruct (decide (n ≤ length got)%nat); [lia|].
  destruct (decide (pending r s = [])) as [Hnil|Hne].
  - destruct (read_end (n - length got) s) as (s1 & E & K); [lia|done|done|].
    exists s1. rewrite (bind_Ret _ _ _ _ _ E). cbn [fst snd]. rewrite app_nil_r.
    destruct (decide _); [lia|]. rewrite Hnil, app_nil_r. unfold eof_error.
    split; [|done]. destruct (decide (got = [])); [done|]. by destruct (fin r s).
  - destruct (read_some (n - length got) s) as (k & s1 & E & Hk & Hkl & Hr1 & Hp & Hf & K); [lia|done|done|].
    rewrite (bind_Ret _ _ _ _ _ E). cbn [fst snd].
    destruct (IH (got ++ take k (pending r s)) s1) as (s2 & E2 & K2); [done| | |].
    + rewrite Hp, length_drop, length_app, length_take. lia.
    + rewrite length_app, length_take. lia.
    + exists s2. rewrite E2, Hp, Hf, <-app_assoc, take_drop. split; [done|]. by transitivity s1.
Qed.

(** ReadFull in every state of the stream. *)
Lemma ReadFull_cases n s bs : stream s bs →
  (∃ s', ReadFull r n s = (Ret (take n bs), s') ∧ (n ≤ length bs)%nat ∧ consumed s s' (drop n bs)) ∨
  (∃ s', ReadFull r n s = (Fail (eof_error bs (fin r s)), s') ∧ (length bs < n)%nat ∧ kept r s s').
Proof.
  intros Hs. destruct (decide (n ≤ length bs)%nat) as [Hn|Hn].
  - left. destruct (ReadFull_ok (take n bs) n) with (s := s) (rest := drop n bs)
      as (s' & E & ?); [rewrite length_take; lia|by rewrite take_drop|]. by exists s'.
  - right. destruct Hs as [Hr <-].
    destruct (read_full_loop_short n n [] s Hr) as (s' & E & ?); [simpl; lia..|].
    exists s'. split_and!; auto. lia.
Qed.
End parses.

Section emits.
Context {S : Type} (w : io_Writer S) `{!WriterSpec w}.

(** From [s] to [s'] the writer stays good, [bs] went out, nothing else changed. *)
Definition sent (s s' : S) (bs : bytes) : Prop :=
  writable w s' ∧ written w s' = written w s ++ bs ∧ untouched w s s'.

(** [m] succeeds and writes exactly [bs]. *)
Definition emits (m : M S unit) (bs : bytes) : Prop :=
  ∀ s, writable w s → ∃ s', m s = (Ret tt, s') ∧ sent s s' bs.

Definition writes {O} (m : M (O * S) unit) (o : O) (bs : bytes) (o' : O) : Prop :=
  ∀ s, writable w s → ∃ s', m (o, s) = (Ret tt, (o', s')) ∧ sent s s' bs.

Lemma sent_refl s : writable w s → sent s s [].
Proof. intros H. split; [done|]. rewrite app_nil_r. split; [done|reflexivity]. Qed.

Lemma sent_trans s1 s2 s3 a b : sent s1 s2 a → sent s2 s3 b → sent s1 s3 (a ++ b).
Proof.
  intros (_ & W1 & U1) (H & W2 & U2). split; [done|]. rewrite W2, W1, app_assoc.
  split; [done|by transitivity s2].
Qed.

Lemma emits_ret : emits (ret tt) [].
Proof. intros s Hs. exists s. split; [done|by apply sent_refl]. Qed.

Lemma emits_write p : emits (Write w p) p.
Proof. intros s. apply write_ok. Qed.

Lemma emits_seq m1 m2 bs1 bs2 :
  emits m1 bs1 → emits m2 bs2 → emits (m1 ;;; m2) (bs1 ++ bs2).
Proof.
  intros H1 H2 s Hs. destruct (H1 s Hs) as (s1 & E1 & T1).
  destruct (H2 s1 (proj1 T1)) as (s2 & E2 & T2).
  exists s2. rewrite (bind_Ret _ _ _ _ _ E1). split; [done|by eapply sent_trans].
Qed.

(** [m] writes exactly [bs] and returns [v]. *)
Definition yields {A} (m : M S A) (bs : bytes) (v : A) : Prop :=
  ∀ s, writable w s → ∃ s', m s = (Ret v, s') ∧ sent s s' bs.

Lemma yields_ret {A} (v : A) : yields (ret v) [] v.
Proof. intros s Hs. exists s. split; [done|by apply sent_refl]. Qed.

Lemma yields_bind {A B} (m : M S A) (k : A → M S B) bs1 bs2 v1 v2 :
  yields m bs1 v1 → yields (k v1) bs2 v2 → yields (bind m k) (bs1 ++ bs2) v2.
Proof.
  intros H1 H2 s Hs. destruct (H1 s Hs) as (s1 & E1 & T1). destruct (H2 s1 (proj1 T1)) as (s2 & E2 & T2).
  exists s2. rewrite (bind_Ret _ _ _ _ _ E1). split; [done|by eapply sent_trans].
Qed.

Lemma yields_bind_0 {A B} (m : M S A) (k : A → M S B) bs v1 v2 :
  yields m [] v1 → yields (k v1) bs v2 → yields (bind m k) bs v2.
Proof. apply (yields_bind _ _ []). Qed.

Lemma yields_bind_r {A B} (m : M S A) (k : A → M S B) bs v1 v2 :
  yields m bs v1 → yields (k v1) [] v2 → yields (bind m k) bs v2.
Proof. intros. rewrite <-(app_nil_r bs). by eapply yields_bind. Qed.

Lemma yields_wrap {A} ctx (m : M S A) bs v : yields m bs v → yields (wrap ctx m) bs v.
Proof. intros H s Hs. destruct (H s Hs) as (s' & E & ?). exists s'. unfold wrap. by rewrite E. Qed.

Lemma emits_for_each {A} (l : list A) (f : A → M S unit) (enc : A → bytes) :
  (∀ x, x ∈ l → emits (f x) (enc x)) → emits (for_each l f) (concat (enc <$> l)).
Proof.
  induction l as [|x l IH]; intros H; [apply emits_ret|]. simpl.
  apply emits_seq; [|apply IH]; intros; apply H; by constructor.
Qed.

Lemma writes_lift {O} m (o : O) bs : emits m bs → writes (lift m) o bs o.
Proof.
  intros H s Hs. destruct (H s Hs) as (s' & E & ?). exists s'. split; [by apply lift_eq|done].
Qed.

Lemma writes_ret {O} (o : O) : writes (ret tt) o [] o.
Proof. intros s Hs. exists s. split; [done|by apply sent_refl]. Qed.

Lemma writes_modify {O} (f : O → O) (o : O) : writes (modify f) o [] (f o).
Proof. intros s Hs. exists s. split; [done|by apply sent_refl]. Qed.

Lemma writes_get {O} (k : O → M (O * S) unit) (o o' : O) bs :
  writes (k o) o bs o' → writes (bind get k) o bs o'.
Proof. intros H s Hs. destruct (H s Hs) as (s' & E & ?). by exists s'. Qed.

Lemma writes_seq {O} (m1 m2 : M (O * S) unit) o o1 o2 bs1 bs2 :
  writes m1 o bs1 o1 → writes m2 o1 bs2 o2 → writes (m1 ;;; m2) o (bs1 ++ bs2) o2.
Proof.
  intros H1 H2 s Hs. destruct (H1 s Hs) as (s1 & E1 & T1).
  destruct (H2 s1 (proj1 T1)) as (s2 & E2 & T2).
  exists s2. rewrite (bind_Ret _ _ _ _ _ E1). split; [done|by eapply sent_trans].
Qed.
End emits.

(** ** Writer and reader side by side

    [codec mw o o' mr p v p']: what [mw] writes (taking the writing object from
    [o] to [o']) is exactly what [mr] consumes (taking the reading object from
    [p] to [p']) to return [v]. *)
Section codec.
Context {S : Type} (w : io_Writer S) `{!WriterSpec w}.
Context {T : Type} (r : io_Reader T) `{!ReaderSpec r}.

Definition codec {O P A} (mw : M (O * S) unit) (o o' : O) (mr : M (P * T) A) (p : P) (v : A) (p' : P) : Prop :=
  ∃ bs, writes w mw o bs o' ∧ reads r mr p bs v p'.

Lemma codec_seq {O P A B} m1 m2 (o o1 o2 : O) (n1 : M (P * T) A) (k : A → M (P * T) B) p p1 p2 v u :
  codec m1 o o1 n1 p v p1 → codec m2 o1 o2 (k v) p1 u p2 → codec (m1 ;;; m2) o o2 (bind n1 k) p u p2.
Proof.
  intros (b1 & W1 & R1) (b2 & W2 & R2). exists (b1 ++ b2).
  split; [by eapply writes_seq|by eapply reads_bind].
Qed.

Lemma codec_last {O P A B} m (o o1 : O) (n : M (P * T) A) (k : A → M (P * T) B) p p1 p2 v u :
  codec m o o1 n p v p1 → reads r (k v) p1 [] u p2 → codec m o o1 (bind n k) p u p2.
Proof. intros (b1 & W1 & R1) R2. exists b1. split; [done|by eapply reads_bind_r]. Qed.

Lemma codec_after {O P A} m1 m2 (o o1 o2 : O) (n : M (P * T) A) p v p' :
  codec m1 o o1 n p v p' → writes w m2 o1 [] o2 → codec (m1 ;;; m2) o o2 n p v p'.
Proof.
  intros (b & W & R) W2. exists b. split; [|done]. rewrite <-(app_nil_r b). by eapply writes_seq.
Qed.

Lemma codec_first {O P A B} m (o o1 : O) (n : M (P * T) A) (k : A → M (P * T) B) p p1 p2 v u :
  reads r n p [] v p1 → codec m o o1 (k v) p1 u p2 → codec m o o1 (bind n k) p u p2.
Proof. intros R1 (b & W & R). exists b. split; [done|by eapply reads_bind_0]. Qed.

Lemma codec_ret {O P A} (o : O) (p : P) (v : A) : codec (ret tt) o o (ret v) p v p.
Proof. exists []. split; [apply writes_ret|apply reads_ret]. Qed.

Lemma codec_lift {O P A} m n (o : O) (p : P) (v : A) bs :
  emits w m bs → parses r n bs v → codec (lift m) o o (lift n) p v p.
Proof. intros. exists bs. split; [by apply writes_lift|by apply reads_lift]. Qed.

Lemma codec_get_w {O P A} (k : O → M (O * S) unit) o o' (n : M (P * T) A) p v p' :
  codec (k o) o o' n p v p' → codec (bind get k) o o' n p v p'.
Proof. intros (b & W & R). exists b. split; [by apply writes_get|done]. Qed.

Lemma codec_put_w {O P A} (o0 : O) m o o' (n : M (P * T) A) p v p' :
  codec m o0 o' n p v p' → codec (put o0 ;;; m) o o' n p v p'.
Proof. intros (b & W & R). exists b. split; [|done]. exact W. Qed.

Lemma codec_get_r {O P A} m (o o' : O) (k : P → M (P * T) A) p v p' :
  codec m o o' (k p) p v p' → codec m o o' (bind get k) p v p'.
Proof. intros H. eapply codec_first; [apply reads_get|done]. Qed.

(** Both sides assign to their object after the transfer. *)
Lemma codec_modify {O P A B} m (o : O) (f : O → O) (n : M (P * T) A) (g : A → P → P) (h : A → B) p v :
  codec m o o n p v p →
  codec (m ;;; modify f) o (f o) (let* x := n in modify (g x) ;;; ret (h x)) p (h v) (g v p).
Proof.
  intros (b & W & R). exists b. split.
  - rewrite <-(app_nil_r b). eapply writes_seq; [done|apply writes_modify].
  - eapply reads_bind_r; [done|]. eapply reads_bind_r; [apply reads_modify|apply reads_ret].
Qed.
End codec.

(** ** The in-memory transport meets the interfaces *)
Lemma skip_empty_concat l : concat (skip_empty l) = concat l.
Proof. induction l as [|[|b x] l IH]; simpl; auto. Qed.

Lemma skip_empty_head l : skip_empty l = [] ∨ ∃ b x l', skip_empty l = (b :: x) :: l'.
Proof. induction l as [|[|b x] l IH]; simpl; eauto. Qed.

#[global, refine] Instance conn_reader_spec : ReaderSpec conn_reader := {|
  readable := λ _, True;
  pending := λ c, concat c.(rx);
  fin := rx_end;
  kept := λ c c', c'.(tx) = c.(tx) ∧ c'.(tx_room) = c.(tx_room);
|}.
Proof.
  - split; [by intros c|intros a b c [??] [??]; split; congruence].
  - intros n s Hn _ Hne. unfold conn_reader, conn_read; simpl in *.
    pose proof (skip_empty_concat (rx s)) as Hc.
    destruct (skip_empty_head (rx s)) as [E|(b & x & l & E)]; rewrite E in Hc |- *;
      [by rewrite <-Hc in Hne|]. rewrite <-Hc. cbn [concat].
    exists (n `min` length (b :: x))%nat, (mk_conn (drop n (b :: x) :: l) (rx_end s) (tx s) (tx_room s)).
    split_and!; auto.
    + by rewrite take_app_le, take_min_length by lia.
    + simpl. lia.
    + lia.
    + rewrite length_app. lia.
    + by rewrite drop_app_le, drop_min_length by lia.
  - intros n s Hn _ Hnil. unfold conn_reader, conn_read; simpl in *.
    rewrite <-(skip_empty_concat (rx s)) in Hnil.
    destruct (skip_empty_head (rx s)) as [E|(b & x & l & E)]; rewrite E in Hnil |- *; [|done].
    eexists. split; [done|]. done.
Defined.

(** A transport that does not break. *)
#[global, refine] Instance conn_writer_spec : WriterSpec conn_writer := {|
  writable := λ c, c.(tx_room) = None;
  written := tx;
  untouched := λ c c', c'.(rx) = c.(rx) ∧ c'.(rx_end) = c.(rx_end);
|}.
Proof.
  - split; [by intros c|intros a b c [??] [??]; split; congruence].
  - intros p s Hs. simpl. unfold conn_write. rewrite Hs. by eexists.
Defined.

(** A transport that breaks reports the error of the write it breaks in. *)
Lemma conn_writer_broken p c k :
  c.(tx_room) = Some k → (k < length p)%nat →
  (Write conn_writer p c).1 = Fail ErrClosedPipe.
Proof. intros H Hk. simpl. unfold conn_write. rewrite H. destruct (decide _); [lia|done]. Qed.
