(* ===== verification/GoStrings.v ===== *)
(** * Go strings (packages strings, strconv and fmt)

    The string functions the text phase of the protocol uses. A string is its
    bytes; white space is Unicode white space in UTF-8, as package unicode
    defines it. A multi-byte space starts with a byte that is never a
    continuation byte, so looking for one at every byte is looking for one at
    every rune. *)
From S2P Require Import Prelude.
#[local] Open Scope Z_scope.

(** ** Definitions *)

(** The number of bytes of the white space [s] starts with; 0 for none. *)
Definition space_len (s : bytes) : nat :=
  match s with
  | b0 :: s1 =>
    if (b0 =? 32) || ((9 <=? b0) && (b0 <=? 13)) then 1%nat
    else match s1 with
    | b1 :: s2 =>
      if (b0 =? 0xC2) && ((b1 =? 0x85) || (b1 =? 0xA0)) then 2%nat
      else match s2 with
      | b2 :: _ =>
        if ((b0 =? 0xE1) && (b1 =? 0x9A) && (b2 =? 0x80))
           || ((b0 =? 0xE2) && (b1 =? 0x80) &&
               (((0x80 <=? b2) && (b2 <=? 0x8A)) || (b2 =? 0xA8) || (b2 =? 0xA9) || (b2 =? 0xAF)))
           || ((b0 =? 0xE2) && (b1 =? 0x81) && (b2 =? 0x9F))
           || ((b0 =? 0xE3) && (b1 =? 0x80) && (b2 =? 0x80))
        then 3%nat else O
      | [] => O
      end
    | [] => O
    end
  | [] => O
  end.

(** The string behind its leading white space; [skip] counts the bytes of a
    space still to be passed. *)
Fixpoint trim_left (skip : nat) (s : bytes) : bytes :=
  match s with
  | [] => []
  | _ :: s' =>
    match skip with
    | S skip' => trim_left skip' s'
    | O => match space_len s with O => s | S k => trim_left k s' end
    end
  end.

(** The string without its trailing white space: the shortest prefix followed
    by nothing but spaces. *)
Fixpoint trim_right (s : bytes) : bytes :=
  match s with
  | [] => []
  | b :: s' => if decide (trim_left 0 s = []) then [] else b :: trim_right s'
  end.

Definition TrimSpace (s : bytes) : bytes := trim_right (trim_left 0 s).

(** [strings.Fields]: [cur] is the word being collected. *)
Definition flush_word (cur : bytes) : list bytes := match cur with [] => [] | _ => [cur] end.
Fixpoint fields (skip : nat) (s : bytes) (cur : bytes) : list bytes :=
  match s with
  | [] => flush_word cur
  | b :: s' =>
    match skip with
    | S skip' => fields skip' s' cur
    | O => match space_len s with
           | O => fields 0 s' (cur ++ [b])
           | S k => flush_word cur ++ fields k s' []
           end
    end
  end.
Definition Fields (s : bytes) : list bytes := fields 0 s [].

Fixpoint HasPrefix (s prefix : bytes) : bool :=
  match prefix, s with
  | [], _ => true
  | p :: prefix', c :: s' => (p =? c) && HasPrefix s' prefix'
  | _ :: _, [] => false
  end.

(** [strings.CutPrefix]: [None] when the prefix is missing. *)
Definition CutPrefix (s prefix : bytes) : option bytes :=
  if HasPrefix s prefix then Some (drop (length prefix) s) else None.

(** [strings.Cut] at a one-byte separator: what is before it, and what is
    behind it if it occurs. *)
Fixpoint Cut (s : bytes) (sep : byte) : bytes * option bytes :=
  match s with
  | [] => ([], None)
  | c :: s' => if c =? sep then ([], Some s') else let '(before, after) := Cut s' sep in (c :: before, after)
  end.

Fixpoint Join (l : list bytes) (sep : bytes) : bytes :=
  match l with
  | [] => []
  | [w] => w
  | w :: l' => w ++ sep ++ Join l' sep
  end.

(** The comparison loop of equalBytes and bytesEqual, on slices of one length. *)
Fixpoint equal_loop (a b : bytes) : bool :=
  match a, b with
  | x :: a', y :: b' => if negb (x =? y) then false else equal_loop a' b'
  | _, _ => true
  end.
Definition equalBytes (a b : bytes) : bool :=
  if negb (Z.of_nat (length a) =? Z.of_nat (length b)) then false else equal_loop a b.

Definition bytesEqual (a b : bytes) : bool :=
  if negb (Z.of_nat (length a) =? Z.of_nat (length b)) then false else equal_loop a b.

(** [%d]: an int has at most 19 digits and a sign. *)
Fixpoint digits (fuel : nat) (n : Z) : bytes :=
  match fuel with
  | O => []
  | S fuel' => if n <? 10 then [48 + n] else digits fuel' (n / 10) ++ [48 + n mod 10]
  end.
Definition format_d (n : Z) : bytes := if n <? 0 then 45 :: digits 19 (- n) else digits 19 n.

(** [strconv.Atoi]; [None] is a syntax or range error. *)
Definition digits_value (s : bytes) : option Z :=
  foldl (λ acc c, v ← acc; if (48 <=? c) && (c <=? 57) then Some (10 * v + (c - 48)) else None) (Some 0) s.
Definition Atoi (s : bytes) : option Z :=
  let '(neg, ds) :=
    match s with
    | c :: s' => if c =? 45 then (true, s') else if c =? 43 then (false, s') else (false, s)
    | [] => (false, [])
    end in
  match ds with
  | [] => None
  | _ =>
    v ← digits_value ds;
    let v := if neg : bool then - v else v in
    if (- 2^63 <=? v) && (v <? 2^63) then Some v else None
  end.

(** ** Words *)

(** A printable ASCII character other than a space. *)
Definition graphic (c : byte) : Prop := 33 ≤ c ≤ 126.
#[global] Instance graphic_dec c : Decision (graphic c).
Proof. unfold graphic. apply _. Defined.
Definition word (w : bytes) : Prop := w ≠ [] ∧ Forall graphic w.
#[global] Instance word_dec w : Decision (word w).
Proof. unfold word. apply _. Defined.

Lemma space_len_graphic c s : graphic c → space_len (c :: s) = O.
Proof.
  unfold graphic. intros Hc. unfold space_len.
  assert (∀ x, x < 33 ∨ 126 < x → (c =? x) = false) as Hne by (intros; apply Z.eqb_neq; lia).
  rewrite !Hne by lia. destruct (Z.leb_spec c 13); [lia|]. rewrite andb_false_r. cbn [orb andb].
  destruct s as [|? [|??]]; reflexivity.
Qed.

Lemma space_len_blank s : space_len (32 :: s) = 1%nat.
Proof. reflexivity. Qed.

Lemma trim_left_graphic c s : graphic c → trim_left 0 (c :: s) = c :: s.
Proof. intros Hc. cbn [trim_left]. by rewrite space_len_graphic. Qed.

(** Trimming stops at a graphic character. *)
Lemma space_len_tail b s c t : graphic c → (space_len (b :: s ++ c :: t) ≤ S (length s))%nat.
Proof.
  intros Hc. unfold space_len. case_if; [lia|].
  unfold graphic in Hc. destruct s as [|b1 [|b2 s]]; cbn [app length].
  - assert ((c =? 0x85) || (c =? 0xA0) = false) as -> by (apply orb_false_iff; split; apply Z.eqb_neq; lia).
    rewrite andb_false_r. destruct t; [lia|]. case_if; [|lia]. b2p. lia.
  - case_if; [lia|]. case_if; [|lia]. b2p. lia.
  - repeat case_if; lia.
Qed.

Lemma trim_left_graphic_in s c t skip : graphic c → (skip ≤ length s)%nat → trim_left skip (s ++ c :: t) ≠ [].
Proof.
  intros Hc. revert skip. induction s as [|b s IH]; intros skip Hs; cbn [app trim_left].
  - destruct skip; [|simpl in Hs; lia]. by rewrite space_len_graphic.
  - destruct skip as [|skip]; [|apply IH; simpl in Hs; lia].
    pose proof (space_len_tail b s c t Hc) as Hk. destruct (space_len (b :: s ++ c :: t)); [done|]. apply IH. lia.
Qed.

Lemma trim_right_graphic_in s c t : graphic c → trim_right (s ++ c :: t) = s ++ c :: trim_right t.
Proof.
  intros Hc. induction s as [|b s IH]; cbn [app trim_right].
  - destruct (decide _) as [E|]; [|done]. by rewrite trim_left_graphic in E.
  - destruct (decide _) as [E|]; [|by rewrite IH].
    exfalso. revert E. apply (trim_left_graphic_in (b :: s) c t 0 Hc). lia.
Qed.

Lemma trim_right_graphic s c : graphic c → trim_right (s ++ [c]) = s ++ [c].
Proof. apply (trim_right_graphic_in s c []). Qed.

Lemma trim_right_blanks k : trim_right (replicate k 32) = [].
Proof.
  assert (∀ k, trim_left 0 (replicate k 32) = []) as H by (intros n; induction n as [|n IH]; [done|]; exact IH).
  destruct k as [|k]; [done|]. cbn [replicate trim_right]. rewrite decide_True; [done|]. apply (H (S k)).
Qed.

(** A string between graphic characters, padded with blanks. *)
Lemma TrimSpace_padded c s k : graphic c → (s = [] ∨ ∃ s' d, s = s' ++ [d] ∧ graphic d) → TrimSpace (c :: s ++ replicate k 32) = c :: s.
Proof.
  intros Hc Hs. unfold TrimSpace. rewrite trim_left_graphic by done. destruct Hs as [->|(s' & d & -> & Hd)].
  - change (c :: [] ++ replicate k 32) with ([] ++ c :: replicate k 32). by rewrite trim_right_graphic_in, trim_right_blanks.
  - rewrite <-app_assoc. change (c :: s' ++ [d] ++ replicate k 32) with ((c :: s') ++ d :: replicate k 32).
    by rewrite trim_right_graphic_in, trim_right_blanks.
Qed.

Lemma fields_word w s cur : Forall graphic w → fields 0 (w ++ s) cur = fields 0 s (cur ++ w).
Proof.
  intros Hw. revert cur. induction Hw as [|c w Hc _ IH]; intros cur; cbn [app]; [by rewrite app_nil_r|].
  cbn [fields]. rewrite space_len_graphic by done. rewrite IH, <-app_assoc. done.
Qed.

Lemma Fields_Join l : Forall word l → Fields (Join l [32]) = l.
Proof.
  unfold Fields. induction 1 as [|w l [Hne Hw] Hl IH]; [done|]. destruct l as [|x l].
  - cbn [Join]. rewrite <-(app_nil_r w) at 1. rewrite fields_word by done. by destruct w.
  - change (Join (w :: x :: l) [32]) with (w ++ 32 :: Join (x :: l) [32]).
    rewrite fields_word by done. cbn [app fields]. rewrite space_len_blank, IH. by destruct w.
Qed.

Lemma Fields_blank s : Fields (32 :: s) = Fields s.
Proof. reflexivity. Qed.

Lemma HasPrefix_app p s : HasPrefix (p ++ s) p = true.
Proof. induction p as [|c p IH]; [by destruct s|]. cbn [app HasPrefix]. by rewrite Z.eqb_refl. Qed.

Lemma HasPrefix_byte b s c : HasPrefix (b :: s) [c] = (c =? b).
Proof. cbn [HasPrefix]. rewrite <-(andb_true_r (c =? b)) at 2. f_equal. by destruct s. Qed.

Lemma CutPrefix_app p s : CutPrefix (p ++ s) p = Some s.
Proof. unfold CutPrefix. by rewrite HasPrefix_app, drop_app_length. Qed.

Lemma Cut_app a b sep : sep ∉ a → Cut (a ++ sep :: b) sep = (a, Some b).
Proof.
  induction a as [|c a IH]; intros H; cbn [app Cut]; [by rewrite Z.eqb_refl|].
  apply not_elem_of_cons in H as [Hc H]. destruct (Z.eqb_spec c sep); [congruence|]. by rewrite IH.
Qed.

(** ** Numbers *)
Definition is_digit (c : byte) : Prop := 48 ≤ c ≤ 57.

Lemma digits_ok fuel n : 0 ≤ n → Forall is_digit (digits fuel n).
Proof.
  revert n. induction fuel as [|fuel IH]; intros n Hn; cbn [digits]; [constructor|].
  destruct (Z.ltb_spec n 10).
  - repeat constructor; lia.
  - apply Forall_app. split; [apply IH, Z.div_pos; lia|]. pose proof (Z.mod_pos_bound n 10). repeat constructor; lia.
Qed.

Lemma digits_nonempty fuel n : fuel ≠ O → digits fuel n ≠ [].
Proof. destruct fuel; [done|]. intros _. cbn [digits]. case_if; [done|]. intros E. by apply app_eq_nil in E as [_ ?]. Qed.

Lemma digits_value_snoc s v c : digits_value s = Some v → is_digit c → digits_value (s ++ [c]) = Some (10 * v + (c - 48)).
Proof.
  unfold digits_value, is_digit. intros E Hc. rewrite foldl_app, E. cbn.
  destruct (Z.leb_spec 48 c), (Z.leb_spec c 57); try lia. done.
Qed.

Lemma digits_value_ok fuel n : 0 ≤ n < 10 ^ Z.of_nat fuel → digits_value (digits fuel n) = Some n.
Proof.
  revert n. induction fuel as [|fuel IH]; intros n Hn; cbn [digits].
  - assert (n = 0) as -> by (change (10 ^ Z.of_nat 0) with 1 in Hn; lia). done.
  - destruct (Z.ltb_spec n 10).
    + etransitivity; [apply (digits_value_snoc [] 0 (48 + n)); [done|unfold is_digit; lia]|f_equal; lia].
    + pose proof (Z.mod_pos_bound n 10). rewrite (digits_value_snoc _ (n / 10)).
      * f_equal. rewrite (Z.div_mod n 10) at 3 by lia. lia.
      * apply IH. rewrite Nat2Z.inj_succ, Z.pow_succ_r in Hn by lia.
        split; [apply Z.div_pos; lia|apply Z.div_lt_upper_bound; lia].
      * unfold is_digit. lia.
Qed.

Lemma Atoi_format_d n : is_i64 n → Atoi (format_d n) = Some n.
Proof.
  unfold is_i64. intros Hn. unfold format_d. destruct (Z.ltb_spec n 0).
  - unfold Atoi. rewrite Z.eqb_refl. destruct (digits 19 (- n)) as [|c l] eqn:E; [by apply digits_nonempty in E|].
    rewrite <-E, digits_value_ok by (split; [lia|]; change (10 ^ Z.of_nat 19) with 10000000000000000000; lia).
    cbn. rewrite Z.opp_involutive. destruct (Z.leb_spec (- 2^63) n), (Z.ltb_spec n (2^63)); try lia. done.
  - pose proof (digits_ok 19 n H) as Hd. destruct (digits 19 n) as [|c l] eqn:E; [by apply digits_nonempty in E|].
    unfold Atoi. assert (is_digit c) as Hc by (by inversion Hd). unfold is_digit in Hc.
    destruct (Z.eqb_spec c 45); [lia|]. destruct (Z.eqb_spec c 43); [lia|].
    rewrite <-E, digits_value_ok by (split; [lia|]; change (10 ^ Z.of_nat 19) with 10000000000000000000; lia).
    cbn. destruct (Z.leb_spec (- 2^63) n), (Z.ltb_spec n (2^63)); try lia. done.
Qed.

(** A printed number is a word without a dot. *)
Lemma format_d_word n : word (format_d n) ∧ 46 ∉ format_d n.
Proof.
  assert (∀ m, 0 ≤ m → Forall (λ c, graphic c ∧ c ≠ 46) (digits 19 m)) as H.
  { intros m Hm. eapply Forall_impl; [by apply digits_ok|]. unfold is_digit, graphic. intros; lia. }
  assert (Forall (λ c, graphic c ∧ c ≠ 46) (format_d n)) as Hf.
  { unfold format_d. destruct (Z.ltb_spec n 0); [|by apply H]. constructor; [unfold graphic; lia|]. apply H. lia. }
  apply Forall_and in Hf as [Hg Hd]. split; [split; [|done]|].
  - unfold format_d. case_if; [done|]. by apply digits_nonempty.
  - intros Hin. rewrite Forall_forall in Hd. by apply (Hd 46).
Qed.

(** The helper loops compare slices. *)
Lemma bytesEqual_spec a b : bytesEqual a b = bool_decide (a = b).
Proof.
  unfold bytesEqual. destruct (Z.eqb_spec (Z.of_nat (length a)) (Z.of_nat (length b))) as [E|E]; cbn [negb].
  - apply Nat2Z.inj in E. revert b E. induction a as [|x a IH]; intros [|y b] E; try done. cbn [equal_loop].
    destruct (Z.eqb_spec x y) as [->|Hxy]; cbn [negb].
    + rewrite IH by (simpl in E; lia). apply bool_decide_ext. naive_solver.
    + rewrite bool_decide_false; [done|]. naive_solver.
  - rewrite bool_decide_false; [done|]. by intros ->.
Qed.

Lemma equalBytes_spec a b : equalBytes a b = bool_decide (a = b).
Proof. apply bytesEqual_spec. Qed.
