(* ===== verification/Base64.v ===== *)
(** * Standard base64 with padding (package encoding/base64, StdEncoding)

    The encoding of the challenge and the response of the authentication. The
    decoder skips carriage returns and line feeds and does not check the unused
    bits of the last group, as the package does outside its strict mode. *)
From S2P Require Import Prelude.
#[local] Open Scope Z_scope.

(** ** Definitions *)
Definition b64_char (v : Z) : byte :=
  if v <? 26 then 65 + v
  else if v <? 52 then 97 + (v - 26)
  else if v <? 62 then 48 + (v - 52)
  else if v =? 62 then 43 else 47.

Definition b64_val (c : byte) : option Z :=
  if (65 <=? c) && (c <=? 90) then Some (c - 65)
  else if (97 <=? c) && (c <=? 122) then Some (c - 97 + 26)
  else if (48 <=? c) && (c <=? 57) then Some (c - 48 + 52)
  else if c =? 43 then Some 62
  else if c =? 47 then Some 63
  else None.

Definition b64_pad : byte := 61.

Fixpoint EncodeToString (src : bytes) : bytes :=
  match src with
  | [] => []
  | [a] => [b64_char (a / 4); b64_char (a mod 4 * 16); b64_pad; b64_pad]
  | [a; b] => [b64_char (a / 4); b64_char (a mod 4 * 16 + b / 16); b64_char (b mod 16 * 4); b64_pad]
  | a :: b :: c :: src' =>
      b64_char (a / 4) :: b64_char (a mod 4 * 16 + b / 16) ::
      b64_char (b mod 16 * 4 + c / 64) :: b64_char (c mod 64) :: EncodeToString src'
  end.

(** Groups of four characters; only the last one may be padded. *)
Fixpoint decode_groups (s : bytes) : option bytes :=
  match s with
  | [] => Some []
  | c0 :: c1 :: c2 :: c3 :: s' =>
    v0 ← b64_val c0;
    v1 ← b64_val c1;
    let a := v0 * 4 + v1 / 16 in
    if c2 =? b64_pad then
      if c3 =? b64_pad then match s' with [] => Some [a] | _ => None end else None
    else
      v2 ← b64_val c2;
      let b := v1 mod 16 * 16 + v2 / 4 in
      if c3 =? b64_pad then match s' with [] => Some [a; b] | _ => None end
      else
        v3 ← b64_val c3;
        rest ← decode_groups s';
        Some (a :: b :: v2 mod 4 * 64 + v3 :: rest)
  | _ => None
  end.

Definition is_newline (c : byte) : bool := (c =? 10) || (c =? 13).
Definition DecodeString (s : bytes) : option bytes := decode_groups (List.filter (λ c, negb (is_newline c)) s).

(** ** Decoding what was encoded *)
Lemma b64_val_char v : 0 ≤ v < 64 → b64_val (b64_char v) = Some v.
Proof.
  intros Hv. assert (forallb (λ i, bool_decide (b64_val (b64_char i) = Some i)) (Z.of_nat <$> seq 0 64) = true) as H by by vm_compute.
  rewrite forallb_forall in H. apply (bool_decide_eq_true (b64_val (b64_char v) = Some v)), H, list_elem_of_In, list_elem_of_fmap.
  exists (Z.to_nat v). split; [lia|]. apply elem_of_seq. lia.
Qed.

(** A character of the alphabet is neither the padding, a newline nor a space. *)
Lemma b64_char_graphic v : 0 ≤ v < 64 → 33 ≤ b64_char v ≤ 126 ∧ b64_char v ≠ b64_pad.
Proof.
  intros Hv. assert (forallb (λ i, bool_decide (33 ≤ b64_char i ≤ 126 ∧ b64_char i ≠ b64_pad)) (Z.of_nat <$> seq 0 64) = true) as H by by vm_compute.
  rewrite forallb_forall in H. apply (bool_decide_eq_true (33 ≤ b64_char v ≤ 126 ∧ b64_char v ≠ b64_pad)), H, list_elem_of_In, list_elem_of_fmap.
  exists (Z.to_nat v). split; [lia|]. apply elem_of_seq. lia.
Qed.

Ltac byte_arith := unfold is_byte in *; Z.div_mod_to_equations; lia.

(** Induction three bytes at a time. *)
Lemma by_threes (P : bytes → Prop) :
  P [] → (∀ a, P [a]) → (∀ a b, P [a; b]) → (∀ a b c l, P l → P (a :: b :: c :: l)) → ∀ l, P l.
Proof.
  intros H0 H1 H2 H3. fix IH 1. intros [|a [|b [|c l]]]; [exact H0|apply H1|apply H2|apply H3, IH].
Qed.

Lemma Encode_graphic src : bytes_ok src → Forall (λ c, 33 ≤ c ≤ 126) (EncodeToString src).
Proof.
  induction src as [|a|a b|a b c l IH] using by_threes; intros Hok; cbn [EncodeToString]; [constructor|..];
    repeat (apply Forall_cons in Hok as [? Hok]);
    repeat (constructor; [first [unfold b64_pad; lia|apply b64_char_graphic; byte_arith]|]); auto.
Qed.

Lemma decode_encode src : bytes_ok src → decode_groups (EncodeToString src) = Some src.
Proof.
  assert (∀ v, 0 ≤ v < 64 → (b64_char v =? b64_pad) = false) as Hp.
  { intros v Hv. apply Z.eqb_neq, b64_char_graphic, Hv. }
  induction src as [|a|a b|a b c l IH] using by_threes; intros Hok; [done|..];
    repeat (apply Forall_cons in Hok as [? Hok]); cbn [EncodeToString decode_groups];
    rewrite ?Hp, ?IH, !b64_val_char by (done || byte_arith); cbn; rewrite ?Z.eqb_refl.
  - do 2 f_equal. byte_arith.
  - do 2 f_equal; [byte_arith|]. f_equal. byte_arith.
  - do 2 f_equal; [byte_arith|]. f_equal; [byte_arith|]. f_equal. byte_arith.
Qed.

Lemma DecodeString_Encode src : bytes_ok src → DecodeString (EncodeToString src) = Some src.
Proof.
  intros Hok. unfold DecodeString. rewrite <-(decode_encode src Hok) at 1. f_equal.
  pose proof (Encode_graphic src Hok) as Hg. induction Hg as [|c l Hc _ IH]; cbn [List.filter]; [done|].
  assert (is_newline c = false) as -> by (apply orb_false_iff; split; apply Z.eqb_neq; lia). by rewrite IH.
Qed.
