(* ===== verification/Dialogue.v ===== *)
(** * Two-way connections (io.ReadWriter)

    A connection is a reader and a writer over one world; [Duplex] says they do
    not disturb each other. [dialogue m ins outs v] is the contract of code that
    uses both: given the peer's bytes [ins] it sends exactly [outs], consumes
    exactly [ins] and returns [v]. Two ends of a connection complete an exchange
    when each one's [outs] is the other one's [ins]. *)
From S2P Require Import Prelude.
From S2P Require Import GoIO.
#[local] Open Scope Z_scope.
#[local] Open Scope go_scope.

Class Duplex {S} (r : io_Reader S) (w : io_Writer S) `{!ReaderSpec r} `{!WriterSpec w} := {
  read_keeps_writer s s' : kept r s s' → written w s' = written w s ∧ (writable w s → writable w s');
  write_keeps_reader s s' : untouched w s s' → writable w s' →
    pending r s' = pending r s ∧ fin r s' = fin r s ∧ (readable r s → readable r s');
}.

#[global] Instance conn_duplex : Duplex conn_reader conn_writer.
Proof.
  split; cbn.
  - intros s s' [-> ->]. done.
  - intros s s' [-> ->] _. done.
Qed.

(** Methods of a local object whose final state is kept. *)
Definition on_object {O S A} (o : O) (m : M (O * S) A) : M S (A * O) := λ s,
  match m (o, s) with
  | (Ret a, (o', s')) => (Ret (a, o'), s')
  | (Fail e, (_, s')) => (Fail e, s')
  | (Panic, (_, s')) => (Panic, s')
  | (NoFuel, (_, s')) => (NoFuel, s')
  end.

(** Solves an equation between concatenations. *)
Ltac bytes_eq := rewrite <-?app_assoc, ?app_nil_r; cbn [app]; rewrite <-?app_assoc, ?app_nil_r; reflexivity.

Section dialogue.
Context {S : Type} (r : io_Reader S) (w : io_Writer S) `{!ReaderSpec r} `{!WriterSpec w} `{!Duplex r w}.

(** Good to read [bs] from and to write to. *)
Definition open (s : S) (bs : bytes) : Prop := stream r s bs ∧ writable w s.

Definition dialogue {A} (m : M S A) (ins outs : bytes) (v : A) : Prop :=
  ∀ s rest, open s (ins ++ rest) →
    ∃ s', m s = (Ret v, s') ∧ open s' rest ∧ written w s' = written w s ++ outs ∧ fin r s' = fin r s.

Lemma dialogue_ret {A} (v : A) : dialogue (ret v) [] [] v.
Proof. intros s rest Hs. exists s. by rewrite app_nil_r. Qed.

Lemma dialogue_returned {A} (v : A) : dialogue (λ s, (Ret v, s)) [] [] v.
Proof. apply dialogue_ret. Qed.

Lemma dialogue_parses {A} (m : M S A) bs v : parses r m bs v → dialogue m bs [] v.
Proof.
  intros H s rest [Hs Hw]. destruct (H s rest Hs) as (s' & E & Hs' & Hf & K).
  destruct (read_keeps_writer s s' K) as [Ew Hw']. exists s'.
  rewrite app_nil_r. split_and!; [done|split; auto|done..].
Qed.

Lemma dialogue_yields {A} (m : M S A) bs v : yields w m bs v → dialogue m [] bs v.
Proof.
  intros H s rest [[Hr Hp] Hw]. destruct (H s Hw) as (s' & E & Hw' & Ew & U).
  destruct (write_keeps_reader s s' U Hw') as (Ep & Ef & Hr'). exists s'.
  split_and!; [done| |done..]. split; [|done]. split; [auto|by rewrite Ep].
Qed.

Lemma dialogue_emits (m : M S unit) bs : emits w m bs → dialogue m [] bs tt.
Proof. apply dialogue_yields. Qed.

Lemma dialogue_bind {A B} (m : M S A) (k : A → M S B) i1 o1 v1 i2 o2 v2 :
  dialogue m i1 o1 v1 → dialogue (k v1) i2 o2 v2 → dialogue (bind m k) (i1 ++ i2) (o1 ++ o2) v2.
Proof.
  intros H1 H2 s rest Hs. rewrite <-app_assoc in Hs.
  destruct (H1 s _ Hs) as (s1 & E1 & Hs1 & W1 & F1). destruct (H2 s1 rest Hs1) as (s2 & E2 & Hs2 & W2 & F2).
  exists s2. rewrite (bind_Ret _ _ _ _ _ E1). split_and!; [done|done| |congruence].
  by rewrite W2, W1, <-app_assoc.
Qed.

(** The cases of a step that only reads, only writes, or does neither. *)
Lemma dialogue_read {A B} (m : M S A) (k : A → M S B) bs v1 i2 o2 v2 :
  parses r m bs v1 → dialogue (k v1) i2 o2 v2 → dialogue (bind m k) (bs ++ i2) o2 v2.
Proof. intros H1 H2. by apply (dialogue_bind m k bs [] v1 i2 o2 v2 (dialogue_parses m bs v1 H1)). Qed.

Lemma dialogue_write {B} (m : M S unit) (k : unit → M S B) bs i2 o2 v2 :
  emits w m bs → dialogue (k tt) i2 o2 v2 → dialogue (bind m k) i2 (bs ++ o2) v2.
Proof. intros H1 H2. by apply (dialogue_bind m k [] bs tt i2 o2 v2 (dialogue_emits m bs H1)). Qed.

Lemma dialogue_pure {A B} (k : A → M S B) v i o u : dialogue (k v) i o u → dialogue (bind (λ s, (Ret v, s)) k) i o u.
Proof. apply (dialogue_bind (λ s, (Ret v, s)) k [] [] v). apply dialogue_returned. Qed.

Lemma dialogue_cast {A} (m : M S A) i o v i' o' : dialogue m i o v → i = i' → o = o' → dialogue m i' o' v.
Proof. by intros ? <- <-. Qed.

Lemma dialogue_wrap {A} ctx (m : M S A) i o v : dialogue m i o v → dialogue (wrap ctx m) i o v.
Proof.
  intros H s rest Hs. destruct (H s rest Hs) as (s' & E & ?). exists s'. unfold wrap. by rewrite E.
Qed.

(** The methods of an object [o] that the call leaves as [o']. *)
Definition talks {O A} (m : M (O * S) A) (o : O) (ins outs : bytes) (v : A) (o' : O) : Prop :=
  dialogue (on_object o m) ins outs (v, o').

Lemma talks_ret {O A} (o : O) (v : A) : talks (ret v) o [] [] v o.
Proof. apply (dialogue_ret (v, o)). Qed.

Lemma talks_reads {O A} (m : M (O * S) A) (o o' : O) bs v : reads r m o bs v o' → talks m o bs [] v o'.
Proof.
  intros H. apply dialogue_parses. intros s rest Hs. destruct (H s rest Hs) as (s' & E & C).
  exists s'. unfold on_object. by rewrite E.
Qed.

Lemma talks_writes {O} (m : M (O * S) unit) (o o' : O) bs : writes w m o bs o' → talks m o [] bs tt o'.
Proof.
  intros H. apply dialogue_yields. intros s Hs. destruct (H s Hs) as (s' & E & C).
  exists s'. unfold on_object. by rewrite E.
Qed.

Lemma talks_lift {O A} (m : M S A) (o : O) i x v : dialogue m i x v → talks (lift m) o i x v o.
Proof.
  intros H s rest Hs. destruct (H s rest Hs) as (s' & E & C). exists s'. split; [|done].
  unfold on_object, lift. by rewrite E.
Qed.

Lemma talks_bind {O A B} (m : M (O * S) A) (k : A → M (O * S) B) (o o1 o2 : O) i1 x1 v1 i2 x2 v2 :
  talks m o i1 x1 v1 o1 → talks (k v1) o1 i2 x2 v2 o2 → talks (bind m k) o (i1 ++ i2) (x1 ++ x2) v2 o2.
Proof.
  intros H1 H2 s rest Hs. rewrite <-app_assoc in Hs.
  destruct (H1 s _ Hs) as (s1 & E1 & Hs1 & W1 & F1). destruct (H2 s1 rest Hs1) as (s2 & E2 & Hs2 & W2 & F2).
  exists s2. split_and!; [|done| |congruence].
  - unfold on_object in *. destruct (m (o, s)) as [[] [??]] eqn:E; simplify_eq. by rewrite (bind_Ret _ _ _ _ _ E).
  - by rewrite W2, W1, <-app_assoc.
Qed.

Lemma talks_get {O B} (k : O → M (O * S) B) (o o' : O) i x v : talks (k o) o i x v o' → talks (bind get k) o i x v o'.
Proof. intros H. exact H. Qed.

Lemma talks_cast {O A} (m : M (O * S) A) (o o' : O) i x v i' x' :
  talks m o i x v o' → i = i' → x = x' → talks m o i' x' v o'.
Proof. by intros ? <- <-. Qed.

Lemma talks_wrap {O A} ctx (m : M (O * S) A) (o o' : O) i x v : talks m o i x v o' → talks (wrap ctx m) o i x v o'.
Proof.
  intros H s rest Hs. destruct (H s rest Hs) as (s' & E & C). exists s'. split; [|done].
  unfold on_object, wrap in *. destruct (m (o, s)) as [[] [??]]; by simplify_eq.
Qed.
End dialogue.
