(* ===== verification/Pipe.v ===== *)
(** * The in-memory connection (pipe.go)

    A pipeBuf is one direction of BufPipe: a bounded FIFO under a mutex with a
    condition variable. A call holds the mutex except while it is parked in
    cond.Wait, so what it does between two waits is one atomic step [crit]; a
    Broadcast makes every parked call ready to take the mutex and test its
    condition again. [step] interleaves any number of calls; [flow] is a writer
    that makes its calls one after the other and then closes, against a reader
    that reads until the end. *)
From S2P Require Import Prelude.
From S2P Require Import GoIO.
#[local] Open Scope Z_scope.
#[local] Open Scope go_scope.

(** ** Definitions *)
Definition defaultPipeSize : Z := 32 * 1024.

Record pipeBuf := mk_pipeBuf { pb_buf : bytes; pb_cap : Z; pb_closed : bool }.
Definition newPipeBuf (cap : Z) : pipeBuf := mk_pipeBuf [] cap false.
Definition buf_len (b : pipeBuf) : Z := Z.of_nat (length b.(pb_buf)).

(** A call in progress, at the test of its wait loop: Write with the rest of its
    argument and the count so far, Read with the length of its argument. *)
Inductive call :=
  | WriteCall (p : bytes) (total : Z)
  | ReadCall (n : nat)
  | CloseCall.

Inductive result :=
  | WriteResult (n : Z) (err : option error)
  | ReadResult (data : bytes) (err : option error)
  | CloseResult.

(** What a call does until it waits ([inl]: parked with what is left of it) or
    returns, and whether it broadcast on the way. *)
Record critical := mk_critical { c_buf : pipeBuf; c_broadcast : bool; c_next : call + result }.

(** The loop of Write; a round that does not wait takes at least one byte, so the
    length of [p] bounds the rounds. *)
Fixpoint write_loop (fuel : nat) (b : pipeBuf) (p : bytes) (total : Z) (bc : bool) : critical :=
  if negb (0 <? Z.of_nat (length p)) then mk_critical b bc (inr (WriteResult total None))
  else if (b.(pb_cap) <=? buf_len b) && negb b.(pb_closed) then mk_critical b bc (inl (WriteCall p total))
  else if b.(pb_closed) then mk_critical b bc (inr (WriteResult total (Some ErrClosedPipe)))
  else match fuel with
  | O => mk_critical b bc (inl (WriteCall p total))
  | Datatypes.S fuel' =>
    let space := b.(pb_cap) - buf_len b in
    let n := if space <? Z.of_nat (length p) then space else Z.of_nat (length p) in
    write_loop fuel' (mk_pipeBuf (b.(pb_buf) ++ take (Z.to_nat n) p) b.(pb_cap) b.(pb_closed))
      (drop (Z.to_nat n) p) (total + n) true
  end.

Definition pipe_write (b : pipeBuf) (p : bytes) (total : Z) : critical := write_loop (length p) b p total false.

Definition pipe_read (b : pipeBuf) (n : nat) : critical :=
  if (buf_len b =? 0) && negb b.(pb_closed) then mk_critical b false (inl (ReadCall n))
  else if buf_len b =? 0 then mk_critical b false (inr (ReadResult [] (Some EOF)))
  else mk_critical (mk_pipeBuf (drop n b.(pb_buf)) b.(pb_cap) b.(pb_closed)) true (inr (ReadResult (take n b.(pb_buf)) None)).

Definition pipe_close (b : pipeBuf) : critical :=
  if b.(pb_closed) then mk_critical b false (inr CloseResult)
  else mk_critical (mk_pipeBuf b.(pb_buf) b.(pb_cap) true) true (inr CloseResult).

Definition crit (c : call) (b : pipeBuf) : critical :=
  match c with
  | WriteCall p total => pipe_write b p total
  | ReadCall n => pipe_read b n
  | CloseCall => pipe_close b
  end.

(** The bytes a call moved into the buffer, and out of it. *)
Definition accepted (c : call) (k : critical) : bytes :=
  match c, k.(c_next) with
  | WriteCall p total, inl (WriteCall _ total') => take (Z.to_nat (total' - total)) p
  | WriteCall p total, inr (WriteResult total' _) => take (Z.to_nat (total' - total)) p
  | _, _ => []
  end.
Definition delivered (k : critical) : bytes :=
  match k.(c_next) with inr (ReadResult data _) => data | _ => [] end.

(** ** Any number of concurrent calls *)
Inductive status := Ready (c : call) | Parked (c : call) | Returned (r : result).

(** A call as it was made, and where it is now. *)
Record thread := mk_thread { th_made : call; th_status : status }.

Definition wake (t : thread) : thread :=
  match t.(th_status) with Parked c => mk_thread t.(th_made) (Ready c) | _ => t end.

Record chan := mk_chan { ch_buf : pipeBuf; ch_threads : list thread }.

Definition after (k : critical) : status := match k.(c_next) with inl c => Parked c | inr r => Returned r end.

(** The state after the ready call [c] of thread [i], made as [made], ran. *)
Definition run_thread (i : nat) (made c : call) (s : chan) : chan :=
  let k := crit c s.(ch_buf) in
  let others := if k.(c_broadcast) then wake <$> s.(ch_threads) else s.(ch_threads) in
  mk_chan k.(c_buf) (<[i := mk_thread made (after k)]> others).

(** A call when it is made. *)
Definition fresh (c : call) : Prop := match c with WriteCall _ total => total = 0 | _ => True end.

(** One step, with the bytes it takes in and hands out. *)
Inductive step : chan → bytes → bytes → chan → Prop :=
  | step_call c s : fresh c → step s [] [] (mk_chan s.(ch_buf) (s.(ch_threads) ++ [mk_thread c (Ready c)]))
  | step_run i made c s : s.(ch_threads) !! i = Some (mk_thread made (Ready c)) →
      step s (accepted c (crit c s.(ch_buf))) (delivered (crit c s.(ch_buf))) (run_thread i made c s).

Inductive run : chan → bytes → bytes → chan → Prop :=
  | run_nil s : run s [] [] s
  | run_step s1 i1 o1 s2 i2 o2 s3 : run s1 i1 o1 s2 → step s2 i2 o2 s3 → run s1 (i1 ++ i2) (o1 ++ o2) s3.

(** ** Both directions *)
Record bufPipe := mk_bufPipe { a2b : pipeBuf; b2a : pipeBuf }.
Definition BufPipe : bufPipe := mk_bufPipe (newPipeBuf defaultPipeSize) (newPipeBuf defaultPipeSize).

(** Close on end A: the direction it writes first, then the one it reads. *)
Definition close_buf (b : pipeBuf) : pipeBuf := c_buf (pipe_close b).
Definition pipeConn_Close_a (p : bufPipe) : bufPipe := let p := mk_bufPipe (close_buf p.(a2b)) p.(b2a) in mk_bufPipe p.(a2b) (close_buf p.(b2a)).
Definition pipeConn_Close_b (p : bufPipe) : bufPipe := let p := mk_bufPipe p.(a2b) (close_buf p.(b2a)) in mk_bufPipe (close_buf p.(a2b)) p.(b2a).

(** ** One step under the mutex *)
Definition pipe_ok (b : pipeBuf) : Prop := 0 < b.(pb_cap) ∧ buf_len b ≤ b.(pb_cap).

Lemma write_loop_nil f b total bc : write_loop f b [] total bc = mk_critical b bc (inr (WriteResult total None)).
Proof. by destruct f. Qed.

Lemma write_loop_full f b p total bc : p ≠ [] → b.(pb_cap) ≤ buf_len b → b.(pb_closed) = false →
  write_loop f b p total bc = mk_critical b bc (inl (WriteCall p total)).
Proof.
  intros Hp Hf Ho. destruct p as [|x p]; [done|]. apply Z.leb_le in Hf. destruct f; cbn [write_loop]; by rewrite Hf, Ho.
Qed.

Lemma write_loop_room f b p total bc : p ≠ [] → buf_len b < b.(pb_cap) → b.(pb_closed) = false →
  let n := Z.to_nat (Z.min (b.(pb_cap) - buf_len b) (Z.of_nat (length p))) in
  write_loop (Datatypes.S f) b p total bc =
    write_loop f (mk_pipeBuf (b.(pb_buf) ++ take n p) b.(pb_cap) false) (drop n p) (total + Z.of_nat n) true.
Proof.
  intros Hp Hf Ho. cbv zeta. set (m := Z.min _ _).
  assert (0 < Z.of_nat (length p)) as Hl by (destruct p; simpl; lia || done).
  cbn [write_loop]. rewrite Ho. replace (0 <? Z.of_nat (length p)) with true by lia. replace (pb_cap b <=? buf_len b) with false by lia.
  cbn [negb andb]. assert ((if pb_cap b - buf_len b <? Z.of_nat (length p) then pb_cap b - buf_len b else Z.of_nat (length p)) = m) as ->.
  { unfold m. destruct (Z.ltb_spec (pb_cap b - buf_len b) (Z.of_nat (length p))); lia. }
  by rewrite Z2Nat.id by lia.
Qed.

(** An open pipe takes what fits, and the call waits for the rest. *)
Lemma pipe_write_open b p total : pipe_ok b → b.(pb_closed) = false →
  let n := Z.to_nat (Z.min (b.(pb_cap) - buf_len b) (Z.of_nat (length p))) in
  pipe_write b p total =
    mk_critical (mk_pipeBuf (b.(pb_buf) ++ take n p) b.(pb_cap) false) (bool_decide (0 < n)%nat)
      (match drop n p with [] => inr (WriteResult (total + Z.of_nat n) None) | p' => inl (WriteCall p' (total + Z.of_nat n)) end).
Proof.
  intros [Hc Hl] Ho. cbv zeta. set (n := Z.to_nat _). unfold pipe_write.
  assert (p = [] ∨ buf_len b = pb_cap b → n = 0%nat) as Hz by (intros [->| ]; simpl in *; lia).
  assert (mk_pipeBuf (pb_buf b ++ []) (pb_cap b) false = b) as Hb by (rewrite app_nil_r; destruct b; cbn in *; congruence).
  destruct (decide (p = [])) as [->|Hp].
  { rewrite (Hz (or_introl eq_refl)), write_loop_nil, Z.add_0_r, take_0, Hb. done. }
  destruct (decide (buf_len b = pb_cap b)) as [E|NE].
  { rewrite (Hz (or_intror E)), write_loop_full, Z.add_0_r, take_0, Hb by (done || lia). by destruct p. }
  assert (0 < n)%nat by (unfold n; destruct p; simpl; lia || done).
  rewrite bool_decide_true by done.
  destruct (length p) as [|f] eqn:El; [by destruct p|]. rewrite write_loop_room by (done || lia). cbv zeta. rewrite El. fold n.
  destruct (drop n p) as [|y q] eqn:Eq; [by rewrite write_loop_nil|].
  apply write_loop_full; [done| |done]. unfold buf_len in *. cbn. rewrite length_app, length_take.
  assert (n < length p)%nat by (apply (f_equal length) in Eq; rewrite length_drop in Eq; simpl in Eq; lia). lia.
Qed.

Lemma pipe_write_closed b p total : b.(pb_closed) = true →
  pipe_write b p total =
    mk_critical b false (inr (WriteResult total (match p with [] => None | _ => Some ErrClosedPipe end))).
Proof.
  intros Hc. unfold pipe_write. destruct p as [|x p]; [by rewrite write_loop_nil|].
  cbn [length write_loop]. rewrite Hc. cbn [negb andb]. by rewrite andb_false_r.
Qed.

(** ** The invariant of concurrent calls *)

(** Where a call can be. A parked one still has every reason to wait, so no
    wake-up was lost. *)
Inductive thread_ok (b : pipeBuf) : thread → Prop :=
  | ok_write_ready p n : (n ≤ length p)%nat →
      thread_ok b (mk_thread (WriteCall p 0) (Ready (WriteCall (drop n p) (Z.of_nat n))))
  | ok_write_parked p n : (n < length p)%nat → buf_len b = b.(pb_cap) → b.(pb_closed) = false →
      thread_ok b (mk_thread (WriteCall p 0) (Parked (WriteCall (drop n p) (Z.of_nat n))))
  | ok_write_done p :
      thread_ok b (mk_thread (WriteCall p 0) (Returned (WriteResult (Z.of_nat (length p)) None)))
  | ok_write_closed p n : (n < length p)%nat → b.(pb_closed) = true →
      thread_ok b (mk_thread (WriteCall p 0) (Returned (WriteResult (Z.of_nat n) (Some ErrClosedPipe))))
  | ok_read_ready n : thread_ok b (mk_thread (ReadCall n) (Ready (ReadCall n)))
  | ok_read_parked n : b.(pb_buf) = [] → b.(pb_closed) = false →
      thread_ok b (mk_thread (ReadCall n) (Parked (ReadCall n)))
  | ok_read_data n data : (length data ≤ n)%nat → (data = [] → n = 0%nat) →
      thread_ok b (mk_thread (ReadCall n) (Returned (ReadResult data None)))
  | ok_read_end n : b.(pb_closed) = true →
      thread_ok b (mk_thread (ReadCall n) (Returned (ReadResult [] (Some EOF))))
  | ok_close_ready : thread_ok b (mk_thread CloseCall (Ready CloseCall))
  | ok_close_done : b.(pb_closed) = true → thread_ok b (mk_thread CloseCall (Returned CloseResult)).
#[local] Hint Constructors thread_ok : core.

Definition chan_ok (s : chan) : Prop := pipe_ok s.(ch_buf) ∧ Forall (thread_ok s.(ch_buf)) s.(ch_threads).

(** What one step does to the pipe. *)
Record crit_spec (made c : call) (b : pipeBuf) (k : critical) : Prop := {
  cs_ok : pipe_ok k.(c_buf);
  cs_cap : k.(c_buf).(pb_cap) = b.(pb_cap);
  cs_closed : b.(pb_closed) = true → k.(c_buf).(pb_closed) = true;
  cs_thread : thread_ok k.(c_buf) (mk_thread made (after k));
  cs_bytes : b.(pb_buf) ++ accepted c k = delivered k ++ k.(c_buf).(pb_buf);
  cs_quiet : k.(c_broadcast) = false → k.(c_buf) = b;
}.

Lemma write_spec p n b : pipe_ok b → (n ≤ length p)%nat →
  crit_spec (WriteCall p 0) (WriteCall (drop n p) (Z.of_nat n)) b (pipe_write b (drop n p) (Z.of_nat n)).
Proof.
  intros Hok Hn. pose proof Hok as [Hc Hl]. destruct (pb_closed b) eqn:Hcl.
  - rewrite pipe_write_closed by done.
    assert (accepted (WriteCall (drop n p) (Z.of_nat n))
              (mk_critical b false (inr (WriteResult (Z.of_nat n) match drop n p with [] => None | _ => Some ErrClosedPipe end))) = []) as Ea.
    { cbn. by rewrite Z.sub_diag. }
    split; try done; [|by rewrite Ea, app_nil_r].
    unfold after; cbn. destruct (drop n p) eqn:E.
    + assert (n = length p) as -> by (apply (f_equal length) in E; rewrite length_drop in E; simpl in E; lia). done.
    + constructor; [|done]. apply (f_equal length) in E. rewrite length_drop in E. simpl in E. lia.
  - rewrite pipe_write_open by done. set (m := Z.to_nat _).
    assert (Z.of_nat m = Z.min (pb_cap b - buf_len b) (Z.of_nat (length p - n))) as Hm by (rewrite <-length_drop; lia).
    clearbody m.
    split; cbn.
    + split; [done|]. unfold buf_len in *. cbn. rewrite length_app, length_take, length_drop. lia.
    + done.
    + congruence.
    + unfold after; cbn. destruct (drop m (drop n p)) as [|y q] eqn:E.
      * rewrite drop_drop in E. apply (f_equal length) in E. rewrite length_drop in E. simpl in E.
        replace (Z.of_nat n + Z.of_nat m) with (Z.of_nat (length p)) by lia. done.
      * rewrite <-E, drop_drop. replace (Z.of_nat n + Z.of_nat m) with (Z.of_nat (n + m)) by lia.
        apply (f_equal length) in E. rewrite !length_drop in E. simpl in E.
        apply ok_write_parked; [lia| |done]. unfold buf_len in *; cbn. rewrite length_app, length_take, length_drop. lia.
    + unfold accepted, delivered; cbn. replace (Z.of_nat n + Z.of_nat m - Z.of_nat n) with (Z.of_nat m) by lia.
      destruct (drop m (drop n p)); cbn; by rewrite ?Nat2Z.id, ?Z.add_simpl_l, ?Nat2Z.id.
    + intros Hz%bool_decide_eq_false. replace m with 0%nat by lia. rewrite take_0, app_nil_r. destruct b; cbn in *; congruence.
Qed.

Lemma read_spec n b : pipe_ok b → crit_spec (ReadCall n) (ReadCall n) b (pipe_read b n).
Proof.
  intros Hok. unfold pipe_read. destruct (Z.eqb_spec (buf_len b) 0) as [E|E].
  - assert (pb_buf b = []) as Eb by (unfold buf_len in E; destruct (pb_buf b); simpl in E; [done|lia]).
    destruct (pb_closed b) eqn:Hcl; split; try done; unfold after; cbn; auto; by rewrite Eb.
  - split; try done; unfold after; cbn.
    + destruct Hok as [? Hl]. split; [done|]. unfold buf_len in *. cbn. rewrite length_drop. lia.
    + constructor; [rewrite length_take; lia|]. intros Ht. apply (f_equal length) in Ht. rewrite length_take in Ht.
      unfold buf_len in E. simpl in Ht. lia.
    + by rewrite app_nil_r, take_drop.
Qed.

Lemma crit_ok made c b : pipe_ok b → thread_ok b (mk_thread made (Ready c)) → crit_spec made c b (crit c b).
Proof.
  intros Hok Ht. inversion Ht; subst; cbn [crit]; [by apply write_spec|by apply read_spec|].
  unfold pipe_close. destruct (pb_closed b) eqn:Hcl; split; try done; unfold after; cbn; auto; by rewrite app_nil_r.
Qed.

(** Calls that are not parked only depend on the pipe being closed. *)
Lemma thread_ok_wake b b' t : (b.(pb_closed) = true → b'.(pb_closed) = true) → thread_ok b t → thread_ok b' (wake t).
Proof. intros Hc Ht. destruct Ht; cbn; auto. apply ok_write_ready. lia. Qed.

Lemma run_thread_ok i made c s : chan_ok s → s.(ch_threads) !! i = Some (mk_thread made (Ready c)) → chan_ok (run_thread i made c s).
Proof.
  intros [Hok Hth] Hi. pose proof (crit_ok made c _ Hok (Forall_lookup_1 _ _ _ _ Hth Hi)) as [H1 _ H2 H3 _ H5].
  split; [done|]. cbn. apply Forall_insert; [|done].
  destruct (c_broadcast (crit c (ch_buf s))); [|by rewrite H5].
  apply Forall_fmap. eapply Forall_impl; [exact Hth|]. intros t Ht. by apply (thread_ok_wake (ch_buf s)).
Qed.

Lemma run_ok cap ins outs s : 0 < cap → run (mk_chan (newPipeBuf cap) []) ins outs s →
  chan_ok s ∧ s.(ch_buf).(pb_cap) = cap ∧ ins = outs ++ s.(ch_buf).(pb_buf).
Proof.
  intros Hcap Hrun. remember (mk_chan (newPipeBuf cap) []) as s0 eqn:E0. induction Hrun as [s|s1 i1 o1 s2 i2 o2 s3 _ IH Hst]; subst.
  - split; [|done]. split; [by split; [|unfold buf_len; simpl; lia]|]. constructor.
  - destruct (IH eq_refl) as ([Hok Hth] & Hc & ->). destruct Hst as [c s Hf|i made c s Hi].
    + rewrite !app_nil_r. split; [|done]. split; [done|]. apply Forall_app. split; [done|]. constructor; [|constructor].
      destruct c as [p t| |]; cbn in Hf; subst; [|constructor..]. apply (ok_write_ready _ p 0). lia.
    + pose proof (crit_ok made c _ Hok (Forall_lookup_1 _ _ _ _ Hth Hi)) as Hk.
      split_and!; [by apply run_thread_ok|by rewrite <-Hc; apply (cs_cap _ _ _ _ Hk)|].
      by rewrite <-!app_assoc, (cs_bytes _ _ _ _ Hk).
Qed.

(** C4: The pipe is a bounded FIFO under any interleaving of any number of
    calls: what readers were given so far, followed by the buffer, is exactly what
    writers put in, in order; the buffer never exceeds its capacity; a Write that
    returns without an error has put in all its bytes, one that fails was cut by
    a Close and reports the count it put in, a Read without an error returned
    data (unless asked for none), io.EOF means closed; and a call that is parked
    in cond.Wait still has its reason to wait. *)
Theorem pipe_fifo cap ins outs s : 0 < cap → run (mk_chan (newPipeBuf cap) []) ins outs s →
  ins = outs ++ s.(ch_buf).(pb_buf) ∧ buf_len s.(ch_buf) ≤ cap ∧ Forall (thread_ok s.(ch_buf)) s.(ch_threads).
Proof. intros Hcap Hrun. destruct (run_ok cap ins outs s Hcap Hrun) as ([[_ ?] ?] & <- & ?). done. Qed.

(** Two calls on an example: a write larger than the buffer, and a read. *)
Definition example_chan : chan :=
  run_thread 1 (ReadCall 2) (ReadCall 2) (run_thread 0 (WriteCall [1; 2; 3; 4; 5] 0) (WriteCall [1; 2; 3; 4; 5] 0)
    (mk_chan (newPipeBuf 4) [mk_thread (WriteCall [1; 2; 3; 4; 5] 0) (Ready (WriteCall [1; 2; 3; 4; 5] 0));
                             mk_thread (ReadCall 2) (Ready (ReadCall 2))])).

Lemma example_run : run (mk_chan (newPipeBuf 4) []) [1; 2; 3; 4] [1; 2] example_chan.
Proof.
  eapply (run_step _ [1; 2; 3; 4] [] _ [] [1; 2]); [eapply (run_step _ [] [] _ [1; 2; 3; 4] [])|];
    [eapply (run_step _ [] [] _ [] []); [eapply (run_step _ [] [] _ [] []); [apply run_nil|]|]| |].
  - by apply (step_call (WriteCall [1; 2; 3; 4; 5] 0)).
  - by apply (step_call (ReadCall 2)).
  - by apply (step_run 0 (WriteCall [1; 2; 3; 4; 5] 0) (WriteCall [1; 2; 3; 4; 5] 0)).
  - by apply (step_run 1 (ReadCall 2) (ReadCall 2)).
Qed.

Lemma pipe_fifo_witness : example_chan.(ch_buf).(pb_buf) = [3; 4] ∧
  [1; 2; 3; 4] = [1; 2] ++ example_chan.(ch_buf).(pb_buf) ∧ buf_len example_chan.(ch_buf) ≤ 4 ∧
  Forall (thread_ok example_chan.(ch_buf)) example_chan.(ch_threads).
Proof. split; [done|]. apply (pipe_fifo 4); [lia|]. exact example_run. Defined.

(** C5: No deadlock on the pipe. When no call can take the mutex, either every
    call has returned, or the pipe is open and full and all that wait are Writes,
    or it is open and empty and all that wait are Reads; after a Close no call
    waits. *)
Theorem pipe_no_deadlock cap ins outs s : 0 < cap → run (mk_chan (newPipeBuf cap) []) ins outs s →
  (∀ i made c, s.(ch_threads) !! i ≠ Some (mk_thread made (Ready c))) →
  let waits (t : thread) := match t.(th_status) with Returned _ => false | _ => true end in
  Forall (λ t, waits t = false) s.(ch_threads) ∨
  (s.(ch_buf).(pb_closed) = false ∧ buf_len s.(ch_buf) = cap ∧
     Forall (λ t, waits t = true → ∃ p, t.(th_made) = WriteCall p 0) s.(ch_threads)) ∨
  (s.(ch_buf).(pb_closed) = false ∧ s.(ch_buf).(pb_buf) = [] ∧
     Forall (λ t, waits t = true → ∃ n, t.(th_made) = ReadCall n) s.(ch_threads)).
Proof.
  intros Hcap Hrun Hready waits. destruct (run_ok cap ins outs s Hcap Hrun) as ([Hok Hth] & <- & _).
  assert (∀ t, t ∈ s.(ch_threads) → ∀ c, th_status t ≠ Ready c) as Hnr.
  { intros [made st] [i Hi]%list_elem_of_lookup c Es. cbn in Es. subst. by apply (Hready i made c). }
  destruct (decide (Forall (λ t, waits t = false) s.(ch_threads))) as [|Hex%not_Forall_Exists]; [by left| |apply _].
  apply Exists_exists in Hex as (t & Ht & Hw). right. rewrite Forall_forall in Hth.
  pose proof (Hth t Ht) as Hto.
  destruct Hto as [|p n Hn Hfull Ho| | | |n Hemp Ho| | | |]; try (by destruct (Hnr _ Ht _ eq_refl)); try (by destruct Hw).
  - left. split_and!; [done|done|]. apply Forall_forall. intros t' Ht' Hw'.
    destruct (Hth t' Ht') as [| | | | |? Hemp| | | |]; try (by destruct (Hnr _ Ht' _ eq_refl)); try done; [by eexists|].
    unfold buf_len in Hfull. rewrite Hemp in Hfull. simpl in Hfull. lia.
  - right. split_and!; [done|done|]. apply Forall_forall. intros t' Ht' Hw'.
    destruct (Hth t' Ht') as [|? ? ? Hfull| | | | | | | |]; try (by destruct (Hnr _ Ht' _ eq_refl)); try done; [|by eexists].
    unfold buf_len in Hfull. rewrite Hemp in Hfull. simpl in Hfull. lia.
Qed.

Lemma pipe_no_deadlock_witness :
  let made := WriteCall [1; 2; 3] 0 in
  let s := run_thread 0 made made (mk_chan (newPipeBuf 2) [mk_thread made (Ready made)]) in
  let waits (t : thread) := match t.(th_status) with Returned _ => false | _ => true end in
  Forall (λ t, waits t = false) s.(ch_threads) ∨
  (s.(ch_buf).(pb_closed) = false ∧ buf_len s.(ch_buf) = 2 ∧
     Forall (λ t, waits t = true → ∃ p, t.(th_made) = WriteCall p 0) s.(ch_threads)) ∨
  (s.(ch_buf).(pb_closed) = false ∧ s.(ch_buf).(pb_buf) = [] ∧
     Forall (λ t, waits t = true → ∃ n, t.(th_made) = ReadCall n) s.(ch_threads)).
Proof.
  intros made s. apply (pipe_no_deadlock 2 [1; 2] []).
  - lia.
  - eapply (run_step _ [] [] _ [1; 2] []); [eapply (run_step _ [] [] _ [] []); [apply run_nil|]|].
    + by apply (step_call made).
    + by apply (step_run 0 made made).
  - intros [|[|i]] made' c; vm_compute; congruence.
Defined.

(** ** A writer and a reader *)

(** The writer has the Writes of [fl_todo] still to make, then a Close; the reader
    reads [n] bytes at a time into [fl_got] until a Read fails. *)
Record flow := mk_flow { fl_buf : pipeBuf; fl_todo : list bytes; fl_w : status; fl_got : bytes; fl_r : status }.

Definition next_write (todo : list bytes) : list bytes * status :=
  match todo with
  | p :: todo' => (todo', Ready (WriteCall p 0))
  | [] => ([], Ready CloseCall)
  end.
Definition wake_status (bc : bool) (st : status) : status :=
  match st with Parked c => if bc then Ready c else Parked c | _ => st end.

Definition flow_start (cap : Z) (n : nat) (ps : list bytes) : flow :=
  let '(todo, st) := next_write ps in mk_flow (newPipeBuf cap) todo st [] (Ready (ReadCall n)).

Definition writer_runs (c : call) (f : flow) : flow :=
  let k := crit c f.(fl_buf) in
  let '(todo, st) := match k.(c_next) with
                     | inl c' => (f.(fl_todo), Parked c')
                     | inr (WriteResult _ None) => next_write f.(fl_todo)
                     | inr r => (f.(fl_todo), Returned r)
                     end in
  mk_flow k.(c_buf) todo st f.(fl_got) (wake_status k.(c_broadcast) f.(fl_r)).

Definition reader_runs (n : nat) (c : call) (f : flow) : flow :=
  let k := crit c f.(fl_buf) in
  let st := match k.(c_next) with
            | inl c' => Parked c'
            | inr (ReadResult _ None) => Ready (ReadCall n)
            | inr r => Returned r
            end in
  mk_flow k.(c_buf) f.(fl_todo) (wake_status k.(c_broadcast) f.(fl_w)) (f.(fl_got) ++ delivered k) st.

Inductive flow_step (n : nat) : flow → flow → Prop :=
  | flow_writer c f : f.(fl_w) = Ready c → flow_step n f (writer_runs c f)
  | flow_reader c f : f.(fl_r) = Ready c → flow_step n f (reader_runs n c f).

(** What the writer still has to put in. *)
Definition w_rest (st : status) : bytes :=
  match st with Ready (WriteCall p _) | Parked (WriteCall p _) => p | _ => [] end.
Definition to_push (f : flow) : bytes := w_rest f.(fl_w) ++ concat f.(fl_todo).

Inductive writer_ok (f : flow) : Prop :=
  | w_ready p t : f.(fl_w) = Ready (WriteCall p t) → f.(fl_buf).(pb_closed) = false → writer_ok f
  | w_parked p t : f.(fl_w) = Parked (WriteCall p t) → buf_len f.(fl_buf) = f.(fl_buf).(pb_cap) →
      f.(fl_buf).(pb_closed) = false → p ≠ [] → writer_ok f
  | w_closing : f.(fl_w) = Ready CloseCall → f.(fl_todo) = [] → f.(fl_buf).(pb_closed) = false → writer_ok f
  | w_closed : f.(fl_w) = Returned CloseResult → f.(fl_todo) = [] → f.(fl_buf).(pb_closed) = true → writer_ok f.

Inductive reader_ok (n : nat) (f : flow) : Prop :=
  | r_ready : f.(fl_r) = Ready (ReadCall n) → reader_ok n f
  | r_parked : f.(fl_r) = Parked (ReadCall n) → f.(fl_buf).(pb_buf) = [] → f.(fl_buf).(pb_closed) = false → reader_ok n f
  | r_end : f.(fl_r) = Returned (ReadResult [] (Some EOF)) → f.(fl_buf).(pb_buf) = [] →
      f.(fl_buf).(pb_closed) = true → reader_ok n f.

Record flow_ok (n : nat) (ps : list bytes) (f : flow) : Prop := {
  fo_pipe : pipe_ok f.(fl_buf);
  fo_bytes : f.(fl_got) ++ f.(fl_buf).(pb_buf) ++ to_push f = concat ps;
  fo_writer : writer_ok f;
  fo_reader : reader_ok n f;
}.

(** Every step makes this smaller. *)
Definition ready_rank (st : status) : nat := match st with Ready _ => 1 | _ => 0 end.
Definition call_rank (st : status) : nat :=
  match st with Ready (WriteCall _ _) | Parked (WriteCall _ _) => 2 | Ready CloseCall | Parked CloseCall => 1 | _ => 0 end.
Definition flow_rank (f : flow) : nat :=
  (4 * (2 * length (to_push f) + length f.(fl_buf).(pb_buf)) + 2 * (length f.(fl_todo) + call_rank f.(fl_w))
   + ready_rank f.(fl_w) + ready_rank f.(fl_r))%nat.

(** The reader after the other side changed the pipe. *)
Lemma reader_woken n f b todo st bc : reader_ok n f → f.(fl_buf).(pb_closed) = false →
  (bc = false → b = f.(fl_buf)) → reader_ok n (mk_flow b todo st f.(fl_got) (wake_status bc f.(fl_r))).
Proof.
  intros Hr Ho Hb. destruct Hr as [E|E He Hc|E He Hc]; [apply r_ready; cbn; by rewrite E| |congruence].
  destruct bc; cbn; [apply r_ready; cbn; by rewrite E|]. rewrite (Hb eq_refl). by apply r_parked; cbn; rewrite ?E.
Qed.

Lemma wake_rank bc st : (ready_rank (wake_status bc st) ≤ ready_rank st + if bc then 1 else 0)%nat.
Proof. destruct st, bc; simpl; lia. Qed.

Lemma call_wake bc st : call_rank (wake_status bc st) = call_rank st ∧ w_rest (wake_status bc st) = w_rest st.
Proof. by destruct st as [|[]|], bc. Qed.

#[local] Arguments wake_status : simpl never.

Lemma next_write_ok b todo got r : b.(pb_closed) = false → let '(todo', st) := next_write todo in
  writer_ok (mk_flow b todo' st got r) ∧ w_rest st ++ concat todo' = concat todo ∧
  ready_rank st = 1%nat ∧ (length todo' + call_rank st = length todo + 1)%nat.
Proof.
  intros Ho. destruct todo as [|p todo]; cbn; (split_and!; [|done|done|lia]); [by apply w_closing|by eapply w_ready].
Qed.

Lemma flow_write_step n ps p t f : flow_ok n ps f → f.(fl_w) = Ready (WriteCall p t) → f.(fl_buf).(pb_closed) = false →
  flow_ok n ps (writer_runs (WriteCall p t) f) ∧ (flow_rank (writer_runs (WriteCall p t) f) < flow_rank f)%nat.
Proof.
  intros [Hok Hb _ Hr] Ew Ho. unfold writer_runs. cbn [crit]. rewrite pipe_write_open by done. set (m := Z.to_nat _).
  assert (Z.of_nat m = Z.min (pb_cap (fl_buf f) - buf_len (fl_buf f)) (Z.of_nat (length p))) as Hm by (destruct Hok; lia).
  clearbody m. unfold to_push in Hb. rewrite Ew in Hb. cbn [w_rest] in Hb. cbn [c_buf c_broadcast c_next].
  set (b' := mk_pipeBuf _ _ _). set (bc := bool_decide _).
  assert (pipe_ok b') as Hok' by (destruct Hok as [? _]; split; [done|]; unfold buf_len in *; cbn; rewrite length_app, length_take; lia).
  assert (bc = false → b' = fl_buf f) as Hq.
  { intros Hz%bool_decide_eq_false. unfold b'. replace m with 0%nat by lia. rewrite take_0, app_nil_r. destruct (fl_buf f); cbn in *; congruence. }
  assert (length (pb_buf b') = length (pb_buf (fl_buf f)) + m)%nat as Hlen by (cbn; rewrite length_app, length_take; lia).
  assert ((if bc then 1 else 0) ≤ m)%nat as Hbc by (unfold bc; case_bool_decide; lia).
  pose proof (wake_rank bc (fl_r f)) as Hwr.
  unfold flow_rank. rewrite Ew. unfold to_push. rewrite Ew. cbn [w_rest ready_rank call_rank fl_todo].
  destruct (drop m p) as [|y q] eqn:Ed.
  - assert (m = length p) as -> by (apply (f_equal length) in Ed; rewrite length_drop in Ed; simpl in Ed; lia).
    pose proof (next_write_ok b' (fl_todo f) (fl_got f) (wake_status bc (fl_r f)) eq_refl) as Hn.
    destruct (next_write (fl_todo f)) as [todo' st]. destruct Hn as (Hw & Hc & Hrk & Hl).
    split; [split; [done| |done|by apply reader_woken]|]; unfold to_push; cbn [fl_got fl_buf fl_w fl_todo fl_r].
    + rewrite Hc, <-Hb. cbn. rewrite firstn_all. by rewrite <-!app_assoc.
    + rewrite Hc, Hlen, Hrk, length_app. lia.
  - assert (length p = m + length (y :: q))%nat as Hlp by (apply (f_equal length) in Ed; rewrite length_drop in Ed; simpl in *; lia).
    split; [split; [done| | |by apply reader_woken]|]; unfold to_push; cbn [fl_got fl_buf fl_w fl_todo fl_r w_rest].
    + rewrite <-Hb, <-Ed. cbn. rewrite <-!app_assoc. do 2 f_equal. by rewrite app_assoc, take_drop.
    + eapply w_parked; [done| |done|done]. unfold buf_len in *. cbn [fl_buf]. rewrite Hlen. cbn. simpl in Hlp. lia.
    + cbn [fl_got fl_buf fl_w fl_todo fl_r w_rest ready_rank call_rank]. rewrite !length_app, Hlen. lia.
Qed.

Lemma flow_close_step n ps f : flow_ok n ps f → f.(fl_w) = Ready CloseCall → f.(fl_todo) = [] → f.(fl_buf).(pb_closed) = false →
  flow_ok n ps (writer_runs CloseCall f) ∧ (flow_rank (writer_runs CloseCall f) < flow_rank f)%nat.
Proof.
  intros [Hok Hb _ Hr] Ew Et Ho. unfold writer_runs, flow_rank, to_push in *. cbn [crit]. unfold pipe_close. rewrite Ho, Ew, Et in *.
  cbn in *. pose proof (wake_rank true (fl_r f)) as Hwr. cbn in Hwr. split; [|lia]. split; cbn; [done|done|by apply w_closed|].
  by apply reader_woken.
Qed.

Lemma flow_read_step n ps f : (0 < n)%nat → flow_ok n ps f → f.(fl_r) = Ready (ReadCall n) →
  flow_ok n ps (reader_runs n (ReadCall n) f) ∧ (flow_rank (reader_runs n (ReadCall n) f) < flow_rank f)%nat.
Proof.
  intros Hn [Hok Hb Hw _] Er. unfold reader_runs, flow_rank, to_push in *. cbn [crit]. rewrite Er. unfold pipe_read.
  destruct (Z.eqb_spec (buf_len (fl_buf f)) 0) as [E|E].
  - assert (pb_buf (fl_buf f) = []) as Eb by (unfold buf_len in E; destruct (pb_buf (fl_buf f)); simpl in E; [done|lia]).
    assert (wake_status false (fl_w f) = fl_w f) as Hws by (by destruct (fl_w f)).
    assert (∀ st, writer_ok (mk_flow (fl_buf f) (fl_todo f) (fl_w f) (fl_got f ++ []) st)) as Hw'.
    { intros st. destruct Hw; [eapply w_ready|eapply w_parked|eapply w_closing|eapply w_closed]; done. }
    destruct (pb_closed (fl_buf f)) eqn:Hc; cbn; rewrite Hws; (split; [|lia]);
      (split; cbn; [done|by rewrite app_nil_r|apply Hw'|]); [by apply r_end|by apply r_parked].
  - cbn. destruct (call_wake true (fl_w f)) as [-> Hrest]. rewrite Hrest. pose proof (wake_rank true (fl_w f)) as Hwr. cbn in Hwr. split.
    + split; cbn.
      * destruct Hok as [? Hl]. split; [done|]. unfold buf_len in *. cbn. rewrite length_drop. lia.
      * unfold to_push. cbn. rewrite Hrest, <-Hb, <-!app_assoc. f_equal. by rewrite app_assoc, take_drop.
      * destruct Hw as [p t Ew ?|p t Ew ? ? ?|Ew ? ?|Ew ? ?]; [eapply w_ready|eapply w_ready|eapply w_closing|eapply w_closed];
          cbn; rewrite ?Ew; done.
      * by apply r_ready.
    + unfold buf_len in E. rewrite length_drop. lia.
Qed.

Lemma flow_step_ok n ps f f' : (0 < n)%nat → flow_ok n ps f → flow_step n f f' →
  flow_ok n ps f' ∧ (flow_rank f' < flow_rank f)%nat.
Proof.
  intros Hn Hf Hs. destruct Hs as [c f Ew|c f Er].
  - pose proof Hf as [_ _ [p t E ?|p t E|E ? ?|E] _]; rewrite E in Ew; try done; injection Ew as <-.
    + by apply flow_write_step.
    + by apply flow_close_step.
  - pose proof Hf as [_ _ _ [E|E|E]]; rewrite E in Er; try done. injection Er as <-. by apply flow_read_step.
Qed.

Lemma flow_start_ok cap n ps : 0 < cap → flow_ok n ps (flow_start cap n ps).
Proof.
  intros Hc. unfold flow_start.
  pose proof (next_write_ok (newPipeBuf cap) ps [] (Ready (ReadCall n)) eq_refl) as Hn. destruct (next_write ps) as [todo st].
  destruct Hn as (Hw & Hb & _). split; cbn; [|done|done|by apply r_ready]. split; cbn; [done|]. unfold buf_len. simpl. lia.
Qed.

Lemma flow_reach n ps f k f' : (0 < n)%nat → flow_ok n ps f → nsteps (flow_step n) k f f' →
  flow_ok n ps f' ∧ (k + flow_rank f' ≤ flow_rank f)%nat.
Proof.
  intros Hn Hf Hs. induction Hs as [f|k f f1 f2 H1 _ IH]; [split; [done|lia]|].
  destruct (flow_step_ok n ps f f1 Hn Hf H1) as [Hf1 Hlt]. destruct (IH Hf1) as [? ?]. split; [done|lia].
Qed.

(** Nobody can move: both have finished. *)
Lemma flow_stuck n ps f : flow_ok n ps f → ¬ red (flow_step n) f →
  f.(fl_got) = concat ps ∧ f.(fl_w) = Returned CloseResult ∧ f.(fl_r) = Returned (ReadResult [] (Some EOF)).
Proof.
  intros [Hok Hb Hw Hr] Hnf.
  assert (∀ c, f.(fl_w) ≠ Ready c) as Nw by (intros c E; apply Hnf; eexists; by apply (flow_writer n c)).
  assert (∀ c, f.(fl_r) ≠ Ready c) as Nr by (intros c E; apply Hnf; eexists; by apply (flow_reader n c)).
  destruct Hr as [E|E He Hc|E He Hc]; [by destruct (Nr _ E)| |].
  - destruct Hw as [p t E'|p t E' Hfull|E'|E' _ Hc']; try (by destruct (Nw _ E')); [|congruence].
    destruct Hok as [Hcap _]. unfold buf_len in Hfull. rewrite He in Hfull. simpl in Hfull. lia.
  - destruct Hw as [p t E' Ho|p t E' _ Ho|E'|E' Et _]; try (by destruct (Nw _ E')); [congruence|].
    unfold to_push in Hb. rewrite He, E', Et in Hb. cbn in Hb. by rewrite app_nil_r in Hb.
Qed.

(** C6: A transfer over the pipe terminates and delivers everything, whatever the
    scheduler does. A writer makes the Writes [ps] (of any length, empty ones and
    ones larger than the buffer included) and closes; a reader reads [n > 0] bytes
    at a time until a Read fails. Every execution has at most
    [8 * total + 2 * count + 6] steps; at any time the reader has a prefix of
    what is written; and when neither can move, the writer has closed without
    an error and the reader has got exactly the bytes of [ps], then io.EOF. *)
Theorem pipe_delivers cap n ps : 0 < cap → (0 < n)%nat →
  ∀ k f, nsteps (flow_step n) k (flow_start cap n ps) f →
    (k ≤ 8 * length (concat ps) + 2 * length ps + 6)%nat ∧ f.(fl_got) `prefix_of` concat ps ∧
    (¬ red (flow_step n) f →
       f.(fl_got) = concat ps ∧ f.(fl_w) = Returned CloseResult ∧ f.(fl_r) = Returned (ReadResult [] (Some EOF))).
Proof.
  intros Hcap Hn k f Hs. destruct (flow_reach n ps _ k f Hn (flow_start_ok cap n ps Hcap) Hs) as [Hf Hk]. split_and!.
  - assert (flow_rank (flow_start cap n ps) ≤ 8 * length (concat ps) + 2 * length ps + 6)%nat as Hr; [|lia].
    unfold flow_start, flow_rank, to_push. destruct ps as [|p ps]; cbn; rewrite ?length_app; lia.
  - exists (pb_buf (fl_buf f) ++ to_push f). by rewrite (fo_bytes _ _ _ Hf).
  - by apply flow_stuck.
Qed.

(** A schedule: [true] runs the writer, [false] the reader. *)
Fixpoint flow_exec (n : nat) (sched : list bool) (f : flow) : option flow :=
  match sched with
  | [] => Some f
  | true :: sched' => match f.(fl_w) with Ready c => flow_exec n sched' (writer_runs c f) | _ => None end
  | false :: sched' => match f.(fl_r) with Ready c => flow_exec n sched' (reader_runs n c f) | _ => None end
  end.

Lemma flow_exec_steps n sched f f' : flow_exec n sched f = Some f' → nsteps (flow_step n) (length sched) f f'.
Proof.
  revert f. induction sched as [|[] sched IH]; intros f; cbn; [intros [= ->]; constructor| |].
  - destruct (fl_w f) as [c| |] eqn:E; try done. intros H. by econstructor; [apply (flow_writer n c)|apply IH].
  - destruct (fl_r f) as [c| |] eqn:E; try done. intros H. by econstructor; [apply (flow_reader n c)|apply IH].
Qed.

(** Three bytes and an empty write through a buffer of two. *)
Definition example_flow : flow :=
  mk_flow (mk_pipeBuf [] 2 true) [] (Returned CloseResult) [1; 2; 3] (Returned (ReadResult [] (Some EOF))).

Definition example_writes : list bytes := [[1; 2; 3]; []].

Lemma pipe_delivers_witness :
  (10 ≤ 8 * length (concat example_writes) + 2 * length example_writes + 6)%nat ∧ example_flow.(fl_got) = concat example_writes.
Proof.
  destruct (pipe_delivers 2 1 example_writes ltac:(lia) ltac:(lia) 10 example_flow) as (Hk & _ & Hend).
  - by apply (flow_exec_steps 1 [false; true; false; true; false; false; false; true; true; false]).
  - split; [done|]. apply Hend. intros [f' Hs]. by inversion Hs.
Defined.
