(* ===== verification/WireInt.v ===== *)
(** * Wire integers (protocol/wireint.go)

    Fixed-width little-endian integers, the variable-length encodings of
    protocol 30 ([WriteVarint]/[ReadVarint], [WriteVarlong]/[ReadVarlong]), the
    legacy longint, and the delta-compressed file index ([NdxState]). The pure
    part of each writer is the byte list it hands to [w.Write]. *)
From S2P Require Import Prelude.
From S2P Require Import GoIO.
#[local] Open Scope Z_scope.
#[local] Open Scope go_scope.

(** ** Definitions *)

(** Extra bytes to read, indexed by first byte / 4. *)
Definition intByteExtra : list Z :=
  [0; 0; 0; 0; 0; 0; 0; 0; 0; 0; 0; 0; 0; 0; 0; 0;
   0; 0; 0; 0; 0; 0; 0; 0; 0; 0; 0; 0; 0; 0; 0; 0;
   1; 1; 1; 1; 1; 1; 1; 1; 1; 1; 1; 1; 1; 1; 1; 1;
   2; 2; 2; 2; 2; 2; 2; 2; 3; 3; 3; 3; 4; 4; 5; 6].

Definition extra_of (ch : byte) : nat := Z.to_nat (intByteExtra !!! Z.to_nat (ch / 4)).

Section io.
Context {S : Type}.

Definition WriteInt32 (w : io_Writer S) (v : Z) : M S unit :=
  Write w (PutUint32 (u32 v)).

Definition ReadInt32 (r : io_Reader S) : M S Z :=
  let* b := ReadFull r 4 in
  ret (i32 (Uint32 b)).

Definition WriteUint32 (w : io_Writer S) (v : Z) : M S unit :=
  Write w (PutUint32 v).

Definition ReadUint32 (r : io_Reader S) : M S Z :=
  let* b := ReadFull r 4 in
  ret (Uint32 b).

Definition WriteUint16 (w : io_Writer S) (v : Z) : M S unit :=
  Write w [u8 v; u8 (Z.shiftr v 8)].

Definition ReadUint16 (r : io_Reader S) : M S Z :=
  let* b := ReadFull r 2 in
  ret (Z.lor (b !!! 0%nat) (u16 (Z.shiftl (b !!! 1%nat) 8))).
End io.

(** [cnt := hi; for cnt > lo && b[cnt] == 0 { cnt-- }] *)
Fixpoint trim_zeros (b : bytes) (lo cnt : nat) : nat :=
  match cnt with
  | O => O
  | Datatypes.S cnt' =>
      if (Z.of_nat lo <? Z.of_nat cnt) && (b !!! cnt =? 0) then trim_zeros b lo cnt' else cnt
  end.

(** The bytes WriteVarint sends. *)
Definition varint_bytes (x : Z) : bytes :=
  let b := 0 :: PutUint32 (u32 x) in
  let cnt := trim_zeros b 1 4 in
  let bit := u8 (Z.shiftl 1 (7 - Z.of_nat cnt + 1)) in
  if bit <=? b !!! cnt then
    take (cnt + 1) (<[0%nat := not8 (u8 (bit - 1))]> b)
  else if 1 <? Z.of_nat cnt then
    take cnt (<[0%nat := Z.lor (b !!! cnt) (not8 (u8 (u8 (bit * 2) - 1)))]> b)
  else
    take cnt (<[0%nat := b !!! 1%nat]> b).

(** The bytes WriteVarlong sends; [None] when the shift count is negative and
    the shift panics ([minBytes = 0]). *)
Definition varlong_bytes (x : Z) (minBytes : Z) : option bytes :=
  let b := 0 :: PutUint64 (u64 x) in
  let cnt := trim_zeros b (Z.to_nat minBytes) 8 in
  let sh := 7 - Z.of_nat cnt + minBytes in
  if sh <? 0 then None else
  let bit := u8 (Z.shiftl 1 sh) in
  Some (
    if bit <=? b !!! cnt then
      take (cnt + 1) (<[0%nat := not8 (u8 (bit - 1))]> b)
    else if minBytes <? Z.of_nat cnt then
      take cnt (<[0%nat := Z.lor (b !!! cnt) (not8 (u8 (u8 (bit * 2) - 1)))]> b)
    else
      take cnt (<[0%nat := b !!! cnt]> b)).

(** [copy(u[off:], src)] *)
Definition copy_at (u : bytes) (off : nat) (src : bytes) : bytes :=
  let n := ((length u - off) `min` length src)%nat in
  take off u ++ take n src ++ drop (off + n) u.

(** Assemble the value of a varint from its first byte and the extra bytes;
    [None] is an index or slice bound out of range on the [5]byte array. *)
Definition varint_value (ch : byte) (extra : nat) (more : bytes) : option Z :=
  if (5 <=? Z.of_nat extra) then None else
  let u := copy_at (replicate 5 0) 0 more in
  let u := if 0 <? Z.of_nat extra then
             let bit := u8 (Z.shiftl 1 (8 - Z.of_nat extra)) in
             <[extra := Z.land ch (u8 (bit - 1))]> u
           else <[0%nat := ch]> u in
  Some (i32 (Uint32 u)).

(** Assemble the value of a varlong; [None] is an index out of range on the
    [9]byte array. *)
Definition varlong_value (b2 : bytes) (minBytes : nat) (extra : nat) (more : bytes) : option Z :=
  let u := copy_at (replicate 9 0) 0 (drop 1 b2) in
  if 0 <? Z.of_nat extra then
    let u := copy_at u (minBytes - 1) more in
    let bit := u8 (Z.shiftl 1 (8 - Z.of_nat extra)) in
    if (9 <=? Z.of_nat (minBytes + extra - 1)) then None
    else Some (i64 (Uint64 (<[(minBytes + extra - 1)%nat := Z.land (b2 !!! 0%nat) (u8 (bit - 1))]> u)))
  else
    if (9 <=? Z.of_nat (minBytes - 1)) then None
    else Some (i64 (Uint64 (<[(minBytes - 1)%nat := b2 !!! 0%nat]> u))).

(** Panic on [None]. *)
Definition checked {S A} (o : option A) : M S A :=
  match o with Some a => ret a | None => panic end.

Section vario.
Context {S : Type}.

Definition WriteVarint (w : io_Writer S) (x : Z) : M S unit :=
  Write w (varint_bytes x).

(** The slice [u[:extra]] is taken before the bytes are read, so [extra = 6]
    panics without reading and [extra = 5] after. *)
Definition ReadVarint (r : io_Reader S) : M S Z :=
  let* ch := ReadFull r 1 in
  let ch := ch !!! 0%nat in
  let extra := extra_of ch in
  if 5 <? Z.of_nat extra then panic else
  let* more := (if 0 <? Z.of_nat extra then ReadFull r extra else ret []) in
  checked (varint_value ch extra more).

Definition WriteVarlong (w : io_Writer S) (x : Z) (minBytes : Z) : M S unit :=
  let* b := checked (varlong_bytes x minBytes) in
  Write w b.

(** [b2[0]] panics when [minBytes] is zero. *)
Definition ReadVarlong (r : io_Reader S) (minBytes : nat) : M S Z :=
  let* b2 := ReadFull r minBytes in
  if (minBytes =? 0)%nat then panic else
  let extra := extra_of (b2 !!! 0%nat) in
  let* more := (if 0 <? Z.of_nat extra then ReadFull r extra else ret []) in
  checked (varlong_value b2 minBytes extra more).

Definition WriteLongInt (w : io_Writer S) (x : Z) : M S unit :=
  if (0 <=? x) && (x <=? 0x7FFFFFFF) then Write w (PutUint32 (u32 x))
  else
    Write w [0xFF; 0xFF; 0xFF; 0xFF] ;;;
    Write w (PutUint64 (u64 x)).

Definition ReadLongInt (r : io_Reader S) : M S Z :=
  let* b := ReadFull r 4 in
  let val32 := i32 (Uint32 b) in
  if negb (val32 =? -1) then ret val32
  else
    let* b64 := ReadFull r 8 in
    ret (i64 (Uint64 b64)).
End vario.

(** ** Compressed file indices *)
Definition NDxDone : Z := -1.
Definition NDXFlistEOF : Z := -2.

Record NdxState := mk_NdxState { prevPositive : Z; prevNegative : Z }.

Definition NewNdxState : NdxState := mk_NdxState (-1) 1.

(** The delta or absolute encoding of a non-negative [ndx] against [prev]. *)
Definition ndx_diff_bytes (ndx prev : Z) : bytes :=
  let diff := i32 (ndx - prev) in
  if (diff <? 0xFE) && (0 <? diff) then [u8 diff]
  else if (diff <? 0) || (0x7FFF <? diff) then
    [0xFE; u8 (Z.lor (Z.shiftr ndx 24) 0x80); u8 ndx; u8 (Z.shiftr ndx 8); u8 (Z.shiftr ndx 16)]
  else [0xFE; u8 (Z.shiftr diff 8); u8 diff].

Section ndx.
Context {S : Type}.

Definition WriteNdx (w : io_Writer S) (ndx : Z) : M (NdxState * S) unit :=
  let* s := get in
  if 0 <=? ndx then
    let b := ndx_diff_bytes ndx s.(prevPositive) in
    put (mk_NdxState ndx s.(prevNegative)) ;;;
    lift (Write w b)
  else if ndx =? NDxDone then lift (Write w [0])
  else
    let ndx := i32 (- ndx) in
    let b := 0xFF :: ndx_diff_bytes ndx s.(prevNegative) in
    put (mk_NdxState s.(prevPositive) ndx) ;;;
    lift (Write w b).

(** The number [readNdxPositive] decodes: the first data byte is already read. *)
Definition readNdxNum (r : io_Reader S) (firstByte : byte) (prev : Z) : M S Z :=
  if firstByte =? 0xFE then
    let* b := ReadFull r 2 in
    let b0 := b !!! 0%nat in let b1 := b !!! 1%nat in
    if has b0 0x80 then
      let* m := ReadFull r 2 in
      ret (Uint32 [b1; m !!! 0%nat; m !!! 1%nat; Z.ldiff b0 0x80])
    else ret (u32 (u32 (u32 (Z.shiftl b0 8) + b1) + u32 prev))
  else ret (u32 (firstByte + u32 prev)).

(** [negate] also tells which tracker [prev] points to. *)
Definition readNdxPositive (r : io_Reader S) (firstByte : byte) (negate : bool) : M (NdxState * S) Z :=
  let* s := get in
  let prev := if negate then s.(prevNegative) else s.(prevPositive) in
  let* num := lift (readNdxNum r firstByte prev) in
  if 2147483647 <? num then fail ErrUnexpectedEOF else
  let result := i32 num in
  modify (λ s, if negate then mk_NdxState s.(prevPositive) result
               else mk_NdxState result s.(prevNegative)) ;;;
  ret (if negate then i32 (- result) else result).

Definition ReadNdx (r : io_Reader S) : M (NdxState * S) Z :=
  let* b := lift (ReadFull r 1) in
  let b0 := b !!! 0%nat in
  if b0 =? 0xFF then
    let* b1 := lift (ReadFull r 1) in
    readNdxPositive r (b1 !!! 0%nat) true
  else if b0 =? 0 then ret NDxDone
  else readNdxPositive r b0 false.
End ndx.

(** Trackers stay within the non-negative int32 range (or the initial -1). *)
Definition ndx_wf (s : NdxState) : Prop :=
  -1 ≤ s.(prevPositive) < 2^31 ∧ 0 ≤ s.(prevNegative) < 2^31.

(** Encoding of an index and the state after it, as WriteNdx does it. *)
Definition ndx_bytes (s : NdxState) (ndx : Z) : bytes :=
  if 0 <=? ndx then ndx_diff_bytes ndx s.(prevPositive)
  else if ndx =? NDxDone then [0]
  else 0xFF :: ndx_diff_bytes (- ndx) s.(prevNegative).

Definition ndx_next (s : NdxState) (ndx : Z) : NdxState :=
  if 0 <=? ndx then mk_NdxState ndx s.(prevNegative)
  else if ndx =? NDxDone then s
  else mk_NdxState s.(prevPositive) (- ndx).

(** ** Lemmas on the variable-length format

    A value of [cnt] significant bytes, minimum [m], carries [k = cnt - m] (or
    [k + 1]) extra bytes; the first byte starts with that many one bits. *)
Definition marker (k : nat) : Z := 256 - 2 ^ (8 - Z.of_nat k).

Lemma extra_marker k v : (k ≤ 6)%nat → 0 ≤ v < 2 ^ (7 - Z.of_nat k) →
  extra_of (marker k + v) = k ∧ is_byte (marker k + v) ∧ Z.lor v (marker k) = marker k + v ∧
  Z.land (marker k + v) (u8 (u8 (Z.shiftl 1 (8 - Z.of_nat k)) - 1)) = v.
Proof.
  intros Hk Hv.
  assert (is_byte v) as Hb.
  { unfold is_byte. assert (2 ^ (7 - Z.of_nat k) ≤ 2 ^ 7) by (apply Z.pow_le_mono_r; lia). lia. }
  revert Hv. unfold marker.
  pose (P k v := (2 ^ (7 - Z.of_nat k) <=? v) ||
     (extra_of (marker k + v) =? k)%nat && (marker k + v <? 256) &&
     (0 <=? marker k + v) && (Z.lor v (marker k) =? marker k + v) &&
     (Z.land (marker k + v) (u8 (u8 (Z.shiftl 1 (8 - Z.of_nat k)) - 1)) =? v)).
  assert (P k v = true) as HP.
  { assert (k ∈ [0;1;2;3;4;5;6]%nat) as Hin by (repeat (destruct k; [set_solver|]); lia).
    repeat (apply elem_of_cons in Hin as [->|Hin];
            [apply byte_forall; [vm_compute; reflexivity|done]|]). by apply not_elem_of_nil in Hin. }
  unfold P, marker in HP. intros Hv. apply orb_true_iff in HP as [HP|HP]; b2p; [lia|].
  repeat split; unfold is_byte; try lia; try done.
  apply Nat.eqb_eq. done.
Qed.

Lemma marker_code k : (k ≤ 6)%nat →
  not8 (u8 (u8 (Z.shiftl 1 (8 - Z.of_nat k)) - 1)) = marker k.
Proof. intros. repeat (destruct k; [vm_compute; reflexivity|]). lia. Qed.

Lemma trim_zeros_spec b lo hi : (lo ≤ hi)%nat →
  (lo ≤ trim_zeros b lo hi ≤ hi)%nat ∧
  ∀ j, (trim_zeros b lo hi < j ≤ hi)%nat → b !!! j = 0.
Proof.
  induction hi as [|hi IH]; intros Hlo; cbn [trim_zeros].
  { split; [lia|]. intros; lia. }
  destruct (Z.ltb_spec (Z.of_nat lo) (Z.of_nat (S hi))); simpl.
  - destruct (Z.eqb_spec (b !!! S hi) 0) as [E|].
    + destruct IH as [IH1 IH2]; [lia|]. split; [lia|]. intros j Hj.
      destruct (decide (j = S hi)) as [->|]; [done|]. apply IH2. lia.
    + split; [lia|]. intros; lia.
  - split; [lia|]. intros; lia.
Qed.

(** The first byte and the tail of a variable-length encoding. *)
Definition vl_first (bs : bytes) (m cnt : nat) : Z :=
  let k := (cnt - m)%nat in let top := bs !!! (cnt - 1)%nat in
  if 2 ^ (7 - Z.of_nat k) <=? top then marker (k + 1) else marker k + top.
Definition vl_tail (bs : bytes) (m cnt : nat) : bytes :=
  let k := (cnt - m)%nat in let top := bs !!! (cnt - 1)%nat in
  if 2 ^ (7 - Z.of_nat k) <=? top then take cnt bs else take (cnt - 1) bs.

Lemma take_pad (bs : bytes) cnt :
  (cnt ≤ length bs)%nat → (∀ j, (cnt ≤ j < length bs)%nat → bs !!! j = 0) →
  bs = take cnt bs ++ replicate (length bs - cnt) 0.
Proof.
  intros Hc Hz. rewrite <-(take_drop cnt bs) at 1. f_equal.
  apply list_eq_same_length with (length bs - cnt)%nat.
  - by rewrite length_replicate.
  - by rewrite length_drop.
  - intros i x y Hi Hx Hy. apply lookup_replicate in Hy as [-> _].
    rewrite lookup_drop in Hx. apply list_lookup_total_correct in Hx.
    rewrite <-Hx. apply Hz. lia.
Qed.

(** Reassembling the bytes of a variable-length encoding gives the value. *)
Lemma vl_decode bs m cnt n :
  bytes_ok bs → (1 ≤ m ≤ cnt)%nat → (cnt ≤ length bs)%nat → (cnt - m ≤ 5)%nat →
  (∀ j, (cnt ≤ j < length bs)%nat → bs !!! j = 0) →
  let ch := vl_first bs m cnt in let tl := vl_tail bs m cnt in let e := extra_of ch in
  is_byte ch ∧ (m - 1 + e = length tl)%nat ∧ (cnt - m ≤ e ≤ cnt - m + 1)%nat ∧ (e = 0%nat → ch < 128) ∧
  ((length bs ≤ length tl + 1 + n)%nat →
   le_val (take (length bs) (tl ++ Z.land ch (u8 (u8 (Z.shiftl 1 (8 - Z.of_nat e)) - 1)) ::
                             replicate n 0)) = le_val bs).
Proof.
  intros Hok Hm Hcnt Hk Hz ch tl e.
  set (k := (cnt - m)%nat) in *. set (top := bs !!! (cnt - 1)%nat).
  assert (bs !! (cnt - 1)%nat = Some top) as Htop.
  { apply list_lookup_lookup_total_lt. lia. }
  assert (is_byte top) as Hbt by (eapply Forall_lookup_1; eauto). unfold is_byte in Hbt.
  pose proof (take_pad bs cnt Hcnt Hz) as Hpad.
  assert (∀ l : bytes, (length bs ≤ length l)%nat → (∃ q, l = take cnt bs ++ replicate q 0) →
    le_val (take (length bs) l) = le_val bs) as Hfin.
  { intros l Hl [q ->]. rewrite length_app, length_take, length_replicate in Hl.
    rewrite take_app, take_take, length_take, take_replicate, le_val_app, le_val_zeros.
    assert (le_val bs = le_val (take cnt bs)) as ->
      by (rewrite Hpad at 1; rewrite le_val_app, le_val_zeros; lia).
    rewrite Nat.min_r by lia. lia. }
  unfold e, ch, tl, vl_first, vl_tail. fold k top. clear e ch tl.
  destruct (Z.leb_spec (2 ^ (7 - Z.of_nat k)) top).
  - destruct (extra_marker (k + 1) 0) as (He & Hb & _ & Hl); [lia| |].
    { split; [lia|]. apply Z.pow_pos_nonneg; lia. }
    rewrite Z.add_0_r in *. rewrite He, Hl, length_take. split_and!; [done|lia|lia|lia|lia|].
    intros Hn. apply Hfin.
    + rewrite length_app, length_take. simpl. rewrite length_replicate. lia.
    + by exists (S n).
  - destruct (extra_marker k top) as (He & Hb & _ & Hl); [lia|lia|].
    rewrite He, Hl, length_take. split_and!; [done|lia|lia|lia| |].
    { intros E. rewrite E in *. change (marker 0) with 0. change (2 ^ (7 - Z.of_nat 0)) with 128 in *. lia. }
    intros Hn. apply Hfin.
    + rewrite length_app, length_take. simpl. rewrite length_replicate. lia.
    + exists n. replace cnt with (S (cnt - 1)) at 2 by lia.
      rewrite (take_S_r _ _ _ Htop), <-app_assoc. done.
Qed.

(** The three branches of the encoders produce [vl_first] and [vl_tail]. *)
Lemma vl_encode bs m cnt : bytes_ok bs →
  (1 ≤ m ≤ cnt)%nat → (cnt ≤ length bs)%nat → (cnt - m ≤ 5)%nat →
  let b := 0 :: bs in
  let bit := u8 (Z.shiftl 1 (7 - Z.of_nat cnt + Z.of_nat m)) in
  (if bit <=? b !!! cnt then take (cnt + 1) (<[0%nat := not8 (u8 (bit - 1))]> b)
   else if Z.of_nat m <? Z.of_nat cnt then
     take cnt (<[0%nat := Z.lor (b !!! cnt) (not8 (u8 (u8 (bit * 2) - 1)))]> b)
   else take cnt (<[0%nat := b !!! cnt]> b))
  = vl_first bs m cnt :: vl_tail bs m cnt.
Proof.
  intros Hok Hm Hcnt Hk b bit. unfold vl_first, vl_tail. set (k := (cnt - m)%nat).
  assert (b !!! cnt = bs !!! (cnt - 1)%nat) as ->.
  { unfold b. replace cnt with (S (cnt - 1)) at 1 by lia. done. }
  set (top := bs !!! (cnt - 1)%nat).
  assert (is_byte top) as Hbt.
  { eapply Forall_lookup_1; [done|]. apply list_lookup_lookup_total_lt. lia. }
  assert (bit = 2 ^ (7 - Z.of_nat k)) as Hbit.
  { unfold bit. replace (7 - Z.of_nat cnt + Z.of_nat m) with (7 - Z.of_nat k) by lia.
    rewrite Z.shiftl_1_l. apply u8_id. unfold is_byte. split; [apply Z.pow_nonneg; lia|].
    assert (2 ^ (7 - Z.of_nat k) ≤ 2 ^ 7) by (apply Z.pow_le_mono_r; lia). lia. }
  rewrite Hbit. destruct (Z.leb_spec (2 ^ (7 - Z.of_nat k)) top).
  - replace (cnt + 1)%nat with (S cnt) by lia. unfold b. cbn [insert list_insert take].
    f_equal. rewrite <-marker_code by lia. do 3 f_equal.
    rewrite <-Z.shiftl_1_l. replace (8 - Z.of_nat (k + 1)) with (7 - Z.of_nat k) by lia.
    by rewrite u8_id by (rewrite Z.shiftl_1_l, <-Hbit; apply u8_byte).
  - assert (take cnt (0 :: bs) = 0 :: take (cnt - 1) bs) as Ht.
    { replace cnt with (S (cnt - 1)) at 1 by lia. done. }
    destruct (Z.ltb_spec (Z.of_nat m) (Z.of_nat cnt)).
    + unfold b. cbn [insert list_insert]. replace cnt with (S (cnt - 1)) at 1 by lia.
      cbn [take]. f_equal.
      replace (2 ^ (7 - Z.of_nat k) * 2) with (Z.shiftl 1 (8 - Z.of_nat k)).
      * rewrite marker_code by lia.
        destruct (extra_marker k top) as (_ & _ & Hl & _); [lia|unfold is_byte in *; lia|done].
      * rewrite Z.shiftl_1_l. replace (8 - Z.of_nat k) with (Z.succ (7 - Z.of_nat k)) by lia.
        rewrite Z.pow_succ_r by lia. lia.
    + unfold b. cbn [insert list_insert]. replace cnt with (S (cnt - 1)) at 1 by lia.
      cbn [take]. replace k with 0%nat by lia. done.
Qed.

(** Both encoders read their bytes from a little-endian array. *)
Lemma varint_bytes_vl x : let bs := le_bytes 4 (u32 x) in
  let cnt := trim_zeros (0 :: bs) 1 4 in
  varint_bytes x = vl_first bs 1 cnt :: vl_tail bs 1 cnt.
Proof.
  intros bs cnt. destruct (trim_zeros_spec (0 :: bs) 1 4) as [Hc _]; [lia|].
  rewrite <-vl_encode; [|apply le_bytes_ok|unfold cnt; lia| |unfold cnt; lia].
  2:{ unfold bs. rewrite length_le_bytes. unfold cnt. lia. }
  unfold varint_bytes, PutUint32. fold bs cnt.
  change (Z.of_nat 1) with 1.
  do 2 (case_if; [done|]). b2p. by replace cnt with 1%nat by (unfold cnt in *; lia).
Qed.

Lemma varlong_bytes_vl x m : (3 ≤ m ≤ 4)%nat → let bs := le_bytes 8 (u64 x) in
  let cnt := trim_zeros (0 :: bs) m 8 in
  varlong_bytes x (Z.of_nat m) = Some (vl_first bs m cnt :: vl_tail bs m cnt).
Proof.
  intros Hm bs cnt. destruct (trim_zeros_spec (0 :: bs) m 8) as [Hc _]; [lia|].
  rewrite <-vl_encode; [|apply le_bytes_ok|unfold cnt; lia| |unfold cnt; lia].
  2:{ unfold bs. rewrite length_le_bytes. unfold cnt. lia. }
  unfold varlong_bytes, PutUint64. rewrite Nat2Z.id. fold bs cnt.
  destruct (Z.ltb_spec (7 - Z.of_nat cnt + Z.of_nat m) 0); [unfold cnt in *; lia|done].
Qed.

Lemma copy_at_zeros n src : (length src ≤ n)%nat →
  copy_at (replicate n 0) 0 src = src ++ replicate (n - length src) 0.
Proof.
  intros. unfold copy_at. rewrite length_replicate, Nat.sub_0_r, Nat.min_r by lia.
  rewrite take_0, firstn_all, drop_replicate. done.
Qed.

Lemma copy_at_middle a off n src : length a = off → (length src ≤ n)%nat →
  copy_at (a ++ replicate n 0) off src = a ++ src ++ replicate (n - length src) 0.
Proof.
  intros <- ?. unfold copy_at. rewrite length_app, length_replicate.
  replace (length a + n - length a)%nat with n by lia. rewrite Nat.min_r by lia.
  rewrite take_app_length, firstn_all, drop_app_add, drop_replicate. done.
Qed.

Lemma insert_zeros a i n v : i = length a →
  <[i := v]> (a ++ replicate (S n) 0) = a ++ v :: replicate n 0.
Proof. intros ->. rewrite insert_app_r_alt by lia. by rewrite Nat.sub_diag. Qed.

Lemma land_full ch : is_byte ch →
  Z.land ch (u8 (u8 (Z.shiftl 1 (8 - Z.of_nat 0)) - 1)) = ch.
Proof.
  intros. change (u8 _) with (2^8 - 1). unfold is_byte in *.
  by rewrite land_ones_mod, Z.mod_small by lia.
Qed.

Lemma Uint32_PutUint32 v : Uint32 (PutUint32 v) = u32 v.
Proof.
  unfold Uint32, PutUint32. rewrite take_ge by (by rewrite length_le_bytes).
  apply le_val_le_bytes.
Qed.

Lemma Uint64_PutUint64 v : Uint64 (PutUint64 v) = u64 v.
Proof.
  unfold Uint64, PutUint64. rewrite take_ge by (by rewrite length_le_bytes).
  apply le_val_le_bytes.
Qed.

Lemma u32_u32 x : u32 (u32 x) = u32 x.
Proof. apply Z.mod_mod. lia. Qed.
Lemma u64_u64 x : u64 (u64 x) = u64 x.
Proof. apply Z.mod_mod. lia. Qed.

Section specs.
Context {S : Type} (r : io_Reader S) `{!ReaderSpec r}.
Context {S' : Type} (w : io_Writer S') `{!WriterSpec w}.

Lemma ReadInt32_ok x : is_i32 x → parses r (ReadInt32 r) (PutUint32 (u32 x)) x.
Proof.
  intros Hx. eapply parses_bind_r.
  - by apply ReadFull_ok, length_le_bytes.
  - rewrite Uint32_PutUint32, u32_u32, i32_u32 by done. apply parses_ret.
Qed.

Lemma WriteInt32_ok x : emits w (WriteInt32 w x) (PutUint32 (u32 x)).
Proof. apply emits_write. Qed.

Lemma ReadUint32_ok x : is_u32 x → parses r (ReadUint32 r) (PutUint32 x) x.
Proof.
  intros Hx. eapply parses_bind_r.
  - by apply ReadFull_ok, length_le_bytes.
  - rewrite Uint32_PutUint32, u32_id by done. apply parses_ret.
Qed.

Lemma WriteUint32_ok x : emits w (WriteUint32 w x) (PutUint32 x).
Proof. apply emits_write. Qed.

Lemma ReadUint16_ok x : 0 ≤ x < 2^16 →
  parses r (ReadUint16 r) [u8 x; u8 (Z.shiftr x 8)] x.
Proof.
  intros Hx. eapply parses_bind_r; [by apply ReadFull_ok|]. simpl.
  replace (Z.lor _ _) with x; [apply parses_ret|].
  pose proof (shiftr8_bound x 8 ltac:(lia) Hx).
  rewrite (u8_id (Z.shiftr x 8)) by (unfold is_byte; lia). unfold u16. rewrite Z.mod_small; [by rewrite lor_halves|].
  rewrite Z.shiftl_mul_pow2 by lia. lia.
Qed.

Lemma WriteUint16_ok x : emits w (WriteUint16 w x) [u8 x; u8 (Z.shiftr x 8)].
Proof. apply emits_write. Qed.

Lemma WriteVarint_ok x : emits w (WriteVarint w x) (varint_bytes x).
Proof. apply emits_write. Qed.

(** The value part of ReadVarint, on the bytes of a conforming encoding. *)
Lemma varint_value_ok x : is_i32 x →
  ∃ ch more, varint_bytes x = ch :: more ∧ length more = extra_of ch ∧
    (extra_of ch ≤ 4)%nat ∧ varint_value ch (extra_of ch) more = Some x.
Proof.
  intros Hx. rewrite varint_bytes_vl. cbv zeta.
  set (bs := le_bytes 4 (u32 x)). set (cnt := trim_zeros (0 :: bs) 1 4).
  assert (length bs = 4%nat) as Hlen by apply length_le_bytes.
  destruct (trim_zeros_spec (0 :: bs) 1 4) as [Hc Hz]; [lia|]. fold cnt in Hc, Hz.
  edestruct (vl_decode bs 1 cnt (4 - extra_of (vl_first bs 1 cnt))) as (Hch & Htl & He & _ & Hval).
  1: apply le_bytes_ok. 1, 2, 3: lia.
  { intros j Hj. apply (Hz (Datatypes.S j)). lia. }
  eexists _, _. split; [done|]. split; [lia|]. split; [lia|].
  unfold varint_value. destruct (Z.leb_spec 5 (Z.of_nat (extra_of (vl_first bs 1 cnt)))); [lia|].
  f_equal. rewrite copy_at_zeros by lia.
  replace (5 - length (vl_tail bs 1 cnt))%nat
    with (Datatypes.S (4 - extra_of (vl_first bs 1 cnt))) by lia.
  assert (i32 (le_val bs) = x) as Hle.
  { unfold bs. rewrite le_val_le_bytes. change (2 ^ (8 * Z.of_nat 4)) with (2^32).
    fold (u32 (u32 x)). by rewrite u32_u32, i32_u32. }
  rewrite <-Hle. f_equal. unfold Uint32. rewrite <-Hlen, <-Hval by lia. f_equal. f_equal.
  case_if; b2p.
  - by rewrite insert_zeros by lia.
  - assert (extra_of (vl_first bs 1 cnt) = 0%nat) as -> by lia.
    destruct (vl_tail bs 1 cnt); [|simpl in *; lia]. by rewrite land_full.
Qed.
End specs.

Section varspecs.
Context {S : Type} (r : io_Reader S) `{!ReaderSpec r}.
Context {S' : Type} (w : io_Writer S') `{!WriterSpec w}.

Lemma parses_extra e more : length more = e →
  parses r (if 0 <? Z.of_nat e then ReadFull r e else ret []) more more.
Proof.
  intros He. case_if; b2p; [by apply ReadFull_ok|].
  destruct more; [apply parses_ret|simpl in *; lia].
Qed.

Lemma ReadVarint_ok x : is_i32 x → parses r (ReadVarint r) (varint_bytes x) x.
Proof.
  intros Hx. destruct (varint_value_ok x Hx) as (ch & more & -> & Hlen & He & Hv).
  apply (parses_bind _ _ _ [ch] more [ch]); [by apply ReadFull_ok|]. simpl.
  case_if; b2p; [lia|]. eapply parses_bind_r; [by apply parses_extra|].
  rewrite Hv. apply parses_ret.
Qed.

Lemma varlong_value_ok m x : (3 ≤ m ≤ 4)%nat → is_i64 x →
  ∃ b2 more, varlong_bytes x (Z.of_nat m) = Some (b2 ++ more) ∧ length b2 = m ∧
    length more = extra_of (b2 !!! 0%nat) ∧
    varlong_value b2 m (extra_of (b2 !!! 0%nat)) more = Some x.
Proof.
  intros Hm Hx. rewrite varlong_bytes_vl by done. cbv zeta.
  set (bs := le_bytes 8 (u64 x)). set (cnt := trim_zeros (0 :: bs) m 8).
  assert (length bs = 8%nat) as Hlen by apply length_le_bytes.
  destruct (trim_zeros_spec (0 :: bs) m 8) as [Hc Hz]; [lia|]. fold cnt in Hc, Hz.
  set (ch := vl_first bs m cnt). set (tl := vl_tail bs m cnt).
  edestruct (vl_decode bs m cnt (9 - length tl - 1)) as (Hch & Htl & He & _ & Hval).
  1: apply le_bytes_ok. 1, 2, 3: lia.
  { intros j Hj. apply (Hz (Datatypes.S j)). lia. }
  fold ch tl in Hch, Htl, He, Hval.
  exists (ch :: take (m - 1) tl), (drop (m - 1) tl). cbn [app]. rewrite take_drop.
  split; [done|]. cbn [length]. rewrite length_take, length_drop. split; [lia|].
  change ((ch :: take (m - 1) tl) !!! 0%nat) with ch. split; [lia|].
  unfold varlong_value. change (drop 1 (ch :: take (m - 1) tl)) with (take (m - 1) tl). change ((ch :: take (m - 1) tl) !!! 0%nat) with ch.
  rewrite copy_at_zeros by (rewrite length_take; lia).
  assert (i64 (le_val bs) = x) as Hle.
  { unfold bs. rewrite le_val_le_bytes. change (2 ^ (8 * Z.of_nat 8)) with (2^64).
    fold (u64 (u64 x)). by rewrite u64_u64, i64_u64. }
  assert (length (take (m - 1) tl) = m - 1)%nat as Hta by (rewrite length_take; lia).
  case_if; b2p; case_if; b2p; try lia; rewrite <-Hle, <-Hval by lia; do 2 f_equal;
    unfold Uint64; rewrite Hlen; do 2 f_equal.
  - rewrite Hta, copy_at_middle by (rewrite ?length_drop; lia).
    rewrite app_assoc, take_drop, length_drop.
    replace (9 - (m - 1) - (length tl - (m - 1)))%nat with (Datatypes.S (9 - length tl - 1)) by lia.
    rewrite insert_zeros by lia. done.
  - assert (extra_of ch = 0%nat) as E by lia. rewrite E.
    rewrite (take_ge tl) by lia. rewrite land_full by done.
    replace (9 - length tl)%nat with (Datatypes.S (9 - length tl - 1)) at 1 by lia.
    rewrite insert_zeros by lia. done.
Qed.

Lemma WriteVarlong_ok m x bs : varlong_bytes x (Z.of_nat m) = Some bs →
  emits w (WriteVarlong w x (Z.of_nat m)) bs.
Proof. intros E. unfold WriteVarlong. rewrite E. intros s. apply write_ok. Qed.

Lemma ReadVarlong_ok m x bs : (3 ≤ m ≤ 4)%nat → is_i64 x →
  varlong_bytes x (Z.of_nat m) = Some bs → parses r (ReadVarlong r m) bs x.
Proof.
  intros Hm Hx Hbs. destruct (varlong_value_ok m x Hm Hx) as (b2 & more & E & Hl & He & Hv).
  rewrite E in Hbs. injection Hbs as <-.
  eapply parses_bind; [by apply ReadFull_ok|].
  destruct (Nat.eqb_spec m 0); [lia|].
  eapply parses_bind_r; [by apply parses_extra|]. rewrite Hv. apply parses_ret.
Qed.

(** What WriteLongInt writes. *)
Definition longint_bytes (x : Z) : bytes :=
  if (0 <=? x) && (x <=? 0x7FFFFFFF) then PutUint32 (u32 x)
  else [0xFF; 0xFF; 0xFF; 0xFF] ++ PutUint64 (u64 x).

Lemma WriteLongInt_ok x : emits w (WriteLongInt w x) (longint_bytes x).
Proof.
  unfold WriteLongInt, longint_bytes. case_if; [apply emits_write|].
  apply emits_seq; apply emits_write.
Qed.

Lemma ReadLongInt_ok x : is_i64 x → parses r (ReadLongInt r) (longint_bytes x) x.
Proof.
  intros Hx. unfold longint_bytes. case_if; b2p.
  - eapply parses_bind_r; [by apply ReadFull_ok, length_le_bytes|].
    rewrite Uint32_PutUint32, u32_u32, i32_u32 by (unfold is_i32; lia).
    cbv zeta. destruct (Z.eqb_spec x (-1)); [lia|]. apply parses_ret.
  - eapply parses_bind; [by apply ReadFull_ok|]. change (i32 _) with (-1). simpl.
    eapply parses_bind_r; [by apply ReadFull_ok, length_le_bytes|].
    rewrite Uint64_PutUint64, u64_u64, i64_u64 by done. apply parses_ret.
Qed.
End varspecs.

(** ** Lemmas on compressed indices *)
Lemma byte_high_bit b : 0 ≤ b < 128 →
  Z.lor b 0x80 = b + 128 ∧ has (b + 128) 0x80 = true ∧ Z.ldiff (b + 128) 0x80 = b ∧ has b 0x80 = false.
Proof.
  intros Hb.
  pose (P b := (128 <=? b) || (Z.lor b 0x80 =? b + 128) && has (b + 128) 0x80 &&
               (Z.ldiff (b + 128) 0x80 =? b) && negb (has b 0x80)).
  assert (P b = true) as HP by (apply byte_forall; [by vm_compute|unfold is_byte; lia]).
  unfold P in HP. apply orb_true_iff in HP as [HP|HP]; b2p; [lia|]. auto.
Qed.

Lemma le_bytes_shift n : 0 ≤ n →
  le_bytes 4 n = [u8 n; u8 (Z.shiftr n 8); u8 (Z.shiftr n 16); u8 (Z.shiftr n 24)].
Proof.
  intros Hn. unfold u8. rewrite !Z.shiftr_div_pow2 by lia. simpl.
  rewrite !Z.div_div by lia. done.
Qed.

Lemma ndx_diff_first n prev : 0 ≤ n < 2^31 → -1 ≤ prev < 2^31 →
  ∃ fb more, ndx_diff_bytes n prev = fb :: more ∧ 0 < fb < 255.
Proof.
  intros Hn Hp. unfold ndx_diff_bytes. case_if; [|case_if]; b2p;
    eexists _, _; (split; [done|]); [|lia|lia].
  rewrite u8_id by (unfold is_byte; lia). lia.
Qed.

Section ndxspecs.
Context {S : Type} (r : io_Reader S) `{!ReaderSpec r}.
Context {S' : Type} (w : io_Writer S') `{!WriterSpec w}.

Lemma readNdxNum_ok n prev fb more : 0 ≤ n < 2^31 → -1 ≤ prev < 2^31 →
  ndx_diff_bytes n prev = fb :: more → parses r (readNdxNum r fb prev) more n.
Proof.
  intros Hn Hp. unfold ndx_diff_bytes, readNdxNum.
  assert (n - prev = 2^31 ∨ i32 (n - prev) = n - prev) as Hd.
  { destruct (decide (n - prev = 2^31)); [by left|right]. apply i32_id. unfold is_i32. lia. }
  assert (∀ d, d = n - prev → u32 (d + u32 prev) = n) as Hsum.
  { intros d ->. unfold u32. rewrite Zplus_mod_idemp_r, Z.mod_small; lia. }
  destruct ((i32 (n - prev) <? 0xFE) && (0 <? i32 (n - prev))) eqn:E1;
    [|destruct ((i32 (n - prev) <? 0) || (0x7FFF <? i32 (n - prev))) eqn:E2];
    intros [= <- <-]; b2p.
  - destruct Hd as [Hd|Hd]; [by rewrite Hd in *|].
    rewrite u8_id by (unfold is_byte; lia).
    destruct (Z.eqb_spec (i32 (n - prev)) 254); [lia|].
    rewrite Hsum by lia. apply parses_ret.
  - simpl. match goal with |- parses _ _ [?a; ?b; ?c; ?d] _ =>
      apply (parses_bind r _ _ [a; b] [c; d] [a; b]) end; [by apply ReadFull_ok|]. cbv zeta.
    change ([?a; ?b] !!! 0%nat) with a. change ([?a; ?b] !!! 1%nat) with b.
    assert (0 ≤ Z.shiftr n 24 < 128) as H24.
    { rewrite Z.shiftr_div_pow2 by lia. split; [apply Z.div_pos; lia|apply Z.div_lt_upper_bound; lia]. }
    destruct (byte_high_bit _ H24) as (-> & Hh & Hl & _).
    rewrite u8_id by (unfold is_byte; lia). rewrite Hh.
    eapply parses_bind_r; [by apply ReadFull_ok|].
    change ([?a; ?b] !!! 0%nat) with a. change ([?a; ?b] !!! 1%nat) with b. rewrite Hl.
    rewrite <-(u8_id (Z.shiftr n 24)) by (unfold is_byte; lia).
    rewrite <-le_bytes_shift by lia. fold (PutUint32 n).
    rewrite Uint32_PutUint32, u32_id by (unfold is_u32; lia). apply parses_ret.
  - simpl. destruct Hd as [Hd|Hd]; [by rewrite Hd in *|]. rewrite Hd in *. clear Hd.
    eapply parses_bind_r; [by apply ReadFull_ok|]. cbv zeta.
    change ([?a; ?b] !!! 0%nat) with a. change ([?a; ?b] !!! 1%nat) with b.
    set (d := n - prev) in *. assert (0 ≤ d ≤ 32767) by (apply andb_false_iff in E1; lia).
    assert (0 ≤ Z.shiftr d 8 < 128) as H8.
    { rewrite Z.shiftr_div_pow2 by lia. split; [apply Z.div_pos; lia|apply Z.div_lt_upper_bound; lia]. }
    rewrite u8_id by (unfold is_byte; lia).
    destruct (byte_high_bit _ H8) as (_ & _ & _ & ->).
    rewrite Hsum; [apply parses_ret|].
    rewrite Z.shiftl_mul_pow2, (u32_id (_ * _)) by (unfold is_u32; lia).
    unfold u8. rewrite Z.shiftr_div_pow2 by lia.
    pose proof (Z.div_mod d (2^8)). rewrite u32_id; [lia|].
    unfold is_u32. pose proof (Z.mod_pos_bound d (2^8)). lia.
Qed.

Lemma readNdxPositive_ok s n (neg : bool) fb more : ndx_wf s → 0 ≤ n < 2^31 →
  ndx_diff_bytes n (if neg then prevNegative s else prevPositive s) = fb :: more →
  reads r (readNdxPositive r fb neg) s more (if neg then - n else n)
    (if neg then mk_NdxState (prevPositive s) n else mk_NdxState n (prevNegative s)).
Proof.
  intros [Hp Hq] Hn Hb. unfold readNdxPositive.
  eapply reads_bind_0; [apply reads_get|]. cbv zeta.
  eapply reads_bind_r; [eapply reads_lift, readNdxNum_ok; [done|destruct neg; lia|done]|].
  destruct (Z.ltb_spec 2147483647 n); [lia|].
  rewrite i32_id by (unfold is_i32; lia).
  eapply reads_bind_0; [apply reads_modify|]. rewrite i32_id by (unfold is_i32; lia).
  destruct neg; apply reads_ret.
Qed.

Lemma ReadNdx_ok s ndx : ndx_wf s → -2^31 < ndx < 2^31 →
  reads r (ReadNdx r) s (ndx_bytes s ndx) ndx (ndx_next s ndx).
Proof.
  intros Hwf Hn. pose proof Hwf as [Hp Hq]. unfold ndx_bytes, ndx_next.
  destruct (Z.leb_spec 0 ndx); [|destruct (Z.eqb_spec ndx NDxDone) as [->|]].
  - destruct (ndx_diff_first ndx (prevPositive s)) as (fb & more & E & Hfb); [lia|lia|].
    rewrite E. apply (reads_bind _ _ _ _ s _ [fb] more [fb]); [by apply reads_lift, ReadFull_ok|].
    change ([fb] !!! 0%nat) with fb. cbv zeta.
    destruct (Z.eqb_spec fb 255); [lia|]. destruct (Z.eqb_spec fb 0); [lia|].
    apply (readNdxPositive_ok s ndx false); [done|lia|done].
  - eapply reads_bind_r; [by apply reads_lift, ReadFull_ok|]. apply reads_ret.
  - destruct (ndx_diff_first (- ndx) (prevNegative s)) as (fb & more & E & Hfb); [lia|lia|].
    rewrite E. apply (reads_bind _ _ _ _ s _ [255] (fb :: more) [255]);
      [by apply reads_lift, ReadFull_ok|]. simpl.
    apply (reads_bind _ _ _ _ s _ [fb] more [fb]); [by apply reads_lift, ReadFull_ok|].
    change ([fb] !!! 0%nat) with fb.
    pose proof (readNdxPositive_ok s (- ndx) true fb more Hwf ltac:(lia) E) as H1.
    by rewrite Z.opp_involutive in H1.
Qed.

Lemma WriteNdx_ok s ndx : -2^31 < ndx < 2^31 →
  writes w (WriteNdx w ndx) s (ndx_bytes s ndx) (ndx_next s ndx).
Proof.
  intros Hn. unfold WriteNdx. apply writes_get. unfold ndx_bytes, ndx_next.
  destruct (Z.leb_spec 0 ndx); [|destruct (Z.eqb_spec ndx NDxDone)].
  - apply (writes_seq _ _ _ _ (mk_NdxState ndx (prevNegative s)) _ []).
    + apply (writes_modify w (λ _, mk_NdxState ndx (prevNegative s))).
    + apply writes_lift, emits_write.
  - apply writes_lift, emits_write.
  - rewrite i32_id by (unfold is_i32; lia).
    apply (writes_seq _ _ _ _ (mk_NdxState (prevPositive s) (- ndx)) _ []).
    + apply (writes_modify w (λ _, mk_NdxState (prevPositive s) (- ndx))).
    + apply writes_lift, emits_write.
Qed.

Lemma ndx_next_wf s ndx : ndx_wf s → -2^31 < ndx < 2^31 → ndx_wf (ndx_next s ndx).
Proof.
  intros [??] ?. unfold ndx_next, ndx_wf. repeat case_if; b2p; simpl; lia.
Qed.
End ndxspecs.

(** ** Behaviour on arbitrary peer input *)
Lemma extra_of_ranges ch : is_byte ch →
  (ch < 248 → (extra_of ch ≤ 4)%nat) ∧ (248 ≤ ch < 252 → extra_of ch = 5%nat) ∧
  (252 ≤ ch → extra_of ch = 6%nat) ∧ (extra_of ch ≤ 6)%nat.
Proof.
  intros Hb.
  pose (P ch := if ch <? 248 then (Z.of_nat (extra_of ch) <=? 4) else
                if ch <? 252 then (Z.of_nat (extra_of ch) =? 5) else (Z.of_nat (extra_of ch) =? 6)).
  assert (P ch = true) as HP by (apply byte_forall; [by vm_compute|done]).
  unfold P in HP. destruct (Z.ltb_spec ch 248); [|destruct (Z.ltb_spec ch 252)]; b2p; lia.
Qed.

Section malicious.
Context {S : Type} (r : io_Reader S) `{!ReaderSpec r}.

Lemma ReadVarint_outcome s ch rest : stream r s (ch :: rest) → is_byte ch →
  match (ReadVarint r s).1 with
  | Ret v => ch < 248 ∧ is_i32 v
  | Fail e => ch < 252 ∧ (length rest < extra_of ch)%nat ∧ e = eof_error rest (fin r s)
  | Panic => 252 ≤ ch ∨ (248 ≤ ch ∧ (5 ≤ length rest)%nat)
  | NoFuel => False
  end.
Proof.
  intros Hs Hb. destruct (extra_of_ranges ch Hb) as (H1 & H2 & H3 & H4). unfold ReadVarint.
  destruct (ReadFull_ok r [ch] 1 eq_refl s rest Hs) as (s1 & E1 & Hs1 & Hf1 & _).
  rewrite (bind_Ret _ _ _ _ _ E1). cbv zeta. change ([ch] !!! 0%nat) with ch.
  destruct (Z.ltb_spec 5 (Z.of_nat (extra_of ch))); [simpl; lia|].
  unfold bind at 1. destruct (Z.ltb_spec 0 (Z.of_nat (extra_of ch))).
  - destruct (ReadFull_cases r (extra_of ch) s1 rest Hs1) as [(s2 & E2 & Hl & _)|(s2 & E2 & Hl & _)];
      rewrite E2, ?Hf1; simpl; [|split_and!; auto; lia].
    unfold varint_value. destruct (Z.leb_spec 5 (Z.of_nat (extra_of ch))); simpl; [right; lia|].
    split; [lia|apply i32_range].
  - simpl. unfold varint_value. destruct (Z.leb_spec 5 (Z.of_nat (extra_of ch))); [lia|].
    split; [lia|apply i32_range].
Qed.

Lemma varlong_value_some b2 m e more : (1 ≤ m)%nat → (m + e ≤ 9)%nat →
  ∃ v, varlong_value b2 m e more = Some v ∧ is_i64 v.
Proof.
  intros. unfold varlong_value. cbv zeta.
  repeat (case_if; b2p; try lia); eexists; (split; [done|apply i64_range]).
Qed.

Lemma ReadVarlong_outcome m s b2 rest : (3 ≤ m ≤ 4)%nat →
  stream r s (b2 ++ rest) → length b2 = m → bytes_ok b2 →
  let ch := b2 !!! 0%nat in
  match (ReadVarlong r m s).1 with
  | Ret v => (m = 4%nat → ch < 252) ∧ is_i64 v
  | Fail e => (length rest < extra_of ch)%nat ∧ e = eof_error rest (fin r s)
  | Panic => m = 4%nat ∧ 252 ≤ ch ∧ (6 ≤ length rest)%nat
  | NoFuel => False
  end.
Proof.
  intros Hm Hs Hl Hok ch.
  assert (is_byte ch) as Hb.
  { eapply Forall_lookup_1; [done|]. apply list_lookup_lookup_total_lt. lia. }
  destruct (extra_of_ranges ch Hb) as (H1 & H2 & H3 & H4). unfold ReadVarlong.
  destruct (ReadFull_ok r b2 m Hl s rest Hs) as (s1 & E1 & Hs1 & Hf1 & _).
  rewrite (bind_Ret _ _ _ _ _ E1). fold ch. destruct (Nat.eqb_spec m 0); [lia|]. cbv zeta.
  unfold bind at 1. destruct (Z.ltb_spec 0 (Z.of_nat (extra_of ch))).
  - destruct (ReadFull_cases r (extra_of ch) s1 rest Hs1) as [(s2 & E2 & Hlr & _)|(s2 & E2 & Hlr & _)];
      rewrite E2, ?Hf1; simpl; [|split_and!; auto; lia].
    destruct (decide (m + extra_of ch ≤ 9)%nat) as [Hle|Hgt].
    + destruct (varlong_value_some b2 m (extra_of ch) (take (extra_of ch) rest)) as (v & -> & ?); [lia|done|].
      simpl. split; [lia|done].
    + unfold varlong_value. cbv zeta. do 2 (case_if; b2p; try lia). simpl. lia.
  - destruct (varlong_value_some b2 m (extra_of ch) []) as (v & Hv & ?); [lia|lia|].
    simpl. rewrite Hv. simpl. split; [lia|done].
Qed.

(** ReadNdx on any input keeps its trackers in range. *)
Lemma readNdxNum_outcome s bs fb prev : stream r s bs → bytes_ok bs → is_byte fb →
  match (readNdxNum r fb prev s).1 with
  | Ret v => is_u32 v
  | Fail _ => True
  | _ => False
  end.
Proof.
  intros Hs Hok Hb. unfold readNdxNum. destruct (fb =? 254); [|apply Z.mod_pos_bound; lia].
  unfold bind at 1. destruct (ReadFull_cases r 2 s bs Hs) as [(s1 & E & Hl & Hs1 & _)|(s1 & E & _)];
    rewrite E; [|done].
  destruct bs as [|b0 [|b1 bs]]; [simpl in Hl; lia..|].
  change (take 2 (b0 :: b1 :: bs)) with [b0; b1].
  change ([?a; ?b] !!! 0%nat) with a. change ([?a; ?b] !!! 1%nat) with b. cbv zeta.
  destruct (has b0 128); [|apply Z.mod_pos_bound; lia].
  unfold bind at 1. destruct (ReadFull_cases r 2 s1 _ Hs1) as [(s2 & E2 & Hl2 & _)|(s2 & E2 & _)];
    rewrite E2; [|done].
  change (drop 2 (b0 :: b1 :: bs)) with bs in *.
  destruct bs as [|b2 [|b3 bs]]; [simpl in Hl2; lia..|]. simpl.
  unfold is_u32, Uint32. change (2^32) with (2 ^ (8 * Z.of_nat 4)).
  apply (le_val_bound [b1; b2; b3; Z.ldiff b0 128]).
  rewrite !Forall_cons in Hok |- *. destruct Hok as (Hb0 & Hb1 & Hb2 & Hb3 & _).
  split_and!; auto.
  pose (P b := (0 <=? Z.ldiff b 128) && (Z.ldiff b 128 <? 256)).
  assert (P b0 = true) as HP by (apply byte_forall; [by vm_compute|done]).
  unfold P in HP. b2p. unfold is_byte. lia.
Qed.

Lemma readNdxPositive_outcome o s bs fb neg : ndx_wf o → stream r s bs → bytes_ok bs → is_byte fb →
  match readNdxPositive r fb neg (o, s) with
  | (Ret v, (o', _)) => is_i32 v ∧ ndx_wf o'
  | (Fail _, (o', _)) => o' = o
  | _ => False
  end.
Proof.
  intros Hwf Hs Hok Hb. unfold readNdxPositive. rewrite bind_get. cbv zeta.
  set (prev := if neg then prevNegative o else prevPositive o).
  pose proof (readNdxNum_outcome s bs fb prev Hs Hok Hb) as H. unfold bind at 1, lift.
  destruct (readNdxNum r fb prev s) as [[v|e| |] s1]; simpl in H |- *; try done.
  destruct (Z.ltb_spec 2147483647 v); simpl; [done|]. unfold is_u32 in H.
  rewrite (i32_id v) by (unfold is_i32; lia).
  destruct Hwf as [??]. destruct neg; simpl;
    (split; [first [apply i32_range|unfold is_i32; lia]|unfold ndx_wf; simpl; lia]).
Qed.

Lemma ReadNdx_outcome o s bs : ndx_wf o → stream r s bs → bytes_ok bs →
  match ReadNdx r (o, s) with
  | (Ret v, (o', _)) => is_i32 v ∧ ndx_wf o'
  | (Fail _, (o', _)) => o' = o
  | _ => False
  end.
Proof.
  intros Hwf Hs Hok. unfold ReadNdx, bind at 1, lift at 1.
  destruct (ReadFull_cases r 1 s bs Hs) as [(s1 & E & Hl & Hs1 & _)|(s1 & E & _)]; rewrite E; [|done].
  destruct bs as [|b0 bs]; [simpl in Hl; lia|].
  change (take 1 (b0 :: bs)) with [b0]. change ([b0] !!! 0%nat) with b0. cbv zeta.
  change (drop 1 (b0 :: bs)) with bs in Hs1. apply Forall_cons in Hok as [Hb0 Hok].
  destruct (b0 =? 255).
  - unfold bind at 1, lift.
    destruct (ReadFull_cases r 1 s1 bs Hs1) as [(s2 & E2 & Hl2 & Hs2 & _)|(s2 & E2 & _)]; rewrite E2; [|done].
    destruct bs as [|b1 bs]; [simpl in Hl2; lia|].
    change (take 1 (b1 :: bs)) with [b1]. change ([b1] !!! 0%nat) with b1.
    change (drop 1 (b1 :: bs)) with bs in Hs2. apply Forall_cons in Hok as [Hb1 Hok].
    by apply (readNdxPositive_outcome o s2 bs).
  - destruct (b0 =? 0); [|by apply (readNdxPositive_outcome o s1 bs)].
    simpl. split; [|done]. unfold is_i32, NDxDone. lia.
Qed.
End malicious.

(** The bytes of a run of indices, each encoded against the ones before it. *)
Fixpoint ndx_seq_bytes (s : NdxState) (l : list Z) : bytes :=
  match l with
  | [] => []
  | n :: l' => ndx_bytes s n ++ ndx_seq_bytes (ndx_next s n) l'
  end.
Definition ndx_seq_next (s : NdxState) (l : list Z) : NdxState := foldl ndx_next s l.

Lemma WriteNdx_seq {S} (w : io_Writer S) `{!WriterSpec w} s l :
  Forall (λ n, -2^31 < n < 2^31) l →
  writes w (for_each l (WriteNdx w)) s (ndx_seq_bytes s l) (ndx_seq_next s l).
Proof.
  intros H. revert s. induction H as [|n l Hn _ IH]; intros s; simpl; [apply writes_ret|].
  eapply writes_seq; [by apply WriteNdx_ok|apply IH].
Qed.

Lemma ReadNdx_seq {S} (r : io_Reader S) `{!ReaderSpec r} s l :
  ndx_wf s → Forall (λ n, -2^31 < n < 2^31) l →
  reads r (times (length l) (ReadNdx r)) s (ndx_seq_bytes s l) l (ndx_seq_next s l).
Proof.
  intros Hs H. revert s Hs. induction H as [|n l Hn _ IH]; intros s Hs; simpl; [apply reads_ret|].
  eapply reads_bind; [by apply ReadNdx_ok|].
  eapply reads_bind_r; [by apply IH, ndx_next_wf|apply reads_ret].
Qed.

(** ** Properties *)
Section claims.
Context {S : Type} (r : io_Reader S) `{!ReaderSpec r}.
Context {S' : Type} (w : io_Writer S') `{!WriterSpec w}.

(** every int32 survives WriteVarint then ReadVarint: the writer sends at
    most five bytes and the reader, however the transport cuts them up,
    consumes exactly those and returns the value. *)
Theorem varint_roundtrip x : is_i32 x →
  emits w (WriteVarint w x) (varint_bytes x) ∧
  parses r (ReadVarint r) (varint_bytes x) x ∧
  (1 ≤ length (varint_bytes x) ≤ 5)%nat.
Proof.
  intros Hx. split; [apply WriteVarint_ok|]. split; [by apply ReadVarint_ok|].
  destruct (varint_value_ok x Hx) as (ch & more & -> & Hl & He & _). simpl. lia.
Qed.

(** every int64 survives WriteVarlong then ReadVarlong with the minimum
    lengths 3 and 4 the protocol uses (sizes and times). *)
Theorem varlong_roundtrip m x : (3 ≤ m ≤ 4)%nat → is_i64 x →
  ∃ bs, emits w (WriteVarlong w x (Z.of_nat m)) bs ∧ parses r (ReadVarlong r m) bs x ∧
    (m ≤ length bs ≤ 9)%nat.
Proof.
  intros Hm Hx. pose proof (varlong_bytes_vl x m Hm) as Hv. cbv zeta in Hv.
  eexists. split; [by apply WriteVarlong_ok|]. split; [by eapply ReadVarlong_ok|].
  cbn [length]. set (bs := le_bytes 8 (u64 x)). set (cnt := trim_zeros (0 :: bs) m 8).
  assert (length bs = 8%nat) as Hlen by apply length_le_bytes.
  destruct (trim_zeros_spec (0 :: bs) m 8) as [Hc Hz]; [lia|]. fold cnt in Hc, Hz.
  unfold vl_tail. case_if; rewrite length_take; lia.
Qed.

(** every int64 survives WriteLongInt then ReadLongInt, the sentinel value
    -1 and the other negative numbers included. *)
Theorem longint_roundtrip x : is_i64 x →
  emits w (WriteLongInt w x) (longint_bytes x) ∧
  parses r (ReadLongInt r) (longint_bytes x) x.
Proof. intros. split; [apply WriteLongInt_ok|by apply ReadLongInt_ok]. Qed.

(** C20: the compressed index stream: any sequence of indices (every int32 but
    the most negative one) written with one NdxState is read back unchanged
    with a fresh one, and the two trackers end equal. *)
Theorem ndx_stream_roundtrip l : Forall (λ n, -2^31 < n < 2^31) l →
  ∃ bs s', writes w (for_each l (WriteNdx w)) NewNdxState bs s' ∧
           reads r (times (length l) (ReadNdx r)) NewNdxState bs l s'.
Proof.
  intros H. eexists _, _. split; [by apply WriteNdx_seq|].
  apply ReadNdx_seq; [unfold ndx_wf; simpl; lia|done].
Qed.

(** C23: ReadNdx on arbitrary peer bytes either fails leaving its trackers as
    they were, or returns an int32 with both trackers in the int32 range;
    it never panics. *)
Theorem ReadNdx_safe o s bs : ndx_wf o → stream r s bs → bytes_ok bs →
  match ReadNdx r (o, s) with
  | (Ret v, (o', _)) => is_i32 v ∧ ndx_wf o'
  | (Fail _, (o', _)) => o' = o
  | _ => False
  end.
Proof. apply ReadNdx_outcome. Qed.

(** C24: ReadVarint panics exactly when the peer's first byte announces six
    extra bytes (0xFC and up) or announces five (0xF8 to 0xFB) and sends
    them; the five-byte array has no room for either. On every other first
    byte it returns an int32 or the end-of-stream error. *)
Theorem ReadVarint_panic_iff s ch rest : stream r s (ch :: rest) → is_byte ch →
  (ReadVarint r s).1 = Panic ↔ 252 ≤ ch ∨ (248 ≤ ch ∧ (5 ≤ length rest)%nat).
Proof.
  intros Hs Hb. pose proof (ReadVarint_outcome r s ch rest Hs Hb) as H.
  destruct (extra_of_ranges ch Hb) as (_ & H2 & _ & _).
  destruct (ReadVarint r s) as [[v|e| |] s1]; simpl in *; [| |tauto..].
  - split; [done|]. lia.
  - split; [done|]. destruct H as (? & ? & _). intros [?|[? ?]]; [lia|].
    rewrite H2 in *; lia.
Qed.

(** ReadVarlong with minimum length 3 (sizes) never panics; with minimum
    length 4 (times) it panics exactly when the first byte is 0xFC or more
    and the six announced extra bytes arrive. *)
Theorem ReadVarlong_panic_iff m s b2 rest : (3 ≤ m ≤ 4)%nat →
  stream r s (b2 ++ rest) → length b2 = m → bytes_ok b2 →
  (ReadVarlong r m s).1 = Panic ↔
    m = 4%nat ∧ 252 ≤ b2 !!! 0%nat ∧ (6 ≤ length rest)%nat.
Proof.
  intros Hm Hs Hl Hok. pose proof (ReadVarlong_outcome r m s b2 rest Hm Hs Hl Hok) as H.
  cbv zeta in H. set (ch := b2 !!! 0%nat) in *.
  assert (is_byte ch) as Hb.
  { eapply Forall_lookup_1; [done|]. apply list_lookup_lookup_total_lt. lia. }
  destruct (extra_of_ranges ch Hb) as (_ & _ & H3 & _).
  destruct (ReadVarlong r m s) as [[v|e| |] s1]; simpl in *; [| |tauto..].
  - split; [done|]. lia.
  - split; [done|]. destruct H as (? & _). intros (_ & ? & ?). rewrite H3 in *; lia.
Qed.
End claims.

(** ** Witnesses *)
Lemma varint_roundtrip_witness :
  parses conn_reader (ReadVarint conn_reader) (varint_bytes (-70000)) (-70000).
Proof.
  apply (varint_roundtrip conn_reader conn_writer (-70000)). unfold is_i32. lia.
Defined.

Lemma varlong_roundtrip_witness :
  ∃ bs, parses conn_reader (ReadVarlong conn_reader 3) bs (-1).
Proof.
  destruct (varlong_roundtrip conn_reader conn_writer 3 (-1)) as (bs & _ & H & _);
    [lia|unfold is_i64; lia|]. by exists bs.
Defined.

Lemma longint_roundtrip_witness :
  parses conn_reader (ReadLongInt conn_reader) (longint_bytes (-1)) (-1).
Proof. apply (longint_roundtrip conn_reader conn_writer (-1)). unfold is_i64. lia. Defined.

Lemma ndx_stream_roundtrip_witness :
  ∃ bs s', reads conn_reader (times 5 (ReadNdx conn_reader)) NewNdxState bs [0; 300; 5; -1; -7] s'.
Proof.
  destruct (ndx_stream_roundtrip conn_reader conn_writer [0; 300; 5; -1; -7])
    as (bs & s' & _ & H); [repeat constructor; lia|]. by exists bs, s'.
Defined.

Lemma ReadNdx_safe_witness :
  match ReadNdx conn_reader (NewNdxState, conn_of [254; 0; 0]) with
  | (Ret v, (o', _)) => is_i32 v ∧ ndx_wf o'
  | (Fail _, (o', _)) => o' = NewNdxState
  | _ => False
  end.
Proof.
  apply (ReadNdx_safe conn_reader NewNdxState (conn_of [254; 0; 0]) [254; 0; 0]).
  - unfold ndx_wf. simpl. lia.
  - done.
  - simpl. repeat constructor; unfold is_byte; lia.
Defined.

Lemma ReadVarint_panic_iff_witness :
  (ReadVarint conn_reader (conn_of [255])).1 = Panic.
Proof.
  apply (ReadVarint_panic_iff conn_reader (conn_of [255]) 255 []); [done|unfold is_byte; lia|lia].
Defined.

Lemma ReadVarlong_panic_iff_witness :
  (ReadVarlong conn_reader 4 (conn_of [252; 0; 0; 0; 0; 0; 0; 0; 0; 0])).1 = Panic.
Proof.
  apply (ReadVarlong_panic_iff conn_reader 4 _ [252; 0; 0; 0] [0; 0; 0; 0; 0; 0]);
    [lia|done|done|repeat constructor; unfold is_byte; lia|]. simpl. lia.
Defined.
