(* ===== verification/Selector.v ===== *)
(** * Length-prefixed strings and file selectors
    (protocol/vstring.go, protocol/selector.go)

    The vstring codec and the selector the generator sends (and the daemon
    echoes) for each file, on every protocol version. *)
From S2P Require Import Prelude.
From S2P Require Import GoIO.
From S2P Require Import WireInt.
#[local] Open Scope Z_scope.
#[local] Open Scope go_scope.

(** ** Definitions *)
Definition ItemBasisTypeFollows : Z := Z.shiftl 1 11.
Definition ItemXnameFollows : Z := Z.shiftl 1 12.
Definition ItemIsNew : Z := Z.shiftl 1 13.
Definition ItemTransfer : Z := Z.shiftl 1 15.
Definition ItemMissingData : Z := Z.shiftl 1 16.

Section vstring.
Context {S : Type}.

Definition WriteVstring (w : io_Writer S) (s : bytes) : M S unit :=
  let length := Z.of_nat (length s) in
  if 0x7FFF <? length then fail ErrShortWrite else
  (if 0x7F <? length
   then Write w [Z.lor (u8 (Z.shiftr length 8)) 0x80; u8 length]
   else Write w [u8 length]) ;;;
  if 0 <? length then Write w s else ret tt.

Definition ReadVstring (r : io_Reader S) : M S bytes :=
  let* b := ReadFull r 1 in
  let length := b !!! 0%nat in
  let* length :=
    (if has length 0x80 then
       let* b := ReadFull r 1 in
       ret (Z.lor (Z.shiftl (Z.land length 0x7F) 8) (b !!! 0%nat))
     else ret length) in
  if length =? 0 then ret [] else ReadFull r (Z.to_nat length).
End vstring.

Record Selector := mk_Selector {
  Ndx : Z;
  Iflags : Z;
  BasisType : byte;
  Xname : bytes;
}.

Section selector.
Context {S : Type}.

Definition ReadSelector (r : io_Reader S) (version : Z) : M (NdxState * S) Selector :=
  let* ndxVal := (if 30 <=? version then ReadNdx r else lift (ReadInt32 r)) in
  let* iflags :=
    (if (29 <=? version) && (0 <=? ndxVal) then lift (ReadUint16 r)
     else ret (Z.lor ItemTransfer ItemMissingData)) in
  let* basis :=
    (if has iflags ItemBasisTypeFollows then
       let* b := lift (ReadFull r 1) in ret (b !!! 0%nat)
     else ret 0) in
  let* xname := (if has iflags ItemXnameFollows then lift (ReadVstring r) else ret []) in
  ret (mk_Selector ndxVal iflags basis xname).

Definition WriteSelector (w : io_Writer S) (version : Z) (sel : Selector) : M (NdxState * S) unit :=
  (if 30 <=? version then WriteNdx w sel.(Ndx) else lift (WriteInt32 w sel.(Ndx))) ;;;
  (if (29 <=? version) && (0 <=? sel.(Ndx)) then lift (WriteUint16 w (u16 sel.(Iflags))) else ret tt) ;;;
  (if has sel.(Iflags) ItemBasisTypeFollows then lift (Write w [sel.(BasisType)]) else ret tt) ;;;
  (if has sel.(Iflags) ItemXnameFollows then lift (WriteVstring w sel.(Xname)) else ret tt).
End selector.

(** A selector whose optional fields the peer will look for: they are flagged
    in iflags, which only travel from protocol 29 on and with a real index. *)
Definition sel_ok (version : Z) (sel : Selector) : Prop :=
  -2^31 < sel.(Ndx) < 2^31 ∧
  is_byte sel.(BasisType) ∧ Z.of_nat (length sel.(Xname)) ≤ 0x7FFF ∧
  ((29 ≤ version ∧ 0 ≤ sel.(Ndx)) ∨
   (has sel.(Iflags) ItemBasisTypeFollows = false ∧ has sel.(Iflags) ItemXnameFollows = false)).

(** What the peer decodes: the low 16 bits of iflags, or the default. *)
Definition sel_seen (version : Z) (sel : Selector) : Selector :=
  let fl := has sel.(Iflags) in
  mk_Selector sel.(Ndx)
    (if (29 <=? version) && (0 <=? sel.(Ndx)) then u16 sel.(Iflags)
     else Z.lor ItemTransfer ItemMissingData)
    (if fl ItemBasisTypeFollows then sel.(BasisType) else 0)
    (if fl ItemXnameFollows then sel.(Xname) else []).

Definition vstring_bytes (s : bytes) : bytes :=
  let length := Z.of_nat (length s) in
  (if 0x7F <? length then [Z.lor (u8 (Z.shiftr length 8)) 0x80; u8 length] else [u8 length]) ++ s.

Definition sel_bytes (version : Z) (s : NdxState) (sel : Selector) : bytes :=
  (if 30 <=? version then ndx_bytes s sel.(Ndx) else PutUint32 (u32 sel.(Ndx))) ++
  (if (29 <=? version) && (0 <=? sel.(Ndx))
   then [u8 (u16 sel.(Iflags)); u8 (Z.shiftr (u16 sel.(Iflags)) 8)] else []) ++
  (if has sel.(Iflags) ItemBasisTypeFollows then [sel.(BasisType)] else []) ++
  (if has sel.(Iflags) ItemXnameFollows then vstring_bytes sel.(Xname) else []).

Definition sel_next (version : Z) (s : NdxState) (sel : Selector) : NdxState :=
  if 30 <=? version then ndx_next s sel.(Ndx) else s.

(** ** Lemmas *)
Lemma has_u16 x k : 0 ≤ k < 16 → has (u16 x) (Z.shiftl 1 k) = has x (Z.shiftl 1 k).
Proof.
  intros Hk. rewrite Z.shiftl_1_l, !has_pow2 by lia. unfold u16.
  by rewrite Z.mod_pow2_bits_low by lia.
Qed.

Lemma vstring_len_decode n : 128 ≤ n ≤ 0x7FFF →
  has (Z.lor (u8 (Z.shiftr n 8)) 0x80) 0x80 = true ∧
  Z.lor (Z.shiftl (Z.land (Z.lor (u8 (Z.shiftr n 8)) 0x80) 0x7F) 8) (u8 n) = n.
Proof.
  intros Hn.
  pose proof (shiftr8_bound n 7 ltac:(lia) ltac:(lia)) as H8. change (2^7) with 128 in H8.
  rewrite u8_id by (unfold is_byte; lia).
  destruct (byte_high_bit _ H8) as (-> & Hh & _). split; [done|].
  change 0x7F with (2^7 - 1). rewrite land_ones_mod by lia.
  replace ((Z.shiftr n 8 + 128) mod 2^7) with (Z.shiftr n 8).
  2:{ replace (Z.shiftr n 8 + 128) with (Z.shiftr n 8 + 1 * 2^7) by lia.
      rewrite Z.mod_add, Z.mod_small by lia. done. }
  by rewrite Z.lor_comm, lor_halves.
Qed.

Section specs.
Context {S : Type} (r : io_Reader S) `{!ReaderSpec r}.
Context {S' : Type} (w : io_Writer S') `{!WriterSpec w}.

Lemma WriteVstring_ok s : Z.of_nat (length s) ≤ 0x7FFF → emits w (WriteVstring w s) (vstring_bytes s).
Proof.
  intros Hl. unfold WriteVstring, vstring_bytes. cbv zeta.
  destruct (Z.ltb_spec 0x7FFF (Z.of_nat (length s))); [lia|].
  apply emits_seq; [case_if; apply emits_write|].
  case_if; b2p; [apply emits_write|]. destruct s; [apply emits_ret|simpl in *; lia].
Qed.

Lemma WriteVstring_too_long s st : 0x7FFF < Z.of_nat (length s) →
  WriteVstring w s st = (Fail ErrShortWrite, st).
Proof.
  intros Hl. unfold WriteVstring. cbv zeta.
  by destruct (Z.ltb_spec 0x7FFF (Z.of_nat (length s))); [|lia].
Qed.

Lemma ReadVstring_ok s : Z.of_nat (length s) ≤ 0x7FFF → parses r (ReadVstring r) (vstring_bytes s) s.
Proof.
  intros Hl. unfold ReadVstring, vstring_bytes. cbv zeta.
  assert (parses r (if Z.of_nat (length s) =? 0 then ret []
                    else ReadFull r (Z.to_nat (Z.of_nat (length s)))) s s) as Hbody.
  { case_if; b2p.
    - destruct s; [apply parses_ret|simpl in *; lia].
    - apply ReadFull_ok. lia. }
  destruct (Z.ltb_spec 0x7F (Z.of_nat (length s))) as [Hlong|Hshort].
  - destruct (vstring_len_decode (Z.of_nat (length s))) as [Hh Hd]; [lia|].
    set (b0 := Z.lor _ _) in *. set (b1 := u8 (Z.of_nat (length s))) in *.
    apply (parses_bind _ _ _ [b0] ([b1] ++ s) [b0]); [by apply ReadFull_ok|].
    change ([b0] !!! 0%nat) with b0. rewrite Hh.
    eapply parses_bind; [|exact Hbody].
    eapply parses_bind_r; [by apply (ReadFull_ok r [b1])|].
    change ([b1] !!! 0%nat) with b1. rewrite Hd. apply parses_ret.
  - rewrite u8_id by (unfold is_byte; lia).
    eapply parses_bind; [by apply ReadFull_ok|].
    change ([?a] !!! 0%nat) with a.
    destruct (byte_high_bit (Z.of_nat (length s))) as (_ & _ & _ & ->); [lia|].
    apply (parses_bind _ _ _ [] s (Z.of_nat (length s))); [apply parses_ret|exact Hbody].
Qed.

Lemma WriteSelector_ok version s sel : sel_ok version sel →
  writes w (WriteSelector w version sel) s (sel_bytes version s sel) (sel_next version s sel).
Proof.
  intros (Hn & Hb & Hx & _). unfold WriteSelector, sel_bytes, sel_next.
  set (s' := if 30 <=? version then ndx_next s (Ndx sel) else s).
  apply (writes_seq w _ _ _ s').
  { unfold s'. case_if; [by apply WriteNdx_ok|apply writes_lift, WriteInt32_ok]. }
  apply (writes_seq w _ _ _ s').
  { case_if; [apply writes_lift, WriteUint16_ok|apply writes_ret]. }
  apply (writes_seq w _ _ _ s').
  { case_if; [apply writes_lift, emits_write|apply writes_ret]. }
  case_if; [by apply writes_lift, WriteVstring_ok|apply writes_ret].
Qed.

Lemma ReadSelector_ok version s sel : sel_ok version sel → ndx_wf s →
  reads r (ReadSelector r version) s (sel_bytes version s sel) (sel_seen version sel)
    (sel_next version s sel).
Proof.
  intros (Hn & Hb & Hx & Hf) Hs. unfold ReadSelector, sel_bytes, sel_next, sel_seen.
  apply (reads_bind _ _ _ _ (if 30 <=? version then ndx_next s (Ndx sel) else s) _ _ _ (Ndx sel)).
  { case_if; [by apply ReadNdx_ok|]. apply reads_lift, ReadInt32_ok. unfold is_i32. lia. }
  set (s' := if 30 <=? version then ndx_next s (Ndx sel) else s).
  apply (reads_bind _ _ _ _ s' _ _ _
    (if (29 <=? version) && (0 <=? Ndx sel) then u16 (Iflags sel) else Z.lor ItemTransfer ItemMissingData)).
  { case_if; [|apply reads_ret].
    apply reads_lift, ReadUint16_ok. apply Z.mod_pos_bound. lia. }
  assert (∀ k, 11 ≤ k ≤ 12 →
    has (if (29 <=? version) && (0 <=? Ndx sel) then u16 (Iflags sel)
         else Z.lor ItemTransfer ItemMissingData) (Z.shiftl 1 k) = has (Iflags sel) (Z.shiftl 1 k)) as Hfl.
  { intros k Hk. destruct Hf as [[??]|[Hf1 Hf2]].
    - destruct (Z.leb_spec 29 version); [|lia]. destruct (Z.leb_spec 0 (Ndx sel)); [|lia].
      apply has_u16. lia.
    - case_if; [apply has_u16; lia|].
      assert (k = 11 ∨ k = 12) as [->| ->] by lia;
        [change (Z.shiftl 1 11) with ItemBasisTypeFollows; by rewrite Hf1
        |change (Z.shiftl 1 12) with ItemXnameFollows; by rewrite Hf2]. }
  unfold ItemBasisTypeFollows, ItemXnameFollows. rewrite !Hfl by lia.
  apply (reads_bind _ _ _ _ s' _ _ _
    (if has (Iflags sel) (Z.shiftl 1 11) then BasisType sel else 0)).
  2: apply (reads_bind_r _ _ _ _ s' _ _
       (if has (Iflags sel) (Z.shiftl 1 12) then Xname sel else [])); [|apply reads_ret].
  - case_if; [|apply reads_ret].
    eapply reads_bind_r; [by apply reads_lift, ReadFull_ok|]. apply reads_ret.
  - case_if; [by apply reads_lift, ReadVstring_ok|apply reads_ret].
Qed.
End specs.

(** ** Properties *)
Section claims.
Context {S : Type} (r : io_Reader S) `{!ReaderSpec r}.
Context {S' : Type} (w : io_Writer S') `{!WriterSpec w}.

(** the vstring codec: a string of at most 0x7FFF bytes round-trips on both
    sides of the one-byte/two-byte length boundary; a longer one is refused
    with io.ErrShortWrite and nothing is written. *)
Theorem vstring_roundtrip s :
  if Z.of_nat (length s) <=? 0x7FFF
  then emits w (WriteVstring w s) (vstring_bytes s) ∧ parses r (ReadVstring r) (vstring_bytes s) s
  else ∀ st, WriteVstring w s st = (Fail ErrShortWrite, st).
Proof.
  destruct (Z.leb_spec (Z.of_nat (length s)) 0x7FFF).
  - split; [by apply WriteVstring_ok|by apply ReadVstring_ok].
  - intros st. by apply (WriteVstring_too_long w).
Qed.

(** the selector codec on every protocol version: with the trackers of the
    two ends equal before, the reader consumes exactly the writer's bytes,
    decodes the selector (iflags cut to the 16 bits on the wire, or defaulted
    where they do not travel) and the trackers are equal after. *)
Theorem selector_roundtrip version s sel : sel_ok version sel → ndx_wf s →
  ∃ bs s', writes w (WriteSelector w version sel) s bs s' ∧
           reads r (ReadSelector r version) s bs (sel_seen version sel) s' ∧ ndx_wf s'.
Proof.
  intros Hsel Hs. eexists _, _. split; [by apply WriteSelector_ok|].
  split; [by apply ReadSelector_ok|].
  unfold sel_next. case_if; [|done]. apply ndx_next_wf; [done|apply Hsel].
Qed.
End claims.

(** ** Witness: a transfer request with an alternate basis and a name *)
Lemma selector_roundtrip_witness :
  ∃ bs s', reads conn_reader (ReadSelector conn_reader 31) NewNdxState bs
    (mk_Selector 7 (Z.lor ItemTransfer (Z.lor ItemBasisTypeFollows ItemXnameFollows)) 131 [102; 111]) s'.
Proof.
  destruct (selector_roundtrip conn_reader conn_writer 31 NewNdxState
    (mk_Selector 7 (Z.lor ItemTransfer (Z.lor ItemBasisTypeFollows ItemXnameFollows)) 131 [102; 111]))
    as (bs & s' & _ & H & _).
  - split; [simpl; lia|]. split; [unfold is_byte; simpl; lia|]. split; [simpl; lia|]. left. simpl. lia.
  - unfold ndx_wf. simpl. lia.
  - exists bs, s'. exact H.
Defined.
