(* ===== verification/Checksum.v ===== *)
(** * Checksums and sum heads (protocol/checksum.go)

    The rolling checksum in its unrolled form and its closed form, the strong
    block and file checksums over abstract MD4 and MD5, and the sum head with
    its validation. *)
From S2P Require Import Prelude.
From S2P Require Import GoIO.
From S2P Require Import WireInt.
#[local] Open Scope Z_scope.
#[local] Open Scope go_scope.

(** ** Definitions *)

(** The main loop takes four bytes at a time, the second loop the rest; the
    pair is (s1, s2) in uint32. *)
Fixpoint checksum1_tail (data : bytes) (s1 s2 : Z) : Z * Z :=
  match data with
  | [] => (s1, s2)
  | d :: data' => let s1' := u32 (s1 + d) in checksum1_tail data' s1' (u32 (s2 + s1'))
  end.

Fixpoint checksum1_loop (data : bytes) (s1 s2 : Z) : Z * Z :=
  match data with
  | d0 :: d1 :: d2 :: d3 :: data' =>
      checksum1_loop data'
        (u32 (s1 + (d0 + d1 + d2 + d3)))
        (u32 (s2 + (4 * (s1 + d0) + 3 * d1 + 2 * d2 + d3)))
  | _ => checksum1_tail data s1 s2
  end.

Definition Checksum1 (data : bytes) : Z :=
  let '(s1, s2) := checksum1_loop data 0 0 in
  Z.lor (Z.land s1 0xffff) (u32 (Z.shiftl s2 16)).

(** crypto/md5 and golang.org/x/crypto/md4, as functions of everything written
    to the hash; both produce 16 bytes. *)
Class Digests := {
  md4_sum : bytes → bytes;
  md5_sum : bytes → bytes;
  md4_len d : length (md4_sum d) = 16%nat;
  md5_len d : length (md5_sum d) = 16%nat;
}.

(** [h.Sum(nil)] of the named algorithm, [None] for an unsupported one. *)
Definition seed_bytes (seed : Z) : bytes := PutUint32 (u32 seed).

Section digests.
Context `{Digests}.

Definition Checksum2 (data : bytes) (digest : bytes) (s2Length : nat) (seed : Z) (seedFix : bool)
  : bytes :=
  let seeded := negb (seed =? 0) in
  let result :=
    if decide (digest = str "md4") then
      Some (md4_sum (data ++ if seeded then seed_bytes seed else []))
    else if decide (digest = str "md5") then
      Some (md5_sum ((if seeded && seedFix then seed_bytes seed else []) ++ data ++
                     (if seeded && negb seedFix then seed_bytes seed else [])))
    else None in
  match result with
  | None => []
  | Some result => if (Z.of_nat s2Length <? Z.of_nat (length result)) then take s2Length result else result
  end.

Definition FileChecksum (data : bytes) (digest : bytes) (version : Z) (seed : Z) : bytes :=
  if decide (digest = str "md4") then
    md4_sum ((if (version <? 30) && negb (seed =? 0) then seed_bytes seed else []) ++ data)
  else if decide (digest = str "md5") then md5_sum data
  else [].
End digests.

Definition SupportedDigests : list bytes := [str "md5"; str "md4"].

Record SumHead := mk_SumHead { Count : Z; BLength : Z; S2Length : Z; Remainder : Z }.

Definition sumhead_bytes (sh : SumHead) (version : Z) : bytes :=
  PutUint32 (u32 sh.(Count)) ++ PutUint32 (u32 sh.(BLength)) ++
  if 27 <=? version then PutUint32 (u32 sh.(S2Length)) ++ PutUint32 (u32 sh.(Remainder))
  else PutUint32 (u32 sh.(Remainder)).

Definition maxBlockLength (version : Z) : Z :=
  if 30 <=? version then Z.shiftl 1 17 else Z.shiftl 1 29.

Definition MaxStrongHashLength : Z := 16.

(** The guards of ReadSumHead, in order: the error, or [None]. *)
Definition sumhead_check (version : Z) (sh : SumHead) : option error :=
  if sh.(Count) <? 0 then Some (Errorf "invalid checksum count" [sh.(Count)])
  else if (sh.(BLength) <? 0) || (maxBlockLength version <? sh.(BLength)) then
    Some (Errorf "invalid block length" [sh.(BLength)])
  else if (0 <? sh.(Count)) && (sh.(BLength) =? 0) then Some (Errorf "invalid zero block length" [])
  else if (0 <? sh.(BLength)) && ((2^31 - 1) / sh.(BLength) <? sh.(Count)) then
    Some (Errorf "invalid checksum count (count*block length exceeds a file length)" [sh.(Count)])
  else if (27 <=? version) && ((sh.(S2Length) <? 0) || (MaxStrongHashLength <? sh.(S2Length))) then
    Some (Errorf "invalid checksum length" [sh.(S2Length)])
  else None.

Definition sumhead_fields (version : Z) (b : bytes) : SumHead :=
  let i off := i32 (Uint32 (drop off b)) in
  if 27 <=? version then mk_SumHead (i 0%nat) (i 4%nat) (i 8%nat) (i 12%nat)
  else mk_SumHead (i 0%nat) (i 4%nat) 0 (i 8%nat).

Section sumhead.
Context {S : Type}.

Definition WriteSumHead (w : io_Writer S) (sh : SumHead) (version : Z) : M S unit :=
  Write w (sumhead_bytes sh version).

Definition ReadSumHead (r : io_Reader S) (version : Z) : M S SumHead :=
  let n := if 27 <=? version then 16%nat else 12%nat in
  let* b := ReadFull r n in
  let sh := sumhead_fields version b in
  match sumhead_check version sh with
  | Some e => fail e
  | None => ret sh
  end.
End sumhead.

(** ** The rolling checksum in closed form *)

(** The sum of the bytes, and their sum weighted by distance from the end. *)
Definition bsum (data : bytes) : Z := foldr Z.add 0 data.
Fixpoint wsum (data : bytes) : Z :=
  match data with
  | [] => 0
  | d :: data' => Z.of_nat (length data) * d + wsum data'
  end.

Lemma u32_add_l a b : u32 (u32 a + b) = u32 (a + b).
Proof. unfold u32. apply Zplus_mod_idemp_l. Qed.
Lemma u32_add_r a b : u32 (a + u32 b) = u32 (a + b).
Proof. unfold u32. apply Zplus_mod_idemp_r. Qed.

Lemma u32_mul_r a b : u32 (a * u32 b) = u32 (a * b).
Proof. unfold u32. apply Zmult_mod_idemp_r. Qed.

Lemma u32_cong a a' b b' c : u32 a = u32 a' → u32 b = u32 b' → u32 (a + c * b) = u32 (a' + c * b').
Proof.
  intros Ha Hb. rewrite <-(u32_add_l a), <-(u32_add_l a'), <-(u32_add_r _ (c * b)), <-(u32_add_r _ (c * b')).
  rewrite <-(u32_mul_r c b), <-(u32_mul_r c b'). by rewrite Ha, Hb.
Qed.

Lemma checksum1_tail_ok data s1 s2 :
  checksum1_tail data (u32 s1) (u32 s2) =
    (u32 (s1 + bsum data), u32 (s2 + Z.of_nat (length data) * s1 + wsum data)).
Proof.
  revert s1 s2. induction data as [|d data IH]; intros s1 s2; simpl.
  - do 2 f_equal; lia.
  - rewrite u32_add_l, u32_add_r, u32_add_l. rewrite IH. unfold bsum. do 2 f_equal; simpl; lia.
Qed.

Lemma checksum1_loop_ok data s1 s2 :
  checksum1_loop data (u32 s1) (u32 s2) =
    (u32 (s1 + bsum data), u32 (s2 + Z.of_nat (length data) * s1 + wsum data)).
Proof.
  remember (length data) as n eqn:Hn. revert data s1 s2 Hn.
  induction (lt_wf n) as [n _ IH]. intros data s1 s2 ->.
  destruct data as [|d0 [|d1 [|d2 [|d3 data]]]]; try apply checksum1_tail_ok.
  cbn [checksum1_loop]. rewrite !u32_add_l.
  assert (u32 (s2 + (4 * (u32 s1 + d0) + 3 * d1 + 2 * d2 + d3)) =
          u32 (s2 + (4 * (s1 + d0) + 3 * d1 + 2 * d2 + d3))) as ->.
  { replace (s2 + (4 * (u32 s1 + d0) + 3 * d1 + 2 * d2 + d3))
      with ((s2 + 4 * d0 + 3 * d1 + 2 * d2 + d3) + 4 * u32 s1) by lia.
    replace (s2 + (4 * (s1 + d0) + 3 * d1 + 2 * d2 + d3))
      with ((s2 + 4 * d0 + 3 * d1 + 2 * d2 + d3) + 4 * s1) by lia.
    apply u32_cong; [done|apply u32_u32]. }
  rewrite (IH (length data)) by (simpl; lia). unfold bsum. do 2 f_equal; cbn [length wsum foldr]; lia.
Qed.

(** Low 16 bits survive the uint32 wrap-around. *)
Lemma u32_low16 x : Z.land (u32 x) 0xffff = x mod 2^16.
Proof.
  change 0xffff with (2^16 - 1). rewrite land_ones_mod by lia. unfold u32.
  apply Z.mod_mod_divide. by exists (2^16).
Qed.

Lemma u32_shl16 x : u32 (Z.shiftl (u32 x) 16) = (x mod 2^16) * 2^16.
Proof.
  rewrite Z.shiftl_mul_pow2 by lia. unfold u32. rewrite Zmult_mod_idemp_l.
  change (2^32) with (2^16 * 2^16). rewrite Z.mul_comm, Zmult_mod_distr_l. lia.
Qed.

Lemma lor_words a b : 0 ≤ a < 2^16 → Z.lor a (b * 2^16) = a + b * 2^16.
Proof.
  intros Ha. symmetry. apply Z.add_nocarry_lor. rewrite <-Z.shiftl_mul_pow2 by lia.
  apply Z.bits_inj'. intros n Hn. rewrite Z.land_spec, Z.bits_0, Z.shiftl_spec by lia.
  destruct (Z.ltb_spec n 16).
  - rewrite (Z.testbit_neg_r _ (n - 16)) by lia. apply andb_false_r.
  - rewrite <-(Z.mod_small a (2^16)) by lia. rewrite Z.mod_pow2_bits_high by lia. done.
Qed.

Lemma Checksum1_closed data :
  Checksum1 data = bsum data mod 2^16 + (wsum data mod 2^16) * 2^16.
Proof.
  unfold Checksum1. change 0 with (u32 0). rewrite checksum1_loop_ok.
  rewrite u32_low16, u32_shl16, lor_words by (apply Z.mod_pos_bound; lia).
  do 2 f_equal; f_equal; lia.
Qed.

(** Sliding a window of [k] bytes by one: drop [b0], append [bk]. *)
Lemma bsum_app a b : bsum (a ++ b) = bsum a + bsum b.
Proof. induction a; unfold bsum in *; simpl; lia. Qed.

Lemma wsum_snoc l x : wsum (l ++ [x]) = wsum l + bsum l + x.
Proof.
  induction l as [|y l IH]; simpl; [unfold bsum; simpl; lia|].
  rewrite IH, length_app. unfold bsum. simpl. lia.
Qed.

Lemma roll_window b0 mid bk :
  bsum (mid ++ [bk]) = bsum (b0 :: mid) - b0 + bk ∧
  wsum (mid ++ [bk]) =
    wsum (b0 :: mid) - Z.of_nat (length (b0 :: mid)) * b0 + bsum (mid ++ [bk]).
Proof. rewrite wsum_snoc, bsum_app. unfold bsum. simpl. lia. Qed.

(** ** Sum heads *)
Definition sumhead_ok (version : Z) (sh : SumHead) : Prop :=
  0 ≤ sh.(Count) ∧ 0 ≤ sh.(BLength) ≤ maxBlockLength version ∧
  (0 < sh.(Count) → 0 < sh.(BLength)) ∧ sh.(Count) * sh.(BLength) < 2^31 ∧
  0 ≤ sh.(S2Length) ≤ MaxStrongHashLength.

Lemma maxBlockLength_bound version : 2^17 ≤ maxBlockLength version ≤ 2^29.
Proof. unfold maxBlockLength. case_if; vm_compute; intuition discriminate. Qed.

Lemma sumhead_check_sound version sh :
  (version < 27 → sh.(S2Length) = 0) →
  sumhead_check version sh = None → sumhead_ok version sh.
Proof.
  intros Hs2. unfold sumhead_check, sumhead_ok, MaxStrongHashLength.
  repeat case_if; try done; intros _; b2p.
  assert (0 ≤ S2Length sh ≤ 16).
  { destruct (Z.leb_spec 27 version); [|rewrite Hs2 by lia; lia].
    simpl in *. b2p. lia. }
  split_and!; try lia.
  destruct (Z.ltb_spec 0 (BLength sh)); simpl in *; b2p; [|nia].
  pose proof (Z.mul_div_le (2^31 - 1) (BLength sh)). nia.
Qed.

Lemma sumhead_check_complete version sh : sumhead_ok version sh → sumhead_check version sh = None.
Proof.
  intros (Hc & Hb & Hz & Hm & Hs). unfold sumhead_check, MaxStrongHashLength in *.
  destruct (Z.ltb_spec (Count sh) 0); [lia|].
  destruct (Z.ltb_spec (BLength sh) 0); [lia|].
  destruct (Z.ltb_spec (maxBlockLength version) (BLength sh)); [lia|]. simpl.
  replace ((0 <? Count sh) && (BLength sh =? 0)) with false.
  2:{ destruct (Z.ltb_spec 0 (Count sh)), (Z.eqb_spec (BLength sh) 0); simpl; auto; lia. }
  replace ((0 <? BLength sh) && ((2^31 - 1) / BLength sh <? Count sh)) with false.
  2:{ destruct (Z.ltb_spec 0 (BLength sh)); simpl; [|done].
      destruct (Z.ltb_spec ((2^31 - 1) / BLength sh) (Count sh)) as [Hd|]; [|done].
      assert (Count sh ≤ (2^31 - 1) / BLength sh); [|lia].
      apply Z.div_le_lower_bound; lia. }
  replace ((S2Length sh <? 0) || (16 <? S2Length sh)) with false by lia.
  by rewrite andb_false_r.
Qed.

Lemma sumhead_fields_bytes version sh :
  is_i32 sh.(Count) → is_i32 sh.(BLength) → is_i32 sh.(S2Length) → is_i32 sh.(Remainder) →
  (version < 27 → sh.(S2Length) = 0) →
  sumhead_fields version (sumhead_bytes sh version) = sh.
Proof.
  intros H1 H2 H3 H4 Hs. unfold sumhead_fields, sumhead_bytes.
  assert (∀ a b : bytes, length a = 4%nat → Uint32 (a ++ b) = Uint32 a) as Hu.
  { intros a b Ha. unfold Uint32. by rewrite take_app_exact, (take_ge a) by lia. }
  assert (∀ v, length (PutUint32 v) = 4%nat) as Hl by (intros; apply length_le_bytes).
  assert (∀ x, is_i32 x → i32 (Uint32 (PutUint32 (u32 x))) = x) as Hi.
  { intros x Hx. by rewrite Uint32_PutUint32, u32_u32, i32_u32. }
  assert (∀ (a b : bytes) n, length a = 4%nat → drop (4 + n) (a ++ b) = drop n b) as Hd.
  { intros a b n Ha. rewrite <-Ha. apply drop_app_add. }
  unfold sumhead_fields. cbv zeta. destruct sh as [c b s2 rem]; cbn [Count BLength S2Length Remainder] in *.
  change 12%nat with (4 + (4 + (4 + 0)))%nat. change 8%nat with (4 + (4 + 0))%nat.
  change (drop 4) with (drop (A:=Z) (4 + 0)%nat).
  case_if; b2p; rewrite !Hd, !drop_0, !Hu, !Hi by auto; [done|].
  by rewrite (Hs ltac:(lia)).
Qed.

Lemma length_sumhead_bytes sh version :
  length (sumhead_bytes sh version) = if 27 <=? version then 16%nat else 12%nat.
Proof. unfold sumhead_bytes, PutUint32. case_if; by rewrite !length_app, !length_le_bytes. Qed.

Section specs.
Context {S : Type} (r : io_Reader S) `{!ReaderSpec r}.
Context {S' : Type} (w : io_Writer S') `{!WriterSpec w}.

(** Reading back the head of a writer: accepted exactly when the guards pass. *)
Lemma ReadSumHead_bytes version sh :
  is_i32 sh.(Count) → is_i32 sh.(BLength) → is_i32 sh.(S2Length) → is_i32 sh.(Remainder) →
  (version < 27 → sh.(S2Length) = 0) → sumhead_check version sh = None →
  parses r (ReadSumHead r version) (sumhead_bytes sh version) sh.
Proof.
  intros H1 H2 H3 H4 Hs Hc. unfold ReadSumHead.
  eapply parses_bind_r; [apply ReadFull_ok, length_sumhead_bytes|]. cbv zeta.
  rewrite sumhead_fields_bytes by done. rewrite Hc. apply parses_ret.
Qed.

(** C22: ReadSumHead on arbitrary peer bytes never panics, and a head it accepts
    has a non-negative count, a block length within the version's cap and
    positive when there are blocks, a count*blength product below 2^31, and a
    strong-hash length of at most 16. *)
Theorem ReadSumHead_validates version s : readable r s →
  match (ReadSumHead r version s).1 with
  | Ret sh => sumhead_ok version sh ∧ is_i32 sh.(Remainder)
  | Fail _ => True
  | _ => False
  end.
Proof.
  intros Hr. unfold ReadSumHead, bind. set (n := if 27 <=? version then 16%nat else 12%nat).
  destruct (ReadFull_cases r n s (pending r s)) as [(s1 & -> & _)|(s1 & -> & _)]; [done| |done].
  set (sh := sumhead_fields version _).
  destruct (sumhead_check version sh) eqn:E; [done|]. simpl.
  assert (is_i32 (Remainder sh)) by (unfold sh, sumhead_fields; case_if; apply i32_range).
  split; [|done]. apply sumhead_check_sound; [|done].
  intros Hv. unfold sh, sumhead_fields. by destruct (Z.leb_spec 27 version); [lia|].
Qed.

(** a valid sum head survives WriteSumHead then ReadSumHead on both wire
    layouts (16 bytes from protocol 27 on, 12 before). *)
Theorem sumhead_roundtrip version sh :
  sumhead_ok version sh → is_i32 sh.(Remainder) → (version < 27 → sh.(S2Length) = 0) →
  emits w (WriteSumHead w sh version) (sumhead_bytes sh version) ∧
  parses r (ReadSumHead r version) (sumhead_bytes sh version) sh.
Proof.
  intros Hok Hr Hs. split; [apply emits_write|].
  pose proof (sumhead_check_complete version sh Hok) as Hc.
  destruct Hok as (H1 & H2 & H3 & H4 & H5). pose proof (maxBlockLength_bound version).
  unfold MaxStrongHashLength in *.
  assert (Count sh < 2^31).
  { destruct (Z.eq_dec (Count sh) 0); [lia|]. specialize (H3 ltac:(lia)). nia. }
  apply ReadSumHead_bytes; auto; unfold is_i32; lia.
Qed.
End specs.

(** C21: the unrolled rolling checksum is the Adler-style pair in closed form:
    the low half is the byte sum modulo 2^16, the high half the sum of the
    bytes weighted by their distance from the end, for data of any length and
    uint32 overflow notwithstanding. *)
Theorem Checksum1_spec data :
  Checksum1 data = bsum data mod 2^16 + (wsum data mod 2^16) * 2^16.
Proof. apply Checksum1_closed. Qed.

(** ** Witnesses *)
Lemma ReadSumHead_validates_witness :
  ∃ sh, (ReadSumHead conn_reader 31 (conn_of (sumhead_bytes (mk_SumHead 3 700 16 120) 31))).1 = Ret sh ∧
    sumhead_ok 31 sh ∧ is_i32 sh.(Remainder).
Proof.
  pose proof (ReadSumHead_validates conn_reader 31 (conn_of (sumhead_bytes (mk_SumHead 3 700 16 120) 31)) I) as H.
  destruct (ReadSumHead conn_reader 31 _).1 as [sh|e| |] eqn:E; [by exists sh|vm_compute in E; discriminate E..].
Defined.

Lemma sumhead_roundtrip_witness :
  parses conn_reader (ReadSumHead conn_reader 31)
    (sumhead_bytes (mk_SumHead 3 700 16 120) 31) (mk_SumHead 3 700 16 120).
Proof.
  apply (sumhead_roundtrip conn_reader conn_writer 31 (mk_SumHead 3 700 16 120)); simpl.
  - unfold sumhead_ok. pose proof (maxBlockLength_bound 31). unfold MaxStrongHashLength. simpl. lia.
  - unfold is_i32. lia.
  - lia.
Defined.
