(* ===== verification/Delta.v ===== *)
(** * The delta token stream (protocol/delta.go)

    DeltaWriter and DeltaReader of the uncompressed token format: literal runs
    cut into 32KB chunks, block references, and the end marker. *)
From S2P Require Import Prelude.
From S2P Require Import GoIO.
From S2P Require Import WireInt.
#[local] Open Scope Z_scope.
#[local] Open Scope go_scope.

(** ** Definitions *)
Definition deltaChunkSize : Z := 32 * 1024.

(** [n := len(data); if n > deltaChunkSize { n = deltaChunkSize }] *)
Definition chunk_len (n : Z) : Z := if deltaChunkSize <? n then deltaChunkSize else n.

Section writer.
Context {S : Type} (w : io_Writer S).

(** Each round sends at least one byte: [length data] rounds are enough. *)
Fixpoint write_literal_loop (fuel : nat) (data : bytes) : M S unit :=
  if 0 <? Z.of_nat (length data) then
    match fuel with
    | O => nofuel
    | Datatypes.S fuel' =>
      let n := chunk_len (Z.of_nat (length data)) in
      Write w (PutUint32 (u32 n)) ;;;
      Write w (take (Z.to_nat n) data) ;;;
      write_literal_loop fuel' (drop (Z.to_nat n) data)
    end
  else ret tt.

Definition WriteLiteral (data : bytes) : M S unit := write_literal_loop (length data) data.

Definition WriteMatch (blockIdx : Z) : M S unit :=
  Write w (PutUint32 (u32 (i32 (i32 (- blockIdx) - 1)))).

Definition WriteEnd : M S unit := Write w (PutUint32 0).
End writer.

(** The buffer [buf] is only ever filled and handed out slice by slice, so the
    model keeps its length. *)
Record DeltaReader := mk_DeltaReader { residue : Z; buf_len : Z; bufOff : Z }.
Definition NewDeltaReader : DeltaReader := mk_DeltaReader 0 0 0.

(** The slice [buf[off:off+n]] read in full; a bad slice bound panics, a read
    error drops the literal. Then the residue shrinks. *)
Definition read_chunk {S} (r : io_Reader S) : M (DeltaReader * S) bytes :=
  let* d := get in
  let n := chunk_len d.(residue) in
  if d.(buf_len) <? d.(bufOff) + n then panic else
  let* data := (λ st, match lift (ReadFull r (Z.to_nat n)) st with
                      | (Fail e, (d', s')) => (Fail e, (mk_DeltaReader 0 0 d'.(bufOff), s'))
                      | x => x
                      end) in
  modify (λ d, mk_DeltaReader (d.(residue) - n) d.(buf_len) (d.(bufOff) + n)) ;;;
  ret data.

(** The result is [(data, blockIdx, isEnd)]; [data] is [None] for nil. *)
Definition ReadToken {S} (r : io_Reader S) : M (DeltaReader * S) (option bytes * Z * bool) :=
  let* d := get in
  if 0 <? d.(residue) then
    let* data := read_chunk r in ret (Some data, 0, false)
  else
    let* b := lift (ReadFull r 4) in
    let val := i32 (Uint32 b) in
    if val =? 0 then ret (None, -1, true)
    else if val <? 0 then ret (None, i32 (i32 (- val) - 1), false)
    else
      put (mk_DeltaReader val val 0) ;;;
      let* data := read_chunk r in
      ret (Some data, 0, false).

(** A command of the stream; a nil Literal means a block reference. *)
Record DeltaToken := mk_DeltaToken { Literal : option bytes; BlockIdx : Z }.

(** The loop of ParseDeltaStream, the tokens so far in [acc]. *)
Fixpoint parse_delta_loop {S} (fuel : nat) (r : io_Reader S) (acc : list DeltaToken)
  : M (DeltaReader * S) (list DeltaToken) :=
  match fuel with
  | O => nofuel
  | Datatypes.S fuel' =>
    let* (data, blockIdx, isEnd) := ReadToken r in
    if isEnd : bool then ret acc else
    match data with
    | Some cp => parse_delta_loop fuel' r (acc ++ [mk_DeltaToken (Some cp) 0])
    | None => parse_delta_loop fuel' r (acc ++ [mk_DeltaToken None blockIdx])
    end
  end.

Definition ParseDeltaStream {S} (fuel : nat) (r : io_Reader S) : M S (list DeltaToken) := λ s,
  let '(o, (_, s')) := parse_delta_loop fuel r [] (NewDeltaReader, s) in (o, s').

Definition write_token {S} (w : io_Writer S) (t : DeltaToken) : M S unit :=
  match t.(Literal) with
  | Some data => WriteLiteral w data
  | None => WriteMatch w t.(BlockIdx)
  end.

Definition WriteDeltaStream {S} (w : io_Writer S) (tokens : list DeltaToken) : M S unit :=
  for_each tokens (write_token w) ;;; WriteEnd w.

(** ** What the stream means *)

(** The chunks a literal is sent in. *)
Fixpoint chunks_of (fuel : nat) (data : bytes) : list bytes :=
  match fuel with
  | O => []
  | Datatypes.S fuel' =>
    if 0 <? Z.of_nat (length data) then
      let n := Z.to_nat (chunk_len (Z.of_nat (length data))) in
      take n data :: chunks_of fuel' (drop n data)
    else []
  end.
Definition chunks (data : bytes) : list bytes := chunks_of (length data) data.

Definition chunk_bytes (c : bytes) : bytes := PutUint32 (u32 (Z.of_nat (length c))) ++ c.

Definition match_bytes (idx : Z) : bytes := PutUint32 (u32 (- idx - 1)).

Definition token_bytes (t : DeltaToken) : bytes :=
  match t.(Literal) with
  | Some data => concat (chunk_bytes <$> chunks data)
  | None => match_bytes t.(BlockIdx)
  end.

Definition token_ok (t : DeltaToken) : Prop :=
  match t.(Literal) with Some _ => True | None => 0 ≤ t.(BlockIdx) < 2^31 end.

(** The tokens a reader sees for one that was written: a literal arrives as
    its chunks, an empty literal not at all. *)
Definition token_seen (t : DeltaToken) : list DeltaToken :=
  match t.(Literal) with
  | Some data => (λ c, mk_DeltaToken (Some c) 0) <$> chunks data
  | None => [mk_DeltaToken None t.(BlockIdx)]
  end.

(** ** Lemmas *)
Lemma chunk_len_range n : 0 < n → 0 < chunk_len n ≤ n ∧ chunk_len n ≤ deltaChunkSize.
Proof. unfold chunk_len, deltaChunkSize. case_if; b2p; lia. Qed.

Lemma chunks_of_concat fuel data : (length data ≤ fuel)%nat → concat (chunks_of fuel data) = data.
Proof.
  revert data. induction fuel as [|fuel IH]; intros data Hf; simpl.
  { destruct data; [done|simpl in *; lia]. }
  case_if; b2p; [|destruct data; [done|simpl in *; lia]].
  pose proof (chunk_len_range (Z.of_nat (length data))). simpl.
  rewrite IH by (rewrite length_drop; lia). apply take_drop.
Qed.

Lemma chunks_concat data : concat (chunks data) = data.
Proof. by apply chunks_of_concat. Qed.

Lemma chunks_of_bound fuel data :
  Forall (λ c, 0 < Z.of_nat (length c) ≤ deltaChunkSize) (chunks_of fuel data).
Proof.
  revert data. induction fuel as [|fuel IH]; intros data; simpl; [constructor|].
  case_if; b2p; [|constructor]. constructor; [|apply IH].
  pose proof (chunk_len_range (Z.of_nat (length data))). rewrite length_take. lia.
Qed.

Section specs.
Context {S : Type} (r : io_Reader S) `{!ReaderSpec r}.
Context {S' : Type} (w : io_Writer S') `{!WriterSpec w}.

Lemma write_literal_loop_ok fuel data : (length data ≤ fuel)%nat →
  emits w (write_literal_loop w fuel data) (concat (chunk_bytes <$> chunks_of fuel data)).
Proof.
  revert data. induction fuel as [|fuel IH]; intros data Hf; simpl.
  { destruct data; [apply emits_ret|simpl in *; lia]. }
  case_if; b2p; [|apply emits_ret].
  pose proof (chunk_len_range (Z.of_nat (length data))).
  cbn [fmap list_fmap concat]. unfold chunk_bytes at 1. rewrite <-app_assoc, length_take.
  rewrite Nat.min_l, Z2Nat.id by lia.
  apply emits_seq; [apply emits_write|]. apply emits_seq; [apply emits_write|].
  apply IH. rewrite length_drop. lia.
Qed.

Lemma WriteLiteral_ok data : emits w (WriteLiteral w data) (concat (chunk_bytes <$> chunks data)).
Proof. by apply write_literal_loop_ok. Qed.

Lemma WriteMatch_ok idx : 0 ≤ idx < 2^31 → emits w (WriteMatch w idx) (match_bytes idx).
Proof.
  intros Hi. unfold WriteMatch, match_bytes.
  rewrite (i32_id (- idx)) by (unfold is_i32; lia). rewrite i32_id by (unfold is_i32; lia).
  apply emits_write.
Qed.

Lemma write_token_ok t : token_ok t → emits w (write_token w t) (token_bytes t).
Proof.
  unfold token_ok, write_token, token_bytes. destruct (Literal t); intros H;
    [apply WriteLiteral_ok|by apply WriteMatch_ok].
Qed.

Lemma WriteDeltaStream_ok tokens : Forall token_ok tokens →
  emits w (WriteDeltaStream w tokens) (concat (token_bytes <$> tokens) ++ PutUint32 0).
Proof.
  intros H. apply emits_seq; [|apply emits_write]. apply emits_for_each.
  intros t Ht. apply write_token_ok. by eapply (Forall_forall token_ok tokens).
Qed.

(** A fresh chunk: the four-byte length and the data. *)
Lemma ReadToken_chunk d c : d.(residue) = 0 → 0 < Z.of_nat (length c) ≤ deltaChunkSize →
  reads r (ReadToken r) d (chunk_bytes c) (Some c, 0, false)
    (mk_DeltaReader 0 (Z.of_nat (length c)) (Z.of_nat (length c))).
Proof.
  intros Hd Hc. set (L := Z.of_nat (length c)) in *. unfold deltaChunkSize in Hc.
  eapply reads_bind_0; [apply reads_get|]. rewrite Hd. simpl.
  unfold chunk_bytes. fold L. eapply reads_bind; [by apply reads_lift, ReadFull_ok, length_le_bytes|].
  rewrite Uint32_PutUint32, u32_u32, i32_u32 by (unfold is_i32; lia). cbv zeta.
  destruct (Z.eqb_spec L 0); [lia|]. destruct (Z.ltb_spec L 0); [lia|].
  eapply reads_bind_0; [apply reads_put|].
  eapply reads_bind_r; [|apply reads_ret].
  eapply reads_bind_0; [apply reads_get|]. cbn [residue buf_len bufOff]. cbv zeta.
  assert (chunk_len L = L) as HL by (unfold chunk_len, deltaChunkSize; case_if; b2p; lia).
  rewrite !HL, Z.add_0_l, Z.ltb_irrefl.
  eapply reads_bind_r.
  { intros s rest Hs. destruct (reads_lift r (ReadFull r (Z.to_nat L)) (mk_DeltaReader L L 0) c c) with (s := s) (rest := rest)
      as (s' & E & ?); [apply ReadFull_ok; lia|done|]. exists s'. rewrite E. done. }
  eapply reads_bind_0; [apply reads_modify|]. cbn [residue buf_len bufOff].
  rewrite Z.sub_diag, Z.add_0_l. apply reads_ret.
Qed.

Lemma ReadToken_match d idx : d.(residue) = 0 → 0 ≤ idx < 2^31 →
  reads r (ReadToken r) d (match_bytes idx) (None, idx, false) d.
Proof.
  intros Hd Hi. eapply reads_bind_0; [apply reads_get|]. rewrite Hd. simpl.
  eapply reads_bind_r; [by apply reads_lift, ReadFull_ok, length_le_bytes|].
  unfold match_bytes. rewrite Uint32_PutUint32, u32_u32, i32_u32 by (unfold is_i32; lia). cbv zeta.
  destruct (Z.eqb_spec (- idx - 1) 0); [lia|]. destruct (Z.ltb_spec (- idx - 1) 0); [|lia].
  replace (i32 (i32 (- (- idx - 1)) - 1)) with idx; [apply reads_ret|].
  destruct (Z.eq_dec idx (2^31 - 1)) as [->|]; [done|].
  rewrite (i32_id (- _)) by (unfold is_i32; lia). rewrite i32_id by (unfold is_i32; lia). lia.
Qed.

Lemma ReadToken_end d : d.(residue) = 0 →
  reads r (ReadToken r) d (PutUint32 0) (None, -1, true) d.
Proof.
  intros Hd. eapply reads_bind_0; [apply reads_get|]. rewrite Hd. simpl.
  eapply reads_bind_r; [by apply reads_lift, ReadFull_ok, length_le_bytes|]. apply reads_ret.
Qed.
End specs.

(** Invariant of the reader: the unread part of the literal is the unread part
    of its buffer. *)
Definition dr_wf (d : DeltaReader) : Prop :=
  0 ≤ d.(residue) ∧ 0 ≤ d.(bufOff) ∧ (0 < d.(residue) → d.(bufOff) + d.(residue) = d.(buf_len)).

(** A command as some sender puts it on the wire: a literal of any length in
    one token, or a block reference. *)
Inductive wire_cmd := WLit (data : bytes) | WMatch (idx : Z).
Definition wire_cmd_ok (c : wire_cmd) : Prop :=
  match c with WLit data => 0 < Z.of_nat (length data) < 2^31 | WMatch idx => 0 ≤ idx < 2^31 end.
Definition wire_cmd_bytes (c : wire_cmd) : bytes :=
  match c with WLit data => chunk_bytes data | WMatch idx => match_bytes idx end.
Definition wire_cmd_tokens (c : wire_cmd) : list DeltaToken :=
  match c with
  | WLit data => (λ c, mk_DeltaToken (Some c) 0) <$> chunks data
  | WMatch idx => [mk_DeltaToken None idx]
  end.

Lemma chunks_of_more fuel fuel' data :
  (length data ≤ fuel)%nat → (length data ≤ fuel')%nat → chunks_of fuel data = chunks_of fuel' data.
Proof.
  revert fuel' data. induction fuel as [|fuel IH]; intros [|fuel'] data H H'; simpl; auto.
  - destruct data; [done|simpl in *; lia].
  - destruct data; [done|simpl in *; lia].
  - case_if; b2p; [|done]. f_equal. pose proof (chunk_len_range (Z.of_nat (length data))).
    apply IH; rewrite length_drop; lia.
Qed.

Lemma chunks_cons data : 0 < Z.of_nat (length data) →
  let n := Z.to_nat (chunk_len (Z.of_nat (length data))) in
  chunks data = take n data :: chunks (drop n data).
Proof.
  intros H n. unfold chunks at 1. destruct data as [|b data]; [simpl in *; lia|].
  cbn [length chunks_of]. change (S (length data)) with (length (b :: data)).
  destruct (Z.ltb_spec 0 (Z.of_nat (length (b :: data)))); [|lia]. f_equal.
  pose proof (chunk_len_range (Z.of_nat (length (b :: data)))).
  apply chunks_of_more; [|done]. rewrite length_drop. simpl in *. lia.
Qed.

Section reader.
Context {S : Type} (r : io_Reader S) `{!ReaderSpec r}.

Lemma read_chunk_ok d data : dr_wf d → d.(residue) = Z.of_nat (length data) → 0 < d.(residue) →
  let n := chunk_len d.(residue) in
  reads r (read_chunk r) d (take (Z.to_nat n) data) (take (Z.to_nat n) data)
    (mk_DeltaReader (d.(residue) - n) d.(buf_len) (d.(bufOff) + n)).
Proof.
  intros (H1 & H2 & H3) Hd Hpos n. specialize (H3 Hpos).
  pose proof (chunk_len_range _ Hpos) as Hn. fold n in Hn.
  eapply reads_bind_0; [apply reads_get|]. cbv zeta. fold n.
  destruct (Z.ltb_spec (buf_len d) (bufOff d + n)); [lia|].
  eapply reads_bind_r.
  { intros s rest Hs.
    destruct (reads_lift r (ReadFull r (Z.to_nat n)) d (take (Z.to_nat n) data) (take (Z.to_nat n) data))
      with (s := s) (rest := rest) as (s' & E & ?); [apply ReadFull_ok; rewrite length_take; lia|done|].
    exists s'. rewrite E. done. }
  eapply reads_bind_0; [apply reads_modify|]. apply reads_ret.
Qed.

(** The rest of a literal arrives as its chunks. *)
Lemma parse_residue fuel acc data d more ts P :
  dr_wf d → d.(residue) = Z.of_nat (length data) →
  (∀ d1, dr_wf d1 → d1.(residue) = 0 →
     reads_post r (parse_delta_loop fuel r (acc ++ ((λ c, mk_DeltaToken (Some c) 0) <$> chunks data)))
       d1 more ts P) →
  reads_post r (parse_delta_loop (length (chunks data) + fuel) r acc) d (data ++ more) ts P.
Proof.
  remember (length data) as n eqn:Hn. revert data d acc Hn.
  induction (lt_wf n) as [n _ IH]. intros data d acc -> Hwf Hd Hk.
  destruct (decide (data = [])) as [->|Hne].
  { specialize (Hk d Hwf Hd). by rewrite app_nil_r in Hk. }
  assert (0 < Z.of_nat (length data)) as Hpos by (destruct data; simpl in *; [done|lia]).
  pose proof (chunk_len_range _ Hpos) as Hc.
  rewrite (chunks_cons data Hpos) in Hk |- *. cbv zeta in Hk |- *.
  set (k := Z.to_nat (chunk_len (Z.of_nat (length data)))) in *.
  cbn [length Nat.add]. rewrite <-(take_drop k data) at 2. rewrite <-app_assoc.
  cbn [parse_delta_loop]. eapply reads_post_bind.
  { eapply reads_bind_0; [apply reads_get|].
    destruct (Z.ltb_spec 0 (residue d)); [|lia].
    eapply reads_bind_r; [|apply reads_ret].
    pose proof (read_chunk_ok d data Hwf Hd ltac:(lia)) as Hr. cbv zeta in Hr.
    rewrite Hd in Hr. exact Hr. }
  cbn iota beta. apply IH with (length (drop k data)).
  - rewrite length_drop. lia.
  - done.
  - destruct Hwf as (? & ? & Hw). unfold dr_wf. cbn [residue buf_len bufOff]. lia.
  - cbn [residue]. rewrite length_drop. lia.
  - intros d1 Hd1 Hz. specialize (Hk d1 Hd1 Hz). cbn [fmap list_fmap] in Hk.
    by rewrite <-app_assoc.
Qed.

Lemma parse_delta_loop_ok cmds : Forall wire_cmd_ok cmds → ∀ fuel acc d,
  (length (cmds ≫= wire_cmd_tokens) < fuel)%nat → dr_wf d → d.(residue) = 0 →
  reads_post r (parse_delta_loop fuel r acc) d (concat (wire_cmd_bytes <$> cmds) ++ PutUint32 0)
    (acc ++ (cmds ≫= wire_cmd_tokens)) (λ d', residue d' = 0).
Proof.
  induction 1 as [|c cmds Hc _ IH]; intros fuel acc d Hf Hwf Hd.
  - destruct fuel as [|fuel]; [simpl in *; lia|]. simpl. rewrite app_nil_r.
    eapply reads_post_intro; [|exact Hd].
    eapply reads_bind_r; [by apply ReadToken_end|]. apply reads_ret.
  - cbn [mbind list_bind] in Hf |- *. rewrite length_app in Hf.
    cbn [fmap list_fmap concat]. rewrite <-app_assoc. destruct c as [data|idx].
    + cbn [wire_cmd_ok wire_cmd_bytes wire_cmd_tokens] in *. rewrite length_fmap in Hf.
      destruct fuel as [|fuel]; [lia|].
      unfold chunk_bytes. rewrite <-app_assoc.
      set (L := Z.of_nat (length data)) in *.
      (* the header leaves the reader with the whole literal as residue *)
      assert (∀ more ts P,
        reads_post r (parse_delta_loop (Datatypes.S fuel) r acc) (mk_DeltaReader L L 0) (data ++ more) ts P →
        reads_post r (parse_delta_loop (Datatypes.S fuel) r acc) d (PutUint32 (u32 L) ++ data ++ more) ts P) as Hhdr.
      { intros more ts P Hrest s rest Hs. rewrite <-!app_assoc in Hs.
        destruct (ReadFull_ok r (PutUint32 (u32 L)) 4 (length_le_bytes _ _) s (data ++ more ++ rest) Hs)
          as (s1 & E1 & C1).
        destruct (Hrest s1 rest) as (o2 & s2 & E2 & HP & C2); [rewrite <-app_assoc; apply C1|].
        exists o2, s2. split_and!; auto; [|by eapply consumed_trans].
        rewrite <-E2. cbn [parse_delta_loop]. apply bind_state_eq.
        unfold ReadToken. rewrite !bind_get. rewrite Hd. cbn [residue].
        destruct (Z.ltb_spec 0 L); [|lia]. change (0 <? 0) with false. cbn iota.
        rewrite (bind_Ret _ _ _ _ _ (lift_eq _ d _ _ _ E1)). cbv zeta.
        rewrite Uint32_PutUint32, u32_u32, i32_u32 by (unfold is_i32; lia).
        destruct (Z.eqb_spec L 0); [lia|]. destruct (Z.ltb_spec L 0); [lia|]. done. }
      apply Hhdr.
      replace (Datatypes.S fuel) with (length (chunks data) + (Datatypes.S fuel - length (chunks data)))%nat by lia.
      apply parse_residue; [unfold dr_wf; simpl; lia|done|].
      intros d1 Hd1 Hz. rewrite app_assoc. apply IH; [lia|done|done].
    + cbn [wire_cmd_ok wire_cmd_bytes wire_cmd_tokens] in *.
      destruct fuel as [|fuel]; [simpl in *; lia|]. cbn [parse_delta_loop].
      eapply reads_post_bind; [by apply ReadToken_match|]. cbn iota beta.
      rewrite (app_assoc acc [_]). apply IH; [simpl in *; lia|done|done].
Qed.

Lemma ParseDeltaStream_ok cmds fuel : Forall wire_cmd_ok cmds →
  (length (cmds ≫= wire_cmd_tokens) < fuel)%nat →
  parses r (ParseDeltaStream fuel r) (concat (wire_cmd_bytes <$> cmds) ++ PutUint32 0)
    (cmds ≫= wire_cmd_tokens).
Proof.
  intros Hok Hf s rest Hs.
  destruct (parse_delta_loop_ok cmds Hok fuel [] NewDeltaReader Hf) with (s := s) (rest := rest)
    as (d' & s' & E & _ & ?); [unfold dr_wf; simpl; lia|done|done|].
  exists s'. unfold ParseDeltaStream. by rewrite E.
Qed.
End reader.

(** Our own writer's tokens as wire commands. *)
Definition token_cmds (t : DeltaToken) : list wire_cmd :=
  match t.(Literal) with
  | Some data => WLit <$> chunks data
  | None => [WMatch t.(BlockIdx)]
  end.

Lemma chunks_small c : 0 < Z.of_nat (length c) ≤ deltaChunkSize → chunks c = [c].
Proof.
  intros Hc. rewrite chunks_cons by lia. cbv zeta.
  assert (chunk_len (Z.of_nat (length c)) = Z.of_nat (length c)) as ->
    by (unfold chunk_len; case_if; b2p; lia).
  by rewrite Nat2Z.id, firstn_all, drop_all.
Qed.

Lemma token_cmds_ok t : token_ok t →
  Forall wire_cmd_ok (token_cmds t) ∧
  concat (wire_cmd_bytes <$> token_cmds t) = token_bytes t ∧
  token_cmds t ≫= wire_cmd_tokens = token_seen t.
Proof.
  unfold token_ok, token_cmds, token_bytes, token_seen. destruct (Literal t) as [data|]; intros H.
  - pose proof (chunks_of_bound (length data) data) as Hb. fold (chunks data) in Hb.
    unfold deltaChunkSize in Hb. split_and!.
    + apply Forall_fmap. eapply Forall_impl; [exact Hb|]. simpl. lia.
    + rewrite <-list_fmap_compose. done.
    + clear H. induction Hb as [|c cs Hc _ IH]; [done|].
      cbn [fmap list_fmap mbind list_bind] in IH |- *. rewrite IH.
      cbn [wire_cmd_tokens]. by rewrite chunks_small.
  - split_and!; [by apply Forall_singleton|cbn [fmap list_fmap concat wire_cmd_bytes]; apply app_nil_r|done].
Qed.

Lemma tokens_cmds_ok tokens : Forall token_ok tokens →
  Forall wire_cmd_ok (tokens ≫= token_cmds) ∧
  concat (wire_cmd_bytes <$> (tokens ≫= token_cmds)) = concat (token_bytes <$> tokens) ∧
  (tokens ≫= token_cmds) ≫= wire_cmd_tokens = tokens ≫= token_seen.
Proof.
  induction 1 as [|t tokens Ht _ (IH1 & IH2 & IH3)]; [by repeat constructor|].
  destruct (token_cmds_ok t Ht) as (H1 & H2 & H3). cbn [mbind list_bind fmap list_fmap concat].
  rewrite Forall_app, fmap_app, concat_app, bind_app. by rewrite H2, IH2, H3, IH3.
Qed.

(** ** Properties *)
Section claims.
Context {S : Type} (r : io_Reader S) `{!ReaderSpec r}.
Context {S' : Type} (w : io_Writer S') `{!WriterSpec w}.

(** C16: the delta stream round-trips: ParseDeltaStream, given more rounds than
    there are tokens, consumes exactly what WriteDeltaStream wrote and returns
    the commands, each literal as its 32KB chunks; chunking loses no byte. *)
Theorem delta_stream_roundtrip tokens : Forall token_ok tokens →
  ∃ bs, emits w (WriteDeltaStream w tokens) bs ∧
    (∀ fuel, (length (tokens ≫= token_seen) < fuel)%nat →
       parses r (ParseDeltaStream fuel r) bs (tokens ≫= token_seen)) ∧
    ∀ data, concat (chunks data) = data.
Proof.
  intros Hok. destruct (tokens_cmds_ok tokens Hok) as (H1 & H2 & H3).
  eexists. split; [by apply WriteDeltaStream_ok|]. split; [|apply chunks_concat].
  intros fuel Hf. rewrite <-H2, <-H3. apply ParseDeltaStream_ok; [done|]. by rewrite H3.
Qed.

(** a peer may send a literal of any length in one token: the reader hands
    it out in chunks of at most 32KB and stays aligned with the tokens that
    follow, for every sequence of commands. *)
Theorem delta_foreign_chunking cmds fuel : Forall wire_cmd_ok cmds →
  (length (cmds ≫= wire_cmd_tokens) < fuel)%nat →
  parses r (ParseDeltaStream fuel r) (concat (wire_cmd_bytes <$> cmds) ++ PutUint32 0)
    (cmds ≫= wire_cmd_tokens) ∧
  Forall (λ t, match t.(Literal) with
               | Some c => 0 < Z.of_nat (length c) ≤ deltaChunkSize
               | None => 0 ≤ t.(BlockIdx) < 2^31 end) (cmds ≫= wire_cmd_tokens).
Proof.
  intros Hok Hf. split; [by apply ParseDeltaStream_ok|]. clear Hf.
  induction Hok as [|c cmds Hc _ IH]; [constructor|]. cbn [mbind list_bind].
  apply Forall_app. split; [|done]. destruct c as [data|idx]; simpl; [|by apply Forall_singleton].
  apply Forall_fmap. apply (chunks_of_bound (length data) data).
Qed.
End claims.

(** ** Witnesses *)
Lemma delta_stream_roundtrip_witness :
  ∃ bs, parses conn_reader (ParseDeltaStream 3 conn_reader) bs
    [mk_DeltaToken (Some [1; 2; 3]) 0; mk_DeltaToken None 5].
Proof.
  destruct (delta_stream_roundtrip conn_reader conn_writer
    [mk_DeltaToken (Some [1; 2; 3]) 0; mk_DeltaToken (Some []) 0; mk_DeltaToken None 5])
    as (bs & _ & H & _).
  - repeat constructor; simpl; lia.
  - exists bs. apply (H 3%nat). vm_compute. lia.
Defined.

Lemma delta_foreign_chunking_witness :
  parses conn_reader (ParseDeltaStream 3 conn_reader)
    (concat (wire_cmd_bytes <$> [WLit [9; 8]; WMatch 0]) ++ PutUint32 0)
    [mk_DeltaToken (Some [9; 8]) 0; mk_DeltaToken None 0].
Proof.
  apply (delta_foreign_chunking conn_reader [WLit [9; 8]; WMatch 0] 3).
  - repeat constructor; simpl; lia.
  - vm_compute. lia.
Defined.
