(* ===== verification/Mux.v ===== *)
(** * Multiplexed framing (protocol/mux/mux.go)

    The frame format, the buffering Writer and the demultiplexing Reader. The
    Reader is itself an [io_Reader] over the transport's reader and the Writer
    an [io_Writer]; [mux_reader_spec] and [mux_writer_spec] show that they meet
    the interface specifications, so every codec theorem applies on top. *)
From S2P Require Import Prelude.
From S2P Require Import GoIO.
From S2P Require Import WireInt.
#[local] Open Scope Z_scope.
#[local] Open Scope go_scope.

(** ** Definitions *)
Definition mplexBase : Z := 7.
Definition defaultBufSize : Z := 32 * 1024.
Definition maxPayload : Z := 0xFFFFFF.

Definition MsgData : Z := 0.
Definition MsgErrorXfer : Z := 1.
Definition MsgInfo : Z := 2.
Definition MsgError : Z := 3.
Definition MsgWarning : Z := 4.
Definition MsgErrorSocket : Z := 5.
Definition MsgLog : Z := 6.
Definition MsgClient : Z := 7.
Definition MsgErrorUTF8 : Z := 8.
Definition MsgNoop : Z := 42.

Definition isInfoMessage (code : Z) : bool :=
  existsb (Z.eqb code)
    [MsgErrorXfer; MsgInfo; MsgError; MsgWarning; MsgErrorSocket; MsgLog; MsgClient; MsgErrorUTF8; MsgNoop].

(** [uint32(mplexBase+code)<<24 | uint32(len(payload))]; the sum is a uint8. *)
Definition frame_header (code : Z) (len : Z) : Z :=
  Z.lor (u32 (Z.shiftl (u8 (mplexBase + code)) 24)) len.

Definition frame_bytes (code : Z) (payload : bytes) : bytes :=
  PutUint32 (frame_header code (Z.of_nat (length payload))) ++ payload.

Record mux_Writer := mk_mux_Writer { wbuf : bytes; bufSize : Z }.
Definition NewWriter : mux_Writer := mk_mux_Writer [] defaultBufSize.
Definition SetBufferSize (size : Z) (w : mux_Writer) : mux_Writer := mk_mux_Writer w.(wbuf) size.

Section writer.
Context {S : Type} (w : io_Writer S).

Definition writeFrame (code : Z) (payload : bytes) : M S unit :=
  if maxPayload <? Z.of_nat (length payload) then fail ErrPayloadTooLarge
  else Write w (frame_bytes code payload).

(** The frame loop of Flush; every round sends at least one byte. *)
Fixpoint flush_loop (fuel : nat) (data : bytes) : M S unit :=
  if 0 <? Z.of_nat (length data) then
    match fuel with
    | O => nofuel
    | Datatypes.S fuel' =>
      let chunk := if maxPayload <? Z.of_nat (length data) then take (Z.to_nat maxPayload) data else data in
      writeFrame MsgData chunk ;;;
      flush_loop fuel' (drop (length chunk) data)
    end
  else ret tt.

(** The buffer is reset before the frames go out. *)
Definition Flush : M (mux_Writer * S) unit :=
  let* mw := get in
  if Z.of_nat (length mw.(wbuf)) =? 0 then ret tt else
  let data := mw.(wbuf) in
  put (mk_mux_Writer [] mw.(bufSize)) ;;;
  lift (flush_loop (length data) data).

(** The loop of Write; returns the count. With [bufSize > 0] every round takes
    at least one byte; a negative size panics in [chunk[:remaining]]. *)
Fixpoint mux_write_loop (fuel : nat) (p : bytes) (n : Z) : M (mux_Writer * S) Z :=
  if 0 <? Z.of_nat (length p) then
    match fuel with
    | O => nofuel
    | Datatypes.S fuel' =>
      let* mw := get in
      (if mw.(bufSize) <=? Z.of_nat (length mw.(wbuf)) then Flush else ret tt) ;;;
      let* mw := get in
      let remaining := mw.(bufSize) - Z.of_nat (length mw.(wbuf)) in
      if (remaining <? Z.of_nat (length p)) && (remaining <? 0) then panic else
      let chunk := if remaining <? Z.of_nat (length p) then take (Z.to_nat remaining) p else p in
      put (mk_mux_Writer (mw.(wbuf) ++ chunk) mw.(bufSize)) ;;;
      mux_write_loop fuel' (drop (length chunk) p) (n + Z.of_nat (length chunk))
    end
  else ret n.

Definition mux_Write (p : bytes) : M (mux_Writer * S) Z :=
  let* mw := get in
  if mw.(bufSize) =? 0 then
    put (mk_mux_Writer (mw.(wbuf) ++ p) mw.(bufSize)) ;;; ret (Z.of_nat (length p))
  else mux_write_loop (length p) p 0.

Definition SendMsg (code : Z) (payload : bytes) : M (mux_Writer * S) unit :=
  Flush ;;;
  lift (writeFrame code payload).

(** The Writer as an io.Writer. *)
Definition mux_writer : io_Writer (mux_Writer * S) :=
  {| Write := λ p, mux_Write p ;;; ret tt |}.
End writer.

Record mux_Reader := mk_mux_Reader { rbuf : bytes }.
Definition NewReader : mux_Reader := mk_mux_Reader [].

Section reader.
Context {S : Type} (fuel : S → nat) (r : io_Reader S).

Definition readFrame : M S (Z * bytes) :=
  let* hdr := ReadFull r 4 in
  let tag := Uint32 hdr in
  let code := u8 (u32 (Z.shiftr tag 24 - mplexBase)) in
  let payloadLen := Z.land tag 0xFFFFFF in
  let* payload := (if 0 <? payloadLen then ReadFull r (Z.to_nat payloadLen) else ret []) in
  ret (code, payload).

(** The fetch loop of Read: the first non-empty MSG_DATA payload. [n] bounds
    the number of frames. *)
Fixpoint fetch_data (n : nat) : M S bytes :=
  match n with
  | O => nofuel
  | Datatypes.S n' =>
    let* (code, payload) := readFrame in
    if negb (code =? MsgData) then
      if isInfoMessage code then fetch_data n' else fail (UnexpectedMsg code)
    else if 0 <? Z.of_nat (length payload) then ret payload
    else fetch_data n'
  end.

(** Read(p) with [len(p) = n]. *)
Definition mux_Read (n : nat) : M (mux_Reader * S) bytes :=
  let* mr := get in
  (if 0 <? Z.of_nat (length mr.(rbuf)) then ret tt
   else
     let* payload := (λ st, lift (fetch_data (fuel st.2)) st) in
     put (mk_mux_Reader payload)) ;;;
  let* mr := get in
  put (mk_mux_Reader (drop n mr.(rbuf))) ;;;
  ret (take n mr.(rbuf)).

(** ReadDataChunk: the buffered bytes and the next MSG_DATA payload. *)
Fixpoint next_data_frame (n : nat) : M S bytes :=
  match n with
  | O => nofuel
  | Datatypes.S n' =>
    let* (code, payload) := readFrame in
    if code =? MsgData then ret payload
    else if isInfoMessage code then next_data_frame n'
    else fail (Errorf "expected MSG_DATA, got code" [code])
  end.

Definition ReadDataChunk : M (mux_Reader * S) bytes :=
  let* mr := get in
  let combined := mr.(rbuf) in
  put (mk_mux_Reader []) ;;;
  let* payload := (λ st, lift (next_data_frame (fuel st.2)) st) in
  ret (combined ++ payload).

(** RecvMsg: skip MSG_DATA, return the first other frame. *)
Fixpoint next_msg_frame (n : nat) : M S (Z * bytes) :=
  match n with
  | O => nofuel
  | Datatypes.S n' =>
    let* (code, payload) := readFrame in
    if negb (code =? MsgData) then ret (code, payload) else next_msg_frame n'
  end.

Definition RecvMsg : M (mux_Reader * S) (Z * bytes) :=
  put (mk_mux_Reader []) ;;;
  (λ st, lift (next_msg_frame (fuel st.2)) st).

(** The Reader as an io.Reader: an error comes back beside no bytes. *)
Definition mux_reader : io_Reader (mux_Reader * S) :=
  {| Read := λ n st, match mux_Read n st with
                     | (Ret p, st') => (Ret (p, None), st')
                     | (Fail e, st') => (Ret ([], Some e), st')
                     | (Panic, st') => (Panic, st')
                     | (NoFuel, st') => (NoFuel, st')
                     end |}.
End reader.

(** ** The byte stream a sequence of frames carries *)

(** The first frame on the wire and what follows it. *)
Definition parse_frame (wire : bytes) : option (Z * bytes * bytes) :=
  if decide (4 ≤ length wire)%nat then
    let tag := Uint32 wire in
    let len := Z.to_nat (Z.land tag 0xFFFFFF) in
    if decide (len ≤ length wire - 4)%nat
    then Some (u8 (u32 (Z.shiftr tag 24 - mplexBase)), take len (drop 4 wire), drop len (drop 4 wire))
    else None
  else None.

(** The error ReadFull reports on a truncated frame. *)
Definition frame_error (wire : bytes) (e : error) : error :=
  if decide (4 ≤ length wire)%nat then eof_error (drop 4 wire) e else eof_error wire e.

(** The data a reader sees in [wire], and the error at which it stops: the
    transport's at the end of the frames, or an unexpected control frame. *)
Fixpoint demux_loop (fuel : nat) (wire : bytes) (e : error) : bytes * error :=
  match fuel with
  | O => ([], e)
  | Datatypes.S fuel' =>
    match parse_frame wire with
    | None => ([], frame_error wire e)
    | Some (code, payload, rest) =>
        if code =? MsgData then
          let '(d, e') := demux_loop fuel' rest e in (payload ++ d, e')
        else if isInfoMessage code then demux_loop fuel' rest e
        else ([], UnexpectedMsg code)
    end
  end.
Definition demux (wire : bytes) (e : error) : bytes * error :=
  demux_loop (Datatypes.S (length wire)) wire e.

(** ** Lemmas on frames *)
Lemma parse_frame_shorter wire c p rest :
  parse_frame wire = Some (c, p, rest) → (length rest < length wire)%nat.
Proof.
  unfold parse_frame. repeat case_decide; intros [= <- <- <-]. rewrite !length_drop. lia.
Qed.

Lemma demux_loop_more wire : ∀ f1 f2 e,
  (length wire < f1)%nat → (length wire < f2)%nat → demux_loop f1 wire e = demux_loop f2 wire e.
Proof.
  remember (length wire) as n eqn:Hn. revert wire Hn.
  induction (lt_wf n) as [n _ IH]. intros wire -> [|f1] [|f2] e H1 H2; try lia. simpl.
  destruct (parse_frame wire) as [[[c p] rest]|] eqn:E; [|done].
  apply parse_frame_shorter in E. rewrite (IH (length rest) E rest eq_refl f1 f2) by lia. done.
Qed.

Lemma demux_unfold wire e : demux wire e =
  match parse_frame wire with
  | None => ([], frame_error wire e)
  | Some (code, payload, rest) =>
      if code =? MsgData then let '(d, e') := demux rest e in (payload ++ d, e')
      else if isInfoMessage code then demux rest e
      else ([], UnexpectedMsg code)
  end.
Proof.
  unfold demux at 1. cbn [demux_loop].
  destruct (parse_frame wire) as [[[c p] rest]|] eqn:E; [|done].
  apply parse_frame_shorter in E. unfold demux.
  by rewrite (demux_loop_more rest (length wire) (S (length rest))) by lia.
Qed.

(** The header keeps the code (modulo 256) and the 24-bit length. *)
Lemma frame_header_split code len : 0 ≤ len < 2^24 →
  let tag := frame_header code len in
  0 ≤ tag < 2^32 ∧ Z.land tag 0xFFFFFF = len ∧ u8 (u32 (Z.shiftr tag 24 - mplexBase)) = u8 code.
Proof.
  intros Hl. cbv zeta. unfold frame_header. set (c := u8 (mplexBase + code)).
  assert (is_byte c) as Hc by apply u8_byte. unfold is_byte in Hc.
  rewrite Z.shiftl_mul_pow2, (u32_id (c * 2^24)) by (unfold is_u32; lia).
  assert (Z.lor (c * 2^24) len = c * 2^24 + len) as ->.
  { symmetry. apply Z.add_nocarry_lor. rewrite <-Z.shiftl_mul_pow2 by lia.
    apply Z.bits_inj'. intros n Hn. rewrite Z.land_spec, Z.bits_0, Z.shiftl_spec by lia.
    destruct (Z.ltb_spec n 24).
    - rewrite Z.testbit_neg_r by lia. done.
    - rewrite <-(Z.mod_small len (2^24)) by lia. rewrite Z.mod_pow2_bits_high by lia. apply andb_false_r. }
  split; [lia|]. split.
  - change 0xFFFFFF with (2^24 - 1). rewrite land_ones_mod by lia.
    rewrite Z.add_comm, Z.mod_add, Z.mod_small by lia. done.
  - rewrite Z.shiftr_div_pow2, Z.div_add_l, (Z.div_small len), Z.add_0_r by lia.
    unfold c, u8, u32, mplexBase. rewrite Z.mod_mod_divide by (by exists (2^24)).
    rewrite Zminus_mod_idemp_l. f_equal. lia.
Qed.

Lemma parse_frame_bytes code payload rest : Z.of_nat (length payload) ≤ maxPayload →
  parse_frame (frame_bytes code payload ++ rest) = Some (u8 code, payload, rest).
Proof.
  intros Hl. unfold maxPayload in Hl.
  destruct (frame_header_split code (Z.of_nat (length payload))) as (Ht & Hlen & Hcode); [lia|].
  unfold parse_frame, frame_bytes. set (tag := frame_header _ _) in *.
  assert (length (PutUint32 tag) = 4%nat) as H4 by apply length_le_bytes.
  rewrite <-!app_assoc, !length_app, H4. destruct (decide _); [|lia].
  assert (Uint32 (PutUint32 tag ++ payload ++ rest) = tag) as ->.
  { unfold Uint32. rewrite take_app_exact by done. unfold PutUint32.
    rewrite le_val_le_bytes. rewrite Z.mod_small; [done|]. change (8 * Z.of_nat 4) with 32. lia. }
  cbv zeta. rewrite Hlen, Hcode, Nat2Z.id. destruct (decide _); [|lia].
  by rewrite (drop_app_exact (PutUint32 tag)), take_app_length, drop_app_length.
Qed.

(** A run of data frames demultiplexes to its payloads. *)
Lemma demux_data_frames ps rest e : Forall (λ p, Z.of_nat (length p) ≤ maxPayload) ps →
  demux (concat (frame_bytes MsgData <$> ps) ++ rest) e =
    (concat ps ++ (demux rest e).1, (demux rest e).2).
Proof.
  induction 1 as [|p ps Hp _ IH]; cbn [fmap list_fmap concat].
  - cbn [app]. by destruct (demux rest e).
  - rewrite <-app_assoc, demux_unfold, parse_frame_bytes by done.
    change (u8 MsgData =? MsgData) with true. cbn iota.
    cbn [fmap list_fmap] in IH. rewrite IH. by rewrite app_assoc.
Qed.

(** Any other control frame ends the data in an error. *)
Lemma demux_other_frame code payload rest e :
  Z.of_nat (length payload) ≤ maxPayload → is_byte code → code ≠ MsgData → isInfoMessage code = false →
  demux (frame_bytes code payload ++ rest) e = ([], UnexpectedMsg code).
Proof.
  intros Hp Hc Hne Hi. rewrite demux_unfold, parse_frame_bytes, u8_id by done. rewrite Hi. by destruct (Z.eqb_spec code MsgData).
Qed.

(** An interleaved logging frame is invisible. *)
Lemma demux_info_frame code payload rest e :
  Z.of_nat (length payload) ≤ maxPayload → is_byte code → isInfoMessage code = true →
  demux (frame_bytes code payload ++ rest) e = demux rest e.
Proof.
  intros Hp Hc Hi. rewrite demux_unfold, parse_frame_bytes, u8_id by done. rewrite Hi.
  destruct (Z.eqb_spec code MsgData) as [->|]; [done|done].
Qed.

(** ** The Reader meets the reader interface *)
Section reader_spec.
Context {S : Type} (r : io_Reader S) `{!ReaderSpec r} (fuel : S → nat).

(** One frame. *)
Lemma readFrame_ok s bs : stream r s bs →
  match parse_frame bs with
  | Some (c, p, rest) => ∃ s', readFrame r s = (Ret (c, p), s') ∧ consumed r s s' rest
  | None => ∃ s', readFrame r s = (Fail (frame_error bs (fin r s)), s') ∧ kept r s s'
  end.
Proof.
  intros Hs. unfold readFrame, parse_frame, frame_error.
  destruct (ReadFull_cases r 4 s bs Hs) as [(s1 & E1 & Hl & C1)|(s1 & E1 & Hl & K1)].
  2:{ destruct (decide _); [lia|]. exists s1. by rewrite (bind_Fail _ _ _ _ _ E1). }
  destruct (decide (4 ≤ length bs)%nat); [|lia]. rewrite (bind_Ret _ _ _ _ _ E1).
  assert (Uint32 (take 4 bs) = Uint32 bs) as -> by (unfold Uint32; by rewrite take_take).
  cbv zeta. set (len := Z.land (Uint32 bs) 0xFFFFFF).
  assert (0 ≤ len) as Hpos by (apply Z.land_nonneg; lia).
  destruct (Z.ltb_spec 0 len) as [Hlen|Hlen].
  - destruct (ReadFull_cases r (Z.to_nat len) s1 (drop 4 bs) (proj1 C1))
      as [(s2 & E2 & Hl2 & C2)|(s2 & E2 & Hl2 & K2)]; rewrite length_drop in Hl2.
    + destruct (decide _); [|lia]. exists s2. rewrite (bind_Ret _ _ _ _ _ E2). split; [done|by eapply consumed_trans].
    + destruct (decide _); [lia|]. exists s2. rewrite (bind_Fail _ _ _ _ _ E2). destruct C1 as (_ & -> & K1).
      split; [done|by transitivity s1].
  - replace (Z.to_nat len) with 0%nat by lia. destruct (decide _); [|lia].
    exists s1. rewrite bind_ret_l. rewrite take_0, drop_0. by split.
Qed.

(** The fetch loop returns the first non-empty piece of the demultiplexed
    stream, or the error it ends in. *)
Lemma fetch_data_ok n s bs : stream r s bs → (length bs < n)%nat →
  match demux bs (fin r s) with
  | ([], e) => ∃ s', fetch_data r n s = (Fail e, s') ∧ kept r s s'
  | (d, e) => ∃ p s' rest, fetch_data r n s = (Ret p, s') ∧ p ≠ [] ∧ consumed r s s' rest ∧
                d = p ++ (demux rest (fin r s)).1 ∧ e = (demux rest (fin r s)).2
  end.
Proof.
  revert s bs. induction n as [|n IH]; intros s bs Hs Hn; [lia|].
  pose proof (readFrame_ok s bs Hs) as Hfr. rewrite demux_unfold. cbn [fetch_data].
  destruct (parse_frame bs) as [[[c p] rest]|] eqn:E.
  2:{ destruct Hfr as (s1 & E1 & K1). exists s1. by rewrite (bind_Fail _ _ _ _ _ E1). }
  destruct Hfr as (s1 & E1 & C1). apply parse_frame_shorter in E.
  rewrite (bind_Ret _ _ _ _ _ E1). destruct C1 as (Hs1 & Hf1 & K1).
  (* going on with the next frame *)
  assert (∀ d e, demux rest (fin r s) = (d, e) →
    match d with
    | [] => ∃ s', fetch_data r n s1 = (Fail e, s') ∧ kept r s s'
    | _ => ∃ p s' rest', fetch_data r n s1 = (Ret p, s') ∧ p ≠ [] ∧ consumed r s s' rest' ∧
             d = p ++ (demux rest' (fin r s)).1 ∧ e = (demux rest' (fin r s)).2
    end) as Hnext.
  { intros d e Hd. specialize (IH s1 rest Hs1 ltac:(lia)). rewrite Hf1, Hd in IH.
    destruct d as [|b d].
    - destruct IH as (s2 & ? & K2). exists s2. split; [done|by transitivity s1].
    - destruct IH as (q & s2 & rest' & ? & ? & C2 & ? & ?). exists q, s2, rest'. split_and!; auto.
      eapply consumed_trans; [|exact C2]. by split. }
  destruct (Z.eqb_spec c MsgData) as [->|Hc]; cbn [negb].
  - destruct (demux rest (fin r s)) as [d e] eqn:Hd. destruct p as [|b p].
    + cbn [length]. rewrite Z.ltb_irrefl. cbn [app]. apply (Hnext d e eq_refl).
    + cbn [app]. destruct (Z.ltb_spec 0 (Z.of_nat (length (b :: p)))); [|simpl in *; lia].
      exists (b :: p), s1, rest. rewrite Hd. split_and!; auto. by split.
  - destruct (isInfoMessage c).
    + destruct (demux rest (fin r s)) as [d e] eqn:Hd. apply (Hnext d e eq_refl).
    + exists s1. by split.
Qed.

Definition mux_pending (st : mux_Reader * S) : bytes :=
  st.1.(rbuf) ++ (demux (pending r st.2) (fin r st.2)).1.
Definition mux_fin (st : mux_Reader * S) : error := (demux (pending r st.2) (fin r st.2)).2.

End reader_spec.

(** A bound on the number of frames a reader still has to deliver. *)
Class EnoughFuel {S} (r : io_Reader S) `{!ReaderSpec r} (fuel : S → nat) :=
  enough_fuel s : (length (pending r s) < fuel s)%nat.

Definition conn_fuel (c : conn) : nat := Datatypes.S (length (concat c.(rx))).
#[global] Instance conn_enough_fuel : EnoughFuel conn_reader conn_fuel.
Proof. intros c. simpl. unfold conn_fuel. lia. Qed.

Section mux_reader.
Context {S : Type} (r : io_Reader S) `{!ReaderSpec r} (fuel : S → nat) `{!EnoughFuel r fuel}.

Lemma mux_Read_buffered n mr s : mr.(rbuf) ≠ [] →
  mux_Read fuel r n (mr, s) = (Ret (take n mr.(rbuf)), (mk_mux_Reader (drop n mr.(rbuf)), s)).
Proof.
  intros Hne. unfold mux_Read. rewrite bind_get.
  destruct (Z.ltb_spec 0 (Z.of_nat (length (rbuf mr)))) as [|H]; [done|].
  destruct (rbuf mr); [done|simpl in *; lia].
Qed.

Lemma mux_Read_fetch n mr s p s' : mr.(rbuf) = [] → fetch_data r (fuel s) s = (Ret p, s') →
  mux_Read fuel r n (mr, s) = (Ret (take n p), (mk_mux_Reader (drop n p), s')).
Proof.
  intros Hnil E. unfold mux_Read. rewrite bind_get, Hnil. cbn [length]. rewrite Z.ltb_irrefl.
  assert ((λ st : mux_Reader * S, lift (fetch_data r (fuel st.2)) st) (mr, s) = (Ret p, (mr, s')))
    as E' by by apply lift_eq.
  unfold bind at 1. rewrite (bind_Ret _ _ _ _ _ E'). done.
Qed.

Lemma mux_Read_fail n mr s e s' : mr.(rbuf) = [] → fetch_data r (fuel s) s = (Fail e, s') →
  mux_Read fuel r n (mr, s) = (Fail e, (mr, s')).
Proof.
  intros Hnil E. unfold mux_Read. rewrite bind_get, Hnil. cbn [length]. rewrite Z.ltb_irrefl.
  assert ((λ st : mux_Reader * S, lift (fetch_data r (fuel st.2)) st) (mr, s) = (Fail e, (mr, s')))
    as E' by by apply lift_eq.
  unfold bind at 1. by rewrite (bind_Fail _ _ _ _ _ E').
Qed.

#[global, refine] Instance mux_reader_spec : ReaderSpec (mux_reader fuel r) := {|
  readable := λ st, readable r st.2;
  pending := mux_pending r;
  fin := mux_fin r;
  kept := λ st st', kept r st.2 st'.2;
|}.
Proof.
  - split; [by intros [??]|intros [??] [??] [??]; simpl; by etransitivity].
  - intros n [mr s] Hn Hr Hne. cbn [fst snd] in *. unfold mux_pending, mux_fin in *. cbn [fst snd] in *.
    cbn [Read mux_reader]. destruct (decide (rbuf mr = [])) as [Hnil|Hb].
    + rewrite Hnil in Hne |- *. cbn [app] in *.
      pose proof (fetch_data_ok r (fuel s) s (pending r s) ltac:(done) (enough_fuel s)) as Hf.
      destruct (demux (pending r s) (fin r s)) as [[|b d] e] eqn:Hd; [done|]. cbn [fst snd].
      destruct Hf as (p & s' & rest & E & Hp & (Hs' & Hf' & K) & Hde & He).
      rewrite (mux_Read_fetch _ _ _ _ _ Hnil E).
      exists (n `min` length p)%nat, (mk_mux_Reader (drop n p), s'). cbn [fst snd rbuf].
      destruct Hs' as [Hr' Hp']. rewrite Hde, Hp', Hf'.
      split_and!; auto.
      * by rewrite take_app_le, take_min_length by lia.
      * destruct p; simpl; [done|lia].
      * lia.
      * rewrite length_app. lia.
      * by rewrite drop_app_le, drop_min_length by lia.
    + rewrite (mux_Read_buffered _ _ _ Hb).
      exists (n `min` length (rbuf mr))%nat, (mk_mux_Reader (drop n (rbuf mr)), s). cbn [fst snd rbuf].
      split_and!; auto.
      * by rewrite take_app_le, take_min_length by lia.
      * destruct (rbuf mr); simpl; [done|lia].
      * lia.
      * rewrite length_app. lia.
      * by rewrite drop_app_le, drop_min_length by lia.
      * reflexivity.
  - intros n [mr s] Hn Hr Hnil. cbn [fst snd] in *. unfold mux_pending, mux_fin in *. cbn [fst snd] in *.
    apply app_eq_nil in Hnil as [Hb Hd]. cbn [Read mux_reader].
    pose proof (fetch_data_ok r (fuel s) s (pending r s) ltac:(done) (enough_fuel s)) as Hf.
    destruct (demux (pending r s) (fin r s)) as [[|b d] e] eqn:Hdd; [|done].
    destruct Hf as (s' & E & K). rewrite (mux_Read_fail _ _ _ _ _ Hb E). by exists (mr, s').
Defined.
End mux_reader.

(** ** The Writer meets the writer interface *)

(** The payloads Flush cuts a buffer into. *)
Fixpoint flush_payloads (fuel : nat) (data : bytes) : list bytes :=
  match fuel with
  | O => []
  | Datatypes.S fuel' =>
    if 0 <? Z.of_nat (length data) then
      let chunk := if maxPayload <? Z.of_nat (length data) then take (Z.to_nat maxPayload) data else data in
      chunk :: flush_payloads fuel' (drop (length chunk) data)
    else []
  end.

Abbreviation payloads_ok := (Forall (λ p : bytes, Z.of_nat (length p) ≤ maxPayload)).

Lemma flush_payloads_ok fuel data : (length data ≤ fuel)%nat →
  concat (flush_payloads fuel data) = data ∧ payloads_ok (flush_payloads fuel data).
Proof.
  revert data. induction fuel as [|fuel IH]; intros data Hf; cbn [flush_payloads].
  { destruct data; [by split|simpl in *; lia]. }
  case_if; b2p; [|destruct data; [by split|simpl in *; lia]].
  cbv zeta. set (chunk := if maxPayload <? _ then _ else _).
  assert (chunk = take (length chunk) data ∧ (0 < length chunk)%nat ∧ Z.of_nat (length chunk) ≤ maxPayload)
    as (Hc & Hpos & Hmax).
  { unfold chunk, maxPayload in *. case_if; b2p.
    - rewrite length_take, Nat.min_l by lia. split; [done|lia].
    - rewrite firstn_all. split; [done|lia]. }
  destruct (IH (drop (length chunk) data)) as [IH1 IH2]; [rewrite length_drop; lia|].
  split; [|by constructor]. cbn [concat]. rewrite IH1, Hc at 1. apply take_drop.
Qed.

Section mux_writer.
Context {S : Type} (w : io_Writer S) `{!WriterSpec w}.

Definition wire_of (ps : list bytes) : bytes := concat (frame_bytes MsgData <$> ps).

Lemma wire_of_app a b : wire_of (a ++ b) = wire_of a ++ wire_of b.
Proof. unfold wire_of. by rewrite fmap_app, concat_app. Qed.

Lemma writeFrame_ok code p : Z.of_nat (length p) ≤ maxPayload →
  emits w (writeFrame w code p) (frame_bytes code p).
Proof. intros H. unfold writeFrame. case_if; b2p; [lia|]. apply emits_write. Qed.

Lemma flush_loop_ok fuel data : (length data ≤ fuel)%nat →
  emits w (flush_loop w fuel data) (wire_of (flush_payloads fuel data)).
Proof.
  revert data. induction fuel as [|fuel IH]; intros data Hf;
    pose proof (flush_payloads_ok _ _ Hf) as [_ Hok]; revert Hok; cbn [flush_loop flush_payloads].
  { destruct data; [intros _; apply emits_ret|simpl in *; lia]. }
  case_if; b2p; [|intros _; apply emits_ret].
  cbv zeta. set (chunk := if maxPayload <? _ then _ else _). rewrite Forall_cons. intros [Hmax _].
  assert (0 < length chunk)%nat.
  { unfold chunk, maxPayload in *. case_if; b2p; [rewrite length_take|]; lia. }
  unfold wire_of. cbn [fmap list_fmap concat].
  apply emits_seq; [by apply writeFrame_ok|]. apply IH. rewrite length_drop. lia.
Qed.

(** Flush empties the buffer into data frames. *)
Lemma Flush_ok mw s : writable w s →
  ∃ ps s', Flush w (mw, s) = (Ret tt, (mk_mux_Writer [] mw.(bufSize), s')) ∧
    sent w s s' (wire_of ps) ∧ payloads_ok ps ∧ concat ps = mw.(wbuf).
Proof.
  intros Hs. unfold Flush. rewrite bind_get. destruct mw as [buf size]. cbn [wbuf bufSize].
  destruct (Z.eqb_spec (Z.of_nat (length buf)) 0) as [H0|H0].
  - destruct buf; [|simpl in *; lia]. exists [], s. split_and!; auto. by apply sent_refl.
  - destruct (flush_payloads_ok (length buf) buf (le_n _)) as [Hc Hok].
    destruct (flush_loop_ok (length buf) buf (le_n _) s Hs) as (s' & E & T).
    exists (flush_payloads (length buf) buf), s'. split_and!; auto.
    cbv zeta. rewrite (bind_Ret _ _ _ tt (mk_mux_Writer [] size, s)) by done. by apply lift_eq.
Qed.

(** Write with a positive buffer size: never panics, keeps the order, counts
    every byte, and the buffer never outgrows its size. *)
Lemma mux_write_loop_ok fuel p n mw s : writable w s → 0 < mw.(bufSize) → (length p ≤ fuel)%nat →
  Z.of_nat (length mw.(wbuf)) ≤ mw.(bufSize) →
  ∃ ps mw' s', mux_write_loop w fuel p n (mw, s) = (Ret (n + Z.of_nat (length p)), (mw', s')) ∧
    sent w s s' (wire_of ps) ∧ payloads_ok ps ∧ mw.(wbuf) ++ p = concat ps ++ mw'.(wbuf) ∧
    mw'.(bufSize) = mw.(bufSize) ∧ Z.of_nat (length mw'.(wbuf)) ≤ mw.(bufSize).
Proof.
  intros Hs Hsize. revert p n mw s Hs Hsize.
  induction fuel as [|fuel IH]; intros p n mw s Hs Hsize Hf Hb; cbn [mux_write_loop].
  { destruct p; [|simpl in *; lia]. exists [], mw, s. cbn [length]. rewrite Z.add_0_r, app_nil_r.
    split_and!; auto. by apply sent_refl. }
  destruct (Z.ltb_spec 0 (Z.of_nat (length p))) as [Hp|Hp].
  2:{ destruct p; [|simpl in *; lia]. exists [], mw, s. cbn [length]. rewrite Z.add_0_r, app_nil_r.
      split_and!; auto. by apply sent_refl. }
  rewrite bind_get.
  assert (∃ ps1 mw1 s1,
    (if bufSize mw <=? Z.of_nat (length (wbuf mw)) then Flush w else ret tt) (mw, s) = (Ret tt, (mw1, s1)) ∧
    sent w s s1 (wire_of ps1) ∧ payloads_ok ps1 ∧ wbuf mw = concat ps1 ++ wbuf mw1 ∧
    bufSize mw1 = bufSize mw ∧ Z.of_nat (length (wbuf mw1)) < bufSize mw)
    as (ps1 & mw1 & s1 & E1 & T1 & Hok1 & Hc1 & Hz1 & Hlt1).
  { destruct (Z.leb_spec (bufSize mw) (Z.of_nat (length (wbuf mw)))).
    - destruct (Flush_ok mw s Hs) as (ps & s' & E & T & Hok & Hc).
      exists ps, (mk_mux_Writer [] (bufSize mw)), s'. split_and!; auto. by rewrite app_nil_r.
    - exists [], mw, s. split_and!; auto. by apply sent_refl. }
  rewrite (bind_Ret _ _ _ _ _ E1), bind_get, Hz1. cbv zeta.
  set (rem := bufSize mw - Z.of_nat (length (wbuf mw1))).
  destruct (Z.ltb_spec rem 0); [lia|]. rewrite andb_false_r.
  set (chunk := if rem <? Z.of_nat (length p) then _ else _).
  assert (chunk = take (length chunk) p ∧ (0 < length chunk)%nat ∧ Z.of_nat (length chunk) ≤ rem)
    as (Hck & Hpos & Hle).
  { unfold chunk. case_if; b2p.
    - rewrite length_take, Nat.min_l by lia. split; [done|lia].
    - rewrite firstn_all. split; [done|lia]. }
  rewrite (bind_Ret _ _ _ tt (mk_mux_Writer (wbuf mw1 ++ chunk) (bufSize mw), s1)) by done.
  destruct (IH (drop (length chunk) p) (n + Z.of_nat (length chunk))
              (mk_mux_Writer (wbuf mw1 ++ chunk) (bufSize mw)) s1)
    as (ps2 & mw2 & s2 & E2 & T2 & Hok2 & Hc2 & Hz2 & Hle2).
  - apply T1.
  - done.
  - rewrite length_drop. lia.
  - cbn [wbuf bufSize]. rewrite length_app. lia.
  - cbn [wbuf bufSize] in *. exists (ps1 ++ ps2), mw2, s2. rewrite E2, length_drop, wire_of_app.
    split_and!; auto.
    + do 2 f_equal. assert (length chunk ≤ length p)%nat by (rewrite Hck, length_take; lia). lia.
    + by eapply sent_trans.
    + by apply Forall_app.
    + rewrite concat_app, <-app_assoc, <-Hc2, Hc1, <-!app_assoc. do 2 f_equal.
      rewrite Hck at 1. by rewrite take_drop.
Qed.

Lemma mux_Write_ok p mw s : writable w s → 0 < mw.(bufSize) → Z.of_nat (length mw.(wbuf)) ≤ mw.(bufSize) →
  ∃ ps mw' s', mux_Write w p (mw, s) = (Ret (Z.of_nat (length p)), (mw', s')) ∧
    sent w s s' (wire_of ps) ∧ payloads_ok ps ∧ mw.(wbuf) ++ p = concat ps ++ mw'.(wbuf) ∧
    mw'.(bufSize) = mw.(bufSize) ∧ Z.of_nat (length mw'.(wbuf)) ≤ mw.(bufSize).
Proof.
  intros Hs Hz Hb. unfold mux_Write. rewrite bind_get. destruct (Z.eqb_spec (bufSize mw) 0); [lia|].
  apply (mux_write_loop_ok (length p) p 0); auto.
Qed.
End mux_writer.

(** ** The Writer as an [io_Writer]: once the bytes [base] of the
    plain handshake have gone out, what has been written is what the frames
    behind them carry, followed by the buffer. *)
Section writer_spec.
Context {S : Type} (w : io_Writer S) `{!WriterSpec w} (base : bytes).

Definition mux_writable (st : mux_Writer * S) : Prop :=
  writable w st.2 ∧ 0 < st.1.(bufSize) ∧ Z.of_nat (length st.1.(wbuf)) ≤ st.1.(bufSize) ∧
  ∃ ps, payloads_ok ps ∧ written w st.2 = base ++ wire_of ps.

Definition mux_written (st : mux_Writer * S) : bytes :=
  (demux (drop (length base) (written w st.2)) EOF).1 ++ st.1.(wbuf).

Lemma demux_wire_of ps e : payloads_ok ps → demux (wire_of ps) e = (concat ps, e).
Proof.
  intros H. pose proof (demux_data_frames ps [] e H) as E. rewrite app_nil_r in E.
  fold (wire_of ps) in E. rewrite E. change (demux [] e) with (@nil Z, e). simpl. by rewrite app_nil_r.
Qed.

#[global, refine] Instance mux_writer_spec : WriterSpec (mux_writer w) := {|
  writable := mux_writable;
  written := mux_written;
  untouched := λ st st', untouched w st.2 st'.2 ∧ st'.1.(bufSize) = st.1.(bufSize) ∧
    written w st.2 `prefix_of` written w st'.2;
|}.
Proof.
  - split; [intros [??]; split_and!; reflexivity|].
    intros [??] [??] [??] (U1 & ? & P1) (U2 & ? & P2). split_and!; [by etransitivity|simpl in *; congruence|].
    by etransitivity.
  - intros p [mw s] (Hs & Hz & Hb & ps & Hok & Hw). cbn [fst snd] in *.
    destruct (mux_Write_ok w p mw s Hs Hz Hb)
      as (ps' & mw' & s' & E & (Hs' & Hw' & U) & Hok' & Hc & Hz' & Hb').
    exists (mw', s'). cbn [Write mux_writer]. cbn [fst snd].
    assert (written w s' = base ++ wire_of (ps ++ ps')) as Hd.
    { by rewrite Hw', Hw, wire_of_app, <-app_assoc. }
    assert (payloads_ok (ps ++ ps')) as Hall by by apply Forall_app.
    split_and!; auto; [| | |by exists (wire_of ps')].
    + by rewrite (bind_Ret _ _ _ _ _ E).
    + unfold mux_writable. cbn [fst snd]. rewrite Hz'. split_and!; auto. by exists (ps ++ ps').
    + unfold mux_written. cbn [fst snd]. rewrite Hd, Hw, !drop_app_length, !demux_wire_of by done. cbn [fst].
      by rewrite concat_app, <-!app_assoc, Hc.
Defined.

(** Flush puts everything written so far on the wire. *)
Lemma Flush_written mw s : mux_writable (mw, s) →
  ∃ s', Flush w (mw, s) = (Ret tt, (mk_mux_Writer [] mw.(bufSize), s')) ∧
    mux_writable (mk_mux_Writer [] mw.(bufSize), s') ∧ untouched w s s' ∧
    written w s `prefix_of` written w s' ∧
    (∀ e, demux (drop (length base) (written w s')) e = (mux_written (mw, s), e)).
Proof.
  intros (Hs & Hz & Hb & ps & Hok & Hw). cbn [fst snd] in *.
  destruct (Flush_ok w mw s Hs) as (ps' & s' & E & (Hs' & Hw' & U) & Hok' & Hc).
  assert (written w s' = base ++ wire_of (ps ++ ps')) as Hd.
  { by rewrite Hw', Hw, wire_of_app, <-app_assoc. }
  assert (payloads_ok (ps ++ ps')) as Hall by by apply Forall_app.
  exists s'. split_and!; auto.
  - unfold mux_writable. cbn [fst snd wbuf bufSize length]. split_and!; auto; [lia|by exists (ps ++ ps')].
  - by exists (wire_of ps').
  - intros e. unfold mux_written. cbn [fst snd]. rewrite Hd, Hw, !drop_app_length, !demux_wire_of by done. cbn [fst].
    by rewrite concat_app, Hc.
Qed.
End writer_spec.

(** ** Writer and Reader together *)
Section both.
Context {S T : Type} (w : io_Writer S) `{!WriterSpec w} (r : io_Reader T) `{!ReaderSpec r}.
Context (fuel : T → nat) `{!EnoughFuel r fuel}.

(** A run of Write calls. *)
Lemma mux_writes ps mw s : writable w s → 0 < mw.(bufSize) → Z.of_nat (length mw.(wbuf)) ≤ mw.(bufSize) →
  ∃ qs mw' s', for_each ps (Write (mux_writer w)) (mw, s) = (Ret tt, (mw', s')) ∧
    sent w s s' (wire_of qs) ∧ payloads_ok qs ∧ mw.(wbuf) ++ concat ps = concat qs ++ mw'.(wbuf) ∧
    mw'.(bufSize) = mw.(bufSize) ∧ Z.of_nat (length mw'.(wbuf)) ≤ mw.(bufSize).
Proof.
  revert mw s. induction ps as [|p ps IH]; intros mw s Hs Hz Hb; cbn [for_each].
  - exists [], mw, s. cbn [concat app]. rewrite app_nil_r. split_and!; auto. by apply sent_refl.
  - destruct (mux_Write_ok w p mw s Hs Hz Hb) as (q1 & mw1 & s1 & E1 & T1 & Hok1 & Hc1 & Hz1 & Hb1).
    rewrite (bind_Ret _ _ _ tt (mw1, s1)).
    2:{ cbn [Write mux_writer]. by rewrite (bind_Ret _ _ _ _ _ E1). }
    destruct (IH mw1 s1) as (q2 & mw2 & s2 & E2 & T2 & Hok2 & Hc2 & Hz2 & Hb2); [apply T1|lia|lia|].
    exists (q1 ++ q2), mw2, s2. rewrite wire_of_app, concat_app. split_and!; auto; try lia.
    + by eapply sent_trans.
    + by apply Forall_app.
    + cbn [concat]. by rewrite <-app_assoc, <-Hc2, !app_assoc, Hc1.
Qed.

(** ... followed by Flush. *)
Lemma mux_writes_Flush ps mw s : writable w s → 0 < mw.(bufSize) → Z.of_nat (length mw.(wbuf)) ≤ mw.(bufSize) →
  ∃ qs s', (for_each ps (Write (mux_writer w)) ;;; Flush w) (mw, s) =
      (Ret tt, (mk_mux_Writer [] mw.(bufSize), s')) ∧
    sent w s s' (wire_of qs) ∧ payloads_ok qs ∧ concat qs = mw.(wbuf) ++ concat ps.
Proof.
  intros Hs Hz Hb. destruct (mux_writes ps mw s Hs Hz Hb) as (q1 & mw1 & s1 & E1 & T1 & Hok1 & Hc1 & Hz1 & Hb1).
  rewrite (bind_Ret _ _ _ _ _ E1). destruct (Flush_ok w mw1 s1 (proj1 T1)) as (q2 & s2 & E2 & T2 & Hok2 & Hc2).
  exists (q1 ++ q2), s2. rewrite wire_of_app, concat_app, E2, Hz1, Hc2, Hc1. split_and!; auto.
  - by eapply sent_trans.
  - by apply Forall_app.
Qed.

Lemma demux_stream_ends t wire d e : stream r t wire → demux wire (fin r t) = (d, e) →
  stream (mux_reader fuel r) (NewReader, t) d ∧ fin (mux_reader fuel r) (NewReader, t) = e.
Proof.
  intros [Hr Hp] Hd. unfold stream.
  cbn [readable pending fin mux_reader_spec]. unfold mux_pending, mux_fin. cbn [fst snd rbuf NewReader].
  rewrite Hp, Hd. by split.
Qed.

Lemma demux_stream t wire d : stream r t wire → demux wire (fin r t) = (d, fin r t) →
  stream (mux_reader fuel r) (NewReader, t) d ∧ fin (mux_reader fuel r) (NewReader, t) = fin r t.
Proof. apply demux_stream_ends. Qed.

(** The data frames RecvMsg skips. *)
Lemma next_msg_frame_ok n ps code payload : payloads_ok ps → (length ps < n)%nat →
  is_byte code → code ≠ MsgData → Z.of_nat (length payload) ≤ maxPayload →
  parses r (next_msg_frame r n) (wire_of ps ++ frame_bytes code payload) (code, payload).
Proof.
  intros Hok Hn Hc Hne Hp. revert n Hn. induction Hok as [|p ps Hpl Hok IH]; intros [|n] Hn t rest Ht; simpl in Hn; try lia;
    cbn [next_msg_frame].
  - cbn [wire_of fmap list_fmap concat app] in Ht. pose proof (readFrame_ok r t _ Ht) as Hf.
    rewrite parse_frame_bytes, u8_id in Hf by done. destruct Hf as (t' & E & C). exists t'.
    rewrite (bind_Ret _ _ _ _ _ E). destruct (Z.eqb_spec code MsgData); [done|]. by split.
  - change (wire_of (p :: ps)) with (frame_bytes MsgData p ++ wire_of ps) in Ht.
    rewrite <-!app_assoc in Ht. pose proof (readFrame_ok r t _ Ht) as Hf.
    rewrite parse_frame_bytes in Hf by done. destruct Hf as (t' & E & C).
    rewrite (bind_Ret _ _ _ _ _ E). cbn [negb]. change (u8 MsgData =? MsgData) with true. cbn [negb].
    destruct (IH n ltac:(lia) t' rest) as (t2 & E2 & C2); [rewrite <-app_assoc; apply C|].
    exists t2. split; [done|by eapply consumed_trans].
Qed.

Lemma length_wire_of ps : (length ps ≤ length (wire_of ps))%nat.
Proof.
  induction ps as [|p ps IH]; [done|]. change (wire_of (p :: ps)) with (frame_bytes MsgData p ++ wire_of ps).
  unfold frame_bytes. rewrite !length_app. pose proof (length_le_bytes 4 (frame_header MsgData (Z.of_nat (length p)))).
  unfold PutUint32. simpl length at 1. lia.
Qed.

(** SendMsg: the pending data goes out first, then the control frame. *)
Lemma SendMsg_ok mw s code payload : writable w s → Z.of_nat (length payload) ≤ maxPayload →
  ∃ ps s', SendMsg w code payload (mw, s) = (Ret tt, (mk_mux_Writer [] mw.(bufSize), s')) ∧
    sent w s s' (wire_of ps ++ frame_bytes code payload) ∧ payloads_ok ps ∧ concat ps = mw.(wbuf).
Proof.
  intros Hs Hp. destruct (Flush_ok w mw s Hs) as (ps & s1 & E & T1 & Hok & Hc).
  destruct (writeFrame_ok w code payload Hp s1 (proj1 T1)) as (s2 & E2 & T2).
  exists ps, s2. unfold SendMsg. rewrite (bind_Ret _ _ _ _ _ E). split_and!; auto.
  - by apply lift_eq.
  - by eapply sent_trans.
Qed.

(** Reading a run of data frames, info frames between them or not, through a
    fresh Reader. *)
Lemma mux_ReadFull t wire d : stream r t wire → demux wire (fin r t) = (d, fin r t) →
  ∃ st', ReadFull (mux_reader fuel r) (length d) (NewReader, t) = (Ret d, st') ∧
    consumed (mux_reader fuel r) (NewReader, t) st' [].
Proof.
  intros Ht Hd. destruct (demux_stream t wire d Ht Hd) as [Hs _].
  apply (ReadFull_ok (mux_reader fuel r) d (length d) eq_refl). by rewrite app_nil_r.
Qed.

(** Data that ends in an error: all of it is read, and then the error. *)
Lemma mux_ReadFull_ends t wire d e : stream r t wire → demux wire (fin r t) = (d, e) →
  ∃ st', ReadFull (mux_reader fuel r) (length d) (NewReader, t) = (Ret d, st') ∧
    ∀ n, (0 < n)%nat → ∃ st'', Read (mux_reader fuel r) n st' = (Ret ([], Some e), st'').
Proof.
  intros Ht Hd. destruct (demux_stream_ends t wire d e Ht Hd) as [Hs Hf].
  destruct (ReadFull_ok (mux_reader fuel r) d (length d) eq_refl (NewReader, t) []) as (st' & E & [[Hr Hp] [Hf' _]]); [by rewrite app_nil_r|].
  exists st'. split; [done|]. intros n Hn. destruct (read_end (r := mux_reader fuel r) n st' Hn Hr Hp) as (st'' & E' & _).
  exists st''. by rewrite E', Hf', Hf.
Qed.
End both.

(** C15: Round trip of the multiplexed stream. Whatever pieces the application
    writes, whatever the buffer size and however the transport cuts its reads,
    Write followed by Flush succeeds, empties the buffer, and the frames it put
    on the wire, read through a fresh Reader at the other end, deliver exactly
    the bytes written, in order, and then nothing but the transport's end. *)
Theorem mux_roundtrip {S T} (w : io_Writer S) `{!WriterSpec w} (r : io_Reader T) `{!ReaderSpec r}
    (fuel : T → nat) `{!EnoughFuel r fuel} size ps s :
  writable w s → 0 < size →
  ∃ wire s', (for_each ps (Write (mux_writer w)) ;;; Flush w) (SetBufferSize size NewWriter, s) =
      (Ret tt, (SetBufferSize size NewWriter, s')) ∧ sent w s s' wire ∧
    ∀ t, stream r t wire →
      ∃ t', ReadFull (mux_reader fuel r) (length (concat ps)) (NewReader, t) = (Ret (concat ps), t') ∧
        consumed (mux_reader fuel r) (NewReader, t) t' [].
Proof.
  intros Hs Hz.
  destruct (mux_writes_Flush w ps (SetBufferSize size NewWriter) s Hs Hz) as (qs & s' & E & T1 & Hok & Hc);
    [simpl; lia|].
  exists (wire_of qs), s'. split_and!; auto. intros t Ht. cbn [wbuf SetBufferSize NewWriter app] in Hc.
  rewrite <-Hc. eapply mux_ReadFull; [done|]. by apply demux_wire_of.
Qed.

Lemma mux_roundtrip_witness :
  ∃ wire s', (for_each [str "ab"; str "cdefg"; []; str "h"] (Write (mux_writer conn_writer)) ;;; Flush conn_writer)
      (SetBufferSize 3 NewWriter, conn_of []) = (Ret tt, (SetBufferSize 3 NewWriter, s')) ∧
    sent conn_writer (conn_of []) s' wire ∧
    ∀ t, stream conn_reader t wire →
      ∃ t', ReadFull (mux_reader conn_fuel conn_reader) (length (str "abcdefgh")) (NewReader, t) =
          (Ret (str "abcdefgh"), t') ∧
        consumed (mux_reader conn_fuel conn_reader) (NewReader, t) t' [].
Proof.
  exact (mux_roundtrip conn_writer conn_reader conn_fuel 3 [str "ab"; str "cdefg"; []; str "h"] (conn_of [])
           eq_refl eq_refl).
Defined.

(** C17: Control messages are ordered after the data written before them. Data,
    then SendMsg of a control code, then more data and a Flush: the peer's RecvMsg
    skips the first run, drops what it had buffered and returns the message. The
    peer's Read, for an informational code, skips the message and sees the two data
    runs joined; for any other control code it delivers the first run and then
    reports the message as unexpected. *)
Theorem SendMsg_ordered {S T} (w : io_Writer S) `{!WriterSpec w} (r : io_Reader T) `{!ReaderSpec r}
    (fuel : T → nat) `{!EnoughFuel r fuel} size before code payload after s :
  writable w s → 0 < size → is_byte code → code ≠ MsgData →
  Z.of_nat (length payload) ≤ maxPayload →
  ∃ wire s', (for_each before (Write (mux_writer w)) ;;; SendMsg w code payload ;;;
              for_each after (Write (mux_writer w)) ;;; Flush w) (SetBufferSize size NewWriter, s) =
      (Ret tt, (SetBufferSize size NewWriter, s')) ∧ sent w s s' wire ∧
    (∀ t, stream r t wire →
      if isInfoMessage code then
        ∃ t', ReadFull (mux_reader fuel r) (length (concat (before ++ after))) (NewReader, t) = (Ret (concat (before ++ after)), t')
      else
        ∃ t', ReadFull (mux_reader fuel r) (length (concat before)) (NewReader, t) = (Ret (concat before), t') ∧
          ∀ n, (0 < n)%nat → ∃ t'', Read (mux_reader fuel r) n t' = (Ret ([], Some (UnexpectedMsg code)), t'')) ∧
    (∀ t mr, stream r t wire →
      ∃ t' rest, RecvMsg fuel r (mr, t) = (Ret (code, payload), (NewReader, t')) ∧ consumed r t t' rest ∧
        demux rest (fin r t) = (concat after, fin r t)).
Proof.
  intros Hs Hz Hc Hne Hp.
  destruct (mux_writes w before (SetBufferSize size NewWriter) s Hs Hz) as (q1 & mw1 & s1 & E1 & T1 & Hok1 & Hc1 & Hz1 & Hb1);
    [simpl; lia|].
  destruct (SendMsg_ok w mw1 s1 code payload (proj1 T1) Hp) as (q2 & s2 & E2 & T2 & Hok2 & Hc2).
  destruct (mux_writes_Flush w after (mk_mux_Writer [] (bufSize mw1)) s2 (proj1 T2)) as (q3 & s3 & E3 & T3 & Hok3 & Hc3);
    [cbn in *; lia..|].
  cbn [wbuf bufSize SetBufferSize NewWriter app] in *. rewrite Hz1 in *.
  assert (payloads_ok (q1 ++ q2)) as Hok12 by by apply Forall_app.
  exists (wire_of (q1 ++ q2) ++ frame_bytes code payload ++ wire_of q3), s3. split_and!.
  - rewrite (bind_Ret _ _ _ _ _ E1), (bind_Ret _ _ _ _ _ E2). exact E3.
  - rewrite wire_of_app, <-app_assoc. eapply sent_trans; [done|]. rewrite app_assoc. by eapply sent_trans.
  - intros t Ht. assert (concat (q1 ++ q2) = concat before) as Hbefore by by rewrite concat_app, Hc1, Hc2.
    unfold wire_of in Ht at 1. destruct (isInfoMessage code) eqn:Hi.
    + edestruct (mux_ReadFull r fuel t) as (t' & E & _); [done| |exists t'; exact E].
      rewrite demux_data_frames, demux_info_frame, demux_wire_of by done. cbn [fst snd]. by rewrite Hbefore, Hc3, concat_app.
    + apply (mux_ReadFull_ends r fuel t _ (concat before) (UnexpectedMsg code) Ht).
      rewrite demux_data_frames, demux_other_frame by done. cbn [fst snd]. by rewrite app_nil_r, Hbefore.
  - intros t mr Ht. rewrite app_assoc in Ht. unfold RecvMsg.
    destruct (next_msg_frame_ok r (fuel t) (q1 ++ q2) code payload Hok12) with (s := t) (rest := wire_of q3)
      as (t' & E & C); auto.
    { pose proof (enough_fuel (r := r) t) as Hf. pose proof (length_wire_of (q1 ++ q2)).
      destruct Ht as [_ Ht]. rewrite Ht, !length_app in Hf. lia. }
    exists t', (wire_of q3). split_and!; [|done|by rewrite demux_wire_of, Hc3].
    rewrite (bind_Ret _ _ _ tt (NewReader, t)) by done. by apply lift_eq.
Qed.

(** An informational message between two writes, and one that Read does not know. *)
Lemma SendMsg_ordered_witness :
  (∃ wire s', (for_each [str "one"] (Write (mux_writer conn_writer)) ;;; SendMsg conn_writer MsgInfo (str "note") ;;;
              for_each [str "two"] (Write (mux_writer conn_writer)) ;;; Flush conn_writer)
      (SetBufferSize 8 NewWriter, conn_of []) = (Ret tt, (SetBufferSize 8 NewWriter, s')) ∧
    sent conn_writer (conn_of []) s' wire ∧
    (∀ t, stream conn_reader t wire →
      ∃ t', ReadFull (mux_reader conn_fuel conn_reader) (length (concat ([str "one"] ++ [str "two"]))) (NewReader, t) =
        (Ret (concat ([str "one"] ++ [str "two"])), t')) ∧
    (∀ t mr, stream conn_reader t wire →
      ∃ t' rest, RecvMsg conn_fuel conn_reader (mr, t) = (Ret (MsgInfo, str "note"), (NewReader, t')) ∧
        consumed conn_reader t t' rest ∧ demux rest (fin conn_reader t) = (concat [str "two"], fin conn_reader t))) ∧
  (∃ wire, ∀ t, stream conn_reader t wire →
      ∃ t', ReadFull (mux_reader conn_fuel conn_reader) 3 (NewReader, t) = (Ret (str "one"), t') ∧
        ∀ n, (0 < n)%nat → ∃ t'', Read (mux_reader conn_fuel conn_reader) n t' = (Ret ([], Some (UnexpectedMsg 99)), t'')).
Proof.
  split.
  - apply (SendMsg_ordered conn_writer conn_reader conn_fuel 8 [str "one"] MsgInfo (str "note") [str "two"] (conn_of []));
      [done|done|unfold is_byte, MsgInfo; lia|done|done].
  - destruct (SendMsg_ordered conn_writer conn_reader conn_fuel 8 [str "one"] 99 (str "note") [str "two"] (conn_of []))
      as (wire & s' & _ & _ & Hread & _); [done|done|unfold is_byte; lia|done|done|]. exists wire. exact Hread.
Defined.

(** C18: Read on an arbitrary wire, hostile or truncated. It never panics and
    always ends: as long as the demultiplexed stream has bytes left it returns a
    non-empty piece of them of at most the requested size and keeps the rest,
    and when it has none left it returns the error the stream ends in, an
    unknown control code being reported as such. *)
Theorem mux_Read_refines_demux {S} (r : io_Reader S) `{!ReaderSpec r} (fuel : S → nat) `{!EnoughFuel r fuel}
    n mr s : (0 < n)%nat → readable r s →
  match mux_pending r (mr, s) with
  | [] => ∃ st', mux_Read fuel r n (mr, s) = (Fail (mux_fin r (mr, s)), st')
  | d => ∃ k st', mux_Read fuel r n (mr, s) = (Ret (take k d), st') ∧ (0 < k ≤ n)%nat ∧
           mux_pending r st' = drop k d ∧ mux_fin r st' = mux_fin r (mr, s)
  end.
Proof.
  intros Hn Hr.
  pose proof (read_some (r := mux_reader fuel r) n (mr, s) Hn Hr) as Hsome.
  pose proof (read_end (r := mux_reader fuel r) n (mr, s) Hn Hr) as Hend.
  cbn [pending fin readable mux_reader_spec Read mux_reader] in Hsome, Hend.
  destruct (mux_pending r (mr, s)) as [|b d].
  - destruct (Hend eq_refl) as (st' & E & _). exists st'.
    destruct (mux_Read fuel r n (mr, s)) as [[] ?]; congruence.
  - destruct Hsome as (k & st' & E & Hk & _ & _ & Hp & Hf & _); [done|]. exists k, st'.
    split; [|done]. destruct (mux_Read fuel r n (mr, s)) as [[] ?]; congruence.
Qed.

Lemma mux_Read_refines_demux_witness :
  ∃ st', mux_Read conn_fuel conn_reader 4 (NewReader, conn_of (frame_bytes MsgInfo (str "x") ++ frame_bytes 99 [])) =
    (Fail (UnexpectedMsg 99), st').
Proof.
  exact (mux_Read_refines_demux conn_reader conn_fuel 4 NewReader
    (conn_of (frame_bytes MsgInfo (str "x") ++ frame_bytes 99 [])) ltac:(lia) I).
Defined.

(** The Writer's buffer invariant. A Write on a Writer whose buffer is
    within its size never panics, reports every byte as taken, leaves the buffer
    within its size, and the frames it had to send carry, before the buffer's
    new content, exactly the old content and the new bytes. *)
Theorem mux_Write_bounded {S} (w : io_Writer S) `{!WriterSpec w} p mw s :
  writable w s → 0 < mw.(bufSize) → Z.of_nat (length mw.(wbuf)) ≤ mw.(bufSize) →
  ∃ wire mw' s', mux_Write w p (mw, s) = (Ret (Z.of_nat (length p)), (mw', s')) ∧
    sent w s s' wire ∧ mw'.(bufSize) = mw.(bufSize) ∧ Z.of_nat (length mw'.(wbuf)) ≤ mw'.(bufSize) ∧
    ∀ e, ∃ d, demux wire e = (d, e) ∧ d ++ mw'.(wbuf) = mw.(wbuf) ++ p.
Proof.
  intros Hs Hz Hb. destruct (mux_Write_ok w p mw s Hs Hz Hb) as (ps & mw' & s' & E & T1 & Hok & Hc & Hz' & Hb').
  exists (wire_of ps), mw', s'. split_and!; auto; [lia|]. intros e. exists (concat ps).
  by rewrite demux_wire_of.
Qed.

Lemma mux_Write_bounded_witness :
  ∃ wire mw' s', mux_Write conn_writer (str "hello") (SetBufferSize 2 NewWriter, conn_of []) = (Ret 5, (mw', s')) ∧
    sent conn_writer (conn_of []) s' wire ∧ mw'.(bufSize) = 2 ∧ Z.of_nat (length mw'.(wbuf)) ≤ mw'.(bufSize) ∧
    ∀ e, ∃ d, demux wire e = (d, e) ∧ d ++ mw'.(wbuf) = [] ++ str "hello".
Proof.
  apply (mux_Write_bounded conn_writer (str "hello") (SetBufferSize 2 NewWriter) (conn_of [])); [done|done|cbn; lia].
Defined.
