(* ===== verification/Flist.v ===== *)
(** * File list entries (protocol/flist.go)

    [FlistReader] and [FlistWriter]: the delta-encoded file list of every
    protocol version. ReadEntry and WriteEntry are long functions in the source;
    each block of them that handles one field is a definition here
    ([read_name], [write_name], ...), and [ReadEntry] and [WriteEntry] compose
    the blocks in the order of the source, early returns included. The two
    structs share the negotiated options ([flist_opts]) and the values of the
    previous entry ([flist_last]). *)
From S2P Require Import Prelude.
From S2P Require Import GoIO.
From S2P Require Import WireInt.
#[local] Open Scope Z_scope.
#[local] Open Scope go_scope.

(** ** Constants *)
Definition MaxPathLen : Z := 4096.

Definition XmitTopDir : Z := Z.shiftl 1 0.
Definition XmitSameMode : Z := Z.shiftl 1 1.
Definition XmitExtendedFlags : Z := Z.shiftl 1 2.
Definition XmitSameUID : Z := Z.shiftl 1 3.
Definition XmitSameGID : Z := Z.shiftl 1 4.
Definition XmitSameName : Z := Z.shiftl 1 5.
Definition XmitLongName : Z := Z.shiftl 1 6.
Definition XmitSameTime : Z := Z.shiftl 1 7.
Definition XmitSameRdevMajor : Z := Z.shiftl 1 8.
Definition XmitNoContentDir : Z := Z.shiftl 1 8.
Definition XmitHlinked : Z := Z.shiftl 1 9.
Definition XmitSameDevPre30 : Z := Z.shiftl 1 10.
Definition XmitUserNameFollows : Z := Z.shiftl 1 10.
Definition XmitRdevMinor8Pre30 : Z := Z.shiftl 1 11.
Definition XmitGroupNameFollows : Z := Z.shiftl 1 11.
Definition XmitHlinkFirst : Z := Z.shiftl 1 12.
Definition XmitModNsec : Z := Z.shiftl 1 13.
Definition XmitSameAtime : Z := Z.shiftl 1 14.

(** [mode & 0o170000] and the file types. *)
Definition S_IFMT (mode : Z) : Z := Z.land mode 0xF000.
Definition S_IFIFO : Z := 0x1000.
Definition S_IFCHR : Z := 0x2000.
Definition S_IFDIR : Z := 0x4000.
Definition S_IFBLK : Z := 0x6000.
Definition S_IFREG : Z := 0x8000.
Definition S_IFLNK : Z := 0xA000.
Definition S_IFSOCK : Z := 0xC000.
Definition isDir (mode : Z) : bool := S_IFMT mode =? S_IFDIR.
Definition isReg (mode : Z) : bool := S_IFMT mode =? S_IFREG.
Definition isSymlink (mode : Z) : bool := S_IFMT mode =? S_IFLNK.
Definition isDevice (mode : Z) : bool := (S_IFMT mode =? S_IFCHR) || (S_IFMT mode =? S_IFBLK).

(** ** Data *)
Record FlistEntry := mk_FlistEntry {
  Name : bytes;
  Mode : Z;
  Size : Z;
  Mtime : Z;
  ModNsec : Z;
  Atime : Z;
  UID : Z;
  GID : Z;
  UserName : bytes;
  GroupName : bytes;
  RdevMajor : Z;
  RdevMinor : Z;
  LinkTarget : bytes;
  HlinkNdx : Z;
  Nlink : Z;
  Dev : Z;
  Ino : Z;
  Checksum : bytes;
  TopDir : bool;
  NoContentDir : bool;
}.

(** [&FlistEntry{}] *)
Definition zeroEntry : FlistEntry :=
  mk_FlistEntry [] 0 0 0 0 0 0 0 [] [] 0 0 [] 0 0 0 0 [] false false.

(** The fields of both structs that the setters change. *)
Record flist_opts := mk_flist_opts {
  version : Z;
  varintFlistFlags : bool;
  hasAtimes : bool;
  hasCrtimes : bool;
  preserveUID : bool;
  preserveGID : bool;
  preserveDevices : bool;
  preserveLinks : bool;
  preserveHardlinks : bool;
  alwaysChecksum : bool;
}.

(** The values of the previous entry, kept by both structs. *)
Record flist_last := mk_flist_last {
  lastMode : Z;
  lastUID : Z;
  lastGID : Z;
  lastMtime : Z;
  lastAtime : Z;
  lastName : bytes;
}.

Record FlistReader := mk_FlistReader {
  r_opts : flist_opts;
  incRecurse : bool;
  used : Z;
  r_last : flist_last;
  r_lastRdevMajor : Z;
  lastDir : Z;
}.

Record FlistWriter := mk_FlistWriter {
  w_opts : flist_opts;
  id0Names : bool;
  w_last : flist_last;
  w_lastRdevMajor : Z;
  lastDev : Z;
}.

Definition defaultOpts (version : Z) (varintFlistFlags : bool) : flist_opts :=
  mk_flist_opts version varintFlistFlags false false true true true true true false.
Definition zeroLast : flist_last := mk_flist_last 0 0 0 0 0 [].

Definition NewFlistReader (version : Z) (varintFlistFlags : bool) : FlistReader :=
  mk_FlistReader (defaultOpts version varintFlistFlags) false 0 zeroLast 0 0.
Definition NewFlistWriter (version : Z) (varintFlistFlags : bool) : FlistWriter :=
  mk_FlistWriter (defaultOpts version varintFlistFlags) false zeroLast 0 0.

(** The setters, identical in the two structs. *)
Definition SetAtimes (b : bool) (o : flist_opts) : flist_opts :=
  mk_flist_opts o.(version) o.(varintFlistFlags) b o.(hasCrtimes) o.(preserveUID) o.(preserveGID)
    o.(preserveDevices) o.(preserveLinks) o.(preserveHardlinks) o.(alwaysChecksum).
Definition SetCrtimes (b : bool) (o : flist_opts) : flist_opts :=
  mk_flist_opts o.(version) o.(varintFlistFlags) o.(hasAtimes) b o.(preserveUID) o.(preserveGID)
    o.(preserveDevices) o.(preserveLinks) o.(preserveHardlinks) o.(alwaysChecksum).
Definition SetPreserveUID (b : bool) (o : flist_opts) : flist_opts :=
  mk_flist_opts o.(version) o.(varintFlistFlags) o.(hasAtimes) o.(hasCrtimes) b o.(preserveGID)
    o.(preserveDevices) o.(preserveLinks) o.(preserveHardlinks) o.(alwaysChecksum).
Definition SetPreserveGID (b : bool) (o : flist_opts) : flist_opts :=
  mk_flist_opts o.(version) o.(varintFlistFlags) o.(hasAtimes) o.(hasCrtimes) o.(preserveUID) b
    o.(preserveDevices) o.(preserveLinks) o.(preserveHardlinks) o.(alwaysChecksum).
Definition SetPreserveDevices (b : bool) (o : flist_opts) : flist_opts :=
  mk_flist_opts o.(version) o.(varintFlistFlags) o.(hasAtimes) o.(hasCrtimes) o.(preserveUID) o.(preserveGID)
    b o.(preserveLinks) o.(preserveHardlinks) o.(alwaysChecksum).
Definition SetPreserveLinks (b : bool) (o : flist_opts) : flist_opts :=
  mk_flist_opts o.(version) o.(varintFlistFlags) o.(hasAtimes) o.(hasCrtimes) o.(preserveUID) o.(preserveGID)
    o.(preserveDevices) b o.(preserveHardlinks) o.(alwaysChecksum).
Definition SetPreserveHardlinks (b : bool) (o : flist_opts) : flist_opts :=
  mk_flist_opts o.(version) o.(varintFlistFlags) o.(hasAtimes) o.(hasCrtimes) o.(preserveUID) o.(preserveGID)
    o.(preserveDevices) o.(preserveLinks) b o.(alwaysChecksum).
Definition SetAlwaysChecksum (b : bool) (o : flist_opts) : flist_opts :=
  mk_flist_opts o.(version) o.(varintFlistFlags) o.(hasAtimes) o.(hasCrtimes) o.(preserveUID) o.(preserveGID)
    o.(preserveDevices) o.(preserveLinks) o.(preserveHardlinks) b.

Definition r_with (f : flist_opts → flist_opts) (r : FlistReader) : FlistReader :=
  mk_FlistReader (f r.(r_opts)) r.(incRecurse) r.(used) r.(r_last) r.(r_lastRdevMajor) r.(lastDir).
Definition w_with (f : flist_opts → flist_opts) (w : FlistWriter) : FlistWriter :=
  mk_FlistWriter (f w.(w_opts)) w.(id0Names) w.(w_last) w.(w_lastRdevMajor) w.(lastDev).
Definition SetIncRecurse (b : bool) (r : FlistReader) : FlistReader :=
  mk_FlistReader r.(r_opts) b r.(used) r.(r_last) r.(r_lastRdevMajor) r.(lastDir).
Definition SetID0Names (b : bool) (w : FlistWriter) : FlistWriter :=
  mk_FlistWriter w.(w_opts) b w.(w_last) w.(w_lastRdevMajor) w.(lastDev).

(** Assignments to one field of the previous-entry values. *)
Definition set_lastMode (v : Z) (l : flist_last) : flist_last :=
  mk_flist_last v l.(lastUID) l.(lastGID) l.(lastMtime) l.(lastAtime) l.(lastName).
Definition set_lastUID (v : Z) (l : flist_last) : flist_last :=
  mk_flist_last l.(lastMode) v l.(lastGID) l.(lastMtime) l.(lastAtime) l.(lastName).
Definition set_lastGID (v : Z) (l : flist_last) : flist_last :=
  mk_flist_last l.(lastMode) l.(lastUID) v l.(lastMtime) l.(lastAtime) l.(lastName).
Definition set_lastMtime (v : Z) (l : flist_last) : flist_last :=
  mk_flist_last l.(lastMode) l.(lastUID) l.(lastGID) v l.(lastAtime) l.(lastName).
Definition set_lastAtime (v : Z) (l : flist_last) : flist_last :=
  mk_flist_last l.(lastMode) l.(lastUID) l.(lastGID) l.(lastMtime) v l.(lastName).
Definition set_lastName (v : bytes) (l : flist_last) : flist_last :=
  mk_flist_last l.(lastMode) l.(lastUID) l.(lastGID) l.(lastMtime) l.(lastAtime) v.

Definition r_set_last (f : flist_last → flist_last) (r : FlistReader) : FlistReader :=
  mk_FlistReader r.(r_opts) r.(incRecurse) r.(used) (f r.(r_last)) r.(r_lastRdevMajor) r.(lastDir).
Definition r_set_used (n : Z) (r : FlistReader) : FlistReader :=
  mk_FlistReader r.(r_opts) r.(incRecurse) n r.(r_last) r.(r_lastRdevMajor) r.(lastDir).
Definition w_set_last (f : flist_last → flist_last) (w : FlistWriter) : FlistWriter :=
  mk_FlistWriter w.(w_opts) w.(id0Names) (f w.(w_last)) w.(w_lastRdevMajor) w.(lastDev).
Definition w_set_rdev (v : Z) (w : FlistWriter) : FlistWriter :=
  mk_FlistWriter w.(w_opts) w.(id0Names) w.(w_last) v w.(lastDev).
Definition w_set_dev (v : Z) (w : FlistWriter) : FlistWriter :=
  mk_FlistWriter w.(w_opts) w.(id0Names) w.(w_last) w.(w_lastRdevMajor) v.

Definition readByte {S} (r : io_Reader S) : M S Z :=
  let* b := ReadFull r 1 in
  ret (b !!! 0%nat).
Definition writeByte {S} (w : io_Writer S) (b : Z) : M S unit := Write w [b].

Definition packRdev (major minor : Z) : Z := Z.lor (u32 (Z.shiftl major 8)) (Z.land minor 0xFF).

(** The comparison loop from the front, [m] bytes at most. *)
Fixpoint prefix_loop (m : nat) (a b : bytes) : nat :=
  match m, a, b with
  | Datatypes.S m', x :: a', y :: b' => if x =? y then Datatypes.S (prefix_loop m' a' b') else 0%nat
  | _, _, _ => 0%nat
  end.
Definition commonPrefixLen (a b : bytes) : nat :=
  prefix_loop ((length a `min` length b) `min` 255) a b.

(** ** FlistReader.ReadEntry *)
Section reader.
Context {S : Type} (rd : io_Reader S).

Definition readXflags : M (FlistReader * S) Z :=
  let* r := get in
  if r.(r_opts).(varintFlistFlags) then lift (ReadVarint rd) else
  let* b := lift (readByte rd) in
  if b =? 0 then ret 0 else
  if (28 <=? r.(r_opts).(version)) && has b XmitExtendedFlags then
    let* high := lift (readByte rd) in
    ret (Z.lor b (Z.shiftl high 8))
  else ret b.

(** Name: prefix length, suffix length, overflow guard, suffix. A prefix
    longer than the previous name panics in [r.lastName[:l1]]. *)
Definition read_name (xflags : Z) : M (FlistReader * S) bytes :=
  let* l1 := (if has xflags XmitSameName then lift (readByte rd) else ret 0) in
  let* l2 := (if has xflags XmitLongName then lift (ReadVarint rd) else lift (readByte rd)) in
  if (l2 <? 0) || (MaxPathLen <? l1 + l2) then fail (Errorf "overflow" [xflags; l1; l2]) else
  let* suffix := (if 0 <? l2 then lift (ReadFull rd (Z.to_nat l2)) else ret []) in
  let* r := get in
  let prev := r.(r_last).(lastName) in
  if Z.of_nat (length prev) <? l1 then panic else
  let name := take (Z.to_nat l1) prev ++ suffix in
  modify (r_set_last (set_lastName name)) ;;;
  ret name.

(** The abbreviated hard link entry. *)
Definition read_hlink_ndx : M (FlistReader * S) Z :=
  let* ndx := lift (ReadVarint rd) in
  let* r := get in
  if (ndx <? 0) || (i32 (r.(used) + 1) <=? ndx)
  then fail (Errorf "hard-link reference out of range" [ndx; r.(used) + 1]) else
  if ndx <? 1 then fail (Errorf "hard-link gnum precedes flist start 1" [ndx]) else
  modify (r_set_used (r.(used) + 1)) ;;;
  ret ndx.

Definition read_size : M (FlistReader * S) Z :=
  let* r := get in
  if r.(r_opts).(version) <? 30 then lift (ReadLongInt rd) else lift (ReadVarlong rd 3).

Definition read_mtime (xflags : Z) : M (FlistReader * S) Z :=
  let* r := get in
  if negb (has xflags XmitSameTime) then
    let* t := (if 30 <=? r.(r_opts).(version) then lift (ReadVarlong rd 4) else lift (ReadUint32 rd)) in
    modify (r_set_last (set_lastMtime t)) ;;;
    ret t
  else ret r.(r_last).(lastMtime).

Definition read_nsec (xflags : Z) : M (FlistReader * S) Z :=
  if has xflags XmitModNsec then lift (ReadVarint rd) else ret 0.

Definition read_mode (xflags : Z) : M (FlistReader * S) Z :=
  let* r := get in
  if negb (has xflags XmitSameMode) then
    let* v := lift (ReadUint32 rd) in
    modify (r_set_last (set_lastMode v)) ;;;
    ret v
  else ret r.(r_last).(lastMode).

(** Mode type validation and the transfer-root guard. *)
Definition valid_type (mode : Z) : bool :=
  existsb (Z.eqb (S_IFMT mode)) [S_IFREG; S_IFDIR; S_IFLNK; S_IFCHR; S_IFBLK; S_IFIFO; S_IFSOCK].
Definition is_root_name (name : bytes) : bool :=
  bool_decide (name = str ".") || bool_decide (name = str "/.").
Definition check_mode (name : bytes) (mode : Z) : M (FlistReader * S) unit :=
  if negb (mode =? 0) && negb (valid_type mode) then fail (Errorf "invalid file mode" (mode :: name)) else
  if is_root_name name && negb (isDir mode)
  then fail (Errorf "rejecting non-directory transfer-root entry" name)
  else ret tt.

Definition read_atime (xflags mode : Z) : M (FlistReader * S) Z :=
  let* r := get in
  if r.(r_opts).(hasAtimes) && negb (isDir mode) && negb (has xflags XmitSameAtime) then
    let* t := lift (ReadVarlong rd 4) in
    modify (r_set_last (set_lastAtime t)) ;;;
    ret t
  else if r.(r_opts).(hasAtimes) && negb (isDir mode) then ret r.(r_last).(lastAtime)
  else ret 0.

(** The value of a uid or gid and the name that may follow it. *)
Definition read_id (v : Z) (named : bool) : M S (Z * bytes) :=
  if 30 <=? v then
    let* id := ReadVarint rd in
    if named then
      let* b := readByte rd in
      let* name := (if 0 <? b then ReadFull rd (Z.to_nat b) else ret []) in
      ret (id, name)
    else ret (id, [])
  else
    let* v := ReadUint32 rd in
    ret (i32 v, []).

Definition read_uid (xflags : Z) : M (FlistReader * S) (Z * bytes) :=
  let* r := get in
  if r.(r_opts).(preserveUID) && negb (has xflags XmitSameUID) then
    let* idn := lift (read_id r.(r_opts).(version) (has xflags XmitUserNameFollows)) in
    modify (r_set_last (set_lastUID idn.1)) ;;;
    ret idn
  else if r.(r_opts).(preserveUID) then ret (r.(r_last).(lastUID), [])
  else ret (0, []).

Definition read_gid (xflags : Z) : M (FlistReader * S) (Z * bytes) :=
  let* r := get in
  if r.(r_opts).(preserveGID) && negb (has xflags XmitSameGID) then
    let* idn := lift (read_id r.(r_opts).(version) (has xflags XmitGroupNameFollows)) in
    modify (r_set_last (set_lastGID idn.1)) ;;;
    ret idn
  else if r.(r_opts).(preserveGID) then ret (r.(r_last).(lastGID), [])
  else ret (0, []).

(** Device numbers; the reader never updates lastRdevMajor. *)
Definition read_rdev (xflags mode : Z) : M (FlistReader * S) (Z * Z) :=
  let* r := get in
  if r.(r_opts).(preserveDevices) && isDevice mode then
    if r.(r_opts).(version) <? 28 then
      if negb (has xflags XmitSameRdevMajor) then
        let* v := lift (ReadUint32 rd) in
        ret (Z.shiftr v 8, Z.land v 0xFF)
      else ret (0, 0)
    else if r.(r_opts).(version) <? 30 then
      let* major := (if negb (has xflags XmitSameRdevMajor) then lift (ReadUint32 rd)
                     else ret r.(r_lastRdevMajor)) in
      let* minor := (if has xflags XmitRdevMinor8Pre30 then lift (readByte rd) else lift (ReadUint32 rd)) in
      ret (major, minor)
    else
      let* major := (if negb (has xflags XmitSameRdevMajor)
                     then let* v := lift (ReadVarint rd) in ret (u32 v)
                     else ret r.(r_lastRdevMajor)) in
      let* v := lift (ReadVarint rd) in
      ret (major, u32 v)
  else ret (0, 0).

Definition read_target (mode : Z) : M (FlistReader * S) bytes :=
  let* r := get in
  if r.(r_opts).(preserveLinks) && isSymlink mode then
    let* lenVal := (if r.(r_opts).(version) <? 30 then lift (ReadInt32 rd) else lift (ReadVarint rd)) in
    if 0 <? lenVal then lift (ReadFull rd (Z.to_nat lenVal)) else ret []
  else ret [].

Definition read_devino (xflags mode : Z) : M (FlistReader * S) (Z * Z) :=
  let* r := get in
  let v := r.(r_opts).(version) in
  let readHlink := (v <? 30) && r.(r_opts).(preserveHardlinks) &&
    (((v <? 28) && isReg mode) || ((28 <=? v) && has xflags XmitHlinked)) in
  if readHlink then
    if v <? 26 then
      let* v1 := lift (ReadUint32 rd) in
      let* v2 := lift (ReadUint32 rd) in
      ret (v1, v2)
    else
      let* dev := (if negb (has xflags XmitSameDevPre30) then lift (ReadLongInt rd) else ret 0) in
      let* ino := lift (ReadLongInt rd) in
      ret (dev, ino)
  else ret (0, 0).

Definition read_checksum (mode : Z) : M (FlistReader * S) bytes :=
  let* r := get in
  if r.(r_opts).(alwaysChecksum) && (isReg mode || (r.(r_opts).(version) <? 28))
  then lift (ReadFull rd 16) else ret [].

(** [_, _ = ReadVarint(r.r)]: the error is dropped, a panic is not. *)
Definition ignore_error {St A} (m : M St A) : M St unit := λ s,
  match m s with
  | (Ret _, s') | (Fail _, s') => (Ret tt, s')
  | (Panic, s') => (Panic, s')
  | (NoFuel, s') => (NoFuel, s')
  end.

(** The fields after the name. *)
Definition read_fields (xflags : Z) (name : bytes) : M (FlistReader * S) FlistEntry :=
  let* size := read_size in
  let* mtime := read_mtime xflags in
  let* nsec := read_nsec xflags in
  let* mode := read_mode xflags in
  check_mode name mode ;;;
  let* atime := read_atime xflags mode in
  let* (uid, user) := read_uid xflags in
  let* (gid, group) := read_gid xflags in
  let* (major, minor) := read_rdev xflags mode in
  let* target := read_target mode in
  let* (dev, ino) := read_devino xflags mode in
  let* csum := read_checksum mode in
  modify (λ r, r_set_used (r.(used) + 1) r) ;;;
  ret (mk_FlistEntry name mode size mtime nsec atime uid gid user group major minor target 0 0 dev ino csum
         (isDir mode && has xflags XmitTopDir) (isDir mode && has xflags XmitNoContentDir)).

Definition ReadEntry : M (FlistReader * S) FlistEntry :=
  let* xflags := readXflags in
  let* r := get in
  if xflags =? 0 then
    (if r.(r_opts).(varintFlistFlags) then ignore_error (lift (ReadVarint rd)) else ret tt) ;;;
    fail EOF
  else
  let* name := read_name xflags in
  if (30 <=? r.(r_opts).(version)) && r.(r_opts).(preserveHardlinks) && has xflags XmitHlinked
     && negb (has xflags XmitHlinkFirst)
  then
    let* ndx := read_hlink_ndx in
    ret (mk_FlistEntry name 0 0 0 0 0 0 0 [] [] 0 0 [] ndx 0 0 0 [] false false)
  else read_fields xflags name.
End reader.

(** ** FlistWriter.WriteEntry *)

(** computeXflags: the flags, and the writer with lastDev updated. *)
Definition sends_hlink (w : FlistWriter) (e : FlistEntry) : bool :=
  (28 <=? w.(w_opts).(version)) && (w.(w_opts).(version) <? 30) && w.(w_opts).(preserveHardlinks)
  && negb (isDir e.(Mode)) && (1 <? e.(Nlink)).

Definition computeXflags (w : FlistWriter) (e : FlistEntry) : Z * FlistWriter :=
  let o := w.(w_opts) in
  let l := w.(w_last) in
  let dir := isDir e.(Mode) in
  let noContent := (30 <=? o.(version)) && e.(NoContentDir) in
  let xflags := 0 in
  let xflags := setif (dir && noContent) XmitNoContentDir xflags in
  let xflags := setif (dir && e.(TopDir)) XmitTopDir xflags in
  let xflags := setif (e.(Mode) =? l.(lastMode)) XmitSameMode xflags in
  let hasLast := negb (bool_decide (l.(lastName) = [])) in
  let xflags := setif (negb o.(preserveUID) || (hasLast && (e.(UID) =? l.(lastUID)))) XmitSameUID xflags in
  let xflags := setif (negb o.(preserveGID) || (hasLast && (e.(GID) =? l.(lastGID)))) XmitSameGID xflags in
  let xflags := setif (e.(Mtime) =? l.(lastMtime)) XmitSameTime xflags in
  let l1 := commonPrefixLen l.(lastName) e.(Name) in
  let l2 := Z.of_nat (length e.(Name)) - Z.of_nat l1 in
  let xflags := setif (0 <? Z.of_nat l1) XmitSameName xflags in
  let xflags := setif (255 <? l2) XmitLongName xflags in
  let xflags := setif ((31 <=? o.(version)) && negb (e.(ModNsec) =? 0)) XmitModNsec xflags in
  let xflags := setif (o.(hasAtimes) && negb dir && (e.(Atime) =? l.(lastAtime))) XmitSameAtime xflags in
  if sends_hlink w e then
    if e.(Dev) =? w.(lastDev) then (Z.lor (Z.lor xflags XmitSameDevPre30) XmitHlinked, w)
    else (Z.lor xflags XmitHlinked, w_set_dev e.(Dev) w)
  else (xflags, w).

Section writer.
Context {S : Type} (wr : io_Writer S).

Definition writeXflags (xflags mode v : Z) (varint : bool) : M S unit :=
  if varint then
    let xflags := if xflags =? 0 then XmitExtendedFlags else xflags in
    WriteVarint wr (i32 xflags)
  else if 28 <=? v then
    let xflags := if (xflags =? 0) && negb (isDir mode) then Z.lor xflags XmitTopDir else xflags in
    if has xflags 0xFF00 || (xflags =? 0) then
      WriteUint16 wr (u16 (Z.lor xflags XmitExtendedFlags))
    else writeByte wr (u8 xflags)
  else
    let xflags := if xflags =? 0 then (if isDir mode then XmitLongName else XmitTopDir) else xflags in
    writeByte wr (u8 xflags).

Definition write_name (xflags : Z) (name : bytes) : M (FlistWriter * S) unit :=
  let* w := get in
  let l1 := commonPrefixLen w.(w_last).(lastName) name in
  let l2 := Z.of_nat (length name) - Z.of_nat l1 in
  (if has xflags XmitSameName then lift (writeByte wr (u8 (Z.of_nat l1))) else ret tt) ;;;
  (if has xflags XmitLongName then lift (WriteVarint wr (i32 l2)) else lift (writeByte wr (u8 l2))) ;;;
  (if 0 <? l2 then lift (Write wr (drop l1 name)) else ret tt) ;;;
  modify (w_set_last (set_lastName name)).

Definition write_size (e : FlistEntry) : M (FlistWriter * S) unit :=
  let* w := get in
  if w.(w_opts).(version) <? 30 then lift (WriteLongInt wr e.(Size)) else lift (WriteVarlong wr e.(Size) 3).

Definition write_mtime (xflags : Z) (e : FlistEntry) : M (FlistWriter * S) unit :=
  let* w := get in
  if negb (has xflags XmitSameTime) then
    (if 30 <=? w.(w_opts).(version) then lift (WriteVarlong wr e.(Mtime) 4)
     else lift (WriteUint32 wr (u32 e.(Mtime)))) ;;;
    modify (w_set_last (set_lastMtime e.(Mtime)))
  else ret tt.

Definition write_nsec (xflags : Z) (e : FlistEntry) : M (FlistWriter * S) unit :=
  if has xflags XmitModNsec then lift (WriteVarint wr e.(ModNsec)) else ret tt.

Definition write_mode (xflags : Z) (e : FlistEntry) : M (FlistWriter * S) unit :=
  if negb (has xflags XmitSameMode) then
    lift (WriteUint32 wr e.(Mode)) ;;;
    modify (w_set_last (set_lastMode e.(Mode)))
  else ret tt.

Definition write_atime (xflags : Z) (e : FlistEntry) : M (FlistWriter * S) unit :=
  let* w := get in
  if w.(w_opts).(hasAtimes) && negb (isDir e.(Mode)) && negb (has xflags XmitSameAtime) then
    lift (WriteVarlong wr e.(Atime) 4) ;;;
    modify (w_set_last (set_lastAtime e.(Atime)))
  else ret tt.

Definition write_id (v : Z) (named : bool) (id : Z) (name : bytes) : M S unit :=
  if 30 <=? v then
    WriteVarint wr id ;;;
    if named then
      writeByte wr (u8 (Z.of_nat (length name))) ;;;
      (if 0 <? Z.of_nat (length name) then Write wr name else ret tt)
    else ret tt
  else WriteUint32 wr (u32 id).

Definition write_uid (xflags : Z) (e : FlistEntry) : M (FlistWriter * S) unit :=
  let* w := get in
  if w.(w_opts).(preserveUID) && negb (has xflags XmitSameUID) then
    lift (write_id w.(w_opts).(version) (has xflags XmitUserNameFollows) e.(UID) e.(UserName)) ;;;
    modify (w_set_last (set_lastUID e.(UID)))
  else ret tt.

Definition write_gid (xflags : Z) (e : FlistEntry) : M (FlistWriter * S) unit :=
  let* w := get in
  if w.(w_opts).(preserveGID) && negb (has xflags XmitSameGID) then
    lift (write_id w.(w_opts).(version) (has xflags XmitGroupNameFollows) e.(GID) e.(GroupName)) ;;;
    modify (w_set_last (set_lastGID e.(GID)))
  else ret tt.

Definition write_rdev (xflags : Z) (e : FlistEntry) : M (FlistWriter * S) unit :=
  let* w := get in
  if w.(w_opts).(preserveDevices) && isDevice e.(Mode) then
    if w.(w_opts).(version) <? 28 then
      if negb (has xflags XmitSameRdevMajor)
      then lift (WriteUint32 wr (packRdev e.(RdevMajor) e.(RdevMinor))) else ret tt
    else if w.(w_opts).(version) <? 30 then
      (if negb (has xflags XmitSameRdevMajor)
       then lift (WriteUint32 wr e.(RdevMajor)) ;;; modify (w_set_rdev e.(RdevMajor)) else ret tt) ;;;
      (if has xflags XmitRdevMinor8Pre30 then lift (writeByte wr (u8 e.(RdevMinor)))
       else lift (WriteUint32 wr e.(RdevMinor)))
    else
      (if negb (has xflags XmitSameRdevMajor)
       then lift (WriteVarint wr (i32 e.(RdevMajor))) ;;; modify (w_set_rdev e.(RdevMajor)) else ret tt) ;;;
      lift (WriteVarint wr (i32 e.(RdevMinor)))
  else ret tt.

Definition write_target (e : FlistEntry) : M (FlistWriter * S) unit :=
  let* w := get in
  if w.(w_opts).(preserveLinks) && isSymlink e.(Mode) then
    let varLen := i32 (Z.of_nat (length e.(LinkTarget))) in
    (if w.(w_opts).(version) <? 30 then lift (WriteInt32 wr varLen) else lift (WriteVarint wr varLen)) ;;;
    (if 0 <? Z.of_nat (length e.(LinkTarget)) then lift (Write wr e.(LinkTarget)) else ret tt)
  else ret tt.

Definition write_devino (xflags : Z) (e : FlistEntry) : M (FlistWriter * S) unit :=
  let* w := get in
  let v := w.(w_opts).(version) in
  let hlink := (v <? 30) &&
    (((v <? 28) && w.(w_opts).(preserveHardlinks) && isReg e.(Mode)) || ((28 <=? v) && has xflags XmitHlinked)) in
  if hlink then
    if v <? 26 then
      lift (WriteUint32 wr (u32 e.(Dev))) ;;;
      lift (WriteUint32 wr (u32 e.(Ino)))
    else
      (if negb (has xflags XmitSameDevPre30) then lift (WriteLongInt wr e.(Dev)) else ret tt) ;;;
      lift (WriteLongInt wr e.(Ino))
  else ret tt.

Definition write_checksum (e : FlistEntry) : M (FlistWriter * S) unit :=
  let* w := get in
  if w.(w_opts).(alwaysChecksum) && (isReg e.(Mode) || (w.(w_opts).(version) <? 28)) then
    let csum := if Z.of_nat (length e.(Checksum)) =? 0 then replicate 16 0 else e.(Checksum) in
    lift (Write wr csum)
  else ret tt.

(** The fields after the name. *)
Definition write_fields (xflags : Z) (e : FlistEntry) : M (FlistWriter * S) unit :=
  write_size e ;;;
  write_mtime xflags e ;;;
  write_nsec xflags e ;;;
  write_mode xflags e ;;;
  write_atime xflags e ;;;
  write_uid xflags e ;;;
  write_gid xflags e ;;;
  write_rdev xflags e ;;;
  write_target e ;;;
  write_devino xflags e ;;;
  write_checksum e.

Definition WriteEntry (e : FlistEntry) : M (FlistWriter * S) unit :=
  let* w := get in
  let '(xflags, w') := computeXflags w e in
  put w' ;;;
  lift (writeXflags xflags e.(Mode) w.(w_opts).(version) w.(w_opts).(varintFlistFlags)) ;;;
  write_name xflags e.(Name) ;;;
  if (30 <=? w.(w_opts).(version)) && has xflags XmitHlinked && negb (has xflags XmitHlinkFirst)
     && (0 <=? e.(HlinkNdx))
  then lift (WriteVarint wr e.(HlinkNdx))
  else write_fields xflags e.

Definition WriteIDLists : M (FlistWriter * S) unit :=
  let* w := get in
  for_each [w.(w_opts).(preserveUID); w.(w_opts).(preserveGID)] (λ preserve : bool,
    if negb preserve then ret tt else
    (if 30 <=? w.(w_opts).(version) then lift (WriteVarint wr 0) else lift (WriteInt32 wr 0)) ;;;
    if w.(id0Names) then lift (writeByte wr 0) else ret tt).

Definition WriteIOErrorTrailer (ioError : Z) : M (FlistWriter * S) unit :=
  let* w := get in
  if 30 <=? w.(w_opts).(version) then ret tt else lift (WriteInt32 wr (i32 ioError)).

Definition WriteEndMarker : M (FlistWriter * S) unit :=
  let* w := get in
  if w.(w_opts).(varintFlistFlags) then lift (WriteVarint wr 0) ;;; lift (WriteVarint wr 0)
  else lift (writeByte wr 0).
End writer.
