(* ===== verification/FlistProofs.v ===== *)
(** * Correctness of the file list codec (protocol/flist.go)

    One lemma per field block ([name_codec], [mtime_codec], ...) says that what
    the block of WriteEntry writes is what the block of ReadEntry reads; the
    flags both sides test are related by [sees]. They compose into the round
    trip of a whole list, terminated by its end marker, for every protocol
    version. [received] is the entry as the peer gets it: the fields the
    negotiated options do not transmit are at their zero value. *)
From S2P Require Import Prelude.
From S2P Require Import GoIO.
From S2P Require Import WireInt.
From S2P Require Import Flist.
#[local] Open Scope Z_scope.
#[local] Open Scope go_scope.

(** ** What is sent and what is received *)

(** The flags as the reader sees them: zero is the end marker, so a zero flag
    word goes out with a placeholder bit. *)
Definition seen_xflags (xflags mode v : Z) (varint : bool) : Z :=
  if varint then if xflags =? 0 then XmitExtendedFlags else xflags
  else if 28 <=? v then
    let xflags := if (xflags =? 0) && negb (isDir mode) then Z.lor xflags XmitTopDir else xflags in
    if has xflags 0xFF00 || (xflags =? 0) then Z.lor xflags XmitExtendedFlags else xflags
  else if xflags =? 0 then (if isDir mode then XmitLongName else XmitTopDir) else xflags.

Definition sends_devino (o : flist_opts) (hlinked : bool) (mode : Z) : bool :=
  (o.(version) <? 30) && o.(preserveHardlinks) &&
  (((o.(version) <? 28) && isReg mode) || ((28 <=? o.(version)) && hlinked)).

Definition received (w : FlistWriter) (e : FlistEntry) : FlistEntry :=
  let o := w.(w_opts) in
  let m := e.(Mode) in
  let dev := o.(preserveDevices) && isDevice m in
  let ino := sends_devino o (sends_hlink w e) m in
  mk_FlistEntry e.(Name) m e.(Size) e.(Mtime)
    (if 31 <=? o.(version) then e.(ModNsec) else 0)
    (if o.(hasAtimes) && negb (isDir m) then e.(Atime) else 0)
    (if o.(preserveUID) then e.(UID) else 0) (if o.(preserveGID) then e.(GID) else 0)
    [] []
    (if dev then e.(RdevMajor) else 0) (if dev then e.(RdevMinor) else 0)
    (if o.(preserveLinks) && isSymlink m then e.(LinkTarget) else [])
    0 0
    (if ino && negb (sends_hlink w e && (e.(Dev) =? w.(lastDev))) then e.(Dev) else 0)
    (if ino then e.(Ino) else 0)
    (if o.(alwaysChecksum) && (isReg m || (o.(version) <? 28))
     then if Z.of_nat (length e.(Checksum)) =? 0 then replicate 16 0 else e.(Checksum) else [])
    (isDir m && e.(TopDir)) (isDir m && (30 <=? o.(version)) && e.(NoContentDir)).

(** The entries the wire format of a version can carry. The last clause is
    about the one-byte flags of versions below 28, which cannot say that the
    access time repeats, and whose placeholder for a directory is the long-name
    bit. *)
Record entry_ok (o : flist_opts) (e : FlistEntry) : Prop := {
  ok_name : Z.of_nat (length e.(Name)) ≤ MaxPathLen;
  ok_mode : is_u32 e.(Mode) ∧ (e.(Mode) = 0 ∨ valid_type e.(Mode) = true);
  ok_root : is_root_name e.(Name) = true → isDir e.(Mode) = true;
  ok_size : is_i64 e.(Size);
  ok_mtime : if 30 <=? o.(version) then is_i64 e.(Mtime) else is_u32 e.(Mtime);
  ok_nsec : is_i32 e.(ModNsec);
  ok_atime : is_i64 e.(Atime);
  ok_uid : is_i32 e.(UID);
  ok_gid : is_i32 e.(GID);
  ok_rdev : is_u32 e.(RdevMajor) ∧ is_u32 e.(RdevMinor) ∧
            (o.(version) < 28 → e.(RdevMajor) < 2^24 ∧ e.(RdevMinor) < 2^8);
  ok_target : Z.of_nat (length e.(LinkTarget)) < 2^31;
  ok_devino : is_i64 e.(Dev) ∧ is_i64 e.(Ino) ∧ (o.(version) < 26 → is_u32 e.(Dev) ∧ is_u32 e.(Ino));
  ok_csum : length e.(Checksum) = 0%nat ∨ length e.(Checksum) = 16%nat;
  ok_byte_flags : o.(version) < 28 → o.(varintFlistFlags) = false →
    o.(hasAtimes) = false ∧ (isDir e.(Mode) = true → Z.of_nat (length e.(Name)) < 128);
}.

(** ** The flags *)
Definition xf_base (w : FlistWriter) (e : FlistEntry) : Z := Eval cbv zeta beta in
  let o := w.(w_opts) in
  let l := w.(w_last) in
  let hasLast := negb (bool_decide (l.(lastName) = [])) in
  let l1 := commonPrefixLen l.(lastName) e.(Name) in
  let l2 := Z.of_nat (length e.(Name)) - Z.of_nat l1 in
  setif (o.(hasAtimes) && negb (isDir e.(Mode)) && (e.(Atime) =? l.(lastAtime))) XmitSameAtime
  (setif ((31 <=? o.(version)) && negb (e.(ModNsec) =? 0)) XmitModNsec
  (setif (255 <? l2) XmitLongName
  (setif (0 <? Z.of_nat l1) XmitSameName
  (setif (e.(Mtime) =? l.(lastMtime)) XmitSameTime
  (setif (negb o.(preserveGID) || (hasLast && (e.(GID) =? l.(lastGID)))) XmitSameGID
  (setif (negb o.(preserveUID) || (hasLast && (e.(UID) =? l.(lastUID)))) XmitSameUID
  (setif (e.(Mode) =? l.(lastMode)) XmitSameMode
  (setif (isDir e.(Mode) && e.(TopDir)) XmitTopDir
  (setif (isDir e.(Mode) && ((30 <=? o.(version)) && e.(NoContentDir))) XmitNoContentDir 0))))))))).

Definition xf_dev (w : FlistWriter) (e : FlistEntry) : FlistWriter :=
  if sends_hlink w e && negb (e.(Dev) =? w.(lastDev)) then w_set_dev e.(Dev) w else w.

Lemma computeXflags_eq w e : computeXflags w e =
  (setif (sends_hlink w e) XmitHlinked (setif (sends_hlink w e && (e.(Dev) =? w.(lastDev))) XmitSameDevPre30 (xf_base w e)),
   xf_dev w e).
Proof.
  unfold computeXflags, xf_dev. destruct (sends_hlink w e); [|done]. simpl. by destruct (_ =? lastDev w).
Qed.

(** Every flag of computeXflags, read back. *)
Ltac unfold_flags :=
  unfold XmitTopDir, XmitSameMode, XmitExtendedFlags, XmitSameUID, XmitSameGID, XmitSameName, XmitLongName,
    XmitSameTime, XmitSameRdevMajor, XmitNoContentDir, XmitHlinked, XmitSameDevPre30, XmitUserNameFollows,
    XmitRdevMinor8Pre30, XmitGroupNameFollows, XmitHlinkFirst, XmitModNsec, XmitSameAtime.
Ltac flag_bit :=
  unfold_flags; rewrite has_bit by lia; rewrite computeXflags_eq; unfold xf_base; cbn [fst]; unfold_flags;
  rewrite !testbit_flag by lia; cbn [Z.eqb Pos.eqb];
  rewrite ?andb_false_r, ?andb_true_r, ?orb_false_l, ?orb_false_r, ?Z.bits_0, ?orb_false_r.

Section flags.
Context (w : FlistWriter) (e : FlistEntry).
Abbreviation xw := ((computeXflags w e).1).
Abbreviation o := (w.(w_opts)).
Abbreviation l := (w.(w_last)).

Lemma xw_TopDir : has xw XmitTopDir = isDir e.(Mode) && e.(TopDir).
Proof. by flag_bit. Qed.
Lemma xw_SameMode : has xw XmitSameMode = (e.(Mode) =? l.(lastMode)).
Proof. by flag_bit. Qed.
Lemma xw_ExtendedFlags : has xw XmitExtendedFlags = false.
Proof. by flag_bit. Qed.
Lemma xw_SameUID : has xw XmitSameUID =
  negb o.(preserveUID) || (negb (bool_decide (l.(lastName) = [])) && (e.(UID) =? l.(lastUID))).
Proof. by flag_bit. Qed.
Lemma xw_SameGID : has xw XmitSameGID =
  negb o.(preserveGID) || (negb (bool_decide (l.(lastName) = [])) && (e.(GID) =? l.(lastGID))).
Proof. by flag_bit. Qed.
Lemma xw_SameName : has xw XmitSameName = (0 <? Z.of_nat (commonPrefixLen l.(lastName) e.(Name))).
Proof. by flag_bit. Qed.
Lemma xw_LongName : has xw XmitLongName =
  (255 <? Z.of_nat (length e.(Name)) - Z.of_nat (commonPrefixLen l.(lastName) e.(Name))).
Proof. by flag_bit. Qed.
Lemma xw_SameTime : has xw XmitSameTime = (e.(Mtime) =? l.(lastMtime)).
Proof. by flag_bit. Qed.
Lemma xw_bit8 : has xw XmitNoContentDir = isDir e.(Mode) && ((30 <=? o.(version)) && e.(NoContentDir)).
Proof. by flag_bit. Qed.
Lemma xw_Hlinked : has xw XmitHlinked = sends_hlink w e.
Proof. by flag_bit. Qed.
Lemma xw_bit10 : has xw XmitSameDevPre30 = sends_hlink w e && (e.(Dev) =? w.(lastDev)).
Proof. by flag_bit. Qed.
Lemma xw_bit11 : has xw XmitRdevMinor8Pre30 = false.
Proof. by flag_bit. Qed.
Lemma xw_ModNsec : has xw XmitModNsec = (31 <=? o.(version)) && negb (e.(ModNsec) =? 0).
Proof. by flag_bit. Qed.
Lemma xw_SameAtime : has xw XmitSameAtime = o.(hasAtimes) && negb (isDir e.(Mode)) && (e.(Atime) =? l.(lastAtime)).
Proof. by flag_bit. Qed.

Lemma xw_bound : 0 ≤ xw < 2^15.
Proof.
  rewrite computeXflags_eq. unfold xf_base. cbn [fst].
  repeat (apply setif_bound; [lia| |split; [discriminate|reflexivity]]). lia.
Qed.

(** One byte is enough below version 28 without access times. *)
Lemma xw_small : o.(version) < 28 → o.(hasAtimes) = false → 0 ≤ xw < 2^8.
Proof.
  intros Hv Ha. rewrite computeXflags_eq. unfold xf_base, sends_hlink. rewrite Ha. cbn [fst].
  destruct (Z.leb_spec 28 (version o)), (Z.leb_spec 31 (version o)), (Z.leb_spec 30 (version o)); try lia.
  cbn [andb]. rewrite andb_false_r. cbn [setif].
  repeat (apply setif_bound; [lia| |split; [discriminate|reflexivity]]). lia.
Qed.
End flags.

(** The placeholder bits touch only bits 0, 2 and 6. *)
Lemma seen_bit xflags mode v varint k : 0 ≤ k → k ≠ 0 → k ≠ 2 → k ≠ 6 →
  has (seen_xflags xflags mode v varint) (Z.shiftl 1 k) = has xflags (Z.shiftl 1 k).
Proof.
  intros Hk H0 H2 H6. rewrite !has_bit by lia. unfold seen_xflags. unfold_flags.
  assert (∀ j, j ≠ k → 0 ≤ j → Z.testbit (Z.shiftl 1 j) k = false) as Hj.
  { intros j Hne Hj. rewrite Z.shiftl_1_l, Z.pow2_bits_eqb by lia. by apply Z.eqb_neq. }
  repeat case_if; b2p; subst; rewrite ?Z.lor_spec, ?Hj, ?orb_false_r by lia; rewrite ?Z.bits_0; done.
Qed.

(** A directory's TOP_DIR bit is never a placeholder. *)
Lemma seen_TopDir xflags mode v varint : isDir mode = true →
  has (seen_xflags xflags mode v varint) XmitTopDir = has xflags XmitTopDir.
Proof.
  intros Hd. unfold seen_xflags. rewrite Hd. cbn [negb]. rewrite andb_false_r. unfold_flags.
  rewrite !has_bit by lia. repeat case_if; b2p; subst; rewrite ?Z.lor_spec; rewrite ?orb_false_r; done.
Qed.

Lemma seen_LongName xflags mode v varint :
  has (seen_xflags xflags mode v varint) XmitLongName = has xflags XmitLongName ∨
  (v < 28 ∧ varint = false ∧ isDir mode = true ∧ has xflags XmitLongName = false).
Proof.
  unfold seen_xflags. unfold_flags. rewrite !has_bit by lia.
  repeat case_if; b2p; subst; rewrite ?Z.lor_spec; rewrite ?orb_false_r; auto.
Qed.

Lemma has_high_byte x : 0 ≤ x < 2^16 → has x 0xFF00 = false → x < 256.
Proof.
  intros Hx H. unfold has in H. b2p. rewrite <-(lor_halves x) in H.
  rewrite Z.land_lor_distr_l in H.
  assert (Z.land (Z.shiftl (Z.shiftr x 8) 8) 0xFF00 = Z.shiftl (Z.shiftr x 8) 8) as E.
  { change 0xFF00 with (Z.shiftl 0xFF 8). rewrite <-Z.shiftl_land. f_equal.
    change 0xFF with (2^8 - 1). rewrite land_ones_mod by lia.
    pose proof (shiftr8_bound x 8 ltac:(lia) Hx). by rewrite Z.mod_small. }
  rewrite E in H. apply Z.lor_eq_0_iff in H as [_ H].
  apply Z.shiftl_eq_0_iff in H; [|lia]. apply Z.shiftr_eq_0_iff in H.
  destruct H as [->|[? Hl]]; [lia|]. apply Z.log2_lt_pow2 in Hl; lia.
Qed.

Lemma prefix_loop_spec m a b :
  (prefix_loop m a b ≤ (m `min` length a) `min` length b)%nat ∧
  take (prefix_loop m a b) a = take (prefix_loop m a b) b.
Proof.
  revert a b. induction m as [|m IH]; intros [|x a] [|y b]; cbn [prefix_loop]; try by (split; [lia|done]).
  destruct (Z.eqb_spec x y) as [->|]; [|by (split; [lia|])].
  destruct (IH a b) as [? E]. cbn [length take]. rewrite E. split; [lia|done].
Qed.

Lemma commonPrefixLen_spec a b : let n := commonPrefixLen a b in
  (n ≤ length a)%nat ∧ (n ≤ length b)%nat ∧ (n ≤ 255)%nat ∧ take n a ++ drop n b = b.
Proof.
  cbv zeta. unfold commonPrefixLen. destruct (prefix_loop_spec ((length a `min` length b) `min` 255) a b) as [H E].
  split_and!; try lia. by rewrite E, take_drop.
Qed.

(** Reader and writer agree on the options and on the previous entry. *)
Definition paired (w : FlistWriter) (r : FlistReader) : Prop :=
  r.(r_opts) = w.(w_opts) ∧ r.(r_last) = w.(w_last).

Lemma varint_small n : 0 ≤ n < 128 → varint_bytes n = [n].
Proof.
  intros Hn. set (P := λ n, bool_decide (varint_bytes n = [n]) || (128 <=? n)).
  assert (P n = true) as H.
  { apply byte_forall; [by vm_compute|unfold is_byte; lia]. }
  unfold P in H.
  apply orb_true_iff in H as [H|H]; [by apply bool_decide_eq_true in H|b2p; lia].
Qed.

Section codecs.
Context {S : Type} (w : io_Writer S) `{!WriterSpec w}.
Context {T : Type} (r : io_Reader T) `{!ReaderSpec r}.

Lemma readByte_ok b : parses r (readByte r) [b] b.
Proof. eapply parses_bind_r; [by apply ReadFull_ok|]. apply parses_ret. Qed.

Lemma writeByte_ok b : emits w (writeByte w b) [b].
Proof. apply emits_write. Qed.

Lemma codec_varlong {O P} m (o : O) (p : P) x : (3 ≤ m ≤ 4)%nat → is_i64 x →
  codec w r (lift (WriteVarlong w x (Z.of_nat m))) o o (lift (ReadVarlong r m)) p x p.
Proof.
  intros Hm Hx. destruct (varlong_value_ok m x Hm Hx) as (b2 & more & E & _).
  eapply codec_lift; [by apply WriteVarlong_ok|by eapply ReadVarlong_ok].
Qed.

(** The flags cross the wire. [xf < 2^15] and a clear extended-flags bit is
    what computeXflags produces. *)
Lemma xflags_codec fw fr xf mode : fr.(r_opts) = fw.(w_opts) →
  0 ≤ xf < 2^15 → has xf XmitExtendedFlags = false →
  (fw.(w_opts).(version) < 28 → fw.(w_opts).(varintFlistFlags) = false → xf < 2^8) →
  let o := fw.(w_opts) in
  codec w r (lift (writeXflags w xf mode o.(version) o.(varintFlistFlags))) fw fw
    (readXflags r) fr (seen_xflags xf mode o.(version) o.(varintFlistFlags)) fr ∧
  seen_xflags xf mode o.(version) o.(varintFlistFlags) ≠ 0.
Proof.
  intros Ho Hb He Hs o. unfold writeXflags, seen_xflags.
  destruct (varintFlistFlags o) eqn:Hv.
  { set (x := if xf =? 0 then _ else _).
    assert (0 ≤ x < 2^15 ∧ x ≠ 0) as [Hx Hx0].
    { unfold x. destruct (Z.eqb_spec xf 0); [by split|done]. }
    split; [|done]. apply codec_get_r. rewrite Ho; fold o; rewrite Hv. rewrite i32_id by (unfold is_i32; lia).
    eapply codec_lift; [apply WriteVarint_ok|]. apply ReadVarint_ok. unfold is_i32. lia. }
  (* a byte that is not zero and has no extension *)
  assert (∀ x, 0 < x < 256 → has x XmitExtendedFlags = false ∨ version o < 28 →
    codec w r (lift (writeByte w (u8 x))) fw fw (readXflags r) fr x fr) as Hone.
  { intros x Hx Hext. rewrite u8_id by (unfold is_byte; lia). apply codec_get_r. rewrite Ho; fold o; rewrite Hv.
    eapply codec_last; [eapply codec_lift; [apply writeByte_ok|apply readByte_ok]|].
    destruct (Z.eqb_spec x 0); [lia|].
    assert ((28 <=? version o) && has x XmitExtendedFlags = false) as ->; [|apply reads_ret].
    destruct Hext as [->|?]; [apply andb_false_r|]. destruct (Z.leb_spec 28 (version o)); [lia|done]. }
  destruct (Z.leb_spec 28 (version o)) as [H28|H28].
  - set (x := if (xf =? 0) && negb (isDir mode) then _ else _).
    assert (0 ≤ x < 2^15 ∧ has x XmitExtendedFlags = false) as [Hx Hxe].
    { unfold x. case_if; b2p; [subst; by split|done]. }
    destruct (has x 0xFF00 || (x =? 0)) eqn:Hhi.
    + set (y := Z.lor x XmitExtendedFlags).
      assert (0 ≤ y < 2^15) as Hy by (apply lor_bound; [lia|done|by split]).
      assert (Z.testbit y 2 = true) as Hy2.
      { unfold y. rewrite Z.lor_spec. apply orb_true_iff. right. reflexivity. }
      assert (Z.testbit (u8 y) 2 = true) as Hy8 by (unfold u8; by rewrite Z.mod_pow2_bits_low).
      split; [|by intros ->].
      unfold u16. rewrite (Z.mod_small y) by lia. apply codec_get_r. rewrite Ho; fold o; rewrite Hv.
      exists ([u8 y] ++ [u8 (Z.shiftr y 8)]). split; [apply writes_lift, WriteUint16_ok|].
      eapply reads_bind; [apply reads_lift, readByte_ok|].
      destruct (Z.eqb_spec (u8 y) 0) as [E0|_]; [by rewrite E0 in Hy8|].
      assert ((28 <=? version o) && has (u8 y) XmitExtendedFlags = true) as ->.
      { unfold XmitExtendedFlags. rewrite has_bit, Hy8 by lia. destruct (Z.leb_spec 28 (version o)); [done|lia]. }
      eapply reads_bind_r; [apply reads_lift, readByte_ok|].
      pose proof (shiftr8_bound y 7 ltac:(lia) Hy). rewrite (u8_id (Z.shiftr y 8)) by (unfold is_byte; lia).
      rewrite lor_halves. apply reads_ret.
    + apply orb_false_iff in Hhi as [Hhi H0]. b2p. split; [|done].
      apply Hone; [|by left]. assert (x < 256) by (apply has_high_byte; [lia|done]). lia.
  - set (x := if xf =? 0 then _ else _).
    assert (0 < x < 256) as Hx.
    { unfold x. specialize (Hs H28 Hv). case_if; b2p; [|lia]. destruct (isDir mode); by split. }
    split; [|lia]. apply Hone; [done|by right].
Qed.

Abbreviation cod := (codec w r).

Lemma name_codec fw fr xw xs name : paired fw fr → Z.of_nat (length name) ≤ MaxPathLen →
  let l1 := commonPrefixLen fw.(w_last).(lastName) name in
  let l2 := Z.of_nat (length name) - Z.of_nat l1 in
  has xw XmitSameName = (0 <? Z.of_nat l1) → has xs XmitSameName = has xw XmitSameName →
  has xw XmitLongName = (255 <? l2) → (has xs XmitLongName = has xw XmitLongName ∨ l2 < 128) →
  cod (write_name w xw name) fw (w_set_last (set_lastName name) fw)
      (read_name r xs) fr name (r_set_last (set_lastName name) fr).
Proof.
  intros [_ Hl] Hn l1 l2 Hw1 Hs1 Hw2 Hs2.
  destruct (commonPrefixLen_spec fw.(w_last).(lastName) name) as (H1 & H2 & H3 & Hsplit).
  fold l1 in H1, H2, H3, Hsplit. unfold MaxPathLen in Hn.
  apply codec_get_w. fold l1. cbv zeta. fold l2.
  eapply (codec_seq _ _ _ _ _ _ _ _ _ _ _ _ (Z.of_nat l1)).
  { rewrite Hs1, Hw1. destruct (Z.ltb_spec 0 (Z.of_nat l1)).
    - rewrite u8_id by (unfold is_byte; lia). eapply codec_lift; [apply writeByte_ok|apply readByte_ok].
    - replace (Z.of_nat l1) with 0 by lia. apply codec_ret. }
  eapply (codec_seq _ _ _ _ _ _ _ _ _ _ _ _ l2).
  { rewrite Hw2 in Hs2 |- *. destruct (Z.ltb_spec 255 l2).
    - destruct Hs2 as [->|?]; [|lia]. rewrite i32_id by (unfold is_i32; lia).
      eapply codec_lift; [apply WriteVarint_ok|]. apply ReadVarint_ok. unfold is_i32. lia.
    - rewrite u8_id by (unfold is_byte; lia). destruct (has xs XmitLongName).
      + destruct Hs2 as [?|?]; [done|]. eapply codec_lift; [apply writeByte_ok|].
        rewrite <-varint_small by lia. apply ReadVarint_ok. unfold is_i32. lia.
      + eapply codec_lift; [apply writeByte_ok|apply readByte_ok]. }
  destruct (Z.ltb_spec l2 0); [lia|]. cbn [orb].
  destruct (Z.ltb_spec MaxPathLen (Z.of_nat l1 + l2)) as [Hov|_]; [unfold MaxPathLen in Hov; lia|].
  eapply (codec_seq _ _ _ _ _ _ _ _ _ _ _ _ (drop l1 name)).
  { destruct (Z.ltb_spec 0 l2).
    - eapply codec_lift; [apply emits_write|]. apply ReadFull_ok. rewrite length_drop. lia.
    - rewrite drop_ge by lia. apply codec_ret. }
  exists []. split; [apply writes_modify|].
  eapply reads_bind_0; [apply reads_get|]. rewrite Hl. cbv zeta.
  destruct (Z.ltb_spec (Z.of_nat (length fw.(w_last).(lastName))) (Z.of_nat l1)); [lia|].
  rewrite Nat2Z.id, Hsplit. eapply reads_bind_0; [apply reads_modify|]. apply reads_ret.
Qed.

Lemma size_codec fw fr e : paired fw fr → is_i64 e.(Size) →
  cod (write_size w e) fw fw (read_size r) fr e.(Size) fr.
Proof.
  intros [Ho _] Hs. apply codec_get_w, codec_get_r. rewrite Ho. case_if.
  - eapply codec_lift; [apply WriteLongInt_ok|by apply ReadLongInt_ok].
  - apply (codec_varlong 3); [lia|done].
Qed.

(** A field that repeats: nothing is sent, the assignment changes nothing. *)
Lemma codec_same {A} fw fr f (v : A) : paired fw fr → f fw.(w_last) = fw.(w_last) →
  cod (ret tt) fw (w_set_last f fw) (ret v) fr v (r_set_last f fr).
Proof.
  intros [_ Hl] Hf.
  replace (w_set_last f fw) with fw by (unfold w_set_last; rewrite Hf; by destruct fw).
  replace (r_set_last f fr) with fr by (unfold r_set_last; rewrite Hl, Hf, <-Hl; by destruct fr).
  apply codec_ret.
Qed.

Lemma mtime_codec fw fr xw xs e : paired fw fr →
  (if 30 <=? fw.(w_opts).(version) then is_i64 e.(Mtime) else is_u32 e.(Mtime)) →
  has xw XmitSameTime = (e.(Mtime) =? fw.(w_last).(lastMtime)) → has xs XmitSameTime = has xw XmitSameTime →
  cod (write_mtime w xw e) fw (w_set_last (set_lastMtime e.(Mtime)) fw)
      (read_mtime r xs) fr e.(Mtime) (r_set_last (set_lastMtime e.(Mtime)) fr).
Proof.
  intros [Ho Hl] Ht Hw Hs. apply codec_get_w, codec_get_r. rewrite Hs, Hw, Ho, Hl.
  destruct (Z.eqb_spec e.(Mtime) fw.(w_last).(lastMtime)) as [E|E]; cbn [negb].
  - rewrite E. apply codec_same; [done|]. by destruct (w_last fw).
  - apply codec_modify with (h := id) (g := λ t, r_set_last (set_lastMtime t)). case_if.
    + apply (codec_varlong 4); [lia|done].
    + rewrite u32_id by done. eapply codec_lift; [apply WriteUint32_ok|by apply ReadUint32_ok].
Qed.

Lemma nsec_codec fw fr xw xs e : is_i32 e.(ModNsec) →
  has xw XmitModNsec = (31 <=? fw.(w_opts).(version)) && negb (e.(ModNsec) =? 0) → has xs XmitModNsec = has xw XmitModNsec →
  cod (write_nsec w xw e) fw fw (read_nsec r xs) fr (if 31 <=? fw.(w_opts).(version) then e.(ModNsec) else 0) fr.
Proof.
  intros Hn Hw Hs. unfold write_nsec, read_nsec. rewrite Hs, Hw.
  destruct (31 <=? _); cbn [andb]; [|apply codec_ret].
  destruct (Z.eqb_spec e.(ModNsec) 0) as [->|]; cbn [negb]; [apply codec_ret|].
  eapply codec_lift; [apply WriteVarint_ok|by apply ReadVarint_ok].
Qed.

Lemma mode_codec fw fr xw xs e : paired fw fr → is_u32 e.(Mode) →
  has xw XmitSameMode = (e.(Mode) =? fw.(w_last).(lastMode)) → has xs XmitSameMode = has xw XmitSameMode →
  cod (write_mode w xw e) fw (w_set_last (set_lastMode e.(Mode)) fw)
      (read_mode r xs) fr e.(Mode) (r_set_last (set_lastMode e.(Mode)) fr).
Proof.
  intros [Ho Hl] Hm Hw Hs. unfold write_mode, read_mode. apply codec_get_r. rewrite Hs, Hw, Hl.
  destruct (Z.eqb_spec e.(Mode) fw.(w_last).(lastMode)) as [E|E]; cbn [negb].
  - rewrite E. apply codec_same; [done|]. by destruct (w_last fw).
  - apply codec_modify with (h := id) (g := λ t, r_set_last (set_lastMode t)).
    eapply codec_lift; [apply WriteUint32_ok|by apply ReadUint32_ok].
Qed.

Lemma check_mode_codec fr name mode : (mode = 0 ∨ valid_type mode = true) →
  (is_root_name name = true → isDir mode = true) → reads r (check_mode name mode) fr [] tt fr.
Proof.
  intros Hm Hr. unfold check_mode.
  assert (negb (mode =? 0) && negb (valid_type mode) = false) as ->.
  { destruct Hm as [-> | ->]; [done|]. apply andb_false_r. }
  assert (is_root_name name && negb (isDir mode) = false) as ->; [|apply reads_ret].
  destruct (is_root_name name); [|done]. by rewrite Hr.
Qed.

Definition after_atime (o : flist_opts) (e : FlistEntry) : flist_last → flist_last :=
  if o.(hasAtimes) && negb (isDir e.(Mode)) then set_lastAtime e.(Atime) else id.

Lemma atime_codec fw fr xw xs e : paired fw fr → is_i64 e.(Atime) →
  has xw XmitSameAtime = fw.(w_opts).(hasAtimes) && negb (isDir e.(Mode)) && (e.(Atime) =? fw.(w_last).(lastAtime)) →
  has xs XmitSameAtime = has xw XmitSameAtime →
  cod (write_atime w xw e) fw (w_set_last (after_atime fw.(w_opts) e) fw)
      (read_atime r xs e.(Mode)) fr (if fw.(w_opts).(hasAtimes) && negb (isDir e.(Mode)) then e.(Atime) else 0)
      (r_set_last (after_atime fw.(w_opts) e) fr).
Proof.
  intros [Ho Hl] Ha Hw Hs. apply codec_get_w, codec_get_r. rewrite Hs, Hw, Ho, Hl. unfold after_atime.
  destruct (hasAtimes _ && negb _); cbn [andb negb].
  2:{ by apply codec_same. }
  destruct (Z.eqb_spec e.(Atime) fw.(w_last).(lastAtime)) as [E|E]; cbn [negb].
  - rewrite E. apply codec_same; [done|]. by destruct (w_last fw).
  - apply codec_modify with (h := id) (g := λ t, r_set_last (set_lastAtime t)).
    apply (codec_varlong 4); [lia|done].
Qed.

Lemma id_flags_codec {O P} (fw : O) (fr : P) v named id0 name : is_i32 id0 → (30 ≤ v → named = false) →
  cod (lift (write_id w v named id0 name)) fw fw (lift (read_id r v named)) fr (id0, []) fr.
Proof.
  intros Hi Hn. unfold write_id, read_id. destruct (Z.leb_spec 30 v).
  - rewrite Hn by done. eapply codec_lift; [|eapply parses_bind_r; [by apply ReadVarint_ok|apply parses_ret]].
    rewrite <-(app_nil_r (varint_bytes id0)). eapply emits_seq; [apply WriteVarint_ok|apply emits_ret].
  - eapply codec_lift; [apply WriteUint32_ok|]. eapply parses_bind_r.
    + apply ReadUint32_ok. unfold is_u32, u32. pose proof (Z.mod_pos_bound id0 (2^32)). lia.
    + cbv beta. rewrite i32_u32 by done. apply parses_ret.
Qed.

Definition after_uid (o : flist_opts) (e : FlistEntry) : flist_last → flist_last :=
  if o.(preserveUID) then set_lastUID e.(UID) else id.
Definition after_gid (o : flist_opts) (e : FlistEntry) : flist_last → flist_last :=
  if o.(preserveGID) then set_lastGID e.(GID) else id.

(** The names are never sent: [xs] has no name-follows bit below version 30
    or is not consulted. *)
Lemma uid_codec fw fr xw xs e c : paired fw fr → is_i32 e.(UID) →
  has xw XmitSameUID = negb fw.(w_opts).(preserveUID) || (c && (e.(UID) =? fw.(w_last).(lastUID))) →
  has xs XmitSameUID = has xw XmitSameUID →
  (30 ≤ fw.(w_opts).(version) → has xw XmitUserNameFollows = false) →
  has xs XmitUserNameFollows = has xw XmitUserNameFollows →
  cod (write_uid w xw e) fw (w_set_last (after_uid fw.(w_opts) e) fw)
      (read_uid r xs) fr (if fw.(w_opts).(preserveUID) then e.(UID) else 0, [])
      (r_set_last (after_uid fw.(w_opts) e) fr).
Proof.
  intros [Ho Hl] Hu Hw Hs Hw2 Hs2. apply codec_get_w, codec_get_r. rewrite Hs, Hw, Ho, Hl, Hs2. unfold after_uid.
  destruct (preserveUID (w_opts fw)) eqn:Hp; cbn [andb negb orb].
  2:{ by apply codec_same. }
  destruct (c && _) eqn:E; cbn [negb].
  - b2p. replace (UID e) with (lastUID (w_last fw)). apply codec_same; [done|]. by destruct (w_last fw).
  - apply codec_modify with (h := id) (g := λ idn : Z * bytes, r_set_last (set_lastUID idn.1)) (v := (UID e, [])).
    by apply id_flags_codec.
Qed.

Lemma gid_codec fw fr xw xs e c : paired fw fr → is_i32 e.(GID) →
  has xw XmitSameGID = negb fw.(w_opts).(preserveGID) || (c && (e.(GID) =? fw.(w_last).(lastGID))) →
  has xs XmitSameGID = has xw XmitSameGID →
  (30 ≤ fw.(w_opts).(version) → has xw XmitGroupNameFollows = false) →
  has xs XmitGroupNameFollows = has xw XmitGroupNameFollows →
  cod (write_gid w xw e) fw (w_set_last (after_gid fw.(w_opts) e) fw)
      (read_gid r xs) fr (if fw.(w_opts).(preserveGID) then e.(GID) else 0, [])
      (r_set_last (after_gid fw.(w_opts) e) fr).
Proof.
  intros [Ho Hl] Hu Hw Hs Hw2 Hs2. apply codec_get_w, codec_get_r. rewrite Hs, Hw, Ho, Hl, Hs2. unfold after_gid.
  destruct (preserveGID (w_opts fw)) eqn:Hp; cbn [andb negb orb].
  2:{ by apply codec_same. }
  destruct (c && _) eqn:E; cbn [negb].
  - b2p. replace (GID e) with (lastGID (w_last fw)). apply codec_same; [done|]. by destruct (w_last fw).
  - apply codec_modify with (h := id) (g := λ idn : Z * bytes, r_set_last (set_lastGID idn.1)) (v := (GID e, [])).
    by apply id_flags_codec.
Qed.

Lemma packRdev_split major minor : 0 ≤ major < 2^24 → 0 ≤ minor < 2^8 →
  is_u32 (packRdev major minor) ∧ Z.shiftr (packRdev major minor) 8 = major ∧
  Z.land (packRdev major minor) 0xFF = minor.
Proof.
  intros Hj Hn. unfold packRdev. change 0xFF with (2^8 - 1). rewrite !land_ones_mod by lia.
  rewrite (Z.mod_small minor), u32_id by (rewrite ?Z.shiftl_mul_pow2; unfold is_u32; lia).
  assert (∀ i, 8 ≤ i → Z.testbit minor i = false) as Hhi.
  { intros i Hi. rewrite <-(Z.mod_small minor (2^8)) by lia. apply Z.mod_pow2_bits_high. lia. }
  split_and!.
  - apply lor_bound; [lia| |lia]. rewrite Z.shiftl_mul_pow2; lia.
  - apply Z.bits_inj'. intros i Hi. rewrite Z.shiftr_spec, Z.lor_spec, Z.shiftl_spec, Hhi, orb_false_r by lia.
    f_equal. lia.
  - rewrite <-Z.land_ones, Z.land_lor_distr_l, !Z.land_ones, (Z.mod_small minor) by lia.
    rewrite Z.shiftl_mul_pow2, Z.mod_mul by lia. done.
Qed.

Definition after_rdev (e : FlistEntry) (fw : FlistWriter) : FlistWriter :=
  if fw.(w_opts).(preserveDevices) && isDevice e.(Mode) && (28 <=? fw.(w_opts).(version))
  then w_set_rdev e.(RdevMajor) fw else fw.

Lemma u32_i32 x : is_u32 x → u32 (i32 x) = x.
Proof.
  unfold is_u32, u32, i32. intros Hx. rewrite Zminus_mod_idemp_l.
  replace (x + 2^31 - 2^31) with x by lia. by apply Z.mod_small.
Qed.

Lemma rdev_codec fw fr xw xs e : paired fw fr →
  is_u32 e.(RdevMajor) ∧ is_u32 e.(RdevMinor) ∧
    (fw.(w_opts).(version) < 28 → e.(RdevMajor) < 2^24 ∧ e.(RdevMinor) < 2^8) →
  (isDevice e.(Mode) = true → has xw XmitSameRdevMajor = false) → has xs XmitSameRdevMajor = has xw XmitSameRdevMajor →
  has xw XmitRdevMinor8Pre30 = false → has xs XmitRdevMinor8Pre30 = has xw XmitRdevMinor8Pre30 →
  let dev := fw.(w_opts).(preserveDevices) && isDevice e.(Mode) in
  cod (write_rdev w xw e) fw (after_rdev e fw)
      (read_rdev r xs e.(Mode)) fr (if dev then e.(RdevMajor) else 0, if dev then e.(RdevMinor) else 0) fr.
Proof.
  intros [Ho _] (Hj & Hn & Hsmall) Hw Hs Hw2 Hs2. cbv zeta. apply codec_get_w, codec_get_r.
  rewrite Hs, Hs2, Hw2, Ho. unfold after_rdev.
  destruct (preserveDevices _); cbn [andb]; [|apply codec_ret].
  destruct (isDevice _); cbn [andb]; [|apply codec_ret]. rewrite Hw by done. cbn [negb].
  destruct (Z.ltb_spec (version (w_opts fw)) 28) as [H28|H28].
  { destruct (Z.leb_spec 28 (version (w_opts fw))); [lia|]. destruct Hsmall as [Hj' Hn']; [done|].
    unfold is_u32 in Hj, Hn. destruct (packRdev_split e.(RdevMajor) e.(RdevMinor)) as (Hp & E1 & E2); [lia..|].
    eapply codec_last; [eapply codec_lift; [apply WriteUint32_ok|by apply ReadUint32_ok]|].
    cbv beta. rewrite E1, E2. apply reads_ret. }
  destruct (Z.leb_spec 28 (version (w_opts fw))); [|lia]. case_if.
  - eapply codec_seq.
    + eapply codec_after; [|apply writes_modify]. eapply codec_lift; [apply WriteUint32_ok|by apply ReadUint32_ok].
    + eapply codec_last; [eapply codec_lift; [apply WriteUint32_ok|by apply ReadUint32_ok]|]. apply reads_ret.
  - eapply codec_seq.
    + eapply codec_after; [|apply writes_modify].
      eapply codec_last; [eapply codec_lift; [apply WriteVarint_ok|apply ReadVarint_ok, i32_range]|].
      cbv beta. rewrite u32_i32 by done. apply reads_ret.
    + eapply codec_last; [eapply codec_lift; [apply WriteVarint_ok|apply ReadVarint_ok, i32_range]|].
      cbv beta. rewrite u32_i32 by done. apply reads_ret.
Qed.

Lemma target_codec fw fr e : paired fw fr → Z.of_nat (length e.(LinkTarget)) < 2^31 →
  cod (write_target w e) fw fw (read_target r e.(Mode)) fr
    (if fw.(w_opts).(preserveLinks) && isSymlink e.(Mode) then e.(LinkTarget) else []) fr.
Proof.
  intros [Ho _] Ht. apply codec_get_w, codec_get_r. rewrite Ho.
  destruct (_ && _); [|apply codec_ret]. cbv zeta.
  rewrite i32_id by (unfold is_i32; lia).
  eapply (codec_seq _ _ _ _ _ _ _ _ _ _ _ _ (Z.of_nat (length e.(LinkTarget)))).
  - case_if; eapply codec_lift; [apply WriteInt32_ok|apply ReadInt32_ok|apply WriteVarint_ok|apply ReadVarint_ok];
      unfold is_i32; lia.
  - destruct (Z.ltb_spec 0 (Z.of_nat (length e.(LinkTarget)))).
    + eapply codec_lift; [apply emits_write|apply ReadFull_ok; lia].
    + destruct (LinkTarget e); [apply codec_ret|simpl in *; lia].
Qed.

Lemma devino_codec fw fr xw xs e hl same : paired fw fr →
  is_i64 e.(Dev) ∧ is_i64 e.(Ino) ∧ (fw.(w_opts).(version) < 26 → is_u32 e.(Dev) ∧ is_u32 e.(Ino)) →
  has xw XmitHlinked = hl → has xs XmitHlinked = hl → (hl = true → fw.(w_opts).(preserveHardlinks) = true) →
  has xw XmitSameDevPre30 = same → has xs XmitSameDevPre30 = same → (fw.(w_opts).(version) < 26 → same = false) →
  let ino := sends_devino fw.(w_opts) hl e.(Mode) in
  cod (write_devino w xw e) fw fw (read_devino r xs e.(Mode)) fr
    (if ino && negb same then e.(Dev) else 0, if ino then e.(Ino) else 0) fr.
Proof.
  intros [Ho _] (Hd & Hi & H26) Hw Hs Hp Hw2 Hs2 Hsame. cbv zeta. apply codec_get_w, codec_get_r.
  cbv zeta. rewrite Hw, Hs, Hw2, Hs2, Ho.
  assert ((version (w_opts fw) <? 30) &&
    ((version (w_opts fw) <? 28) && preserveHardlinks (w_opts fw) && isReg (Mode e) || (28 <=? version (w_opts fw)) && hl)
    = sends_devino (w_opts fw) hl (Mode e)) as ->.
  { unfold sends_devino. destruct hl, (preserveHardlinks (w_opts fw));
      repeat (destruct (_ <? _)); cbn [andb orb]; try done; rewrite ?andb_false_r; try done; by specialize (Hp eq_refl). }
  unfold sends_devino at 2. fold (sends_devino (w_opts fw) hl (Mode e)).
  destruct (sends_devino _ _ _); cbn [andb]; [|apply codec_ret].
  destruct (Z.ltb_spec (version (w_opts fw)) 26) as [H|H].
  - destruct (H26 H) as [Hd' Hi']. rewrite (Hsame H), !u32_id by done. cbn [negb].
    eapply codec_seq; [eapply codec_lift; [apply WriteUint32_ok|by apply ReadUint32_ok]|].
    eapply codec_last; [eapply codec_lift; [apply WriteUint32_ok|by apply ReadUint32_ok]|]. apply reads_ret.
  - eapply (codec_seq _ _ _ _ _ _ _ _ _ _ _ _ (if negb same then Dev e else 0)).
    + destruct same; cbn [negb]; [apply codec_ret|]. eapply codec_lift; [apply WriteLongInt_ok|by apply ReadLongInt_ok].
    + eapply codec_last; [eapply codec_lift; [apply WriteLongInt_ok|by apply ReadLongInt_ok]|]. apply reads_ret.
Qed.

Lemma checksum_codec fw fr e : paired fw fr → length e.(Checksum) = 0%nat ∨ length e.(Checksum) = 16%nat →
  cod (write_checksum w e) fw fw (read_checksum r e.(Mode)) fr
    (if fw.(w_opts).(alwaysChecksum) && (isReg e.(Mode) || (fw.(w_opts).(version) <? 28))
     then if Z.of_nat (length e.(Checksum)) =? 0 then replicate 16 0 else e.(Checksum) else []) fr.
Proof.
  intros [Ho _] Hc. apply codec_get_w, codec_get_r. rewrite Ho. destruct (_ && _); [|apply codec_ret].
  cbv zeta. eapply codec_lift; [apply emits_write|]. apply ReadFull_ok.
  destruct (Z.eqb_spec (Z.of_nat (length e.(Checksum))) 0); [done|lia].
Qed.

(** ** The whole entry *)
Definition next_last (o : flist_opts) (e : FlistEntry) (l : flist_last) : flist_last :=
  after_gid o e (after_uid o e (after_atime o e (set_lastMode e.(Mode)
    (set_lastMtime e.(Mtime) (set_lastName e.(Name) l))))).

Definition next_writer (fw : FlistWriter) (e : FlistEntry) : FlistWriter :=
  after_rdev e (w_set_last (next_last fw.(w_opts) e) (xf_dev fw e)).
Definition next_reader (fr : FlistReader) (e : FlistEntry) : FlistReader :=
  mk_FlistReader fr.(r_opts) fr.(incRecurse) (fr.(used) + 1) (next_last fr.(r_opts) e fr.(r_last))
    fr.(r_lastRdevMajor) fr.(lastDir).

Lemma xf_dev_kept fw e : (xf_dev fw e).(w_opts) = fw.(w_opts) ∧ (xf_dev fw e).(w_last) = fw.(w_last).
Proof. unfold xf_dev. by case_if. Qed.

Lemma next_writer_kept fw e : (next_writer fw e).(w_opts) = fw.(w_opts) ∧
  (next_writer fw e).(w_last) = next_last fw.(w_opts) e fw.(w_last) ∧ (next_writer fw e).(id0Names) = fw.(id0Names).
Proof. unfold next_writer, after_rdev, xf_dev. by repeat case_if. Qed.

Lemma paired_next fw fr e : paired fw fr → paired (next_writer fw e) (next_reader fr e).
Proof.
  intros [Ho Hl]. destruct (next_writer_kept fw e) as (H1 & H2 & _). split; simpl; [congruence|].
  by rewrite H2, Ho, Hl.
Qed.

Lemma paired_set fw fr f : paired fw fr → paired (w_set_last f fw) (r_set_last f fr).
Proof. intros [Ho Hl]. split; simpl; congruence. Qed.

(** The entry types are disjoint. *)
Lemma type_excl m : isDir m = true → isDevice m = false ∧ isReg m = false ∧ isSymlink m = false.
Proof. unfold isDir, isDevice, isReg, isSymlink. intros H. b2p. by rewrite H. Qed.

Lemma fields_codec fw fr e xs :
  let fw0 := xf_dev fw e in
  let xw := (computeXflags fw e).1 in
  paired fw fr → entry_ok fw.(w_opts) e →
  (∀ k, 0 ≤ k → k ≠ 0 → k ≠ 2 → k ≠ 6 → has xs (Z.shiftl 1 k) = has xw (Z.shiftl 1 k)) →
  (isDir e.(Mode) = true → has xs XmitTopDir = has xw XmitTopDir) →
  cod (write_fields w xw e) (w_set_last (set_lastName e.(Name)) fw0) (next_writer fw e)
    (read_fields r xs e.(Name)) (r_set_last (set_lastName e.(Name)) fr) (received fw e) (next_reader fr e).
Proof.
  intros fw0 xw [Ho Hl] Hok Hsee Htop.
  destruct (xf_dev_kept fw e) as [Ho0 Hl0]. fold fw0 in Ho0, Hl0.
  assert (paired fw0 fr) as Hp by (split; congruence).
  destruct Hok. unfold write_fields, read_fields.
  eapply codec_seq; [apply size_codec; [by repeat apply paired_set|done]|].
  eapply codec_seq; [eapply mtime_codec with (xw := xw)|]; [by repeat apply paired_set|simpl; by rewrite Ho0| |by apply Hsee|].
  { cbn. rewrite Hl0. apply xw_SameTime. }
  eapply codec_seq; [eapply nsec_codec with (xw := xw)|]; [done| |by apply Hsee|].
  { cbn. rewrite Ho0. apply xw_ModNsec. }
  eapply codec_seq; [eapply mode_codec with (xw := xw)|]; [by repeat apply paired_set|apply ok_mode0| |by apply Hsee|].
  { cbn. rewrite Hl0. apply xw_SameMode. }
  eapply codec_first; [apply check_mode_codec; [apply ok_mode0|done]|].
  eapply codec_seq; [eapply atime_codec with (xw := xw)|]; [by repeat apply paired_set|done| |by apply Hsee|].
  { cbn. rewrite Ho0, Hl0. apply xw_SameAtime. }
  eapply codec_seq; [eapply uid_codec with (xw := xw)|]; [by repeat apply paired_set|done| |by apply Hsee| |by apply Hsee|].
  { cbn. rewrite Ho0. unfold after_atime. case_if; cbn; rewrite Hl0; apply xw_SameUID. }
  { cbn. rewrite Ho0. intros Hv. change XmitUserNameFollows with XmitSameDevPre30. unfold xw. rewrite xw_bit10.
    unfold sends_hlink. destruct (Z.ltb_spec (version (w_opts fw)) 30); [lia|]. by rewrite andb_false_r. }
  eapply codec_seq; [eapply gid_codec with (xw := xw)|]; [by repeat apply paired_set|done| |by apply Hsee| |by apply Hsee|].
  { cbn. rewrite Ho0. unfold after_uid, after_atime. repeat case_if; cbn; rewrite Hl0; apply xw_SameGID. }
  { intros _. apply (xw_bit11 fw e). }
  eapply codec_seq; [eapply rdev_codec with (xw := xw)|]; [by repeat apply paired_set|simpl; by rewrite Ho0| |by apply Hsee| |by apply Hsee|].
  { intros Hd. change XmitSameRdevMajor with XmitNoContentDir. unfold xw. rewrite xw_bit8.
    destruct (isDir (Mode e)) eqn:Hdir; [|done]. destruct (type_excl _ Hdir) as [? _]. congruence. }
  { apply (xw_bit11 fw e). }
  match goal with |- codec _ _ _ ?f _ _ ?g _ _ => set (fw' := f); set (fr' := g) end.
  assert (fw'.(w_opts) = fw.(w_opts)) as Ho'.
  { unfold fw', after_rdev. case_if; exact Ho0. }
  assert (paired fw' fr') as Hp'.
  { unfold fw', after_rdev. case_if; split; simpl; try congruence; rewrite ?Ho0, ?Hl0, ?Hl; done. }
  eapply codec_seq; [by apply target_codec|].
  eapply codec_seq; [eapply devino_codec with (xw := xw) (hl := sends_hlink fw e)|];
    [done|by rewrite Ho'|apply xw_Hlinked|rewrite <-(xw_Hlinked fw e); by apply Hsee| |apply xw_bit10
    |rewrite <-(xw_bit10 fw e); by apply Hsee| |].
  { unfold sends_hlink. intros ?. b2p. congruence. }
  { rewrite Ho'. intros ?. unfold sends_hlink. destruct (Z.leb_spec 28 (version (w_opts fw))); [lia|done]. }
  assert (next_writer fw e = fw') as -> by (unfold next_writer; by rewrite <-Ho0).
  eapply codec_last; [by apply checksum_codec|].
  eapply reads_bind_0; [apply reads_modify|].
  assert (r_set_used (used fr' + 1) fr' = next_reader fr e) as -> by (unfold next_reader; rewrite Ho at 2; by rewrite <-Ho0).
  match goal with |- reads _ (ret ?v) _ _ _ _ => assert (v = received fw e) as -> end; [|apply reads_ret].
  unfold received. cbn [w_opts w_set_last]. rewrite Ho', Ho0. f_equal.
  - destruct (isDir (Mode e)) eqn:Hd; [|done]. rewrite Htop by done. unfold xw. by rewrite xw_TopDir, Hd.
  - destruct (isDir (Mode e)) eqn:Hd; [|done]. unfold XmitNoContentDir. rewrite (Hsee 8) by lia.
    change (Z.shiftl 1 8) with XmitNoContentDir. unfold xw. by rewrite xw_bit8, Hd.
Qed.

(** One entry: what WriteEntry writes is what ReadEntry reads, and the two
    ends stay paired. *)
Lemma entry_codec fw fr e : paired fw fr → entry_ok fw.(w_opts) e →
  cod (WriteEntry w e) fw (next_writer fw e) (ReadEntry r) fr (received fw e) (next_reader fr e).
Proof.
  intros Hp Hok. destruct (xf_dev_kept fw e) as [Ho0 Hl0].
  pose proof (xw_bound fw e) as Hb. pose proof (xw_ExtendedFlags fw e) as Hext. pose proof (xw_Hlinked fw e) as Hhl.
  pose proof (xw_SameName fw e) as Hsn. pose proof (xw_LongName fw e) as Hln.
  pose proof (λ xs, fields_codec fw fr e xs Hp Hok) as Hfields. cbv zeta in Hfields.
  pose proof (xw_small fw e) as Hsmall.
  assert (computeXflags fw e = ((computeXflags fw e).1, xf_dev fw e)) as Ecx by by rewrite computeXflags_eq.
  apply codec_get_w. rewrite Ecx. set (xw := (computeXflags fw e).1) in *. set (fw0 := xf_dev fw e) in *.
  assert (paired fw0 fr) as Hp0 by (destruct Hp; split; congruence).
  eapply codec_put_w. rewrite <-Ho0.
  destruct (xflags_codec fw0 fr xw (Mode e)) as [Hcx Hne]; [apply Hp0|done|done| |].
  { rewrite Ho0. intros Hv Hvar. apply Hsmall; [done|]. by apply (ok_byte_flags _ _ Hok). }
  eapply codec_seq; [exact Hcx|]. set (xs := seen_xflags _ _ _ _) in *. apply codec_get_r.
  destruct (Z.eqb_spec xs 0); [done|].
  eapply codec_seq; [eapply name_codec with (xw := xw)|].
  - done.
  - apply (ok_name _ _ Hok).
  - by rewrite Hl0.
  - by apply (seen_bit xw (Mode e) _ _ 5).
  - by rewrite Hl0.
  - destruct (seen_LongName xw (Mode e) (version (w_opts fw0)) (varintFlistFlags (w_opts fw0))) as [E|(Hv & Hvar & Hd & _)];
      [by left|right]. rewrite Ho0 in Hv, Hvar. destruct (ok_byte_flags _ _ Hok Hv Hvar) as [_ Hn].
    specialize (Hn Hd). lia.
  - destruct Hp0 as [Hor _]. rewrite Hor.
    assert (∀ b, (30 <=? version (w_opts fw0)) && b && sends_hlink fw e = false) as Hno.
    { intros b. unfold sends_hlink. rewrite <-Ho0.
      destruct (Z.leb_spec 30 (version (w_opts fw0))); [|done].
      destruct (Z.ltb_spec (version (w_opts fw0)) 30); [lia|]. by rewrite !andb_false_r. }
    assert (has xs XmitHlinked = sends_hlink fw e) as Hhs.
    { rewrite <-Hhl. by apply (seen_bit xw (Mode e) _ _ 9). }
    rewrite Hhl, Hhs, Hno. rewrite <-(andb_true_r (30 <=? _)), Hno. cbn [andb].
    apply Hfields.
    + intros k ? ? ? ?. by apply seen_bit.
    + intros Hd. by apply seen_TopDir.
Qed.
End codecs.

(** ** The whole list *)
Fixpoint received_list (fw : FlistWriter) (es : list FlistEntry) : list FlistEntry :=
  match es with
  | [] => []
  | e :: es' => received fw e :: received_list (next_writer fw e) es'
  end.

Section lists.
Context {S : Type} (w : io_Writer S) `{!WriterSpec w}.
Context {T : Type} (r : io_Reader T) `{!ReaderSpec r}.

Lemma entries_codec es fw fr : paired fw fr → Forall (entry_ok fw.(w_opts)) es →
  codec w r (for_each es (WriteEntry w)) fw (foldl next_writer fw es)
    (times (length es) (ReadEntry r)) fr (received_list fw es) (foldl next_reader fr es).
Proof.
  intros Hp Hok. revert fw fr Hp Hok.
  induction es as [|e es IH]; intros fw fr Hp Hok; cbn [for_each length times foldl received_list].
  { apply codec_ret. }
  apply Forall_cons in Hok as [He Hok].
  eapply codec_seq; [by apply entry_codec|]. eapply codec_last; [|apply reads_ret].
  apply IH; [by apply paired_next|]. by rewrite (proj1 (next_writer_kept fw e)).
Qed.

Lemma paired_foldl es fw fr : paired fw fr → paired (foldl next_writer fw es) (foldl next_reader fr es).
Proof. revert fw fr. induction es; intros; simpl; [done|]. by apply IHes, paired_next. Qed.

Lemma foldl_next_writer_kept es fw :
  (foldl next_writer fw es).(w_opts) = fw.(w_opts) ∧ (foldl next_writer fw es).(id0Names) = fw.(id0Names).
Proof.
  revert fw. induction es as [|e es IH]; intros fw; simpl; [done|].
  destruct (IH (next_writer fw e)) as [-> ->]. destruct (next_writer_kept fw e) as (-> & _ & ->). done.
Qed.

(** The end marker: ReadEntry consumes it and reports io.EOF. *)
Definition end_bytes (o : flist_opts) : bytes := if o.(varintFlistFlags) then [0; 0] else [0].

Lemma WriteEndMarker_ok fw : writes w (WriteEndMarker w) fw (end_bytes fw.(w_opts)) fw.
Proof.
  apply writes_get. unfold end_bytes. case_if.
  - apply (writes_seq w _ _ _ fw _ [0] [0]); apply (writes_lift w (WriteVarint w 0)), WriteVarint_ok.
  - apply writes_lift, emits_write.
Qed.

Lemma ReadEntry_end fr s rest : stream r s (end_bytes fr.(r_opts) ++ rest) →
  ∃ s', ReadEntry r (fr, s) = (Fail EOF, (fr, s')) ∧ consumed r s s' rest.
Proof.
  intros Hs. assert (parses r (ReadVarint r) [0] 0) as Hz by exact (ReadVarint_ok r 0 ltac:(done)).
  unfold end_bytes in Hs. destruct (varintFlistFlags (r_opts fr)) eqn:Hv.
  - destruct (reads_lift r (ReadVarint r) fr [0] 0 Hz s ([0] ++ rest) Hs) as (s1 & E1 & C1).
    destruct (reads_lift r (ReadVarint r) fr [0] 0 Hz s1 rest (proj1 C1)) as (s2 & E2 & C2).
    assert (readXflags r (fr, s) = (Ret 0, (fr, s1))) as Ex by (unfold readXflags; by rewrite bind_get, Hv).
    assert (ignore_error (lift (ReadVarint r)) (fr, s1) = (Ret tt, (fr, s2))) as Ei by (unfold ignore_error; by rewrite E2).
    exists s2. split; [|by eapply consumed_trans]. unfold ReadEntry.
    rewrite (bind_Ret _ _ _ _ _ Ex), bind_get, Hv. cbn [Z.eqb]. by rewrite (bind_Ret _ _ _ _ _ Ei).
  - destruct (reads_lift r (readByte r) fr [0] 0 (readByte_ok r 0) s rest Hs) as (s1 & E1 & C1).
    assert (readXflags r (fr, s) = (Ret 0, (fr, s1))) as Ex.
    { unfold readXflags. rewrite bind_get, Hv. by rewrite (bind_Ret _ _ _ _ _ E1). }
    exists s1. split; [|done]. unfold ReadEntry. by rewrite (bind_Ret _ _ _ _ _ Ex), bind_get, Hv.
Qed.
End lists.

(** C14: Round trip of a file list. Take a writer and a reader that are in step, of
    any protocol version and with any choice of preserved fields, and entries that
    this format can carry ([entry_ok]): names of at most MaxPathLen bytes, fields
    within their wire widths, valid modes, and, below version 28 without varint
    flags, no access times and no directory names of 128 bytes or more. Written
    with WriteEntry and WriteEndMarker, the list is read back entry by entry with
    ReadEntry, after which ReadEntry reports io.EOF with the stream positioned
    right behind the marker, whatever follows it. Each entry comes back as
    [received] describes it: every transmitted field equal, every other field zero;
    the device number of a hard link on the device of the link before it is not
    transmitted and comes back as zero. *)
Theorem flist_roundtrip {S T} (w : io_Writer S) `{!WriterSpec w} (r : io_Reader T) `{!ReaderSpec r} fw fr es :
  paired fw fr → Forall (entry_ok fw.(w_opts)) es →
  ∃ bs, writes w (for_each es (WriteEntry w) ;;; WriteEndMarker w) fw bs (foldl next_writer fw es) ∧
    ∀ s rest, stream r s (bs ++ rest) →
      ∃ s1 s2, times (length es) (ReadEntry r) (fr, s) = (Ret (received_list fw es), (foldl next_reader fr es, s1)) ∧
        ReadEntry r (foldl next_reader fr es, s1) = (Fail EOF, (foldl next_reader fr es, s2)) ∧
        consumed r s s2 rest.
Proof.
  intros Hp Hok. destruct (entries_codec w r es fw fr Hp Hok) as (bs & W & R).
  pose proof (WriteEndMarker_ok w (foldl next_writer fw es)) as We.
  destruct (paired_foldl es fw fr Hp) as [Ho _].
  exists (bs ++ end_bytes (w_opts (foldl next_writer fw es))). split; [by eapply writes_seq|].
  intros s rest Hs. rewrite <-app_assoc in Hs. destruct (R _ _ Hs) as (s1 & E1 & C1).
  destruct (ReadEntry_end r (foldl next_reader fr es) s1 rest) as (s2 & E2 & C2); [rewrite Ho; apply C1|].
  exists s1, s2. split_and!; auto. by eapply consumed_trans.
Qed.

Definition example_entry (name : string) (mode : Z) : FlistEntry :=
  mk_FlistEntry (str name) mode 12 1700000000 5 0 1000 100 [] [] 0 0 [] 0 1 0 0 [] false false.

Definition example_entries : list FlistEntry :=
  [example_entry "." 0x41ED; example_entry "a.txt" 0x81A4; example_entry "a.txt~" 0x81A4].

Lemma example_entries_ok v : 30 ≤ v → Forall (entry_ok (defaultOpts v false)) example_entries.
Proof.
  intros Hv. repeat constructor; try (unfold is_u32, is_i64, is_i32; simpl; lia); try done; try (by left); try (by right);
    simpl; destruct (Z.leb_spec 30 v); try lia; unfold is_i64; lia.
Qed.

Lemma flist_roundtrip_witness :
  paired (NewFlistWriter 31 false) (NewFlistReader 31 false) ∧
  ∃ bs, writes conn_writer (for_each example_entries (WriteEntry conn_writer) ;;; WriteEndMarker conn_writer)
      (NewFlistWriter 31 false) bs (foldl next_writer (NewFlistWriter 31 false) example_entries) ∧
    ∀ s rest, stream conn_reader s (bs ++ rest) →
      ∃ s1 s2, times 3 (ReadEntry conn_reader) (NewFlistReader 31 false, s) =
          (Ret (received_list (NewFlistWriter 31 false) example_entries),
           (foldl next_reader (NewFlistReader 31 false) example_entries, s1)) ∧
        ReadEntry conn_reader (foldl next_reader (NewFlistReader 31 false) example_entries, s1) =
          (Fail EOF, (foldl next_reader (NewFlistReader 31 false) example_entries, s2)) ∧
        consumed conn_reader s s2 rest.
Proof.
  split; [done|].
  apply (flist_roundtrip conn_writer conn_reader (NewFlistWriter 31 false) (NewFlistReader 31 false) example_entries);
    [done|apply example_entries_ok; lia].
Defined.
