(* ===== verification/FlistSafety.v ===== *)
(** * The file list reader on untrusted input (protocol/flist.go)

    What ReadEntry guarantees of an entry it accepts, whatever the peer sent,
    and the inputs on which it does not behave: the prefix length that panics,
    the directory names that a writer below version 28 encodes so that they are
    not read back, and the device number that is dropped between two hard links. *)
From S2P Require Import Prelude.
From S2P Require Import GoIO.
From S2P Require Import WireInt.
From S2P Require Import Flist.
From S2P Require Import FlistProofs.
#[local] Open Scope Z_scope.
#[local] Open Scope go_scope.

Section safety.
Context {T : Type} (r : io_Reader T) `{!ReaderSpec r}.

(** A usable reader with arbitrary bytes to come. *)
Definition hostile (s : T) : Prop := readable r s ∧ bytes_ok (pending r s).

(** A read that returns leaves the reader usable. *)
Definition keeps {A} (m : M T A) : Prop := ∀ s a s', hostile s → m s = (Ret a, s') → hostile s'.
Definition keeps_obj {O A} (m : M (O * T) A) : Prop :=
  ∀ o s a o' s', hostile s → m (o, s) = (Ret a, (o', s')) → hostile s'.

Lemma keeps_ret {A} (a : A) : keeps (ret a).
Proof. intros s b s' Hr [= _ <-]. done. Qed.
Lemma keeps_fail {A} e : keeps (@fail T A e).
Proof. intros s b s' Hr [=]. Qed.
Lemma keeps_panic {A} : keeps (@panic T A).
Proof. intros s b s' Hr [=]. Qed.
Lemma keeps_bind {A B} (m : M T A) (k : A → M T B) : keeps m → (∀ a, keeps (k a)) → keeps (bind m k).
Proof. intros Hm Hk s b s' Hr (a & s1 & E1 & E2)%bind_inv_Ret. eapply Hk; [|done]. by eapply Hm. Qed.

Lemma ReadFull_inv n s p s' : hostile s → ReadFull r n s = (Ret p, s') →
  length p = n ∧ bytes_ok p ∧ hostile s'.
Proof.
  intros [Hr Hb] E. destruct (ReadFull_cases r n s (pending r s)) as [(s1 & E1 & Hl & C)|(s1 & E1 & _)]; [done| |].
  - rewrite E1 in E. injection E as <- <-. rewrite length_take. split; [lia|]. split; [by apply Forall_take|].
    destruct C as [[Hr1 Hp1] _]. split; [done|]. rewrite Hp1. by apply Forall_drop.
  - by rewrite E1 in E.
Qed.
Lemma keeps_ReadFull n : keeps (ReadFull r n).
Proof. intros s p s' Hr E. by destruct (ReadFull_inv n s p s' Hr E) as (_ & _ & ?). Qed.

Lemma readByte_inv s b s' : hostile s → readByte r s = (Ret b, s') → is_byte b.
Proof.
  intros Hs (p & s1 & E1 & E2)%bind_inv_Ret. destruct (ReadFull_inv _ _ _ _ Hs E1) as (Hl & Hb & _).
  destruct p as [|x p]; [done|]. injection E2 as <- _. by apply Forall_cons in Hb as [? _].
Qed.

Lemma keeps_readByte : keeps (readByte r).
Proof. apply keeps_bind; [apply keeps_ReadFull|intros; apply keeps_ret]. Qed.

Lemma keeps_ReadVarint : keeps (ReadVarint r).
Proof.
  unfold ReadVarint. apply keeps_bind; [apply keeps_ReadFull|]. intros b. cbv zeta.
  repeat first [apply keeps_bind; [|intros ?] | case_if | apply keeps_ReadFull | apply keeps_ret | apply keeps_panic
               | unfold checked; case_match].
Qed.

Lemma keeps_lift {O A} (m : M T A) : keeps m → keeps_obj (O := O) (lift m).
Proof.
  intros H o s a o' s' Hr [_ E]%lift_inv. by eapply H.
Qed.
Lemma keeps_obj_ret {O A} (a : A) : keeps_obj (O := O) (ret a).
Proof. by intros o s b o' s' Hr [= _ _ <-]. Qed.
Lemma keeps_obj_fail {O A} e : keeps_obj (O := O) (@fail _ A e).
Proof. intros o s b o' s' Hr [=]. Qed.
Lemma keeps_obj_get {O} : keeps_obj (@get O T).
Proof. by intros o s b o' s' Hr [= _ _ <-]. Qed.
Lemma keeps_obj_bind {O A B} (m : M (O * T) A) (k : A → M (O * T) B) :
  keeps_obj m → (∀ a, keeps_obj (k a)) → keeps_obj (bind m k).
Proof.
  intros Hm Hk o s b o' s' Hr (a & [o1 s1] & E1 & E2)%bind_inv_Ret. eapply Hk; [|done]. by eapply Hm.
Qed.

Lemma keeps_readXflags : keeps_obj (readXflags r).
Proof.
  unfold readXflags.
  repeat first [apply keeps_obj_bind; [|intros ?] | case_if | apply keeps_obj_get | apply keeps_obj_ret
               | apply keeps_lift, keeps_readByte | apply keeps_lift, keeps_ReadVarint].
Qed.

(** What the reader's state and the entry have in common after each block:
    the later blocks leave the name and the count alone. *)
Definition keeps_name {A} (m : M (FlistReader * T) A) : Prop :=
  ∀ fr s a fr' s', m (fr, s) = (Ret a, (fr', s')) →
    fr'.(r_last).(lastName) = fr.(r_last).(lastName) ∧ fr'.(used) = fr.(used) ∧ fr'.(r_opts) = fr.(r_opts).

Lemma kn_ret {A} (a : A) : keeps_name (ret a).
Proof. by intros fr s b fr' s' [= _ <- _]. Qed.
Lemma kn_fail {A} e : keeps_name (@fail _ A e).
Proof. intros fr s b fr' s' [=]. Qed.
Lemma kn_get : keeps_name get.
Proof. by intros fr s b fr' s' [= _ <- _]. Qed.
Lemma kn_lift {A} (m : M T A) : keeps_name (lift m).
Proof. by intros fr s a fr' s' [-> _]%lift_inv. Qed.
Lemma kn_modify f : (∀ fr, (f fr).(r_last).(lastName) = fr.(r_last).(lastName) ∧ (f fr).(used) = fr.(used) ∧
    (f fr).(r_opts) = fr.(r_opts)) → keeps_name (modify f).
Proof. intros Hf fr s a fr' s' [= _ <- _]. apply Hf. Qed.
Lemma kn_bind {A B} (m : M (FlistReader * T) A) (k : A → M (FlistReader * T) B) :
  keeps_name m → (∀ a, keeps_name (k a)) → keeps_name (bind m k).
Proof.
  intros Hm Hk fr s b fr' s' (a & [fr1 s1] & E1 & E2)%bind_inv_Ret.
  apply Hm in E1 as (? & ? & ?). apply Hk in E2 as (? & ? & ?). split_and!; congruence.
Qed.

Ltac kn :=
  repeat first [apply kn_ret | apply kn_fail | apply kn_get | apply kn_lift
               | apply kn_modify; intros []; by split_and! | apply kn_bind; [|intros ?] | case_if | case_match].

Lemma kn_readXflags : keeps_name (readXflags r).
Proof. unfold readXflags. kn. Qed.
(** The blocks of ReadEntry after the name. *)
Ltac kn_field :=
  unfold read_size, read_mtime, read_nsec, read_mode, read_atime, read_uid, read_gid, read_rdev, read_target,
    read_devino, read_checksum; kn.

Lemma check_mode_inv name mode fr (s : T) u st : check_mode name mode (fr, s) = (Ret u, st) →
  st = (fr, s) ∧ (mode = 0 ∨ valid_type mode = true) ∧ (is_root_name name = true → isDir mode = true).
Proof.
  unfold check_mode. destruct (negb (mode =? 0) && _) eqn:H1; [done|].
  destruct (is_root_name name && _) eqn:H2; [done|]. intros [= _ <-]. split; [done|].
  destruct (Z.eqb_spec mode 0); destruct (valid_type mode), (is_root_name name), (isDir mode); naive_solver.
Qed.

Lemma read_name_inv xflags fr s name fr' s' : hostile s → read_name r xflags (fr, s) = (Ret name, (fr', s')) →
  Z.of_nat (length name) ≤ MaxPathLen ∧ fr' = r_set_last (set_lastName name) fr.
Proof.
  intros Hr E. unfold read_name in E.
  apply bind_inv_Ret in E as (l1 & [fr1 s1] & E1 & E).
  apply bind_inv_Ret in E as (l2 & [fr2 s2] & E2 & E).
  assert (fr1 = fr ∧ hostile s1 ∧ 0 ≤ l1) as (-> & Hr1 & Hl1).
  { destruct (has xflags XmitSameName); [|by injection E1 as <- <- <-].
    apply lift_inv in E1 as [-> E1]. split_and!; [done|by eapply keeps_readByte|by apply (readByte_inv s l1 s1)]. }
  assert (fr2 = fr ∧ hostile s2) as [-> Hr2].
  { destruct (has xflags XmitLongName); apply lift_inv in E2 as [-> E2]; (split; [done|]);
      [by eapply keeps_ReadVarint|by eapply keeps_readByte]. }
  destruct (_ || _) eqn:Hov in E; [done|]. b2p.
  apply bind_inv_Ret in E as (suffix & [fr3 s3] & E3 & E).
  assert (fr3 = fr ∧ length suffix = Z.to_nat l2) as [-> Hsuf].
  { destruct (Z.ltb_spec 0 l2); [|injection E3 as <- <- _; split; [done|simpl; lia]].
    apply lift_inv in E3 as [-> E3]. split; [done|]. by destruct (ReadFull_inv _ _ _ _ Hr2 E3). }
  rewrite bind_get in E. cbv zeta in E.
  destruct (Z.ltb_spec (Z.of_nat (length (lastName (r_last fr)))) l1); [done|].
  injection E as <- <- _. split; [|done]. rewrite length_app, length_take, Hsuf. lia.
Qed.

Lemma read_fields_inv xflags name fr s e fr' s' : read_fields r xflags name (fr, s) = (Ret e, (fr', s')) →
  Name e = name ∧ (Mode e = 0 ∨ valid_type (Mode e) = true) ∧ (is_root_name name = true → isDir (Mode e) = true) ∧
  HlinkNdx e = 0 ∧ fr'.(used) = fr.(used) + 1 ∧ fr'.(r_last).(lastName) = fr.(r_last).(lastName).
Proof.
  intros E. unfold read_fields in E.
  repeat match type of E with
  | bind (modify _) _ _ = _ => fail 1
  | bind (check_mode _ _) _ (?f, ?s) = _ =>
      let st := fresh "st" in let Ec := fresh "Ec" in
      apply bind_inv_Ret in E as ([] & st & Ec & E); apply check_mode_inv in Ec as (-> & Hm & Hroot)
  | bind _ _ (?f, ?s) = _ =>
      let a := fresh "a" in let f' := fresh "f" in let s' := fresh "s" in let Ea := fresh "Ea" in
      apply bind_inv_Ret in E as (a & [f' s'] & Ea & E); cbv beta in E;
      match type of Ea with ?m _ = _ =>
        assert (keeps_name m) as K by kn_field; apply K in Ea as (? & ? & ?); clear K
      end;
      try destruct a as [? ?]
  end.
  injection E as <- <- _. simpl. split_and!; auto; congruence.
Qed.
End safety.

(** C19: What an accepted entry satisfies, whatever bytes the peer sent. The
    reassembled name is at most MaxPathLen long, the mode is 0 or one of the
    seven file types, a transfer-root name belongs to a directory, a hard link
    reference names an entry already read, exactly one more entry counts as
    used, and the name is the next entry's prefix base. *)
Theorem ReadEntry_validates {T} (r : io_Reader T) `{!ReaderSpec r} fr s e fr' s' :
  hostile r s → ReadEntry r (fr, s) = (Ret e, (fr', s')) →
  Z.of_nat (length e.(Name)) ≤ MaxPathLen ∧
  (e.(Mode) = 0 ∨ valid_type e.(Mode) = true) ∧
  (is_root_name e.(Name) = true → isDir e.(Mode) = true ∨ 1 ≤ e.(HlinkNdx)) ∧
  (e.(HlinkNdx) = 0 ∨ 1 ≤ e.(HlinkNdx) < i32 (fr.(used) + 1)) ∧
  fr'.(used) = fr.(used) + 1 ∧ fr'.(r_last).(lastName) = e.(Name).
Proof.
  intros Hs E. unfold ReadEntry in E.
  apply bind_inv_Ret in E as (xflags & [fr1 s1] & E1 & E).
  pose proof (keeps_readXflags r _ _ _ _ _ Hs E1) as Hs1.
  apply (kn_readXflags r) in E1 as (_ & Hu1 & _).
  rewrite bind_get in E. destruct (Z.eqb_spec xflags 0) as [_|_].
  { apply bind_inv_Ret in E as (? & ? & _ & E). done. }
  apply bind_inv_Ret in E as (name & [fr2 s2] & E2 & E).
  destruct (read_name_inv r _ _ _ _ _ _ Hs1 E2) as [Hlen ->].
  destruct (_ && negb _).
  - apply bind_inv_Ret in E as (ndx & [fr3 s3] & E3 & E). injection E as <- <- <-. simpl.
    unfold read_hlink_ndx in E3. apply bind_inv_Ret in E3 as (n & [fr4 s4] & E4 & E3).
    apply lift_inv in E4 as [-> _]. rewrite bind_get in E3. cbn [used r_set_last] in E3.
    destruct (_ || _) eqn:Hrange in E3; [done|]. destruct (Z.ltb_spec n 1); [done|].
    injection E3 as <- <- _. b2p. simpl. rewrite <-Hu1. split_and!; auto.
  - apply read_fields_inv in E as (Hn & Hm & Hroot & Hh & Hu & Hl). rewrite Hn. simpl in *.
    split_and!; auto; congruence.
Qed.

(** C25: A prefix length the peer chose larger than the previous name panics the
    reader: in every reader state without varint flags whose previous name is
    shorter than [l1], the three bytes (same-name flag, [l1], empty suffix)
    crash ReadEntry instead of failing it. *)
Theorem ReadEntry_prefix_panic {T} (r : io_Reader T) `{!ReaderSpec r} fr s l1 rest :
  fr.(r_opts).(varintFlistFlags) = false → Z.of_nat (length fr.(r_last).(lastName)) < l1 < 256 →
  stream r s (XmitSameName :: l1 :: 0 :: rest) →
  (ReadEntry r (fr, s)).1 = Panic.
Proof.
  intros Hv Hl1 Hs.
  destruct (reads_lift r (readByte r) fr [XmitSameName] _ (readByte_ok r _) s (l1 :: 0 :: rest) Hs) as (s1 & E1 & C1).
  destruct (reads_lift r (readByte r) fr [l1] _ (readByte_ok r _) s1 (0 :: rest) (proj1 C1)) as (s2 & E2 & C2).
  destruct (reads_lift r (readByte r) fr [0] _ (readByte_ok r _) s2 rest (proj1 C2)) as (s3 & E3 & C3).
  assert (readXflags r (fr, s) = (Ret XmitSameName, (fr, s1))) as Ex.
  { unfold readXflags. rewrite bind_get, Hv, (bind_Ret _ _ _ _ _ E1). simpl. by rewrite andb_false_r. }
  unfold ReadEntry. rewrite (bind_Ret _ _ _ _ _ Ex), bind_get. change (XmitSameName =? 0) with false. cbn iota.
  assert (read_name r XmitSameName (fr, s1) = (Panic, (fr, s3))) as En.
  { unfold read_name. change (has XmitSameName XmitSameName) with true. change (has XmitSameName XmitLongName) with false.
    cbn iota. rewrite (bind_Ret _ _ _ _ _ E2), (bind_Ret _ _ _ _ _ E3).
    destruct (Z.ltb_spec MaxPathLen (l1 + 0)) as [H|_]; [unfold MaxPathLen in H; lia|]. cbn [orb Z.ltb Z.compare].
    rewrite bind_ret_l, bind_get. cbv zeta.
    destruct (Z.ltb_spec (Z.of_nat (length (lastName (r_last fr)))) l1); [done|lia]. }
  by rewrite (bind_Panic _ _ _ _ En).
Qed.

(** The two bytes panic even the reader of the very first entry. *)
Lemma ReadEntry_prefix_panic_witness :
  (ReadEntry conn_reader (NewFlistReader 30 false, conn_dribble [32; 1; 0])).1 = Panic.
Proof.
  exact (ReadEntry_prefix_panic conn_reader (NewFlistReader 30 false) (conn_dribble [32; 1; 0]) 1 []
           eq_refl ltac:(simpl; lia) (conj I eq_refl)).
Defined.

(** A hard link reference to the first entry, after one plain entry. *)
Lemma ReadEntry_validates_witness :
  ∃ e fr' s',
    ReadEntry conn_reader (r_set_used 1 (NewFlistReader 30 false), conn_of [4; 2; 1; 97; 1]) = (Ret e, (fr', s')) ∧
    Z.of_nat (length e.(Name)) ≤ MaxPathLen ∧
    (e.(Mode) = 0 ∨ valid_type e.(Mode) = true) ∧
    (is_root_name e.(Name) = true → isDir e.(Mode) = true ∨ 1 ≤ e.(HlinkNdx)) ∧
    (e.(HlinkNdx) = 0 ∨ 1 ≤ e.(HlinkNdx) < i32 (1 + 1)) ∧ fr'.(used) = 1 + 1 ∧ fr'.(r_last).(lastName) = e.(Name).
Proof.
  eexists _, _, _. split; [vm_compute; reflexivity|].
  eapply (ReadEntry_validates conn_reader (r_set_used 1 (NewFlistReader 30 false)) (conn_of [4; 2; 1; 97; 1])).
  - split; [done|]. repeat (constructor; [unfold is_byte; lia|]). constructor.
  - vm_compute. reflexivity.
Defined.

(** ** Two places where the writer's own output is not read back *)

(** What the first byte of a varint announces. *)
Lemma extra_of_byte ch : is_byte ch → 128 ≤ ch →
  (ch < 192 → extra_of ch = 1%nat ∧ Z.land ch 127 = ch - 128) ∧
  (192 ≤ ch < 224 → extra_of ch = 2%nat ∧ Z.land ch 63 = ch - 192) ∧
  (224 ≤ ch < 240 → extra_of ch = 3%nat ∧ Z.land ch 31 = ch - 224) ∧
  (240 ≤ ch < 248 → extra_of ch = 4%nat).
Proof.
  intros Hb.
  pose (P ch := if ch <? 128 then true else if ch <? 192 then Nat.eqb (extra_of ch) 1 && (Z.land ch 127 =? ch - 128)
    else if ch <? 224 then Nat.eqb (extra_of ch) 2 && (Z.land ch 63 =? ch - 192)
    else if ch <? 240 then Nat.eqb (extra_of ch) 3 && (Z.land ch 31 =? ch - 224)
    else if ch <? 248 then Nat.eqb (extra_of ch) 4 else true).
  assert (P ch = true) as HP by (apply byte_forall; [by vm_compute|done]). unfold P in HP.
  destruct (Z.ltb_spec ch 128), (Z.ltb_spec ch 192), (Z.ltb_spec ch 224), (Z.ltb_spec ch 240), (Z.ltb_spec ch 248); try lia;
    rewrite ?andb_true_iff, ?Nat.eqb_eq, ?Z.eqb_eq in HP; lia.
Qed.

Lemma misread_length L a b c d : 128 ≤ L < 248 → Forall (λ x, 16 < x < 256) [a; b; c; d] →
  ∃ v, varint_value L (extra_of L) (take (extra_of L) [a; b; c; d]) = Some v ∧
    if L <? 144 then v = a + 256 * (L - 128) else v < 0 ∨ MaxPathLen < v.
Proof.
  intros HL HF. destruct (extra_of_byte L) as (H1 & H2 & H3 & H4); [unfold is_byte; lia|lia|]. repeat (apply Forall_cons in HF as [? HF]).
  assert (∀ u, i32 (Uint32 u) = (Uint32 u + 2^31) mod 2^32 - 2^31) as Hi by done.
  unfold MaxPathLen. destruct (decide (L < 192)) as [Hlt|]; [|destruct (decide (L < 224)); [|destruct (decide (L < 240))]].
  - destruct H1 as [-> E]; [lia|]. eexists. split; [reflexivity|]. rewrite Hi. cbn.
    change (0 <? Z.of_nat 1) with true. change (u8 (u8 (Z.shiftl 1 (8 - Z.of_nat 1)) - 1)) with 127. cbn iota. rewrite E. unfold Uint32. cbn [le_val take].
    destruct (Z.ltb_spec L 144); Z.to_euclidean_division_equations; lia.
  - destruct H2 as [-> E]; [lia|]. eexists. split; [reflexivity|]. rewrite Hi. cbn.
    change (0 <? Z.of_nat 2) with true. change (u8 (u8 (Z.shiftl 1 (8 - Z.of_nat 2)) - 1)) with 63. cbn iota. rewrite E. unfold Uint32. cbn [le_val take].
    destruct (Z.ltb_spec L 144); Z.to_euclidean_division_equations; lia.
  - destruct H3 as [-> E]; [lia|]. eexists. split; [reflexivity|]. rewrite Hi. cbn.
    change (0 <? Z.of_nat 3) with true. change (u8 (u8 (Z.shiftl 1 (8 - Z.of_nat 3)) - 1)) with 31. cbn iota. rewrite E. unfold Uint32. cbn [le_val take].
    destruct (Z.ltb_spec L 144); Z.to_euclidean_division_equations; lia.
  - rewrite H4 by lia. eexists. split; [reflexivity|]. rewrite Hi. cbn.
    change (0 <? Z.of_nat 4) with true. cbn iota. unfold Uint32. cbn [le_val take].
    destruct (Z.ltb_spec L 144); Z.to_euclidean_division_equations; lia.
Qed.

Section desync.
Context {S : Type} (w : io_Writer S) `{!WriterSpec w} {T : Type} (r : io_Reader T) `{!ReaderSpec r}.

(** A part of WriteEntry that succeeds whatever the writer remembers. *)
Definition puts (o : flist_opts) (m : M (FlistWriter * S) unit) : Prop :=
  ∀ fw, fw.(w_opts) = o → ∃ bs fw', writes w m fw bs fw' ∧ fw'.(w_opts) = o.

Lemma puts_seq o m1 m2 : puts o m1 → puts o m2 → puts o (m1 ;;; m2).
Proof.
  intros H1 H2 fw Ho. destruct (H1 fw Ho) as (bs1 & fw1 & W1 & Ho1). destruct (H2 fw1 Ho1) as (bs2 & fw2 & W2 & Ho2).
  exists (bs1 ++ bs2), fw2. split; [by eapply writes_seq|done].
Qed.
Lemma puts_ret o : puts o (ret tt).
Proof. intros fw Ho. exists [], fw. split; [apply writes_ret|done]. Qed.
Lemma puts_lift o m bs : emits w m bs → puts o (lift m).
Proof. intros Hm fw Ho. exists bs, fw. split; [by apply writes_lift|done]. Qed.
Lemma puts_last o f : puts o (modify (w_set_last f)).
Proof. intros fw Ho. exists [], (w_set_last f fw). split; [apply writes_modify|done]. Qed.
Lemma puts_get o k : (∀ fw, fw.(w_opts) = o → puts o (k fw)) → puts o (bind get k).
Proof. intros Hk fw Ho. destruct (Hk fw Ho fw Ho) as (bs & fw' & W & Ho'). exists bs, fw'. split; [by apply writes_get|done]. Qed.

Lemma puts_dir_fields o e : o.(version) < 28 → isDir e.(Mode) = true → puts o (write_fields w 0 e).
Proof.
  intros Hv Hd.
  assert (isDevice e.(Mode) = false ∧ isSymlink e.(Mode) = false ∧ isReg e.(Mode) = false) as (Hdev & Hlnk & Hreg).
  { unfold isDir in Hd. apply Z.eqb_eq in Hd. unfold isDevice, isSymlink, isReg. by rewrite Hd. }
  unfold write_fields, write_size, write_mtime, write_nsec, write_mode, write_atime, write_uid, write_gid, write_rdev, write_target,
    write_devino, write_checksum, write_id.
  repeat apply puts_seq; try (apply puts_get; intros fw ->); rewrite ?Hd, ?Hdev, ?Hlnk, ?Hreg, ?andb_false_r, ?orb_false_r;
    repeat match goal with |- context [(?n <=? version o)] => replace (n <=? version o) with false by lia end;
    repeat match goal with |- context [(version o <? ?n)] =>
      match n with 30 => idtac | 28 => idtac end; replace (version o <? n) with true by lia end; cbn [andb orb negb];
    repeat first [apply puts_ret | apply puts_last | apply puts_seq | eapply puts_lift, WriteLongInt_ok | eapply puts_lift, WriteUint32_ok
                 | eapply puts_lift, emits_write | case_if].
Qed.

(** A directory whose flag word is zero: the long-name bit, and one byte for
    the length of the name. *)
Lemma WriteEntry_plain_dir fw e : fw.(w_opts).(version) < 28 → fw.(w_opts).(varintFlistFlags) = false → isDir e.(Mode) = true →
  (computeXflags fw e).1 = 0 → 0 < Z.of_nat (length e.(Name)) < 256 →
  ∃ bs fw', writes w (WriteEntry w e) fw ([XmitLongName] ++ [Z.of_nat (length e.(Name))] ++ e.(Name) ++ bs) fw'.
Proof.
  intros Hv Hvar Hd Hx Hlen. pose proof (xw_SameName fw e) as Hp. rewrite Hx in Hp. change (has 0 XmitSameName) with false in Hp.
  assert (commonPrefixLen fw.(w_last).(lastName) e.(Name) = 0%nat) as Hl1 by lia.
  assert (computeXflags fw e = (0, fw)) as Ec.
  { rewrite computeXflags_eq in Hx |- *. cbn [fst] in Hx. rewrite Hx. unfold xf_dev, sends_hlink.
    by replace (28 <=? version (w_opts fw)) with false by lia. }
  destruct (puts_dir_fields fw.(w_opts) e Hv Hd (w_set_last (set_lastName e.(Name)) fw) eq_refl) as (bs & fw' & Wf & _).
  exists bs, fw'. apply writes_get. rewrite Ec.
  apply (writes_seq w _ _ _ fw _ []); [apply (writes_modify w (λ _, fw))|].
  apply (writes_seq w _ _ _ fw _ [XmitLongName]).
  { apply writes_lift. unfold writeXflags. rewrite Hvar, Hd. replace (28 <=? version (w_opts fw)) with false by lia.
    change (u8 _) with XmitLongName. apply emits_write. }
  rewrite app_assoc. apply (writes_seq w _ _ _ (w_set_last (set_lastName e.(Name)) fw) _ ([Z.of_nat (length e.(Name))] ++ e.(Name))).
  - apply writes_get. rewrite Hl1. change (has 0 XmitSameName) with false. change (has 0 XmitLongName) with false. cbv iota zeta.
    rewrite Z.sub_0_r.
    apply (writes_seq w _ _ _ fw _ []); [apply writes_ret|]. rewrite u8_id by (unfold is_byte; lia).
    apply (writes_seq w _ _ _ fw _ [Z.of_nat (length e.(Name))]); [apply writes_lift, emits_write|]. replace (0 <? Z.of_nat (length (Name e))) with true by lia.
    rewrite <-(app_nil_r (Name e)) at 2. apply (writes_seq w _ _ _ fw _ (Name e)); [apply writes_lift, emits_write|apply writes_modify].
  - by replace (30 <=? version (w_opts fw)) with false by lia.
Qed.

(** The reader takes that byte for the first of a varint. *)
Lemma ReadEntry_long_name fr s L name rest : fr.(r_opts).(version) < 28 → fr.(r_opts).(varintFlistFlags) = false →
  stream r s ([XmitLongName] ++ [L] ++ name ++ rest) →
  ∃ s1 s2, consumed r s s2 (name ++ rest) ∧ stream r s1 (L :: name ++ rest) ∧
    ReadEntry r (fr, s) = (let* name' := read_name r XmitLongName in read_fields r XmitLongName name') (fr, s1) ∧
    ReadFull r 1 s1 = (Ret [L], s2).
Proof.
  intros Hv Hvar Hs.
  destruct (reads_lift r (readByte r) fr [XmitLongName] _ (readByte_ok r _) s _ Hs) as (s1 & E1 & C1).
  destruct (ReadFull_ok r [L] 1 eq_refl s1 (name ++ rest) (proj1 C1)) as (s2 & E2 & C2).
  exists s1, s2. split_and!; [by eapply consumed_trans|apply C1| |done].
  unfold ReadEntry. assert (readXflags r (fr, s) = (Ret XmitLongName, (fr, s1))) as Ex.
  { unfold readXflags. rewrite bind_get, Hvar, (bind_Ret _ _ _ _ _ E1). simpl. by replace (28 <=? version (r_opts fr)) with false by lia. }
  rewrite (bind_Ret _ _ _ _ _ Ex), bind_get. change (XmitLongName =? 0) with false. cbv iota.
  unfold bind. destruct (read_name r XmitLongName (fr, s1)) as [[n|e| |] [fr' s']]; try done.
  by replace (30 <=? version (r_opts fr)) with false by lia.
Qed.

Lemma ReadVarint_misread s L name rest : stream r s (L :: name ++ rest) → 128 ≤ L < 248 → (4 ≤ length name)%nat →
  Forall (λ b, 16 < b < 256) name →
  ∃ v s' bs, ReadVarint r s = (Ret v, s') ∧ stream r s' bs ∧ if L <? 144 then v = name !!! 0%nat + 256 * (L - 128) else v < 0 ∨ MaxPathLen < v.
Proof.
  intros Hs HL Hn HF. destruct name as [|a [|b [|c [|d name]]]]; try (simpl in Hn; lia).
  destruct (misread_length L a b c d HL) as (v & Ev & Hv).
  { change (a :: b :: c :: d :: name) with ([a; b; c; d] ++ name) in HF. by apply Forall_app in HF as [HF _]. }
  destruct (extra_of_ranges L) as (He & _); [unfold is_byte; lia|]. specialize (He ltac:(lia)).
  destruct (ReadFull_ok r [L] 1 eq_refl s _ Hs) as (s1 & E1 & C1).
  assert (length (take (extra_of L) [a; b; c; d]) = extra_of L) as Hl by (rewrite length_take; simpl; lia).
  change ((a :: b :: c :: d :: name) ++ rest) with ([a; b; c; d] ++ name ++ rest) in C1.
  rewrite <-(take_drop (extra_of L) [a; b; c; d]), <-app_assoc in C1.
  destruct (parses_extra r (extra_of L) _ Hl s1 _ (proj1 C1)) as (s2 & E2 & [Hs2 _]).
  exists v, s2. eexists. split_and!; [|exact Hs2|done]. unfold ReadVarint. rewrite (bind_Ret _ _ _ _ _ E1). change ([L] !!! 0%nat) with L. cbv zeta.
  replace (5 <? Z.of_nat (extra_of L)) with false by lia. by rewrite (bind_Ret _ _ _ _ _ E2), Ev.
Qed.
(** The name behind the long-name bit and a length [v]. *)
Lemma read_name_long fr s v s3 bs : ReadVarint r s = (Ret v, s3) → stream r s3 bs →
  (v < 0 ∨ MaxPathLen < v → (read_name r XmitLongName (fr, s)).1 = Fail (Errorf "overflow" [XmitLongName; 0; v])) ∧
  ∀ name st, read_name r XmitLongName (fr, s) = (Ret name, st) → length name = Z.to_nat v.
Proof.
  intros E Hs. assert (lift (ReadVarint r) (fr, s) = (Ret v, (fr, s3))) as E' by by apply lift_eq.
  unfold read_name. change (has XmitLongName XmitSameName) with false. change (has XmitLongName XmitLongName) with true.
  cbv iota. rewrite bind_ret_l, (bind_Ret _ _ _ _ _ E'), Z.add_0_l.
  destruct ((v <? 0) || (MaxPathLen <? v)) eqn:Hv; [by split|]. split; [lia|]. intros name st (suffix & [fr1 s4] & E4 & En)%bind_inv_Ret.
  rewrite bind_get in En. cbv zeta in En. destruct (Z.ltb_spec (Z.of_nat (length (lastName (r_last fr1)))) 0) in En; [done|].
  injection En as <- _. change (take (Z.to_nat 0) _) with (@nil Z). cbn [app].
  destruct (Z.ltb_spec 0 v); [|injection E4 as <- _ _; simpl; lia]. apply lift_inv in E4 as [_ E4].
  destruct (ReadFull_cases r (Z.to_nat v) s3 bs Hs) as [(s5 & E5 & Hl & _)|(s5 & E5 & _)]; rewrite E5 in E4; [|done].
  injection E4 as <- _. rewrite length_take. lia.
Qed.
End desync.

(** C27: Below version 28 a directory with a long name is not read back. Take a
    writer and a reader without varint flags that are in step, and a directory
    with a zero flag word (nothing in common with the entry before it) and a name
    of 128 to 255 bytes, none a control byte below 0x11 and the first not 0x80.
    WriteEntry sends the long-name bit with the length as a single byte, which
    ReadEntry takes for the start of a varint: from 144 bytes on it rejects the
    entry, from 248 on it panics, and it never returns an entry of that name. *)
Theorem proto27_dir_name_desync {S T} (w : io_Writer S) `{!WriterSpec w} (r : io_Reader T) `{!ReaderSpec r} fw fr e :
  paired fw fr → fw.(w_opts).(version) < 28 → fw.(w_opts).(varintFlistFlags) = false → isDir e.(Mode) = true →
  (computeXflags fw e).1 = 0 → 128 ≤ Z.of_nat (length e.(Name)) ≤ 255 →
  Forall (λ b, 16 < b < 256) e.(Name) → e.(Name) !!! 0%nat ≠ 128 →
  ∃ bs fw', writes w (WriteEntry w e) fw bs fw' ∧ ∀ s rest, stream r s (bs ++ rest) →
    (144 ≤ Z.of_nat (length e.(Name)) < 248 → ∃ l, (ReadEntry r (fr, s)).1 = Fail (Errorf "overflow" l)) ∧
    (248 ≤ Z.of_nat (length e.(Name)) → (ReadEntry r (fr, s)).1 = Panic) ∧
    ∀ e', (ReadEntry r (fr, s)).1 = Ret e' → e'.(Name) ≠ e.(Name).
Proof.
  intros [Ho _] Hv Hvar Hd Hx HL HF H0. set (L := Z.of_nat (length e.(Name))) in *.
  destruct (WriteEntry_plain_dir w fw e Hv Hvar Hd Hx ltac:(lia)) as (bs & fw' & W). eexists _, _. split; [exact W|].
  intros s rest Hs. rewrite <-!app_assoc in Hs.
  destruct (ReadEntry_long_name r fr s L e.(Name) (bs ++ rest)) as (s1 & s2 & _ & Hs1 & -> & _); [by rewrite Ho..|done|].
  assert (∀ x, (read_name r XmitLongName (fr, s1)).1 = x → (∀ n, x ≠ Ret n) →
    ((let* name' := read_name r XmitLongName in read_fields r XmitLongName name') (fr, s1)).1 = match x with Ret _ => Panic | Fail e => Fail e | Panic => Panic | NoFuel => NoFuel end) as Hstop.
  { intros x Ex Hx'. unfold bind. destruct (read_name r XmitLongName (fr, s1)) as [y st]. cbn in Ex. subst y. by destruct x; [destruct (Hx' a)|..]. }
  destruct (decide (L < 248)) as [Hlt|Hge].
  - destruct (ReadVarint_misread r s1 L e.(Name) (bs ++ rest) Hs1) as (v & s3 & bs3 & E3 & Hs3 & Hval); [lia|lia|done|].
    destruct (read_name_long r fr s1 v s3 bs3 E3 Hs3) as [Hover Hname]. split_and!; [|lia|].
    + intros H144. replace (L <? 144) with false in Hval by lia. rewrite (Hstop _ (Hover Hval)) by done. by eexists.
    + intros e' E'. unfold bind in E'. destruct (read_name r XmitLongName (fr, s1)) as [[name|e0| |] [fr' s4]] eqn:Er; [|done..].
      destruct (read_fields r XmitLongName name (fr', s4)) as [y [fr'' s5]] eqn:Ef. cbn in E'. subst y.
      apply read_fields_inv in Ef as [-> _]. intros ->. specialize (Hname _ _ eq_refl).
      destruct (Z.ltb_spec L 144); [|specialize (Hover Hval); by rewrite ?Er in Hover].
      assert (16 < e.(Name) !!! 0%nat < 256) as Hb by (apply (Forall_lookup_1 (λ b, 16 < b < 256) e.(Name) 0%nat _ HF), list_lookup_lookup_total_lt; lia).
      lia.
  - assert ((ReadVarint r s1).1 = Panic) as E3.
    { apply (ReadVarint_panic_iff r s1 L _ Hs1); [unfold is_byte; lia|]. destruct (decide (252 ≤ L)); [by left|right].
      rewrite length_app. lia. }
    assert ((read_name r XmitLongName (fr, s1)).1 = Panic) as Ep.
    { unfold read_name. change (has XmitLongName XmitSameName) with false. change (has XmitLongName XmitLongName) with true.
      cbv iota. rewrite bind_ret_l. unfold bind, lift. destruct (ReadVarint r s1) as [y s3]. cbn in E3. by subst y. }
    rewrite (Hstop _ Ep) by done. split_and!; [lia|done|done].
Qed.

Definition plain_dir (len : nat) : FlistEntry :=
  mk_FlistEntry (replicate len 100) 0x41ED 0 5 0 0 1000 100 [] [] 0 0 [] 0 1 0 0 [] false false.

(** The first entry of a list of version 27, with a name of 200 bytes. *)
Lemma proto27_dir_name_desync_witness :
  ∃ bs fw', writes conn_writer (WriteEntry conn_writer (plain_dir 200)) (NewFlistWriter 27 false) bs fw' ∧
    ∀ s rest, stream conn_reader s (bs ++ rest) →
      ∃ l, (ReadEntry conn_reader (NewFlistReader 27 false, s)).1 = Fail (Errorf "overflow" l).
Proof.
  destruct (proto27_dir_name_desync conn_writer conn_reader (NewFlistWriter 27 false) (NewFlistReader 27 false) (plain_dir 200))
    as (bs & fw' & W & R); [done|done|done|done|by vm_compute|by vm_compute| |done|].
  - apply (bool_decide_unpack _). by vm_compute.
  - exists bs, fw'. split; [exact W|]. intros s rest Hs. apply (R s rest Hs). by vm_compute.
Defined.

(** The same in numbers, and version 28, which is not affected. *)
Example proto27_dir_names :
  let transfer v e :=
    let '(_, (_, c)) := WriteEntry conn_writer e (NewFlistWriter v false, conn_of []) in
    (ReadEntry conn_reader (NewFlistReader v false, conn_of c.(tx))).1 in
  transfer 27 (plain_dir 200) = Fail (Errorf "overflow" [XmitLongName; 0; 549988]) ∧
  transfer 27 (plain_dir 255) = Panic ∧
  match transfer 28 (plain_dir 200) with Ret e => e.(Name) = replicate 200 100 | _ => False end.
Proof. by vm_compute. Qed.

(** C26: In versions 28 and 29, whenever a hard-linked entry is on the device of
    the hard-linked entry before it, the writer leaves the device number out and
    the reader, which remembers none, reports device 0 beside the right inode. *)
Theorem hlink_dev_dropped {S T} (w : io_Writer S) `{!WriterSpec w} (r : io_Reader T) `{!ReaderSpec r} fw fr e :
  paired fw fr → entry_ok fw.(w_opts) e → sends_hlink fw e = true → e.(Dev) = fw.(lastDev) →
  ∃ bs e' fw' fr', writes w (WriteEntry w e) fw bs fw' ∧ reads r (ReadEntry r) fr bs e' fr' ∧
    e'.(Dev) = 0 ∧ e'.(Ino) = e.(Ino).
Proof.
  intros Hp Hok Hs Hd. destruct (entry_codec w r fw fr e Hp Hok) as (bs & W & R).
  exists bs, (received fw e), (next_writer fw e), (next_reader fr e). split_and!; [done|done| |].
  - simpl. by rewrite Hs, Hd, Z.eqb_refl, andb_false_r.
  - simpl. rewrite Hs. unfold sends_devino. unfold sends_hlink in Hs. b2p.
    destruct (Z.ltb_spec (version (w_opts fw)) 30); [|lia]. destruct (Z.leb_spec 28 (version (w_opts fw))); [|lia].
    rewrite orb_true_r. by replace (preserveHardlinks (w_opts fw)) with true.
Qed.

Definition linked_file (name : string) (ino : Z) : FlistEntry :=
  mk_FlistEntry (str name) 0x81A4 0 5 0 0 1000 100 [] [] 0 0 [] 0 2 5 ino [] false false.

Lemma hlink_dev_dropped_witness :
  ∃ bs e' fw' fr', writes conn_writer (WriteEntry conn_writer (linked_file "b" 8)) (w_set_dev 5 (NewFlistWriter 29 false)) bs fw' ∧
    reads conn_reader (ReadEntry conn_reader) (NewFlistReader 29 false) bs e' fr' ∧ e'.(Dev) = 0 ∧ e'.(Ino) = 8.
Proof.
  apply (hlink_dev_dropped conn_writer conn_reader (w_set_dev 5 (NewFlistWriter 29 false)) (NewFlistReader 29 false)
           (linked_file "b" 8)); [done| |done|done].
  constructor; simpl; unfold is_u32, is_i64, is_i32; split_and?; try lia; try done; by right.
Defined.
