(* ===== verification/HashSearch.v ===== *)
(** * The sender's delta generation (server-send.go)

    receiveSums, hashSearch, matchSums and rollingChecksum: the block search
    that turns a file and the client's block checksums into a delta stream.
    The negotiated algorithm, the seed and the version are section variables,
    as they are fields of the connection's state in the source. *)
From S2P Require Import Prelude.
From S2P Require Import GoIO.
From S2P Require Import GoStrings.
From S2P Require Import WireInt.
From S2P Require Import Checksum.
From S2P Require Import Delta.
#[local] Open Scope Z_scope.
#[local] Open Scope go_scope.

(** ** Definitions *)
Record blockSum := mk_blockSum { sum1 : Z; sum2 : bytes; blk_len : Z }.

(** The four-byte loop and the byte loop of rollingChecksum. *)
Fixpoint rolling_tail (data : bytes) (s1 s2 : Z) : Z * Z :=
  match data with
  | [] => (s1, s2)
  | d :: data' => let s1' := u32 (s1 + d) in rolling_tail data' s1' (u32 (s2 + s1'))
  end.
Fixpoint rolling_loop (data : bytes) (s1 s2 : Z) : Z * Z :=
  match data with
  | d0 :: d1 :: d2 :: d3 :: data' =>
      rolling_loop data'
        (u32 (s1 + (d0 + d1 + d2 + d3)))
        (u32 (s2 + (4 * s1 + 4 * d0 + 3 * d1 + 2 * d2 + d3)))
  | _ => rolling_tail data s1 s2
  end.
Definition rollingChecksum (data : bytes) : Z * Z :=
  let '(s1, s2) := rolling_loop data 0 0 in (Z.land s1 0xffff, Z.land s2 0xffff).

Section receive.
Context {S : Type} (r : io_Reader S).

(** The block loop of receiveSums. *)
Fixpoint receive_blocks (count : nat) (s2len blength : Z) : M S (list blockSum) :=
  match count with
  | O => ret []
  | Datatypes.S count' =>
    let* s1 := wrap "read block sum1" (ReadInt32 r) in
    let* s2 := wrap "read block sum2" (ReadFull r (Z.to_nat s2len)) in
    let* rest := receive_blocks count' s2len blength in
    ret (mk_blockSum (u32 s1) s2 blength :: rest)
  end.

(** [sums[len(sums)-1].len = remainder] *)
Definition set_last_len (rem : Z) (sums : list blockSum) : list blockSum :=
  alter (λ s, mk_blockSum s.(sum1) s.(sum2) rem) (length sums - 1)%nat sums.

Definition receiveSums (ver : Z) : M S (SumHead * list blockSum) :=
  let* sh := wrap "read sum head" (ReadSumHead r ver) in
  if sh.(Count) <=? 0 then ret (sh, []) else
  let s2len := if sh.(S2Length) <=? 0 then 16 else sh.(S2Length) in
  let* sums := receive_blocks (Z.to_nat sh.(Count)) s2len sh.(BLength) in
  ret (sh, if negb (sh.(Remainder) =? 0) then set_last_len sh.(Remainder) sums else sums).
End receive.

(** The hash table: the newest block of every slot (-1 for none), and for each
    block the previous one of its slot. *)
Definition hash_slot (s : blockSum) : Z :=
  Z.land (u32 (Z.land s.(sum1) 0xFFFF + Z.shiftr s.(sum1) 16)) 0xFFFF.
Definition table_at (table : gmap Z Z) (slot : Z) : Z := default (-1) (table !! slot).

Fixpoint build_table (sums : list blockSum) (i : Z) (table : gmap Z Z) (chain : list Z) : gmap Z Z * list Z :=
  match sums with
  | [] => (table, chain)
  | s :: sums' =>
      let slot := hash_slot s in
      build_table sums' (i + 1) (<[slot := i]> table) (chain ++ [table_at table slot])
  end.

(** The variables of the search loop. *)
Record search := mk_search { offset : Z; win : Z; rs1 : Z; rs2 : Z; lastMatch : Z }.

Section hash_search.
Context {S : Type} (w : io_Writer S) `{Digests}.
Context (checksum : bytes) (seed : Z) (seedFix : bool).
Context (data : bytes) (blen : Z) (sums : list blockSum) (table : gmap Z Z) (chain : list Z).

Abbreviation dlen := (Z.of_nat (length data)).

(** [data[i]]; [None] is an index out of range. *)
Definition byte_at (i : Z) : option byte := if i <? 0 then None else data !! Z.to_nat i.
(** [data[a:b]] for bounds that have been checked. *)
Definition slice (a b : Z) : bytes := take (Z.to_nat (b - a)) (drop (Z.to_nat a) data).

Definition sendLiteralFill (a b : Z) : M S unit :=
  if b <=? a then ret tt else
  if (a <? 0) || (dlen <? b) then panic else WriteLiteral w (slice a b).

(** The walk along one chain: the index of the first block that matches at
    [off], or -1. *)
Fixpoint find_match (fuel : nat) (i off s1 s2 : Z) : M S Z :=
  if i <? 0 then ret (-1) else
  match fuel with
  | O => nofuel
  | Datatypes.S fuel' =>
    match sums !! Z.to_nat i, chain !! Z.to_nat i with
    | Some s, Some next =>
      let l := Z.min blen (dlen - off) in
      if negb (s.(sum1) =? Z.lor s1 s2) then find_match fuel' next off s1 s2
      else if negb (s.(blk_len) =? l) then find_match fuel' next off s1 s2
      else if l <? 0 then panic
      else if negb (bytesEqual (Checksum2 (slice off (off + l)) checksum (length s.(sum2)) seed seedFix) s.(sum2))
      then find_match fuel' next off s1 s2
      else ret i
    | _, _ => panic
    end
  end.

(** Rolling the window of [k] bytes at [off] by one byte: drop [b0], take in the
    byte behind the window if there is one. The window only shrinks at the end
    of the data, so [k] is not negative and the index read is in range. *)
Definition roll (off k s1 s2 b0 : Z) : Z * Z * Z :=
  let s1 := u32 (s1 - b0) in
  let s2 := u32 (s2 - u32 (u32 k * b0)) in
  if off + k <? dlen then
    let s1 := u32 (s1 + default 0 (byte_at (off + k))) in
    (k, s1, u32 (s2 + s1))
  else (k - 1, s1, s2).

(** A match at the window: the fill and the token go out, the search resumes
    behind the block. *)
Definition on_match (m : Z) (x : search) : M S search :=
  sendLiteralFill x.(lastMatch) x.(offset) ;;;
  wrap "send match token" (WriteMatch w (i32 m)) ;;;
  match sums !! Z.to_nat m with
  | None => panic
  | Some s =>
    let last := x.(offset) + s.(blk_len) in
    let off := last - 1 in
    let k := Z.max 0 (Z.min blen (dlen - off)) in
    match byte_at off with
    | None => panic
    | Some b0 =>
      let '(s1f, s2f) := rollingChecksum (slice off (off + k)) in
      let '(k, s1, s2) := roll off k s1f s2f b0 in
      ret (mk_search (off + 1) k s1 s2 last)
    end
  end.

(** No match: roll one byte; a long unmatched run is flushed early. *)
Definition on_miss (stop : Z) (x : search) : M S search :=
  match byte_at x.(offset) with
  | None => panic
  | Some b0 =>
    let '(k, s1, s2) := roll x.(offset) x.(win) x.(rs1) x.(rs2) b0 in
    if (blen + deltaChunkSize <=? x.(offset) - x.(lastMatch)) && (deltaChunkSize <? stop - x.(offset)) then
      sendLiteralFill x.(lastMatch) (x.(offset) - blen) ;;;
      ret (mk_search (x.(offset) + 1) k s1 s2 (x.(offset) - blen))
    else ret (mk_search (x.(offset) + 1) k s1 s2 x.(lastMatch))
  end.

Definition search_step (stop : Z) (x : search) : M S search :=
  let slot := Z.land (x.(rs1) + x.(rs2)) 0xFFFF in
  let* m := find_match (Datatypes.S (length sums)) (table_at table slot) x.(offset) x.(rs1) x.(rs2) in
  if 0 <=? m then on_match m x else on_miss stop x.

(** The search loop; returns the end of the last match. Every round advances
    the offset, so [len(data)+2] rounds are enough. *)
Fixpoint search_loop (fuel : nat) (stop : Z) (x : search) : M S Z :=
  match fuel with
  | O => nofuel
  | Datatypes.S fuel' =>
    let* x' := search_step stop x in
    if stop <=? x'.(offset) then ret x'.(lastMatch) else search_loop fuel' stop x'
  end.
End hash_search.

Section match_sums.
Context {S : Type} (w : io_Writer S) `{Digests}.
Context (checksum : bytes) (seed : Z) (seedFix : bool).

Definition hashSearch (data : bytes) (blen : Z) (sums : list blockSum) : M S unit :=
  let '(table, chain) := build_table sums 0 ∅ [] in
  let dlen := Z.of_nat (length data) in
  let k := Z.min dlen blen in
  if k <? 0 then panic else
  let '(s1, s2) := rollingChecksum (slice data 0 k) in
  match last sums with
  | None => panic
  | Some s =>
    let stop := dlen + 1 - s.(blk_len) in
    let* lm := search_loop w checksum seed seedFix data blen sums table chain
                 (length data + 2) stop (mk_search 0 k s1 s2 0) in
    sendLiteralFill w data lm dlen
  end.

Definition matchSums (ver : Z) (data : bytes) (sh : SumHead) (sums : list blockSum) : M S unit :=
  (if (0 <? Z.of_nat (length data)) && (0 <? sh.(Count)) then hashSearch data sh.(BLength) sums
   else wrap "send literal data" (WriteLiteral w data)) ;;;
  wrap "send end token" (WriteEnd w) ;;;
  Write w (FileChecksum data checksum ver seed).
End match_sums.
