(* ===== verification/HashSearchProofs.v ===== *)
(** * Correctness of the delta generation (server-send.go)

    The search terminates, never panics on a well-formed sum struct, keeps the
    rolling checksum equal to the checksum of its window, and emits tokens that
    rebuild the file over any basis whose blocks the client's strong checksums
    identify. The last section has the behaviours the code does not intend: a
    negative remainder, and honest checksums that can never match. *)
From S2P Require Import Prelude.
From S2P Require Import GoIO.
From S2P Require Import GoStrings.
From S2P Require Import WireInt.
From S2P Require Import Checksum.
From S2P Require Import Delta.
From S2P Require Import HashSearch.
#[local] Open Scope Z_scope.
#[local] Open Scope go_scope.

(** ** The rolling checksum *)
Lemma rolling_loop_eq data s1 s2 : rolling_loop data s1 s2 = checksum1_loop data s1 s2.
Proof.
  remember (length data) as n eqn:Hn. revert data s1 s2 Hn.
  induction (lt_wf n) as [n _ IH]. intros data s1 s2 ->.
  assert (∀ d a b, rolling_tail d a b = checksum1_tail d a b) as Ht.
  { intros d. induction d as [|x d IHd]; intros; simpl; [done|apply IHd]. }
  destruct data as [|d0 [|d1 [|d2 [|d3 data]]]]; try apply Ht.
  cbn [rolling_loop checksum1_loop]. rewrite (IH (length data)) by (simpl; lia). do 2 f_equal. lia.
Qed.

Lemma rollingChecksum_closed data : rollingChecksum data = (bsum data mod 2^16, wsum data mod 2^16).
Proof.
  unfold rollingChecksum. rewrite rolling_loop_eq. change 0 with (u32 0) at 1 2.
  rewrite checksum1_loop_ok, !u32_low16. do 2 f_equal; lia.
Qed.

(** ** The hash table *)
Definition table_ok (n : Z) (table : gmap Z Z) (chain : list Z) : Prop :=
  Z.of_nat (length chain) = n ∧ (∀ slot, -1 ≤ table_at table slot < n) ∧
  ∀ i j, chain !! i = Some j → -1 ≤ j < Z.of_nat i.

Lemma build_table_ok sums i table chain : table_ok i table chain →
  let '(table', chain') := build_table sums i table chain in
  table_ok (i + Z.of_nat (length sums)) table' chain'.
Proof.
  revert i table chain. induction sums as [|s sums IH]; intros i table chain Hok; cbn [build_table length].
  { by rewrite Z.add_0_r. }
  replace (i + Z.of_nat (S (length sums))) with (i + 1 + Z.of_nat (length sums)) by lia.
  apply IH. destruct Hok as (Hl & Ht & Hc). split_and!.
  - rewrite length_app. simpl. lia.
  - intros slot. unfold table_at. destruct (decide (hash_slot s = slot)) as [->|Hne].
    + rewrite lookup_insert_eq. simpl. lia.
    + rewrite lookup_insert_ne by done. specialize (Ht slot). unfold table_at in Ht. lia.
  - intros j v. rewrite lookup_app_Some. intros [Hj|[Hj Hv]].
    + specialize (Hc j v Hj). lia.
    + apply list_lookup_singleton_Some in Hv as [Hz <-]. specialize (Ht (hash_slot s)).
      assert (j = length chain) as -> by lia. lia.
Qed.

Lemma build_table_start sums :
  let '(table, chain) := build_table sums 0 ∅ [] in table_ok (Z.of_nat (length sums)) table chain.
Proof.
  pose proof (build_table_ok sums 0 ∅ []) as H. rewrite Z.add_0_l in H. apply H.
  split_and!; [done| |done]. intros slot. unfold table_at. rewrite lookup_empty. simpl. lia.
Qed.

(** ** Slices *)
Lemma slice_length data a b : 0 ≤ a ≤ b → b ≤ Z.of_nat (length data) → Z.of_nat (length (slice data a b)) = b - a.
Proof. intros. unfold slice. rewrite length_take, length_drop. lia. Qed.

Lemma slice_app data a b c : 0 ≤ a ≤ b → b ≤ c → slice data a b ++ slice data b c = slice data a c.
Proof.
  intros Hab Hbc. unfold slice. replace (Z.to_nat b) with (Z.to_nat a + Z.to_nat (b - a))%nat by lia.
  rewrite <-drop_drop.
  replace (Z.to_nat (c - a)) with (Z.to_nat (b - a) + Z.to_nat (c - b))%nat by lia.
  set (l := drop (Z.to_nat a) data). by rewrite <-(take_take_drop l (Z.to_nat (b - a)) (Z.to_nat (c - b))).
Qed.

Lemma slice_nil data a : slice data a a = [].
Proof. unfold slice. by rewrite Z.sub_diag. Qed.

Lemma slice_all data : slice data 0 (Z.of_nat (length data)) = data.
Proof. unfold slice. rewrite Z.sub_0_r, Nat2Z.id. simpl. by rewrite drop_0, firstn_all. Qed.

Lemma slice_cons data a b x : 0 ≤ a < b → byte_at data a = Some x → slice data a b = x :: slice data (a + 1) b.
Proof.
  intros Hab Hx. unfold byte_at in Hx. destruct (Z.ltb_spec a 0); [lia|]. unfold slice.
  rewrite (drop_S data x (Z.to_nat a)) by done.
  replace (Z.to_nat (b - a)) with (S (Z.to_nat (b - (a + 1)))) by lia.
  replace (Z.to_nat (a + 1)) with (S (Z.to_nat a)) by lia. done.
Qed.

Lemma slice_snoc data a b x : 0 ≤ a ≤ b → byte_at data b = Some x → slice data a (b + 1) = slice data a b ++ [x].
Proof.
  intros Hab Hx. rewrite <-(slice_app data a b (b + 1)) by lia. f_equal.
  rewrite (slice_cons data b (b + 1) x) by (done || lia). by rewrite slice_nil.
Qed.

Lemma byte_at_in data i : 0 ≤ i < Z.of_nat (length data) → ∃ b, byte_at data i = Some b.
Proof.
  intros Hi. unfold byte_at. destruct (Z.ltb_spec i 0); [lia|]. apply lookup_lt_is_Some. lia.
Qed.

(** ** Equality of the low 16 bits

    The rolling sums are kept in uint32 and compared modulo 2^16; the
    equivalence is a congruence for the arithmetic the loop does, and the
    uint32 wrap-around is invisible to it. *)
Definition cong16 (a b : Z) : Prop := a mod 2^16 = b mod 2^16.
Infix "≡₁₆" := cong16 (at level 70) : go_scope.

#[global] Instance cong16_equiv : Equivalence cong16.
Proof. split; unfold cong16; [by intros ?|by intros ? ? ->|by intros ? ? ? -> ->]. Qed.
#[global] Instance cong16_add : Proper (cong16 ==> cong16 ==> cong16) Z.add.
Proof. intros a a' Ha b b' Hb. unfold cong16 in *. by rewrite Zplus_mod, Ha, Hb, <-Zplus_mod. Qed.
#[global] Instance cong16_sub : Proper (cong16 ==> cong16 ==> cong16) Z.sub.
Proof. intros a a' Ha b b' Hb. unfold cong16 in *. by rewrite Zminus_mod, Ha, Hb, <-Zminus_mod. Qed.
#[global] Instance cong16_mul : Proper (cong16 ==> cong16 ==> cong16) Z.mul.
Proof. intros a a' Ha b b' Hb. unfold cong16 in *. by rewrite Zmult_mod, Ha, Hb, <-Zmult_mod. Qed.
Lemma cong16_u32 x : u32 x ≡₁₆ x.
Proof. unfold cong16, u32. apply Z.mod_mod_divide. by exists (2^16). Qed.
Lemma cong16_mod x : x mod 2^16 ≡₁₆ x.
Proof. unfold cong16. by rewrite Z.mod_mod. Qed.

(** The loop's sums describe the window [[off, off+k)] of [data]. *)
Definition window (data : bytes) (blen off k s1 s2 : Z) : Prop :=
  k = Z.min blen (Z.of_nat (length data) - off) ∧
  s1 ≡₁₆ bsum (slice data off (off + k)) ∧ s2 ≡₁₆ wsum (slice data off (off + k)).

Lemma window_fresh data blen off : 1 ≤ blen → 0 ≤ off ≤ Z.of_nat (length data) →
  let k := Z.min blen (Z.of_nat (length data) - off) in
  let '(s1, s2) := rollingChecksum (slice data off (off + k)) in window data blen off k s1 s2.
Proof.
  intros Hb Ho. cbv zeta. rewrite rollingChecksum_closed. split_and!; [done|apply cong16_mod..].
Qed.

(** Rolling by one byte is recomputing the checksum one byte further on. *)
Lemma roll_window_ok data blen off k s1 s2 b0 :
  1 ≤ blen → 0 ≤ off < Z.of_nat (length data) → byte_at data off = Some b0 → window data blen off k s1 s2 →
  let '(k', s1', s2') := roll data off k s1 s2 b0 in window data blen (off + 1) k' s1' s2'.
Proof.
  intros Hb Ho Hb0 (Hk & H1 & H2). unfold roll. set (dlen := Z.of_nat (length data)) in *.
  rewrite (slice_cons data off (off + k) b0) in H1, H2 by (done || lia).
  set (mid := slice data (off + 1) (off + k)) in *.
  assert (Z.of_nat (length mid) = k - 1) as Hmid by (unfold mid; rewrite slice_length; lia).
  destruct (Z.ltb_spec (off + k) dlen) as [Hin|Hout].
  - destruct (byte_at_in data (off + k)) as [bk Hbk]; [lia|]. rewrite Hbk. cbn [default].
    assert (slice data (off + 1) (off + 1 + k) = mid ++ [bk]) as Es.
    { replace (off + 1 + k) with (off + k + 1) by lia. apply slice_snoc; [lia|done]. }
    destruct (roll_window b0 mid bk) as [R1 R2].
    assert (s1 - b0 + bk ≡₁₆ bsum (mid ++ [bk])) as H1' by by rewrite H1, R1.
    unfold window. rewrite Es. split_and!; [lia|by rewrite !cong16_u32|].
    rewrite R2, !cong16_u32, H2, H1'. cbn [length]. rewrite Nat2Z.inj_succ, Hmid.
    by replace (Z.succ (k - 1)) with k by lia.
  - unfold window. replace (off + 1 + (k - 1)) with (off + k) by lia. fold mid. split_and!; [lia| |].
    + rewrite cong16_u32, H1. unfold bsum. cbn [foldr]. by replace (b0 + foldr Z.add 0 mid - b0) with (foldr Z.add 0 mid) by lia.
    + rewrite !cong16_u32, H2. cbn [wsum length]. rewrite Nat2Z.inj_succ, Hmid.
      by replace (Z.succ (k - 1) * b0 + wsum mid - k * b0) with (wsum mid) by lia.
Qed.

(** ** The search *)
Definition tokens_bytes (ts : list DeltaToken) : bytes := concat (token_bytes <$> ts).

Lemma tokens_bytes_app a b : tokens_bytes (a ++ b) = tokens_bytes a ++ tokens_bytes b.
Proof. unfold tokens_bytes. by rewrite fmap_app, concat_app. Qed.

Section search.
Context {S : Type} (w : io_Writer S) `{!WriterSpec w} `{Digests}.
Context (checksum : bytes) (seed : Z) (seedFix : bool).
Context (data : bytes) (blen : Z) (sums : list blockSum) (table : gmap Z Z) (chain : list Z).
Context (Hblen : 1 ≤ blen) (Hcount : Z.of_nat (length sums) < 2^31).
Context (Htable : table_ok (Z.of_nat (length sums)) table chain).

Abbreviation dlen := (Z.of_nat (length data)).

(** What a token stands for: a literal for itself, a block reference for some
    bytes of the block's length with the block's strong checksum. *)
Definition seg_of (t : DeltaToken) (seg : bytes) : Prop :=
  match t.(Literal) with
  | Some d => seg = d
  | None => ∃ s, sums !! Z.to_nat t.(BlockIdx) = Some s ∧ Z.of_nat (length seg) = s.(blk_len) ∧
              Checksum2 seg checksum (length s.(sum2)) seed seedFix = s.(sum2)
  end.

(** The tokens stand for [data[a:b]]. *)
Definition covers (ts : list DeltaToken) (a b : Z) : Prop :=
  a ≤ b ∧ Forall token_ok ts ∧ ∃ segs, Forall2 seg_of ts segs ∧ concat segs = slice data a b.

Lemma covers_nil a : covers [] a a.
Proof. split; [lia|]. split; [done|]. exists []. by rewrite slice_nil. Qed.

Lemma covers_app t1 t2 a b c : 0 ≤ a → covers t1 a b → covers t2 b c → covers (t1 ++ t2) a c.
Proof.
  intros Ha (Hab & O1 & g1 & F1 & C1) (Hbc & O2 & g2 & F2 & C2). split; [lia|]. split; [by apply Forall_app|].
  exists (g1 ++ g2). split; [by apply Forall2_app|]. rewrite concat_app, C1, C2. apply slice_app; lia.
Qed.

Lemma sendLiteralFill_ok a b : 0 ≤ a ≤ b → b ≤ dlen →
  ∃ ts, emits w (sendLiteralFill w data a b) (tokens_bytes ts) ∧ covers ts a b.
Proof.
  intros Hab Hb. unfold sendLiteralFill. destruct (Z.leb_spec b a).
  - replace b with a by lia. exists []. split; [apply emits_ret|apply covers_nil].
  - destruct (Z.ltb_spec a 0); [lia|]. destruct (Z.ltb_spec dlen b); [lia|]. cbn [orb].
    exists [mk_DeltaToken (Some (slice data a b)) 0]. split.
    + unfold tokens_bytes. cbn [fmap list_fmap concat token_bytes Literal]. rewrite app_nil_r. apply WriteLiteral_ok.
    + split; [lia|]. split; [by apply Forall_singleton|]. exists [slice data a b].
      split; [by repeat constructor|]. simpl. by rewrite app_nil_r.
Qed.

(** A block found at [off] is as long as the window there and has its strong
    checksum. *)
Definition found (off m : Z) : Prop :=
  0 ≤ m < Z.of_nat (length sums) ∧ ∃ s, sums !! Z.to_nat m = Some s ∧
    s.(blk_len) = Z.min blen (dlen - off) ∧
    Checksum2 (slice data off (off + s.(blk_len))) checksum (length s.(sum2)) seed seedFix = s.(sum2).

Lemma find_match_ok fuel i off s1 s2 : i < Z.of_nat fuel → i < Z.of_nat (length sums) → off ≤ dlen →
  ∃ m, (∀ st : S, find_match checksum seed seedFix data blen sums chain fuel i off s1 s2 st = (Ret m, st)) ∧
    (m = -1 ∨ found off m).
Proof.
  intros Hf Hi Ho. revert i Hf Hi. induction fuel as [|fuel IH]; intros i Hf Hi; cbn [find_match].
  { destruct (Z.ltb_spec i 0); [|lia]. exists (-1). split; [done|by left]. }
  destruct (Z.ltb_spec i 0); [exists (-1); split; [done|by left]|].
  destruct Htable as (Hl & _ & Hc).
  destruct (lookup_lt_is_Some_2 sums (Z.to_nat i)) as [s Hs]; [lia|].
  destruct (lookup_lt_is_Some_2 chain (Z.to_nat i)) as [next Hn]; [lia|].
  pose proof (Hc _ _ Hn) as Hnext. rewrite Hs, Hn. cbv zeta.
  destruct (IH next) as (m & Em & Hm); [lia..|].
  destruct (Z.eqb_spec s.(sum1) (Z.lor s1 s2)); cbn [negb]; [|by exists m].
  destruct (Z.eqb_spec s.(blk_len) (Z.min blen (dlen - off))) as [E|]; cbn [negb]; [|by exists m].
  destruct (Z.ltb_spec (Z.min blen (dlen - off)) 0); [lia|].
  rewrite bytesEqual_spec.
  destruct (bool_decide_reflect (Checksum2 (slice data off (off + Z.min blen (dlen - off))) checksum (length (sum2 s)) seed seedFix = sum2 s));
    cbn [negb]; [|by exists m].
  exists i. split; [done|]. right. split; [lia|]. exists s. by rewrite E.
Qed.

Definition inv (x : search) : Prop :=
  0 ≤ x.(lastMatch) ≤ x.(offset) ∧ x.(offset) < dlen ∧ window data blen x.(offset) x.(win) x.(rs1) x.(rs2).

(** One round: the tokens it emits cover the data up to the new end of match,
    the offset grows, the window stays described by the rolling sums. *)
Definition round_ok (x x' : search) (ts : list DeltaToken) : Prop :=
  covers ts x.(lastMatch) x'.(lastMatch) ∧ 0 ≤ x'.(lastMatch) ≤ x'.(offset) ∧
  x.(offset) < x'.(offset) ≤ dlen ∧ window data blen x'.(offset) x'.(win) x'.(rs1) x'.(rs2).

Lemma on_match_ok m x : inv x → found x.(offset) m →
  ∃ ts x', yields w (on_match w data blen sums m x) (tokens_bytes ts) x' ∧ round_ok x x' ts.
Proof.
  intros (Hlm & Ho & Hw) (Hm & s & Hs & El & Ec). unfold on_match.
  destruct (sendLiteralFill_ok x.(lastMatch) x.(offset)) as (ts & Ets & Cts); [lia..|].
  rewrite Hs. cbv zeta. set (off := offset x + blk_len s - 1).
  assert (0 ≤ off < dlen ∧ offset x ≤ off) as [Hoff Hge] by lia.
  destruct (byte_at_in data off) as [b0 Hb0]; [lia|]. rewrite Hb0.
  rewrite Z.max_r by lia. set (k := Z.min blen (dlen - off)).
  pose proof (window_fresh data blen off Hblen ltac:(lia)) as Hfresh. cbv zeta in Hfresh. fold k in Hfresh.
  destruct (rollingChecksum (slice data off (off + k))) as [s1f s2f].
  pose proof (roll_window_ok data blen off k s1f s2f b0 Hblen Hoff Hb0 Hfresh) as Hroll.
  destruct (roll data off k s1f s2f b0) as [[k' s1'] s2'].
  assert (seg_of (mk_DeltaToken None m) (slice data (offset x) (offset x + blk_len s))) as Hseg.
  { exists s. split_and!; auto. rewrite slice_length; lia. }
  assert (token_ok (mk_DeltaToken None m)) as Htok by (unfold token_ok; simpl; lia).
  rewrite i32_id by (unfold is_i32; lia).
  exists (ts ++ [mk_DeltaToken None m]), (mk_search (off + 1) k' s1' s2' (offset x + blk_len s)). split.
  - rewrite tokens_bytes_app. eapply yields_bind; [exact Ets|]. eapply yields_bind_r; [|apply yields_ret].
    apply yields_wrap. unfold tokens_bytes. cbn [fmap list_fmap concat token_bytes Literal BlockIdx]. rewrite app_nil_r.
    apply WriteMatch_ok. lia.
  - unfold round_ok. cbn [lastMatch offset win rs1 rs2]. split_and!; try lia; try done; try apply Hroll.
    eapply (covers_app _ _ _ (offset x)); [lia|exact Cts|]. split; [lia|]. split; [by apply Forall_singleton|].
    eexists [_]. split; [constructor; [exact Hseg|constructor]|]. simpl. apply app_nil_r.
Qed.

Lemma on_miss_ok stop x : inv x → 
  ∃ ts x', yields w (on_miss w data blen stop x) (tokens_bytes ts) x' ∧ round_ok x x' ts.
Proof.
  intros (Hlm & Ho & Hw). unfold on_miss.
  destruct (byte_at_in data (offset x)) as [b0 Hb0]; [lia|]. rewrite Hb0.
  pose proof (roll_window_ok data blen (offset x) (win x) (rs1 x) (rs2 x) b0 Hblen ltac:(lia) Hb0 Hw) as Hroll.
  destruct (roll data _ _ _ _ b0) as [[k' s1'] s2']. unfold deltaChunkSize. case_if; b2p.
  - destruct (sendLiteralFill_ok x.(lastMatch) (x.(offset) - blen)) as (ts & Ets & Cts); [lia..|].
    eexists ts, _. split; [eapply yields_bind_r; [exact Ets|apply yields_ret]|].
    unfold round_ok. cbn [lastMatch offset win rs1 rs2]. split_and!; try lia; try done; apply Hroll.
  - eexists [], _. split; [apply yields_ret|].
    unfold round_ok. cbn [lastMatch offset win rs1 rs2]. split_and!; try lia; try apply Hroll. apply covers_nil.
Qed.

Lemma search_step_ok stop x : inv x →
  ∃ ts x', yields w (search_step w checksum seed seedFix data blen sums table chain stop x) (tokens_bytes ts) x' ∧
    round_ok x x' ts.
Proof.
  intros Hx. unfold search_step. cbv zeta. set (slot := Z.land _ _).
  pose proof (proj1 (proj2 Htable) slot) as Hslot.
  destruct (find_match_ok (Datatypes.S (length sums)) (table_at table slot) x.(offset) x.(rs1) x.(rs2)) as (m & Em & Hm);
    [lia|lia|destruct Hx; lia|].
  assert (∀ A (k : Z → M S A) bs v, yields w (k m) bs v →
    yields w (bind (find_match checksum seed seedFix data blen sums chain (Datatypes.S (length sums))
                      (table_at table slot) (offset x) (rs1 x) (rs2 x)) k) bs v) as Hpure.
  { intros A k bs v Hk s Hs. rewrite (bind_Ret _ _ _ _ _ (Em s)). by apply Hk. }
  destruct Hm as [->|Hm].
  - destruct (on_miss_ok stop x Hx) as (ts & x' & ? & ?). exists ts, x'. split; [by apply Hpure|done].
  - destruct (on_match_ok m x Hx Hm) as (ts & x' & Hy & ?). exists ts, x'. split; [|done].
    apply Hpure. destruct Hm as [Hm _]. destruct (Z.leb_spec 0 m); [done|lia].
Qed.

Lemma search_loop_ok fuel stop x : inv x → stop ≤ dlen → dlen - x.(offset) < Z.of_nat fuel →
  ∃ ts lm, yields w (search_loop w checksum seed seedFix data blen sums table chain fuel stop x) (tokens_bytes ts) lm ∧
    covers ts x.(lastMatch) lm ∧ 0 ≤ lm ≤ dlen.
Proof.
  intros Hx Hstop. revert x Hx. induction fuel as [|fuel IH]; intros x Hx Hf; [destruct Hx; lia|].
  cbn [search_loop]. destruct (search_step_ok stop x Hx) as (ts & x' & Hy & Hc & Hlm & Ho & Hw).
  destruct (Z.leb_spec stop (offset x')) as [Hend|Hgo].
  - exists ts, x'.(lastMatch). split; [|split; [done|lia]].
    eapply yields_bind_r; [exact Hy|]. destruct (Z.leb_spec stop (offset x')); [apply yields_ret|lia].
  - destruct (IH x') as (ts2 & lm & Hy2 & Hc2 & Hlm2); [split_and!; [lia|lia|lia|apply Hw..]|lia|].
    exists (ts ++ ts2), lm. rewrite tokens_bytes_app. split; [|split; [|done]].
    + eapply yields_bind; [exact Hy|]. destruct (Z.leb_spec stop (offset x')); [lia|exact Hy2].
    + eapply covers_app; [|done|done]. destruct Hx; lia.
Qed.
End search.

(** A sum struct as receiveSums delivers it for a non-negative remainder. *)
Definition sums_ok (sh : SumHead) (sums : list blockSum) : Prop :=
  0 < sh.(Count) → sh.(Count) = Z.of_nat (length sums) ∧ sh.(Count) < 2^31 ∧ 1 ≤ sh.(BLength) ∧
    ∃ s, last sums = Some s ∧ 1 ≤ s.(blk_len).

Section delta.
Context {S : Type} (w : io_Writer S) `{!WriterSpec w} `{Digests}.
Context (checksum : bytes) (seed : Z) (seedFix : bool).

Abbreviation cov := (covers checksum seed seedFix).

Lemma hashSearch_ok data blen sums s : data ≠ [] → 1 ≤ blen → Z.of_nat (length sums) < 2^31 →
  last sums = Some s → 1 ≤ s.(blk_len) →
  ∃ ts, emits w (hashSearch w checksum seed seedFix data blen sums) (tokens_bytes ts) ∧
    cov data sums ts 0 (Z.of_nat (length data)).
Proof.
  intros Hne Hb Hc Hlast Hlen. unfold hashSearch.
  pose proof (build_table_start sums) as Htab. destruct (build_table sums 0 ∅ []) as [table chain].
  set (dlen := Z.of_nat (length data)). assert (0 < dlen) by (unfold dlen; destruct data; [done|simpl; lia]).
  destruct (Z.ltb_spec (Z.min dlen blen) 0); [lia|].
  pose proof (window_fresh data blen 0 Hb ltac:(lia)) as Hw. cbv zeta in Hw.
  rewrite Z.sub_0_r, Z.add_0_l in Hw. fold dlen in Hw. rewrite (Z.min_comm dlen).
  destruct (rollingChecksum _) as [s1 s2]. rewrite Hlast. cbv zeta.
  set (x := mk_search 0 _ s1 s2 0).
  destruct (search_loop_ok w checksum seed seedFix data blen sums table chain Hb Hc Htab (length data + 2)
              (dlen + 1 - s.(blk_len)) x) as (ts & lm & Hy & Hcov & Hlm).
  { split_and!; simpl; try lia; apply Hw. }
  { fold dlen. lia. }
  { simpl. lia. }
  destruct (sendLiteralFill_ok w checksum seed seedFix data sums lm dlen) as (ts2 & He2 & Hc2); [lia|done|].
  exists (ts ++ ts2). rewrite tokens_bytes_app. split.
  - eapply yields_bind; [exact Hy|exact He2].
  - eapply covers_app; [lia|exact Hcov|exact Hc2].
Qed.

Lemma matchSums_ok ver data sh sums : sums_ok sh sums →
  ∃ ts, emits w (matchSums w checksum seed seedFix ver data sh sums)
          (tokens_bytes ts ++ PutUint32 0 ++ FileChecksum data checksum ver seed) ∧
    cov data sums ts 0 (Z.of_nat (length data)).
Proof.
  intros Hok.
  assert (∃ ts, emits w (if (0 <? Z.of_nat (length data)) && (0 <? sh.(Count))
                         then hashSearch w checksum seed seedFix data sh.(BLength) sums
                         else wrap "send literal data" (WriteLiteral w data)) (tokens_bytes ts) ∧
                cov data sums ts 0 (Z.of_nat (length data))) as (ts & He & Hc).
  { case_if; b2p.
    - destruct Hok as (Hn & Hlt & Hb & s & Hs & Hl); [done|].
      apply (hashSearch_ok data (BLength sh) sums s); auto; [|lia]. intros ->. simpl in *. lia.
    - exists [mk_DeltaToken (Some data) 0]. split.
      + apply (yields_wrap w "send literal data"). unfold tokens_bytes.
        cbn [fmap list_fmap concat token_bytes Literal]. rewrite app_nil_r. apply WriteLiteral_ok.
      + split; [lia|]. split; [by apply Forall_singleton|]. exists [data]. rewrite slice_all.
        split; [by repeat constructor|]. simpl. apply app_nil_r. }
  exists ts. split; [|done]. apply emits_seq; [exact He|]. apply emits_seq; [|apply emits_write].
  apply (yields_wrap w "send end token"). apply emits_write.
Qed.
End delta.

(** ** Rebuilding the file *)

(** What the receiver does with the tokens, given the blocks of its own copy. *)
Definition apply_token (blocks : list bytes) (t : DeltaToken) : bytes :=
  match t.(Literal) with
  | Some d => d
  | None => default [] (blocks !! Z.to_nat t.(BlockIdx))
  end.
Definition apply_delta (blocks : list bytes) (ts : list DeltaToken) : bytes := concat (apply_token blocks <$> ts).

(** The strong checksums identify the receiver's blocks among the pieces of
    the sender's file: a piece as long as the block and with its checksum is
    the block. *)
Definition identifies `{Digests} (checksum : bytes) (seed : Z) (seedFix : bool)
    (sums : list blockSum) (blocks : list bytes) (data : bytes) : Prop :=
  ∀ i s pre seg post, sums !! i = Some s → data = pre ++ seg ++ post →
    Z.of_nat (length seg) = s.(blk_len) → Checksum2 seg checksum (length s.(sum2)) seed seedFix = s.(sum2) →
    blocks !! i = Some seg.

Lemma apply_seen blocks ts : apply_delta blocks (ts ≫= token_seen) = apply_delta blocks ts.
Proof.
  unfold apply_delta. induction ts as [|t ts IH]; [done|].
  cbn [mbind list_bind fmap list_fmap concat]. cbn [mbind fmap] in IH. rewrite fmap_app, concat_app, IH. f_equal.
  unfold token_seen, apply_token. destruct (Literal t) as [d|] eqn:E.
  - rewrite <-list_fmap_compose. unfold compose. simpl. rewrite list_fmap_id. apply chunks_concat.
  - simpl. by rewrite app_nil_r.
Qed.

Lemma covers_apply `{Digests} checksum seed seedFix data sums blocks ts :
  covers checksum seed seedFix data sums ts 0 (Z.of_nat (length data)) →
  identifies checksum seed seedFix sums blocks data → apply_delta blocks ts = data.
Proof.
  intros (_ & _ & segs & HF & Hc) Hid. rewrite slice_all in Hc.
  assert (∀ pre, pre ++ concat segs = data → apply_delta blocks ts = concat segs) as Hgo.
  { clear Hc. induction HF as [|t seg ts segs Ht _ IH]; intros pre Hpre; [done|].
    unfold apply_delta in *. cbn [fmap list_fmap concat] in *. f_equal.
    - unfold seg_of in Ht. unfold apply_token. destruct (Literal t); [done|].
      destruct Ht as (s & Hs & Hl & Hcs). by rewrite (Hid _ s pre seg (concat segs) Hs).
    - apply (IH (pre ++ seg)). by rewrite <-app_assoc. }
  rewrite <-Hc. by apply (Hgo []).
Qed.

(** ** receiveSums *)
Section receive.
Context {T : Type} (r : io_Reader T) `{!ReaderSpec r}.

Lemma receive_blocks_inv n s2len blength s sums s' :
  receive_blocks r n s2len blength s = (Ret sums, s') →
  length sums = n ∧ Forall (λ b, b.(blk_len) = blength) sums.
Proof.
  revert s sums s'. induction n as [|n IH]; intros s sums s' E; cbn [receive_blocks] in E.
  { by injection E as <- _. }
  apply bind_inv_Ret in E as (s1 & st1 & _ & E). apply bind_inv_Ret in E as (s2 & st2 & _ & E).
  apply bind_inv_Ret in E as (rest & st3 & E3 & E). injection E as <- _.
  apply IH in E3 as [Hl HF]. split; [simpl; by rewrite Hl|by constructor].
Qed.

Lemma last_set_len rem sums s : last sums = Some s →
  last (set_last_len rem sums) = Some (mk_blockSum s.(sum1) s.(sum2) rem) ∧
  length (set_last_len rem sums) = length sums.
Proof.
  intros Hl. unfold set_last_len. split; [|apply length_alter].
  rewrite last_lookup in Hl |- *. rewrite length_alter, <-Nat.sub_1_r, list_lookup_alter_eq.
  rewrite <-Nat.sub_1_r in Hl. by rewrite Hl.
Qed.

Lemma ReadSumHead_inv ver s sh s' : readable r s → ReadSumHead r ver s = (Ret sh, s') → sumhead_ok ver sh.
Proof.
  intros Hr E. unfold ReadSumHead in E. apply bind_inv_Ret in E as (b & s1 & E1 & E). cbv zeta in E.
  destruct (sumhead_check ver (sumhead_fields ver b)) eqn:Ec; [done|]. injection E as <- _.
  apply sumhead_check_sound; [|done]. intros Hv. unfold sumhead_fields. by destruct (Z.leb_spec 27 ver); [lia|].
Qed.

(** Whatever the peer sent, what receiveSums returns is a sum struct of the
    announced size; it is usable unless the remainder is negative. *)
Lemma receiveSums_inv ver s sh sums s' : readable r s → receiveSums r ver s = (Ret (sh, sums), s') →
  sumhead_ok ver sh ∧ length sums = Z.to_nat sh.(Count) ∧
  (0 < sh.(Count) → ∃ b, last sums = Some b ∧
     b.(blk_len) = if sh.(Remainder) =? 0 then sh.(BLength) else sh.(Remainder)) ∧
  ∀ i b, sums !! i = Some b → (i < length sums - 1)%nat → b.(blk_len) = sh.(BLength).
Proof.
  intros Hr E. unfold receiveSums in E. apply bind_inv_Ret in E as (sh0 & s1 & E1 & E).
  assert (ReadSumHead r ver s = (Ret sh0, s1)) as Eh.
  { unfold wrap in E1. by destruct (ReadSumHead r ver s) as [[] ?]; simplify_eq. }
  pose proof (ReadSumHead_inv ver s sh0 s1 Hr Eh) as Hok.
  destruct (Z.leb_spec (Count sh0) 0) as [H0|H0].
  { injection E as <- <- _. split_and!; [done| |lia|done]. simpl. lia. }
  apply bind_inv_Ret in E as (bl & s2 & E2 & E). apply receive_blocks_inv in E2 as [Hl HF].
  injection E as <- <- _.
  assert (∃ b, last bl = Some b) as [b Hb].
  { destruct (last bl) eqn:El; [by eexists|]. apply last_None in El. subst bl. simpl in Hl. lia. }
  destruct (last_set_len (Remainder sh0) bl b Hb) as [Hs1 Hs2].
  assert (b.(blk_len) = sh0.(BLength)) as Hbl.
  { rewrite Forall_lookup in HF. rewrite last_lookup in Hb. by apply HF in Hb. }
  split_and!; [done| | |].
  - case_if; [by rewrite Hs2|done].
  - intros _. destruct (Z.eqb_spec (Remainder sh0) 0); cbn [negb]; [by exists b|].
    eexists. split; [exact Hs1|done].
  - intros i x Hx Hi. rewrite Forall_lookup in HF. destruct (Z.eqb_spec (Remainder sh0) 0); cbn [negb] in *; [by apply HF in Hx|].
    rewrite Hs2 in Hi. unfold set_last_len in Hx. rewrite list_lookup_alter_ne in Hx by lia. by apply HF in Hx.
Qed.

Lemma receiveSums_ok ver s sh sums s' : readable r s → receiveSums r ver s = (Ret (sh, sums), s') →
  0 ≤ sh.(Remainder) → sums_ok sh sums.
Proof.
  intros Hr E Hrem. destruct (receiveSums_inv ver s sh sums s' Hr E) as ((Hc & Hb & Hz & Hm & _) & Hl & Hlast & _).
  intros H0. specialize (Hz H0). destruct (Hlast H0) as (b & Hbl & Hlen). split_and!; [lia|nia|lia|].
  exists b. split; [done|]. rewrite Hlen. destruct (Z.eqb_spec (Remainder sh) 0); lia.
Qed.
End receive.

(** C13: The delta transfer is correct. For any file of the sender, any negotiated
    algorithm, seed and version, and any sum struct that receiveSums accepts and
    whose remainder is not negative, the sender terminates without a panic; it puts
    on the wire a delta stream followed by the whole-file checksum; and the stream
    parses, over any transport, to tokens that rebuild the file exactly from the
    receiver's blocks, provided that the checksums of the sum struct identify the
    blocks among the pieces of the file, that is, that no piece of the file has the
    length and the strong checksum of a block it differs from. *)
Theorem delta_transfer_correct {S T} (w : io_Writer S) `{!WriterSpec w} (r : io_Reader T) `{!ReaderSpec r} `{Digests}
    checksum seed seedFix ver data t sh sums t' :
  readable r t → receiveSums r ver t = (Ret (sh, sums), t') → 0 ≤ sh.(Remainder) →
  ∃ stream ts,
    emits w (matchSums w checksum seed seedFix ver data sh sums) (stream ++ FileChecksum data checksum ver seed) ∧
    (∀ fuel, (length ts < fuel)%nat → parses r (ParseDeltaStream fuel r) stream ts) ∧
    ∀ blocks, identifies checksum seed seedFix sums blocks data → apply_delta blocks ts = data.
Proof.
  intros Hr E Hrem. pose proof (receiveSums_ok r ver t sh sums t' Hr E Hrem) as Hok.
  destruct (matchSums_ok w checksum seed seedFix ver data sh sums Hok) as (ts & He & Hc).
  destruct (tokens_cmds_ok ts) as (H1 & H2 & H3); [apply Hc|].
  exists (tokens_bytes ts ++ PutUint32 0), (ts ≫= token_seen). split_and!.
  - by rewrite <-app_assoc.
  - intros fuel Hf. unfold tokens_bytes. rewrite <-H2, <-H3. apply ParseDeltaStream_ok; [done|]. by rewrite H3.
  - intros blocks Hid. rewrite apply_seen. by eapply covers_apply.
Qed.

(** A stand-in digest to evaluate the model with: the data itself, cut or
    padded to 16 bytes. *)
Definition pad_digest (d : bytes) : bytes := take 16 (d ++ replicate 16 0).
#[refine] Definition pad_digests : Digests := {| md4_sum := pad_digest; md5_sum := pad_digest |}.
Proof. all: intros d; unfold pad_digest; rewrite length_take, length_app, length_replicate; lia. Defined.

Definition example_sums : bytes :=
  sumhead_bytes (mk_SumHead 2 4 16 3) 31 ++
  PutUint32 (Checksum1 (str "abcd")) ++ pad_digest (str "abcd") ++ PutUint32 (Checksum1 (str "xyz")) ++ pad_digest (str "xyz").

(** [identifies], decided piece by piece. *)
Definition identified `{Digests} (checksum : bytes) (seed : Z) (seedFix : bool) (sums : list blockSum) (blocks : list bytes) (data : bytes) : bool :=
  forallb (λ p : nat * blockSum, forallb (λ k,
      let seg := take (Z.to_nat p.2.(blk_len)) (drop k data) in
      negb (bool_decide (Checksum2 seg checksum (length p.2.(sum2)) seed seedFix = p.2.(sum2))) || bool_decide (blocks !! p.1 = Some seg))
    (seq 0 (Datatypes.S (length data)))) (imap pair sums).

Lemma identified_spec `{Digests} checksum seed seedFix sums blocks data :
  identified checksum seed seedFix sums blocks data = true → identifies checksum seed seedFix sums blocks data.
Proof.
  intros Hall i s pre seg post Hi -> Hlen Hc. unfold identified in Hall. rewrite forallb_forall in Hall.
  specialize (Hall (i, s)). cbn [fst snd] in Hall. rewrite forallb_forall in Hall.
  assert (take (Z.to_nat (blk_len s)) (drop (length pre) (pre ++ seg ++ post)) = seg) as Eseg.
  { rewrite drop_app_length, <-Hlen, Nat2Z.id. apply take_app_length. }
  specialize (Hall ltac:(apply list_elem_of_In, elem_of_lookup_imap; by exists i, s) (length pre)). cbv zeta in Hall. rewrite Eseg in Hall.
  rewrite bool_decide_true in Hall by done. cbn [negb orb] in Hall. apply (bool_decide_eq_true _), Hall.
  apply in_seq. rewrite length_app. lia.
Qed.

(** The receiver's copy is the two blocks; the file is their concatenation. *)
Lemma delta_transfer_correct_witness :
  ∃ sh sums t', receiveSums conn_reader 31 (conn_dribble example_sums) = (Ret (sh, sums), t') ∧ 0 ≤ sh.(Remainder) ∧
  identifies (H := pad_digests) (str "md5") 0 true sums [str "abcd"; str "xyz"] (str "abcdxyz") ∧
  ∃ stream ts,
    emits conn_writer (matchSums conn_writer (H := pad_digests) (str "md5") 0 true 31 (str "abcdxyz") sh sums)
      (stream ++ FileChecksum (H := pad_digests) (str "abcdxyz") (str "md5") 31 0) ∧
    (∀ fuel, (length ts < fuel)%nat → parses conn_reader (ParseDeltaStream fuel conn_reader) stream ts) ∧
    apply_delta [str "abcd"; str "xyz"] ts = str "abcdxyz".
Proof.
  destruct (receiveSums conn_reader 31 (conn_dribble example_sums)) as [[[sh sums]|e| |] t'] eqn:E; [|vm_compute in E; discriminate E..].
  exists sh, sums, t'. split; [done|]. assert (0 ≤ sh.(Remainder)) as Hrem by (vm_compute in E; by injection E as <- _ _).
  assert (identifies (H := pad_digests) (str "md5") 0 true sums [str "abcd"; str "xyz"] (str "abcdxyz")) as Hid.
  { apply identified_spec. vm_compute in E. injection E as _ <- _. by vm_compute. }
  split; [done|]. split; [done|].
  assert (readable conn_reader (conn_dribble example_sums)) as Hr by done.
  destruct (delta_transfer_correct conn_writer conn_reader (H := pad_digests) (str "md5") 0 true 31 (str "abcdxyz")
              (conn_dribble example_sums) sh sums t' Hr E Hrem) as (stream & ts & H1 & H2 & H3).
  exists stream, ts. split; [done|]. split; [done|]. by apply H3.
Defined.

(** ** Unintended behaviour *)
Section negative.
Context {S : Type} (w : io_Writer S) `{!WriterSpec w} `{Digests}.
Context (checksum : bytes) (seed : Z) (seedFix : bool).
Context (data : bytes) (blen : Z) (sums : list blockSum) (table : gmap Z Z) (chain : list Z).
Context (Hblen : 1 ≤ blen) (Hcount : Z.of_nat (length sums) < 2^31).
Context (Htable : table_ok (Z.of_nat (length sums)) table chain).
Context (Hnz : ∀ i s, sums !! i = Some s → s.(blk_len) ≠ 0).

(** With an end behind the data the search runs off the file. *)
Lemma search_loop_overrun fuel stop x s : writable w s →
  0 ≤ x.(lastMatch) ≤ x.(offset) → x.(offset) ≤ Z.of_nat (length data) →
  window data blen x.(offset) x.(win) x.(rs1) x.(rs2) → Z.of_nat (length data) < stop →
  Z.of_nat (length data) - x.(offset) + 1 < Z.of_nat fuel →
  (search_loop w checksum seed seedFix data blen sums table chain fuel stop x s).1 = Panic.
Proof.
  revert x s. induction fuel as [|fuel IH]; intros x s Hs Hlm Ho Hw Hstop Hf; [lia|]. cbn [search_loop].
  destruct (decide (offset x < Z.of_nat (length data))) as [Hin|Hout].
  - destruct (search_step_ok w checksum seed seedFix data blen sums table chain Hblen Hcount Htable stop x)
      as (ts & x' & Hy & _ & Hlm' & Ho' & Hw'); [by split; [|split]|].
    destruct (Hy s Hs) as (s' & E & Hs' & _). rewrite (bind_Ret _ _ _ _ _ E).
    destruct (Z.leb_spec stop (offset x')); [lia|]. apply IH; auto; lia.
  - assert (offset x = Z.of_nat (length data)) as Eo by lia.
    assert (search_step w checksum seed seedFix data blen sums table chain stop x s = (Panic, s)) as E.
    { unfold search_step. cbv zeta. set (slot := Z.land _ _). pose proof (proj1 (proj2 Htable) slot).
      destruct (find_match_ok (S := S) checksum seed seedFix data blen sums table chain Hblen Htable (Datatypes.S (length sums))
                  (table_at table slot) x.(offset) x.(rs1) x.(rs2)) as (m & Em & Hm); [lia..|].
      rewrite (bind_Ret _ _ _ _ _ (Em s)). destruct Hm as [->|(Hm & b & Hb & El & _)].
      - simpl. unfold on_miss, byte_at. destruct (Z.ltb_spec (offset x) 0); [done|].
        rewrite lookup_ge_None_2 by lia. done.
      - apply Hnz in Hb. lia. }
    by rewrite (bind_Panic _ _ _ _ E).
Qed.
End negative.

(** C32: A negative remainder in the client's sum struct crashes the server. The
    sum head passes ReadSumHead, which does not check the field, and for every
    non-empty file the block search then indexes past the end of the data. *)
Theorem negative_remainder_panics {S T} (w : io_Writer S) `{!WriterSpec w} (r : io_Reader T) `{!ReaderSpec r} `{Digests}
    checksum seed seedFix ver data t sh sums t' s :
  readable r t → receiveSums r ver t = (Ret (sh, sums), t') → 0 < sh.(Count) → sh.(Remainder) < 0 →
  data ≠ [] → writable w s →
  (matchSums w checksum seed seedFix ver data sh sums s).1 = Panic.
Proof.
  intros Hr E Hc Hrem Hne Hs.
  destruct (receiveSums_inv r ver t sh sums t' Hr E) as ((_ & Hb & Hz & Hm & _) & Hl & Hlast & Hother).
  specialize (Hz Hc). destruct (Hlast Hc) as (b & Hbl & Hlen).
  destruct (Z.eqb_spec (Remainder sh) 0); [lia|].
  assert (0 < Z.of_nat (length data)) by (destruct data; [done|simpl; lia]).
  unfold matchSums. destruct (Z.ltb_spec 0 (Z.of_nat (length data))); [|lia]. destruct (Z.ltb_spec 0 (Count sh)); [|lia].
  cbn [andb]. unfold hashSearch. pose proof (build_table_start sums) as Htab.
  destruct (build_table sums 0 ∅ []) as [table chain].
  destruct (Z.ltb_spec (Z.min (Z.of_nat (length data)) (BLength sh)) 0); [lia|].
  pose proof (window_fresh data (BLength sh) 0 ltac:(lia) ltac:(lia)) as Hw. cbv zeta in Hw.
  rewrite Z.sub_0_r, Z.add_0_l in Hw. rewrite (Z.min_comm (Z.of_nat (length data))).
  destruct (rollingChecksum _) as [s1 s2]. rewrite Hbl, Hlen. cbv zeta. set (x := mk_search 0 _ s1 s2 0).
  match goal with |- context [search_loop ?a ?b ?c ?d ?e ?f ?g ?h ?i ?j ?k ?l] =>
    assert ((search_loop a b c d e f g h i j k l s).1 = Panic) as Hp end.
  { apply (search_loop_overrun w); auto; simpl; try lia.
    intros i y Hy. destruct (decide (i < length sums - 1)%nat); [rewrite (Hother _ _ Hy) by done; lia|].
    pose proof (lookup_lt_Some _ _ _ Hy). rewrite last_lookup in Hbl.
    replace (pred (length sums)) with i in Hbl by lia. simplify_eq. lia. }
  destruct (search_loop _ _ _ _ _ _ _ _ _ _ _ _ s) as [o s'] eqn:El. simpl in Hp. subst o.
  erewrite bind_Panic; [done|]. by rewrite (bind_Panic _ _ _ _ El).
Qed.

Lemma negative_remainder_panics_witness :
  ∃ sh sums t',
    receiveSums conn_reader 31 (conn_of (sumhead_bytes (mk_SumHead 1 700 2 (-1)) 31 ++ [0; 0; 0; 0; 0; 0])) =
      (Ret (sh, sums), t') ∧
    (matchSums conn_writer (H := pad_digests) (str "md5") 0 true 31 (str "hello") sh sums (conn_of [])).1 = Panic.
Proof.
  do 3 eexists. split; [vm_compute; reflexivity|].
  eapply (negative_remainder_panics conn_writer conn_reader (H := pad_digests) (str "md5") 0 true 31 (str "hello")
            (conn_of (sumhead_bytes (mk_SumHead 1 700 2 (-1)) 31 ++ [0; 0; 0; 0; 0; 0])));
    [done|vm_compute; reflexivity|simpl; lia|simpl; lia|done|done].
Defined.

(** C33: The search compares the packed block checksum with the bitwise or of the
    two unpacked halves. A client that already has a one-block file and sends
    its honest checksums therefore gets no match: unless the weighted half of
    the checksum is zero modulo 2^16, the whole file is sent as literal data. *)
Theorem honest_block_not_matched {S} (w : io_Writer S) `{!WriterSpec w} `{Digests} checksum seed seedFix data :
  data ≠ [] → wsum data mod 2^16 ≠ 0 →
  let blen := Z.of_nat (length data) in
  let sums := [mk_blockSum (Checksum1 data) (Checksum2 data checksum 16 seed seedFix) blen] in
  emits w (hashSearch w checksum seed seedFix data blen sums) (concat (chunk_bytes <$> chunks data)).
Proof.
  intros Hne Hw2 blen sums. assert (1 ≤ blen) by (unfold blen; destruct data; [done|simpl; lia]).
  unfold hashSearch. pose proof (build_table_start sums) as Htab. destruct (build_table sums 0 ∅ []) as [table chain].
  fold blen. rewrite Z.min_id. destruct (Z.ltb_spec blen 0); [lia|].
  unfold blen at 1. rewrite slice_all, rollingChecksum_closed. cbn [sums last].
  set (s1 := bsum data mod 2^16). set (s2 := wsum data mod 2^16) in *. cbn [blk_len].
  assert (Checksum1 data ≠ Z.lor s1 s2) as Hdiff.
  { pose proof (Z.mod_pos_bound (bsum data) (2^16) ltac:(lia)) as B1.
    pose proof (Z.mod_pos_bound (wsum data) (2^16) ltac:(lia)) as B2.
    pose proof (lor_bound s1 s2 16 ltac:(lia) B1 B2). rewrite Checksum1_closed. fold s1 s2. lia. }
  replace (blen + 1 - blen) with 1 by lia. rewrite Nat.add_comm. cbn [search_loop Nat.add].
  eapply yields_bind_0; [|].
  - eapply (yields_bind_0 w _ _ _ (mk_search 1 (blen - 1) (u32 (s1 - hd 0 data))
              (u32 (s2 - u32 (u32 blen * hd 0 data))) 0)); [|apply yields_ret].
    intros st Hst. exists st. split; [|by apply sent_refl]. unfold search_step. cbv zeta. set (slot := Z.land _ _).
    pose proof (proj1 (proj2 Htab) slot) as Hslot. cbn [length sums] in Hslot.
    assert (find_match checksum seed seedFix data blen sums chain (Datatypes.S (length sums)) (table_at table slot)
              0 s1 s2 st = (Ret (-1), st)) as Em.
    { cbn [find_match length sums]. destruct (Z.ltb_spec (table_at table slot) 0); [done|].
      replace (table_at table slot) with 0 by lia. destruct Htab as (Hl & _ & Hc).
      destruct chain as [|j ch]; [done|]. specialize (Hc 0%nat j eq_refl).
      change (sums !! Z.to_nat 0) with (Some (mk_blockSum (Checksum1 data) (Checksum2 data checksum 16 seed seedFix) blen)).
      change ((j :: ch) !! Z.to_nat 0) with (Some j). cbn [sum1].
      destruct (Z.eqb_spec (Checksum1 data) (Z.lor s1 s2)); [done|]. cbn [negb].
      destruct (Z.ltb_spec j 0); [done|lia]. }
    cbn [offset rs1 rs2]. rewrite (bind_Ret _ _ _ _ _ Em). change (0 <=? -1) with false. cbn iota.
    assert (byte_at data 0 = Some (hd 0 data)) as Hb0 by (by destruct data).
    unfold on_miss. cbn [offset win rs1 rs2 lastMatch]. rewrite Hb0. unfold roll. fold blen.
    rewrite Z.add_0_l, Z.ltb_irrefl. case_if; [|done]. b2p. unfold deltaChunkSize in *. lia.
  - unfold sendLiteralFill. cbn [lastMatch]. fold blen. destruct (Z.leb_spec blen 0); [lia|].
    rewrite !Z.ltb_irrefl. cbn [orb]. unfold blen. rewrite slice_all. apply WriteLiteral_ok.
Qed.

Lemma honest_block_not_matched_witness :
  emits conn_writer
    (hashSearch conn_writer (H := pad_digests) (str "md5") 0 true (str "hello") 5
       [mk_blockSum (Checksum1 (str "hello")) (Checksum2 (H := pad_digests) (str "hello") (str "md5") 16 0 true) 5])
    (concat (chunk_bytes <$> chunks (str "hello"))).
Proof.
  apply (honest_block_not_matched conn_writer (H := pad_digests) (str "md5") 0 true (str "hello")); done.
Defined.
