(* ===== verification/Sort.v ===== *)
(** * The file list order (server-send.go, client-open.go)

    flistNameCmp, the stable sorts of the two ends, and the numbering both
    derive from them: the server's index of an entry is its position in the
    sorted list, and the client recomputes it by sorting what it received.

    [TotalCmp] is the interface of a three-way comparison that is a total
    order; the lexicographic combinator [lex] preserves it, which gives the
    order of names below protocol 29 (plain bytes) and of the per-component
    keys from 29 on. *)
From Stdlib Require Import Sorted.
From S2P Require Import Prelude.
From S2P Require Import GoIO.
From S2P Require Import WireInt.
From S2P Require Import Flist.
#[local] Open Scope Z_scope.

(** ** Definitions *)

(** [strings.Split(s, "/")] *)
Definition slash : byte := 47.
Fixpoint Split (s : bytes) : list bytes :=
  match s with
  | [] => [[]]
  | c :: s' =>
      if c =? slash then [] :: Split s'
      else match Split s' with
           | [] => [[c]]
           | w :: ws => (c :: w) :: ws
           end
  end.

(** Lexicographic comparison, with Go's results -1, 0 and 1. *)
Fixpoint lex {A} (c : A → A → Z) (l1 l2 : list A) : Z :=
  match l1, l2 with
  | [], [] => 0
  | [], _ :: _ => -1
  | _ :: _, [] => 1
  | x :: l1', y :: l2' => let r := c x y in if r =? 0 then lex c l1' l2' else r
  end.
Definition byte_cmp (x y : byte) : Z := if x <? y then -1 else if y <? x then 1 else 0.
(** [strings.Compare] *)
Definition Compare (a b : bytes) : Z := lex byte_cmp a b.

Abbreviation nonempty l := (match l with [] => false | _ => true end).

(** The component loop of flistNameCmp. *)
Fixpoint cmp_comps (compsA : list bytes) (dirA : bool) (compsB : list bytes) (dirB : bool) (v : Z) : Z :=
  match compsA, compsB with
  | [], [] => 0
  | [], _ :: _ => -1
  | _ :: _, [] => 1
  | a :: restA, b :: restB =>
    if v <? 29 then
      let a := if nonempty restA then a ++ [slash] else a in
      let b := if nonempty restB then b ++ [slash] else b in
      let c := Compare a b in
      if negb (c =? 0) then c else cmp_comps restA dirA restB dirB v
    else
    let aDir := nonempty restA || dirA in
    let bDir := nonempty restB || dirB in
    if bool_decide (a = str ".") && aDir then -1 else
    if bool_decide (b = str ".") && bDir then 1 else
    if negb (Bool.eqb aDir bDir) then (if aDir : bool then 1 else -1) else
    if aDir then
      let c := Compare (a ++ [slash]) (b ++ [slash]) in
      if negb (c =? 0) then c else cmp_comps restA dirA restB dirB v
    else Compare a b
  end.

Definition flistNameCmp (nameA : bytes) (dirA : bool) (nameB : bytes) (dirB : bool) (v : Z) : Z :=
  cmp_comps (Split nameA) dirA (Split nameB) dirB v.

(** A stable sort by [less]: an element goes before the later ones it is not
    greater than. *)
Section sort.
Context {A : Type} (less : A → A → bool).

Fixpoint insert_stable (x : A) (l : list A) : list A :=
  match l with
  | [] => [x]
  | y :: l' => if less y x then y :: insert_stable x l' else x :: l
  end.
Definition sort_stable (l : list A) : list A := foldr insert_stable [] l.
End sort.

(** The server's entries: anything with a name and a directory flag. *)
Section server.
Context {E : Type} (name : E → bytes) (dir : E → bool).
Definition sortFlist (entries : list E) (v : Z) : list E :=
  sort_stable (λ a b, flistNameCmp (name a) (dir a) (name b) (dir b) v <? 0) entries.
End server.

Fixpoint index_names (order : list FlistEntry) (i : Z) (m : gmap bytes Z) : gmap bytes Z :=
  match order with
  | [] => m
  | e :: order' => index_names order' (i + 1) (<[Name e := i32 i]> m)
  end.
Definition sortFlistEntries (entries : list FlistEntry) (v : Z) : gmap bytes Z :=
  index_names (sortFlist Name (λ e, isDir (Mode e)) entries v) 0 ∅.

(** [findFlistEntry]: the index of the first entry with the name, or -1. *)
Fixpoint find_from (entries : list FlistEntry) (name : bytes) (i : Z) : Z :=
  match entries with
  | [] => -1
  | e :: entries' => if bool_decide (Name e = name) then i else find_from entries' name (i + 1)
  end.
Definition findFlistEntry (entries : list FlistEntry) (name : bytes) : Z := find_from entries name 0.

(** ** Three-way comparisons *)
Class TotalCmp {A} (c : A → A → Z) := {
  cmp_zero a b : c a b = 0 ↔ a = b;
  cmp_anti a b : c b a = - c a b;
  cmp_trans a b d : c a b < 0 → c b d < 0 → c a d < 0;
}.

#[global] Instance byte_cmp_total : TotalCmp byte_cmp.
Proof.
  unfold byte_cmp. split; intros *; repeat match goal with |- context [?a <? ?b] => destruct (Z.ltb_spec a b) end; lia.
Qed.

#[global] Instance lex_total {A} (c : A → A → Z) `{!TotalCmp c} : TotalCmp (lex c).
Proof.
  split.
  - intros l1. induction l1 as [|x l1 IH]; intros [|y l2]; simpl; try done.
    destruct (Z.eqb_spec (c x y) 0) as [E|E].
    + apply cmp_zero in E as ->. rewrite IH. split; [by intros ->|by intros [= ->]].
    + split; [done|]. intros [= -> ->]. by destruct E; apply cmp_zero.
  - intros l1. induction l1 as [|x l1 IH]; intros [|y l2]; simpl; try done.
    rewrite (cmp_anti x y). destruct (Z.eqb_spec (c x y) 0) as [E|E].
    + rewrite E. simpl. apply IH.
    + destruct (Z.eqb_spec (- c x y) 0); [lia|done].
  - intros l1. induction l1 as [|x l1 IH]; intros [|y l2] [|z l3]; simpl; try done.
    destruct (Z.eqb_spec (c x y) 0) as [E|E]; destruct (Z.eqb_spec (c y z) 0) as [E'|E'].
    + apply cmp_zero in E as ->. apply cmp_zero in E' as ->.
      rewrite (proj2 (cmp_zero (c := c) z z) eq_refl). simpl. apply IH.
    + apply cmp_zero in E as ->. destruct (Z.eqb_spec (c y z) 0); [done|]. done.
    + apply cmp_zero in E' as ->. destruct (Z.eqb_spec (c x z) 0); [done|]. done.
    + intros H1 H2. pose proof (cmp_trans _ _ _ H1 H2). destruct (Z.eqb_spec (c x z) 0); lia.
Qed.

Lemma lex_app_same {A} (c : A → A → Z) `{!TotalCmp c} p l1 l2 : lex c (p ++ l1) (p ++ l2) = lex c l1 l2.
Proof.
  induction p as [|x p IH]; [done|]. simpl. rewrite (proj2 (cmp_zero (c := c) x x) eq_refl). done.
Qed.

#[global] Instance Compare_total : TotalCmp Compare.
Proof. apply lex_total, _. Qed.

(** ** Splitting and joining *)
Fixpoint join (comps : list bytes) : bytes :=
  match comps with
  | [] => []
  | w :: ws => if nonempty ws then w ++ slash :: join ws else w
  end.

Abbreviation no_slash w := (slash ∉ w).

Lemma Split_spec s : Split s ≠ [] ∧ join (Split s) = s ∧ Forall (λ w, no_slash w) (Split s).
Proof.
  induction s as [|c s (Hne & Hj & Hn)]; cbn [Split].
  { split_and!; [done|done|]. apply Forall_singleton, not_elem_of_nil. }
  destruct (Z.eqb_spec c slash) as [->|Hc].
  - split_and!; [done| |constructor; [apply not_elem_of_nil|done]].
    destruct (Split s) as [|w ws] eqn:E; [done|]. cbn [join app]. by rewrite <-Hj.
  - destruct (Split s) as [|w ws] eqn:E; [done|]. apply Forall_cons in Hn as [Hw Hws].
    split_and!; [done| |constructor; [by apply not_elem_of_cons|done]].
    rewrite <-Hj. cbn [join]. by destruct ws.
Qed.

Lemma Split_inj a b : Split a = Split b → a = b.
Proof.
  intros E. destruct (Split_spec a) as (_ & <- & _). destruct (Split_spec b) as (_ & <- & _). by rewrite E.
Qed.

(** ** Below protocol 29: plain byte order *)

(** A comparison decided before either list ends does not depend on what
    follows. *)
Lemma lex_app_decided {A} (c : A → A → Z) `{!TotalCmp c} l1 l2 x y : lex c l1 l2 ≠ 0 →
  lex c (l1 ++ x) (l2 ++ y) = lex c l1 l2 ∨ (∃ z, z ≠ [] ∧ l2 = l1 ++ z) ∨ (∃ z, z ≠ [] ∧ l1 = l2 ++ z).
Proof.
  revert l2. induction l1 as [|a l1 IH]; intros [|b l2] Hne; simpl in *; try done.
  - right; left. by exists (b :: l2).
  - right; right. by exists (a :: l1).
  - destruct (Z.eqb_spec (c a b) 0) as [E|E]; [|by left]. apply cmp_zero in E as ->.
    destruct (IH l2 Hne) as [?|[(z & ? & ->)|(z & ? & ->)]]; [by left|right; left; by exists z|right; right; by exists z].
Qed.

(** A component with its implied slash is no proper prefix of another. *)
Lemma slash_prefix (a b z : bytes) (more : bool) : no_slash b →
  (if more then b ++ [slash] else b) = (a ++ [slash]) ++ z → z = [].
Proof.
  intros Hb E. destruct more.
  - destruct z as [|x z] using rev_ind; [done|]. rewrite app_assoc in E. apply app_inj_tail in E as [E _].
    destruct Hb. rewrite E. set_solver.
  - destruct Hb. rewrite E. set_solver.
Qed.

Definition tail_of (ws : list bytes) : bytes := if nonempty ws then join ws else [].
Definition slashed (w : bytes) (ws : list bytes) : bytes := if nonempty ws then w ++ [slash] else w.

Lemma join_cons w ws : join (w :: ws) = slashed w ws ++ tail_of ws.
Proof. unfold slashed, tail_of. cbn [join]. destruct ws; [by rewrite app_nil_r|]. by rewrite <-app_assoc. Qed.

Lemma slashed_decided a ra b rb : no_slash a → no_slash b → Compare (slashed a ra) (slashed b rb) ≠ 0 →
  Compare (join (a :: ra)) (join (b :: rb)) = Compare (slashed a ra) (slashed b rb).
Proof.
  intros Ha Hb Hne. rewrite !join_cons. unfold Compare in *.
  destruct (lex_app_decided byte_cmp _ _ (tail_of ra) (tail_of rb) Hne) as [->|[(z & Hz & E)|(z & Hz & E)]]; [done| |].
  - destruct ra as [|r ra].
    + change (slashed a []) with a in *. change (tail_of []) with (@nil Z). rewrite app_nil_r, E, <-app_assoc.
      pose proof (lex_app_same byte_cmp a [] (z ++ tail_of rb)) as E1. rewrite app_nil_r in E1. rewrite E1.
      pose proof (lex_app_same byte_cmp a [] z) as E2. rewrite app_nil_r in E2. rewrite E2. by destruct z.
    + destruct Hz. apply (slash_prefix a b z (nonempty rb)); [done|]. exact E.
  - destruct rb as [|r rb].
    + change (slashed b []) with b in *. change (tail_of []) with (@nil Z). rewrite app_nil_r, E, <-app_assoc.
      pose proof (lex_app_same byte_cmp b (z ++ tail_of ra) []) as E1. rewrite app_nil_r in E1. rewrite E1.
      pose proof (lex_app_same byte_cmp b z []) as E2. rewrite app_nil_r in E2. rewrite E2. by destruct z.
    + destruct Hz. apply (slash_prefix b a z (nonempty ra)); [done|]. exact E.
Qed.

Lemma slashed_equal a ra b rb : no_slash a → no_slash b → slashed a ra = slashed b rb →
  a = b ∧ (ra = [] ↔ rb = []).
Proof.
  intros Ha Hb E. unfold slashed in E. destruct ra as [|x ra], rb as [|y rb].
  - done.
  - destruct Ha. rewrite E. set_solver.
  - destruct Hb. rewrite <-E. set_solver.
  - apply app_inj_tail in E as [-> _]. done.
Qed.

Lemma cmp_comps_old ca cb dirA dirB v : v < 29 → ca ≠ [] → cb ≠ [] →
  Forall (λ w, no_slash w) ca → Forall (λ w, no_slash w) cb →
  cmp_comps ca dirA cb dirB v = Compare (join ca) (join cb).
Proof.
  intros Hv. revert cb. induction ca as [|a ra IH]; intros [|b rb] Ha Hb Na Nb; [done..|].
  apply Forall_cons in Na as [Na Nra]. apply Forall_cons in Nb as [Nb Nrb].
  cbn [cmp_comps]. destruct (Z.ltb_spec v 29); [|lia]. cbv zeta.
  change (if nonempty ra then a ++ [slash] else a) with (slashed a ra).
  change (if nonempty rb then b ++ [slash] else b) with (slashed b rb).
  destruct (Z.eqb_spec (Compare (slashed a ra) (slashed b rb)) 0) as [E|E]; cbn [negb].
  2:{ by rewrite slashed_decided. }
  apply (cmp_zero (c := Compare)) in E. destruct (slashed_equal a ra b rb Na Nb E) as [-> Hnil].
  rewrite !join_cons, E. unfold Compare. rewrite (lex_app_same byte_cmp).
  destruct ra as [|x ra], rb as [|y rb]; [done|naive_solver..|]. by apply IH.
Qed.

(** ** From protocol 29 on: component keys *)

(** The key of a component: the top directory first, then non-directories,
    then directories with their implied slash. *)
Definition comp_key (a : bytes) (d : bool) : bytes :=
  if bool_decide (a = str ".") && d then [0] else if d then 2 :: a ++ [slash] else 1 :: a.
Fixpoint keys (comps : list bytes) (dir : bool) : list bytes :=
  match comps with
  | [] => []
  | a :: rest => comp_key a (nonempty rest || dir) :: keys rest dir
  end.

(** A path of io/fs: "." is the whole path or no component of it. *)
Definition path_ok (name : bytes) : Prop := name = str "." ∨ str "." ∉ Split name.

Lemma Compare_key a b d : ¬ (d = true ∧ (a = str "." ∨ b = str ".")) →
  Compare (comp_key a d) (comp_key b d) = if d then Compare (a ++ [slash]) (b ++ [slash]) else Compare a b.
Proof.
  intros Hd. unfold comp_key. destruct d.
  - rewrite !bool_decide_false by naive_solver. cbn [andb]. done.
  - rewrite !andb_false_r. done.
Qed.

Lemma cmp_comps_keys ca cb dirA dirB v : 29 ≤ v →
  str "." ∉ ca ∨ ca = [str "."] → str "." ∉ cb ∨ cb = [str "."] →
  ¬ (ca = [str "."] ∧ cb = [str "."] ∧ dirA = true ∧ dirB = true) →
  cmp_comps ca dirA cb dirB v = lex Compare (keys ca dirA) (keys cb dirB).
Proof.
  intros Hv. revert cb. induction ca as [|a ra IH]; intros [|b rb] Ha Hb Hdot; [done..|].
  cbn [cmp_comps keys lex]. destruct (Z.ltb_spec v 29); [lia|]. cbv zeta.
  set (aDir := nonempty ra || dirA). set (bDir := nonempty rb || dirB).
  destruct (bool_decide (a = str ".") && aDir) eqn:Ea.
  { apply andb_true_iff in Ea as [Ea Hd]. apply bool_decide_eq_true in Ea as ->.
    assert (comp_key (str ".") aDir = [0]) as -> by (unfold comp_key; by rewrite Hd).
    destruct Ha as [Ha|Ha]; [by destruct Ha; constructor|]. injection Ha as ->.
    unfold comp_key. destruct (bool_decide_reflect (b = str ".")) as [->|]; cbn [andb]; [|by destruct bDir].
    destruct Hb as [Hb|Hb]; [by destruct Hb; constructor|]. injection Hb as ->. cbn in aDir, bDir.
    destruct dirB; [|done]. destruct Hdot. done. }
  destruct (bool_decide (b = str ".") && bDir) eqn:Eb.
  { apply andb_true_iff in Eb as [Eb Hd]. apply bool_decide_eq_true in Eb as ->.
    assert (comp_key (str ".") bDir = [0]) as -> by (unfold comp_key; by rewrite Hd).
    unfold comp_key. rewrite Ea. by destruct aDir. }
  destruct (Bool.eqb aDir bDir) eqn:Ed; cbn [negb].
  2:{ unfold comp_key. rewrite Ea, Eb. by destruct aDir, bDir. }
  apply Bool.eqb_prop in Ed. rewrite <-Ed in *.
  rewrite Compare_key.
  2:{ intros [Hd [-> | ->]]; rewrite Hd in *; done. }
  assert ((str "." ∉ ra) ∧ (str "." ∉ rb)) as [Hra Hrb].
  { split; [destruct Ha as [Ha|[= -> ->]]|destruct Hb as [Hb|[= -> ->]]]; set_solver. }
  destruct aDir eqn:Hd; cbn iota.
  - destruct (Z.eqb_spec (Compare (a ++ [slash]) (b ++ [slash])) 0) as [E|E]; cbn [negb]; [|done].
    apply IH; [by left|by left|]. intros (-> & _). apply Hra. by constructor.
  - destruct ra; [|done]. destruct rb; [|done]. simpl. by destruct (Z.eqb_spec (Compare a b) 0).
Qed.

(** Keys tell names and directory flags apart. *)
Lemma keys_inj ca cb dirA dirB : keys ca dirA = keys cb dirB → ca = cb.
Proof.
  revert cb. induction ca as [|a ra IH]; intros [|b rb] E; [done..|]. cbn [keys] in E. injection E as Ek E.
  apply IH in E as ->. f_equal. unfold comp_key in Ek.
  destruct (bool_decide_reflect (a = str ".")) as [Ea|], (bool_decide_reflect (b = str ".")) as [Eb|]; cbn [andb] in Ek;
    [congruence|..]; destruct (nonempty rb || dirA), (nonempty rb || dirB); try discriminate;
    injection Ek as Ek; try done; by apply app_inj_tail in Ek as [? _].
Qed.

(** One key for all versions. *)
Definition name_key (v : Z) (name : bytes) (dir : bool) : list bytes :=
  if v <? 29 then [name] else keys (Split name) dir.
Abbreviation KeyCmp := (lex Compare).

Lemma name_key_inj v a da b db : name_key v a da = name_key v b db → a = b.
Proof. unfold name_key. case_if; [by intros [=]|]. intros E. by apply Split_inj, (keys_inj _ _ da db). Qed.

Lemma path_ok_comps name : path_ok name → str "." ∉ Split name ∨ Split name = [str "."].
Proof. intros [->|H]; [by right|by left]. Qed.

(** flistNameCmp is the comparison of the keys: a total order. *)
Lemma flistNameCmp_key v a da b db : path_ok a → path_ok b → a ≠ b →
  flistNameCmp a da b db v = KeyCmp (name_key v a da) (name_key v b db).
Proof.
  intros Ha Hb Hne. unfold flistNameCmp, name_key. destruct (Z.ltb_spec v 29).
  - destruct (Split_spec a) as (Na & Ja & Sa). destruct (Split_spec b) as (Nb & Jb & Sb).
    rewrite cmp_comps_old, Ja, Jb by done. cbn [lex]. by destruct (Z.eqb_spec (Compare a b) 0).
  - apply cmp_comps_keys; [lia|by apply path_ok_comps..|]. intros (E1 & E2 & _).
    apply Hne, Split_inj. congruence.
Qed.

(** Sorting permutes, whatever the order. *)
Lemma insert_perm {A} (lt : A → A → bool) x l : Permutation (insert_stable lt x l) (x :: l).
Proof.
  induction l as [|y l IH]; [done|]. cbn [insert_stable]. case_if; [|done]. rewrite IH. apply Permutation_swap.
Qed.
Lemma sort_perm {A} (lt : A → A → bool) l : Permutation (sort_stable lt l) l.
Proof. induction l as [|x l IH]; [done|]. cbn. rewrite insert_perm. by constructor. Qed.

Section sorted.
Context {E : Type} (name : E → bytes) (dir : E → bool) (v : Z).

(** The strict order of the list. *)
Definition before (a b : E) : Prop := flistNameCmp (name a) (dir a) (name b) (dir b) v < 0.

Lemma before_key a b : path_ok (name a) → path_ok (name b) → name a ≠ name b →
  before a b ↔ KeyCmp (name_key v (name a) (dir a)) (name_key v (name b) (dir b)) < 0.
Proof. intros. unfold before. by rewrite flistNameCmp_key. Qed.

Lemma before_anti a b : path_ok (name a) → path_ok (name b) → name a ≠ name b → ¬ before a b → before b a.
Proof.
  intros Ha Hb Hne Hnot. apply before_key; [done..|]. rewrite before_key in Hnot by done.
  set (ka := name_key v (name a) (dir a)) in *. set (kb := name_key v (name b) (dir b)) in *.
  rewrite (cmp_anti (c := KeyCmp) ka kb).
  assert (KeyCmp ka kb ≠ 0); [|lia]. intros H0. apply (cmp_zero (c := KeyCmp)), name_key_inj in H0. done.
Qed.

Lemma before_asym a b : path_ok (name a) → path_ok (name b) → name a ≠ name b → before a b → ¬ before b a.
Proof.
  intros Ha Hb Hne H1 H2. apply before_key in H1; [|done..]. apply before_key in H2; [|done..].
  rewrite (cmp_anti (c := KeyCmp)) in H2. lia.
Qed.

Lemma before_trans a b c : path_ok (name a) → path_ok (name b) → path_ok (name c) →
  name a ≠ name b → name b ≠ name c → name a ≠ name c → before a b → before b c → before a c.
Proof. intros Ha Hb Hc H1 H2 H3. rewrite !before_key by done. apply (cmp_trans (c := KeyCmp)). Qed.

Definition names_ok (l : list E) : Prop := NoDup (name <$> l) ∧ Forall (λ e, path_ok (name e)) l.

Lemma names_ok_perm l l' : Permutation l l' → names_ok l → names_ok l'.
Proof. unfold names_ok. intros HP. by rewrite HP. Qed.

Lemma names_ok_cons x l : names_ok (x :: l) →
  path_ok (name x) ∧ names_ok l ∧ ∀ y, y ∈ l → path_ok (name y) ∧ name x ≠ name y.
Proof.
  intros [HN HF]. cbn [fmap list_fmap] in HN. apply NoDup_cons in HN as [Hx HN]. apply Forall_cons in HF as [Hp HF].
  split_and!; [done|done|]. intros y Hy. split; [by apply (proj1 (Forall_forall _ l) HF)|].
  intros Heq. apply Hx. rewrite Heq. apply (list_elem_of_fmap_2 name l y Hy).
Qed.

Abbreviation less := (λ a b : E, flistNameCmp (name a) (dir a) (name b) (dir b) v <? 0).

Lemma insert_stable_perm x l : Permutation (insert_stable less x l) (x :: l).
Proof. apply insert_perm. Qed.

Lemma insert_stable_sorted x l : names_ok (x :: l) → StronglySorted before l →
  StronglySorted before (insert_stable less x l).
Proof.
  intros Hok Hs. induction Hs as [|y l Hs IH Hall]; cbn [insert_stable]; [repeat constructor|].
  destruct (names_ok_cons _ _ Hok) as (Hx & Hokl & Hdiff). destruct (names_ok_cons _ _ Hokl) as (Hy & Hok' & Hdiff').
  destruct (Hdiff y ltac:(by constructor)) as [_ Hxy].
  assert (names_ok (x :: l)) as Hokx.
  { apply (names_ok_perm (x :: y :: l) (y :: x :: l)) in Hok; [|apply perm_swap]. by apply names_ok_cons in Hok as (_ & ? & _). }
  destruct (Z.ltb_spec (flistNameCmp (name y) (dir y) (name x) (dir x) v) 0) as [Hlt|Hge].
  - constructor; [by apply IH|]. rewrite insert_stable_perm. by constructor.
  - assert (before x y) as Hb by (apply before_anti; [done..|congruence|unfold before; lia]).
    constructor; [by constructor|]. constructor; [done|].
    rewrite Forall_forall in Hall |- *. intros z Hz. destruct (Hdiff' z Hz) as [Hpz Hyz].
    destruct (Hdiff z ltac:(by constructor)) as [_ Hxz]. by apply (before_trans x y z); auto.
Qed.

Lemma sort_stable_perm l : Permutation (sort_stable less l) l.
Proof. apply sort_perm. Qed.

Lemma sort_stable_sorted l : names_ok l → StronglySorted before (sort_stable less l).
Proof.
  induction l as [|x l IH]; intros Hok; [constructor|]. cbn. destruct (names_ok_cons _ _ Hok) as (_ & Hokl & _).
  apply insert_stable_sorted; [|by apply IH]. eapply names_ok_perm; [|exact Hok]. constructor. symmetry. apply sort_stable_perm.
Qed.

(** Two sorted arrangements of the same entries are the same list. *)
Lemma sorted_unique l l' : names_ok l → Permutation l l' → StronglySorted before l → StronglySorted before l' → l = l'.
Proof.
  revert l'. induction l as [|x l IH]; intros l' Hok HP Hs Hs'.
  { by apply Permutation_nil_l in HP. }
  destruct l' as [|y l']; [by apply Permutation_nil_r in HP|].
  apply StronglySorted_inv in Hs as [Hs Hx]. apply StronglySorted_inv in Hs' as [Hs' Hy].
  assert (x = y) as <-.
  { destruct (decide (name x = name y)) as [Hn|Hn].
    - assert (y ∈ x :: l) as Hin by (rewrite HP; constructor). apply elem_of_cons in Hin as [->|Hin]; [done|].
      destruct (names_ok_cons _ _ Hok) as (_ & _ & Hd). by destruct (Hd y Hin).
    - assert (y ∈ x :: l) as Hin by (rewrite HP; constructor). apply elem_of_cons in Hin as [->|Hin]; [done|].
      assert (x ∈ y :: l') as Hin' by (rewrite <-HP; constructor). apply elem_of_cons in Hin' as [->|Hin']; [done|].
      destruct (names_ok_cons _ _ Hok) as (Hpx & _ & Hd). destruct (Hd y Hin) as [Hpy _].
      rewrite Forall_forall in Hx, Hy. by destruct (before_asym x y Hpx Hpy Hn (Hx y Hin)); apply Hy. }
  f_equal. apply IH; auto; [by apply names_ok_cons in Hok as (_ & ? & _)|]. by apply Permutation_cons_inv in HP.
Qed.
End sorted.

(** The client's numbering of a list that is already in order. *)
Lemma index_names_miss order i m n : n ∉ (Name <$> order) → index_names order i m !! n = m !! n.
Proof.
  revert i m. induction order as [|e order IH]; intros i m Hn; [done|]. cbn [index_names fmap list_fmap] in *.
  apply not_elem_of_cons in Hn as [Hne Hn]. rewrite IH by done. by rewrite lookup_insert_ne.
Qed.

Lemma index_names_hit order i m k e : NoDup (Name <$> order) → order !! k = Some e →
  index_names order i m !! Name e = Some (i32 (i + Z.of_nat k)).
Proof.
  revert i m k. induction order as [|x order IH]; intros i m k HN Hk; [done|].
  cbn [index_names fmap list_fmap] in *. apply NoDup_cons in HN as [Hx HN]. destruct k as [|k].
  - injection Hk as ->. rewrite index_names_miss by done. rewrite lookup_insert_eq. do 2 f_equal. lia.
  - rewrite (IH _ _ k) by done. do 2 f_equal. lia.
Qed.

(** The index the client computes is the position in the server's list. *)
Lemma index_agree {E} (name : E → bytes) (dir : E → bool) v raw received i se :
  names_ok name raw → Z.of_nat (length raw) < 2^31 →
  Forall2 (λ se fe, Name fe = name se ∧ isDir (Mode fe) = dir se) (sortFlist name dir raw v) received →
  sortFlist name dir raw v !! i = Some se →
  sortFlistEntries received v !! name se = Some (Z.of_nat i).
Proof.
  intros Hok Hlen HF Hi. pose proof (sort_stable_perm name dir v raw) as HP.
  fold (sortFlist name dir raw v) in HP. set (srv := sortFlist name dir raw v) in *.
  pose proof (sort_stable_sorted name dir v raw Hok) as Hs. fold (sortFlist name dir raw v) in Hs. fold srv in Hs.
  assert (Name <$> received = name <$> srv) as Hnames.
  { clear -HF. induction HF as [|? ? ? ? [? _] _ IH]; [done|]. cbn. by f_equal. }
  assert (names_ok Name received) as Hokr.
  { apply (names_ok_perm name _ _ (symmetry HP)) in Hok as [HN HFp]. split; [by rewrite Hnames|].
    clear -HF HFp. induction HF as [|? ? ? ? [En _] _ IH]; [constructor|].
    apply Forall_cons in HFp as [? ?]. constructor; [by rewrite En|auto]. }
  assert (StronglySorted (before Name (λ e, isDir (Mode e)) v) received) as Hsr.
  { clear -HF Hs. induction HF as [|se fe srv received Hh HF IH]; [constructor|].
    apply StronglySorted_inv in Hs as [Hs Hall]. constructor; [by apply IH|].
    clear -Hh HF Hall. induction HF as [|? ? ? ? Hh' _ IH]; [constructor|]. apply Forall_cons in Hall as [Hb Hall].
    constructor; [|by apply IH]. destruct Hh as [E1 E2], Hh' as [E3 E4]. unfold before in *.
    by rewrite E1, E2, E3, E4. }
  unfold sortFlistEntries, sortFlist.
  rewrite <-(sorted_unique Name (λ e, isDir (Mode e)) v received _ Hokr (symmetry (sort_stable_perm _ _ v received)) Hsr
               (sort_stable_sorted _ _ v received Hokr)).
  destruct (Forall2_lookup_l _ _ _ i se HF Hi) as (fe & Hfe & <- & _).
  rewrite (index_names_hit received 0 ∅ i fe) by (apply Hokr || done). rewrite Z.add_0_l, i32_id; [done|].
  apply lookup_lt_Some in Hi. rewrite HP in Hi. unfold is_i32. lia.
Qed.

(** C28: The file list order. For distinct names that are valid paths, and for
    every protocol version, the sorted list is a permutation of the walk, every
    entry is strictly before all later ones in the sense of flistNameCmp, and
    it is the only such arrangement: any stable sort gives the same list. *)
Theorem sortFlist_unique {E} (name : E → bytes) (dir : E → bool) v l : names_ok name l →
  Permutation (sortFlist name dir l v) l ∧ StronglySorted (before name dir v) (sortFlist name dir l v) ∧
  ∀ l', Permutation l' l → StronglySorted (before name dir v) l' → l' = sortFlist name dir l v.
Proof.
  intros Hok. pose proof (sort_stable_perm name dir v l) as HP. pose proof (sort_stable_sorted name dir v l Hok) as Hs.
  split_and!; [done|done|]. intros l' HP' Hs'. eapply sorted_unique; [| |exact Hs'|exact Hs].
  - by eapply names_ok_perm.
  - by etrans.
Qed.

(** Both ends number the files alike. When the client receives, in the order
    of the server's sorted list, entries with the same names and types, the
    index it computes for a name is the position of that name in the server's
    list, which is what the server resolves a selector with. *)
Theorem ndx_agreement {E} (name : E → bytes) (dir : E → bool) v raw received i se :
  names_ok name raw → Z.of_nat (length raw) < 2^31 →
  Forall2 (λ se fe, Name fe = name se ∧ isDir (Mode fe) = dir se) (sortFlist name dir raw v) received →
  sortFlist name dir raw v !! i = Some se →
  sortFlistEntries received v !! name se = Some (Z.of_nat i).
Proof. apply index_agree. Qed.

(** ** Witnesses *)
Definition walk_example : list (string * bool) :=
  [(".", true); ("b", true); ("b/x", false); ("a", false); ("b.txt", false)].

Lemma walk_example_ok : names_ok (λ e : string * bool, str e.1) walk_example.
Proof.
  unfold names_ok, path_ok. apply (bool_decide_unpack _). by vm_compute.
Qed.

Lemma sortFlist_unique_witness :
  sortFlist (λ e : string * bool, str e.1) snd walk_example 31 =
    [(".", true); ("a", false); ("b.txt", false); ("b", true); ("b/x", false)]%string ∧
  ∀ l', Permutation l' walk_example → StronglySorted (before (λ e : string * bool, str e.1) snd 31) l' →
    l' = sortFlist (λ e : string * bool, str e.1) snd walk_example 31.
Proof.
  split; [by vm_compute|]. apply (sortFlist_unique (λ e : string * bool, str e.1) snd 31 walk_example walk_example_ok).
Defined.

Definition received_example : list FlistEntry :=
  (λ e : string * bool, mk_FlistEntry (str e.1) (if e.2 then 0x41ED else 0x81A4) 0 0 0 0 0 0 [] [] 0 0 [] 0 0 0 0 [] false false)
  <$> sortFlist (λ e : string * bool, str e.1) snd walk_example 31.

Lemma ndx_agreement_witness : sortFlistEntries received_example 31 !! str "b" = Some 3.
Proof.
  apply (ndx_agreement (λ e : string * bool, str e.1) snd 31 walk_example received_example 3 ("b"%string, true));
    [apply walk_example_ok|done| |by vm_compute].
  unfold received_example. apply Forall2_fmap_r, Forall_Forall2_diag, Forall_true. by intros [? []].
Defined.
