(* ===== verification/FileList.v ===== *)
(** * Sending and receiving the file list (server-send.go, client-open.go)

    The server's sendFileList and the client's readFileList with its id list
    and io_error trailers, on top of the codec of [Flist]; and the theorem that
    composes the codec, the multiplexing and the sort: what the client knows
    after reading the list, indices included, is what the server walked. *)
From S2P Require Import Prelude.
From S2P Require Import GoIO.
From S2P Require Import WireInt.
From S2P Require Import Mux.
From S2P Require Import Flist.
From S2P Require Import FlistProofs.
From S2P Require Import Sort.
#[local] Open Scope Z_scope.
#[local] Open Scope go_scope.

(** ** File modes (package io/fs) *)
Definition ModeDir : Z := Z.shiftl 1 31.
Definition ModeSymlink : Z := Z.shiftl 1 27.
Definition ModeDevice : Z := Z.shiftl 1 26.
Definition ModeNamedPipe : Z := Z.shiftl 1 25.
Definition ModeSocket : Z := Z.shiftl 1 24.
Definition ModeCharDevice : Z := Z.shiftl 1 21.
Definition ModeIrregular : Z := Z.shiftl 1 19.
Definition ModeType : Z := 0x8F280000.
Definition mode_Perm (m : Z) : Z := Z.land m 0x1FF.
Definition mode_Type (m : Z) : Z := Z.land m ModeType.
Definition mode_IsDir (m : Z) : bool := has m ModeDir.
Definition mode_IsRegular (m : Z) : bool := Z.land m ModeType =? 0.

Definition modeToWire (mode : Z) : Z :=
  let unixMode := mode_Perm mode in
  if mode_IsDir mode then Z.lor unixMode S_IFDIR
  else if mode_Type mode =? ModeSymlink then Z.lor unixMode S_IFLNK
  else Z.lor unixMode S_IFREG.

Definition wireModeToFS (mode : Z) : Z :=
  let t := S_IFMT mode in
  let m := if t =? S_IFDIR then ModeDir
           else if t =? S_IFLNK then ModeSymlink
           else if t =? S_IFCHR then Z.lor ModeDevice ModeCharDevice
           else if t =? S_IFBLK then ModeDevice
           else if t =? S_IFIFO then ModeNamedPipe
           else if t =? S_IFSOCK then ModeSocket
           else 0 in
  Z.lor m (mode_Perm (Z.land mode 0xFFF)).

(** ** The server *)

(** One entry of the walk; the modification time as its Unix seconds and
    nanoseconds. *)
Record fileEntry := mk_fileEntry {
  f_name : bytes;
  f_mode : Z;
  f_size : Z;
  f_sec : Z;
  f_nsec : Z;
  f_linkTarget : bytes;
  f_uid : Z;
  f_gid : Z;
  f_dev : Z;
  f_ino : Z;
  f_nlink : Z;
}.

(** The fields of transferState that sendFileList reads. *)
Record list_params := mk_list_params {
  lp_ver : Z;
  lp_varint : bool;
  lp_id0Names : bool;
  lp_preserve : bool * bool;
  lp_preserveDevices : bool;
  lp_preserveLinks : bool;
  lp_preserveHlinks : bool;
}.

(** The [&protocol.FlistEntry{...}] literal. *)
Definition wire_entry (e : fileEntry) : FlistEntry :=
  mk_FlistEntry e.(f_name) (modeToWire e.(f_mode)) e.(f_size) e.(f_sec) (i32 e.(f_nsec)) 0
    (i32 e.(f_uid)) (i32 e.(f_gid)) [] [] 0 0 e.(f_linkTarget) 0 e.(f_nlink) e.(f_dev) e.(f_ino) []
    (bool_decide (e.(f_name) = str ".")) false.

Definition list_writer (st : list_params) : FlistWriter :=
  SetID0Names st.(lp_id0Names)
    (w_with (SetPreserveHardlinks st.(lp_preserveHlinks))
    (w_with (SetPreserveLinks st.(lp_preserveLinks))
    (w_with (SetPreserveDevices st.(lp_preserveDevices))
    (w_with (SetPreserveGID st.(lp_preserve).2)
    (w_with (SetPreserveUID st.(lp_preserve).1)
    (NewFlistWriter st.(lp_ver) st.(lp_varint))))))).

(** A method call on a local object: its final state is dropped. *)
Definition with_local {O S A} (o : O) (m : M (O * S) A) : M S A := λ s,
  let '(r, (_, s')) := m (o, s) in (r, s').

Section server.
Context {S : Type} (out : io_Writer S).

Definition send_entries (st : list_params) (entries : list fileEntry) : M S unit :=
  with_local (list_writer st)
    (for_each entries (λ e, wrap "write flist entry" (WriteEntry out (wire_entry e))) ;;;
     wrap "write flist end marker" (WriteEndMarker out) ;;;
     wrap "write id lists" (WriteIDLists out) ;;;
     wrap "write io_error trailer" (WriteIOErrorTrailer out 0)).
End server.

(** With the output multiplexed, as doServerSender always sets it up. *)
Definition sendFileList {S} (w : io_Writer S) (st : list_params) (entries : list fileEntry)
  : M (mux_Writer * S) unit :=
  send_entries (mux_writer w) st entries ;;;
  Flush w.

(** ** The client *)

(** The fields of Session that the list reader uses. *)
Record list_session := mk_list_session { ls_version : Z; ls_varintFlist : bool; ls_id0Names : bool }.

Section client.
Context {T : Type} (r : io_Reader T).

(** The loop of io.Discard over an io.LimitedReader with [n] bytes left; its
    buffer has 8 KiB. All bytes read is success, whatever error came with the
    last of them; a stream that ends early is io.EOF; any other error is the
    reader's own. [fuel] counts reads, of which each delivers a byte. *)
Fixpoint discard_loop (fuel n : nat) : M T unit :=
  match n, fuel with
  | O, _ => ret tt
  | _, O => nofuel
  | _, Datatypes.S fuel' =>
    let* (p, err) := Read r (Nat.min (Z.to_nat 8192) n) in
    let left := (n - length p)%nat in
    match err with
    | None => discard_loop fuel' left
    | Some e => match left with O => ret tt | _ => fail e end
    end
  end.

(** [io.CopyN(io.Discard, r, n)] *)
Definition CopyN_discard (n : nat) : M T unit := discard_loop n n.

Definition skipIDName : M T unit :=
  let* b := ReadFull r 1 in
  if b !!! 0%nat =? 0 then ret tt else CopyN_discard (Z.to_nat (b !!! 0%nat)).

Definition readIDVarint (s : list_session) : M T Z :=
  if 30 <=? s.(ls_version) then ReadVarint r else ReadInt32 r.

(** The pair loop of readIDList. *)
Fixpoint read_id_pairs (fuel : nat) (s : list_session) : M T unit :=
  match fuel with
  | O => nofuel
  | Datatypes.S fuel' =>
    let* id := readIDVarint s in
    if id =? 0 then ret tt
    else skipIDName ;;; read_id_pairs fuel' s
  end.

Definition readIDList (fuel : nat) (s : list_session) (present : bool) : M T unit :=
  if negb present then ret tt else
  read_id_pairs fuel s ;;;
  if s.(ls_id0Names) then skipIDName else ret tt.

Definition readFlistTrailer (fuel : nat) (s : list_session) : M T unit :=
  wrap "read uid list" (readIDList fuel s true) ;;;
  wrap "read gid list" (readIDList fuel s true) ;;;
  if negb s.(ls_varintFlist) && (s.(ls_version) <? 30)
  then wrap "read io_error trailer" (let* _ := ReadInt32 r in ret tt)
  else ret tt.

Definition list_reader (s : list_session) : FlistReader :=
  r_with (SetPreserveHardlinks false) (NewFlistReader s.(ls_version) s.(ls_varintFlist)).

(** The entry loop: io.EOF itself (not a wrapped one) ends the list. *)
Fixpoint read_entries (fuel : nat) : M (FlistReader * T) (list FlistEntry) := λ st,
  match fuel with
  | O => (NoFuel, st)
  | Datatypes.S fuel' =>
    match ReadEntry r st with
    | (Ret e, st') =>
        match read_entries fuel' st' with
        | (Ret l, st'') => (Ret (e :: l), st'')
        | x => x
        end
    | (Fail EOF, st') => (Ret [], st')
    | (Fail e, st') => (Fail e, st')
    | (Panic, st') => (Panic, st')
    | (NoFuel, st') => (NoFuel, st')
    end
  end.

Definition readFileList (fuel : nat) (s : list_session) : M T (list FlistEntry) :=
  let* entries := with_local (list_reader s) (read_entries fuel) in
  readFlistTrailer fuel s ;;;
  ret entries.
End client.

(** ** Modes *)
Lemma S_IFMT_perm m t : Z.land t 0xF000 = t → S_IFMT (Z.lor (mode_Perm m) t) = t.
Proof.
  intros Ht. unfold S_IFMT, mode_Perm. rewrite Z.land_lor_distr_l, <-Z.land_assoc.
  change (Z.land 0x1FF 0xF000) with 0. by rewrite Z.land_0_r, Z.lor_0_l.
Qed.

Lemma modeToWire_type m : S_IFMT (modeToWire m) =
  if mode_IsDir m then S_IFDIR else if mode_Type m =? ModeSymlink then S_IFLNK else S_IFREG.
Proof. unfold modeToWire. repeat case_if; by apply S_IFMT_perm. Qed.

Lemma modeToWire_isDir m : isDir (modeToWire m) = mode_IsDir m.
Proof. unfold isDir. rewrite modeToWire_type. by repeat case_if. Qed.

Lemma modeToWire_valid m : is_u32 (modeToWire m) ∧ valid_type (modeToWire m) = true.
Proof.
  split; [|unfold valid_type; rewrite modeToWire_type; by repeat case_if].
  assert (0 ≤ mode_Perm m < 2^32).
  { unfold mode_Perm. change 0x1FF with (2^9 - 1). rewrite land_ones_mod by lia.
    pose proof (Z.mod_pos_bound m (2^9)). lia. }
  unfold modeToWire, is_u32. repeat case_if; apply (lor_bound _ _ 32); try done; vm_compute; split; congruence.
Qed.

(** ** What the list can carry, and what arrives *)
Record file_ok (v : Z) (varint : bool) (e : fileEntry) : Prop := {
  fo_name : Z.of_nat (length e.(f_name)) ≤ MaxPathLen;
  fo_root : is_root_name e.(f_name) = true → mode_IsDir e.(f_mode) = true;
  fo_size : is_i64 e.(f_size);
  fo_sec : if 30 <=? v then is_i64 e.(f_sec) else is_u32 e.(f_sec);
  fo_nsec : is_i32 e.(f_nsec);
  fo_target : Z.of_nat (length e.(f_linkTarget)) < 2^31;
  fo_devino : is_i64 e.(f_dev) ∧ is_i64 e.(f_ino) ∧ (v < 26 → is_u32 e.(f_dev) ∧ is_u32 e.(f_ino));
  fo_dirname : v < 28 → varint = false → mode_IsDir e.(f_mode) = true → Z.of_nat (length e.(f_name)) < 128;
}.

Lemma wire_entry_ok st e : file_ok st.(lp_ver) st.(lp_varint) e →
  entry_ok (list_writer st).(w_opts) (wire_entry e).
Proof.
  intros []. destruct (modeToWire_valid e.(f_mode)) as [Hu Hv].
  constructor; simpl; rewrite ?modeToWire_isDir; auto using i32_range.
  - unfold is_i64. lia.
  - unfold is_u32. split_and!; lia.
Qed.

(** What the client knows of a file after the transfer of the list. *)
Definition agrees (v : Z) (e : fileEntry) (f : FlistEntry) : Prop :=
  f.(Name) = e.(f_name) ∧ f.(Mode) = modeToWire e.(f_mode) ∧ f.(Size) = e.(f_size) ∧ f.(Mtime) = e.(f_sec) ∧
  f.(ModNsec) = (if 31 <=? v then e.(f_nsec) else 0) ∧ f.(UID) = i32 e.(f_uid) ∧ f.(GID) = i32 e.(f_gid) ∧
  f.(LinkTarget) = (if isSymlink (modeToWire e.(f_mode)) then e.(f_linkTarget) else []) ∧
  f.(TopDir) = mode_IsDir e.(f_mode) && bool_decide (e.(f_name) = str ".").

(** The two ends have negotiated the same parameters, and the client's fixed
    choices (-o -g -D -l, no -H) are what the server was asked for. *)
Definition negotiated (st : list_params) (s : list_session) : Prop :=
  s.(ls_version) = st.(lp_ver) ∧ s.(ls_varintFlist) = st.(lp_varint) ∧ s.(ls_id0Names) = st.(lp_id0Names) ∧
  st.(lp_preserve) = (true, true) ∧ st.(lp_preserveDevices) = true ∧ st.(lp_preserveLinks) = true ∧
  st.(lp_preserveHlinks) = false ∧ (st.(lp_varint) = true → 30 ≤ st.(lp_ver)).

Lemma negotiated_paired st s : negotiated st s → paired (list_writer st) (list_reader s).
Proof.
  intros (Hv & Hvar & _ & Hp & Hd & Hl & Hh & _). split; [|done]. simpl.
  by rewrite Hv, Hvar, Hp, Hd, Hl, Hh.
Qed.

Lemma received_agrees st s es fw : negotiated st s → fw.(w_opts) = (list_writer st).(w_opts) →
  Forall (file_ok st.(lp_ver) st.(lp_varint)) es →
  Forall2 (agrees st.(lp_ver)) es (received_list fw (wire_entry <$> es)).
Proof.
  intros Hneg Ho Hok. revert fw Ho. induction Hok as [|e es He _ IH]; intros fw Ho; [constructor|].
  cbn [fmap list_fmap received_list]. constructor.
  - destruct Hneg as (_ & _ & _ & Hp & Hd & Hl & Hh & _). unfold agrees, received. rewrite Ho. simpl.
    rewrite Hp, Hl, modeToWire_isDir. cbn. rewrite i32_id by apply He. done.
  - apply IH. by rewrite (proj1 (next_writer_kept fw (wire_entry e))).
Qed.

(** ** The list and its trailers cross the wire *)
Lemma for_each_wrap {S A B} ctx (f : A → B) (g : B → M S unit) l s s' :
  for_each (f <$> l) g s = (Ret tt, s') → for_each l (λ x, wrap ctx (g (f x))) s = (Ret tt, s').
Proof.
  revert s. induction l as [|x l IH]; intros s E; [done|]. cbn [fmap list_fmap for_each] in *.
  apply bind_inv_Ret in E as ([] & s1 & E1 & E2).
  rewrite (bind_Ret _ _ _ tt s1); [by apply IH|]. unfold wrap. by rewrite E1.
Qed.

Section codec.
Context {S : Type} (w : io_Writer S) `{!WriterSpec w}.
Context {T : Type} (r : io_Reader T) `{!ReaderSpec r}.

Lemma writes_wrap {O} ctx (m : M (O * S) unit) o bs o' : writes w m o bs o' → writes w (wrap ctx m) o bs o'.
Proof. intros H s Hs. destruct (H s Hs) as (s' & E & ?). exists s'. unfold wrap. by rewrite E. Qed.

Definition id_list_bytes (v : Z) (id0 : bool) : bytes :=
  (if 30 <=? v then [0] else PutUint32 0) ++ (if id0 then [0] else []).
Definition trailer_bytes (v : Z) (id0 : bool) : bytes :=
  id_list_bytes v id0 ++ id_list_bytes v id0 ++ (if v <? 30 then PutUint32 0 else []).

Lemma WriteIDLists_ok fw : fw.(w_opts).(preserveUID) = true → fw.(w_opts).(preserveGID) = true →
  writes w (WriteIDLists w) fw
    (id_list_bytes fw.(w_opts).(version) fw.(id0Names) ++ id_list_bytes fw.(w_opts).(version) fw.(id0Names)) fw.
Proof.
  intros Hu Hg. apply writes_get. rewrite Hu, Hg. cbn [for_each negb].
  assert (writes w ((if 30 <=? version (w_opts fw) then lift (WriteVarint w 0) else lift (WriteInt32 w 0)) ;;;
                    (if id0Names fw then lift (writeByte w 0) else ret tt)) fw
            (id_list_bytes (version (w_opts fw)) (id0Names fw)) fw) as Hone.
  { eapply writes_seq; case_if; try apply writes_ret; apply writes_lift.
    - apply (WriteVarint_ok w 0). - apply (WriteInt32_ok w 0). - apply emits_write. }
  eapply writes_seq; [exact Hone|].
  rewrite <-(app_nil_r (id_list_bytes _ _)). eapply writes_seq; [exact Hone|apply writes_ret].
Qed.

Lemma WriteIOErrorTrailer_ok fw :
  writes w (WriteIOErrorTrailer w 0) fw (if fw.(w_opts).(version) <? 30 then PutUint32 0 else []) fw.
Proof.
  apply writes_get. destruct (Z.leb_spec 30 (version (w_opts fw))), (Z.ltb_spec (version (w_opts fw)) 30); try lia.
  - apply writes_ret.
  - apply writes_lift, (WriteInt32_ok w 0).
Qed.

Lemma skipIDName_zero : parses r (skipIDName r) [0] tt.
Proof. eapply parses_bind_r; [by apply ReadFull_ok|]. apply parses_ret. Qed.

Lemma readIDList_ok s fuel : (0 < fuel)%nat →
  parses r (readIDList r fuel s true) (id_list_bytes s.(ls_version) s.(ls_id0Names)) tt.
Proof.
  intros Hf. destruct fuel as [|fuel]; [lia|]. unfold readIDList. cbn [negb]. eapply parses_bind.
  - cbn [read_id_pairs]. eapply (parses_bind_r _ _ _ _ 0); [|apply parses_ret]. unfold readIDVarint.
    case_if; [apply (ReadVarint_ok r 0)|apply (ReadInt32_ok r 0)]; unfold is_i32; lia.
  - case_if; [apply skipIDName_zero|apply parses_ret].
Qed.

Lemma readFlistTrailer_ok s fuel : (0 < fuel)%nat → (s.(ls_varintFlist) = true → 30 ≤ s.(ls_version)) →
  parses r (readFlistTrailer r fuel s) (trailer_bytes s.(ls_version) s.(ls_id0Names)) tt.
Proof.
  intros Hf Hvar. eapply parses_bind; [by apply parses_wrap, readIDList_ok|].
  eapply parses_bind; [by apply parses_wrap, readIDList_ok|].
  assert (negb s.(ls_varintFlist) && (s.(ls_version) <? 30) = (s.(ls_version) <? 30)) as ->.
  { destruct (ls_varintFlist s); [|done]. destruct (Z.ltb_spec (ls_version s) 30); [specialize (Hvar eq_refl); lia|done]. }
  case_if; [|apply parses_ret]. apply parses_wrap. eapply parses_bind_r; [|apply parses_ret].
  apply (ReadInt32_ok r 0). unfold is_i32. lia.
Qed.

(** The entry loop, from the calls it makes. *)
Lemma read_entries_ok fuel n fr s l fr1 s1 s2 : (n < fuel)%nat →
  times n (ReadEntry r) (fr, s) = (Ret l, (fr1, s1)) → ReadEntry r (fr1, s1) = (Fail EOF, (fr1, s2)) →
  read_entries r fuel (fr, s) = (Ret l, (fr1, s2)).
Proof.
  revert n fr s l. induction fuel as [|fuel IH]; intros n fr s l Hf Ht He; [lia|]. cbn [read_entries].
  destruct n as [|n]; cbn [times] in Ht.
  - injection Ht as <- <- <-. by rewrite He.
  - apply bind_inv_Ret in Ht as (e & [fr' s'] & E1 & E2). rewrite E1.
    apply bind_inv_Ret in E2 as (l' & st & E2 & E3). injection E3 as <- ->.
    by rewrite (IH n fr' s' l') by (done || lia).
Qed.

(** What send_entries writes is what readFileList reads. *)
Lemma file_list_codec st sess entries : negotiated st sess →
  Forall (file_ok st.(lp_ver) st.(lp_varint)) entries →
  ∃ bs l, emits w (send_entries w st entries) bs ∧ Forall2 (agrees st.(lp_ver)) entries l ∧
    ∀ fuel, (length entries < fuel)%nat → parses r (readFileList r fuel sess) bs l.
Proof.
  intros Hneg Hok. pose proof (negotiated_paired _ _ Hneg) as Hp.
  set (fw := list_writer st) in *. set (fr := list_reader sess) in *. set (es := wire_entry <$> entries).
  assert (Forall (entry_ok fw.(w_opts)) es) as Hes.
  { apply Forall_fmap. eapply Forall_impl; [exact Hok|]. intros e He. by apply wire_entry_ok. }
  destruct (entries_codec w r es fw fr Hp Hes) as (bs & W & R).
  destruct (foldl_next_writer_kept es fw) as [Ho Hid]. set (fw' := foldl next_writer fw es) in *.
  set (fr' := foldl next_reader fr es) in *.
  destruct (paired_foldl es fw fr Hp) as [Hor _]. fold fw' fr' in Hor.
  assert (preserveUID (w_opts fw') = true ∧ preserveGID (w_opts fw') = true) as [Hu Hg].
  { rewrite Ho. destruct Hneg as (_ & _ & _ & Hpr & _). unfold fw. simpl. by rewrite Hpr. }
  assert (version (w_opts fw') = lp_ver st) as Hver by by rewrite Ho.
  assert (id0Names fw' = lp_id0Names st) as Hid' by by rewrite Hid.
  exists (bs ++ end_bytes (w_opts fw') ++ trailer_bytes (lp_ver st) (lp_id0Names st)), (received_list fw es).
  split_and!.
  - intros s Hs. unfold send_entries, with_local. fold fw.
    assert (writes w (for_each entries (λ e, wrap "write flist entry" (WriteEntry w (wire_entry e)))) fw bs fw') as W'.
    { intros s0 Hs0. destruct (W s0 Hs0) as (s1 & E & ?). exists s1. split; [by apply for_each_wrap|done]. }
    destruct (writes_seq w _ _ _ _ _ _ _ W'
                (writes_seq w _ _ _ _ _ _ _ (writes_wrap "write flist end marker" _ _ _ _ (WriteEndMarker_ok w fw'))
                  (writes_seq w _ _ _ _ _ _ _ (writes_wrap "write id lists" _ _ _ _ (WriteIDLists_ok fw' Hu Hg))
                    (writes_wrap "write io_error trailer" _ _ _ _ (WriteIOErrorTrailer_ok fw')))) s Hs) as (s' & E & T').
    exists s'. rewrite E. split; [done|]. rewrite Hver, Hid' in T'. unfold trailer_bytes.
    by rewrite <-app_assoc in T'.
  - by apply (received_agrees st sess).
  - intros fuel Hf t rest Ht. rewrite <-!app_assoc in Ht.
    destruct (R _ _ Ht) as (t1 & E1 & C1).
    destruct (ReadEntry_end r fr' t1 (trailer_bytes (lp_ver st) (lp_id0Names st) ++ rest)) as (t2 & E2 & C2).
    { rewrite Hor. apply C1. }
    destruct Hneg as (Hv & Hvar & Hi0 & _ & _ & _ & _ & H30). rewrite <-Hv, <-Hi0 in C2.
    destruct (readFlistTrailer_ok sess fuel ltac:(lia) ltac:(by rewrite Hvar, Hv)) with (s := t2) (rest := rest)
      as (t3 & E3 & C3); [apply C2|].
    exists t3. split; [|eapply consumed_trans; [exact C1|]; by eapply consumed_trans].
    assert (with_local fr (read_entries r fuel) t = (Ret (received_list fw es), t2)) as El.
    { unfold with_local. rewrite (read_entries_ok fuel (length es) fr t (received_list fw es) fr' t1 t2); [done| |done|done].
      unfold es. by rewrite length_fmap. }
    unfold readFileList. fold fr. by rewrite (bind_Ret _ _ _ _ _ El), (bind_Ret _ _ _ _ _ E3).
Qed.
End codec.

(** C12: The file list arrives. The server's sendFileList, multiplexed and
    flushed, on any transport that does not break; the client's readFileList
    behind its demultiplexer, however the transport cuts the stream: the client
    ends up with exactly the walked entries (names, types, permissions, sizes,
    times, owners, link targets), in order, nothing is left unread, and the
    index it computes for each name is the server's. *)
Theorem file_list_transfer {S T} (w : io_Writer S) `{!WriterSpec w} (r : io_Reader T) `{!ReaderSpec r}
    (fuel : T → nat) `{!EnoughFuel r fuel} st sess raw s n :
  let entries := sortFlist f_name (λ e, mode_IsDir e.(f_mode)) raw st.(lp_ver) in
  negotiated st sess → names_ok f_name raw → Z.of_nat (length raw) < 2^31 →
  Forall (file_ok st.(lp_ver) st.(lp_varint)) raw → writable w s → (length raw < n)%nat →
  ∃ wire s' l, sendFileList w st entries (NewWriter, s) = (Ret tt, (NewWriter, s')) ∧
    written w s' = written w s ++ wire ∧ Forall2 (agrees st.(lp_ver)) entries l ∧
    (∀ t, stream r t wire →
      ∃ t', readFileList (mux_reader fuel r) n sess (NewReader, t) = (Ret l, t') ∧
        consumed (mux_reader fuel r) (NewReader, t) t' []) ∧
    ∀ i e, entries !! i = Some e → sortFlistEntries l sess.(ls_version) !! f_name e = Some (Z.of_nat i).
Proof.
  intros entries Hneg Hnames Hlen Hok Hs Hn.
  assert (Permutation entries raw) as HP by apply (sort_stable_perm f_name (λ e, mode_IsDir (f_mode e)) st.(lp_ver) raw).
  set (base := written w s).
  assert (mux_writable w base (NewWriter, s) ∧ mux_written w base (NewWriter, s) = []) as [Hmw Hempty].
  { unfold mux_writable, mux_written. cbn [fst snd NewWriter wbuf bufSize]. unfold base. rewrite drop_all. split; [|done].
    split_and!; auto; [done|simpl; unfold defaultBufSize; lia|]. exists []. by rewrite app_nil_r. }
  destruct (file_list_codec (mux_writer w) (WriterSpec0 := mux_writer_spec w base) (mux_reader fuel r) st sess entries Hneg)
    as (bs & l & He & Hag & Hpar); [by rewrite HP|].
  destruct (He (NewWriter, s) Hmw) as ([mw1 s1] & E1 & (Hmw1 & Hw1 & (_ & Hz1 & HP1))).
  cbn [written mux_writer_spec] in Hw1. rewrite Hempty in Hw1. cbn [app] in Hw1.
  destruct (Flush_written w base mw1 s1 Hmw1) as (s2 & E2 & Hmw2 & U2 & HP2 & Hd2). rewrite Hw1 in Hd2.
  cbn [fst snd NewWriter bufSize] in *.
  exists (drop (length base) (written w s2)), s2, l. split_and!.
  - unfold sendFileList. rewrite (bind_Ret _ _ _ _ _ E1), E2, Hz1. done.
  - assert (written w s `prefix_of` written w s2) as [rest Hrest] by (by etransitivity).
    rewrite Hrest. unfold base. by rewrite drop_app_length.
  - done.
  - intros t Ht. destruct (demux_stream r fuel t _ _ Ht (Hd2 (fin r t))) as [Hst _].
    apply (Hpar n); [by rewrite HP|]. by rewrite app_nil_r.
  - intros i e Hi. destruct Hneg as (-> & _). apply (index_agree f_name (λ e, mode_IsDir (f_mode e)) _ raw l i e); auto.
    eapply Forall2_impl; [exact Hag|]. intros a b (Hna & Hmo & _). by rewrite Hna, Hmo, modeToWire_isDir.
Qed.

(** C31: What a mode becomes for the client: the permission bits survive, and of
    the type only directory and symbolic link do; a device, a named pipe or a
    socket of the module is announced as a regular file. *)
Theorem mode_transfer m : wireModeToFS (modeToWire m) =
  Z.lor (if mode_IsDir m then ModeDir else if mode_Type m =? ModeSymlink then ModeSymlink else 0) (mode_Perm m).
Proof.
  unfold wireModeToFS. rewrite modeToWire_type.
  assert (∀ t, Z.land t 0xFFF = 0 → mode_Perm (Z.land (Z.lor (mode_Perm m) t) 0xFFF) = mode_Perm m) as Hperm.
  { intros t Ht. unfold mode_Perm. rewrite Z.land_lor_distr_l, Ht, Z.lor_0_r, <-!Z.land_assoc. done. }
  unfold modeToWire. destruct (mode_IsDir m); [|destruct (mode_Type m =? ModeSymlink)]; by rewrite Hperm.
Qed.

(** ** Witness *)
Definition example_params : list_params := mk_list_params 31 true true (true, true) true true false.
Definition example_session : list_session := mk_list_session 31 true true.

Definition example_file (name : string) (mode : Z) : fileEntry :=
  mk_fileEntry (str name) mode 42 1700000000 123456789 (str "target") 1000 100 5 77 1.

Definition example_walk : list fileEntry :=
  [example_file "." (Z.lor ModeDir 0x1ED); example_file "sub" (Z.lor ModeDir 0x1ED); example_file "sub/link" (Z.lor ModeSymlink 0x1FF);
   example_file "a.txt" 0x1A4].

Lemma file_list_transfer_witness :
  let entries := sortFlist f_name (λ e, mode_IsDir e.(f_mode)) example_walk 31 in
  ∃ wire s' l, sendFileList conn_writer example_params entries (NewWriter, conn_of []) = (Ret tt, (NewWriter, s')) ∧
    written conn_writer s' = written conn_writer (conn_of []) ++ wire ∧ Forall2 (agrees 31) entries l ∧
    (∀ t, stream conn_reader t wire →
      ∃ t', readFileList (mux_reader conn_fuel conn_reader) 10 example_session (NewReader, t) = (Ret l, t') ∧
        consumed (mux_reader conn_fuel conn_reader) (NewReader, t) t' []) ∧
    ∀ i e, entries !! i = Some e → sortFlistEntries l 31 !! f_name e = Some (Z.of_nat i).
Proof.
  apply (file_list_transfer conn_writer conn_reader conn_fuel example_params example_session example_walk (conn_of []) 10).
  - unfold negotiated. simpl. split_and!; done.
  - unfold names_ok, path_ok. apply (bool_decide_unpack _). by vm_compute.
  - simpl. lia.
  - repeat (apply Forall_cons_2; [constructor; simpl; unfold is_i64, is_i32, is_u32, MaxPathLen; split_and?; try lia; done|]).
    apply Forall_nil_2.
  - done.
  - simpl. lia.
Defined.
