(* ===== verification/Walk.v ===== *)
(** * Collecting a module's files (server-send.go: walk)

    transferState.walk runs fs.WalkDir over the module's file system with a
    callback that appends one fileEntry per path, then sorts. The file system is
    an interface value ([fs_FS]); package path's Join and Clean and package
    io/fs's WalkDir are modelled as they are. *)
From S2P Require Import Prelude.
From S2P Require Import GoIO.
From S2P Require Import GoStrings.
From S2P Require Import Mux.
From S2P Require Import Flist.
From S2P Require Import Sort.
From S2P Require Import FileList.
#[local] Open Scope Z_scope.
#[local] Open Scope go_scope.

(** ** Package path *)

(** The elements of a path with the dots resolved; [stack] is reversed. *)
Fixpoint clean_elems (rooted : bool) (elems stack : list bytes) : list bytes :=
  match elems with
  | [] => reverse stack
  | e :: elems' =>
    if bool_decide (e = []) || bool_decide (e = str ".") then clean_elems rooted elems' stack
    else if bool_decide (e = str "..") then
      match stack with
      | t :: stack' =>
        if bool_decide (t = str "..") then clean_elems rooted elems' (e :: stack) else clean_elems rooted elems' stack'
      | [] => clean_elems rooted elems' (if rooted then [] else [e])
      end
    else clean_elems rooted elems' (e :: stack)
  end.

Definition Clean (path : bytes) : bytes :=
  let rooted := HasPrefix path [slash] in
  let out := (if rooted then [slash] else []) ++ join (clean_elems rooted (Split path) []) in
  match out with [] => str "." | _ => out end.

Definition path_Join (a b : bytes) : bytes :=
  match a, b with
  | [], [] => []
  | [], _ => Clean b
  | _, _ => Clean (a ++ [slash] ++ b)
  end.

(** ** Package io/fs *)

(** syscall.Stat_t behind FileInfo.Sys. *)
Record Stat_t := mk_Stat_t { st_Uid : Z; st_Gid : Z; st_Dev : Z; st_Ino : Z; st_Nlink : Z }.

(** FileInfo; the modification time as seconds and nanoseconds. *)
Record FileInfo := mk_FileInfo { fi_Mode : Z; fi_Size : Z; fi_Sec : Z; fi_Nsec : Z; fi_Sys : option Stat_t }.

Record DirEntry := mk_DirEntry { de_Name : bytes; de_IsDir : bool; de_Info : outcome FileInfo }.

(** What the server asks of the module's file system: fs.Stat, fs.ReadDir (with
    what it lists besides an error), ReadLink if it has one, and Open with what
    io.ReadAll then returns. *)
Record fs_FS := mk_fs_FS {
  fs_Stat : bytes → outcome FileInfo;
  fs_ReadDir : bytes → list DirEntry * option error;
  fs_ReadLink : option (bytes → outcome bytes);
  fs_Open : bytes → outcome (outcome bytes);
}.

Definition FileInfoToDirEntry (name : bytes) (info : FileInfo) : DirEntry :=
  mk_DirEntry name (mode_IsDir info.(fi_Mode)) (Ret info).

Section WalkDir.
Context {W : Type} (fsys : fs_FS) (fn : bytes → option DirEntry → option error → M W unit).

(** [if err == SkipDir && d.IsDir() { err = nil }; return err] *)
Definition skipped (d : DirEntry) (m : M W unit) : M W unit := λ s,
  match m s with
  | (Fail e, s') => if is_SkipDir e && d.(de_IsDir) then (Ret tt, s') else (Fail e, s')
  | r => r
  end.

(** The loop over the entries of a directory: SkipDir ends it. *)
Fixpoint walk_entries (walk : bytes → DirEntry → M W unit) (name : bytes) (dirs : list DirEntry) : M W unit :=
  match dirs with
  | [] => ret tt
  | d1 :: dirs' => λ s,
    match walk (path_Join name d1.(de_Name)) d1 s with
    | (Ret _, s') => walk_entries walk name dirs' s'
    | (Fail e, s') => if is_SkipDir e then (Ret tt, s') else (Fail e, s')
    | r => r
    end
  end.

(** [fuel] bounds the depth of the tree. *)
Fixpoint walkDir (fuel : nat) (name : bytes) (d : DirEntry) : M W unit :=
  match fuel with
  | O => nofuel
  | Datatypes.S fuel' => λ s,
    match fn name (Some d) None s with
    | (Ret _, s1) =>
      if negb d.(de_IsDir) then (Ret tt, s1)
      else
        let '(dirs, err) := fsys.(fs_ReadDir) name in
        match err with
        | None => walk_entries (walkDir fuel') name dirs s1
        | Some e =>
          match fn name (Some d) (Some e) s1 with
          | (Ret _, s2) => walk_entries (walkDir fuel') name dirs s2
          | r => skipped d (λ _, r) s1
          end
        end
    | r => skipped d (λ _, r) s
    end
  end.

Definition WalkDir (fuel : nat) (root : bytes) : M W unit := λ s,
  match (match fsys.(fs_Stat) root with
         | Ret info => walkDir fuel root (FileInfoToDirEntry root info)
         | Fail e => fn root None (Some e)
         | Panic => panic
         | NoFuel => nofuel
         end) s with
  | (Fail e, s') => if is_SkipDir e || is_SkipAll e then (Ret tt, s') else (Fail e, s')
  | r => r
  end.
End WalkDir.

(** ** transferState.walk *)

(** [time.Time.IsZero]: January 1, year 1. *)
Definition zero_Sec : Z := -62135596800.
Definition is_zero_time (info : FileInfo) : bool := (info.(fi_Sec) =? zero_Sec) && (info.(fi_Nsec) =? 0).

(** What the callback makes of one file; [now] is the clock when it runs. *)
Definition walk_entry (fsys : fs_FS) (now : bytes → Z * Z) (path : bytes) (info : FileInfo) : fileEntry :=
  let sys := default (mk_Stat_t 0 0 0 0 0) info.(fi_Sys) in
  let '(sec, nsec) := if is_zero_time info then now path else (info.(fi_Sec), info.(fi_Nsec)) in
  let target :=
    if mode_Type info.(fi_Mode) =? ModeSymlink then
      match fsys.(fs_ReadLink) with
      | Some readLink => match readLink path with Ret target => target | _ => [] end
      | None => []
      end
    else [] in
  mk_fileEntry path info.(fi_Mode) info.(fi_Size) sec nsec target sys.(st_Uid) sys.(st_Gid)
    (i64 sys.(st_Dev)) (i64 sys.(st_Ino)) (i64 sys.(st_Nlink)).

(** The callback; the state is [raw]. *)
Definition walk_fn (fsys : fs_FS) (now : bytes → Z * Z) (path : bytes) (d : option DirEntry) (err : option error) :
    M (list fileEntry) unit :=
  match err, d with
  | Some e, _ => fail e
  | None, None => panic
  | None, Some d =>
    match d.(de_Info) with
    | Ret info => λ raw, (Ret tt, raw ++ [walk_entry fsys now path info])
    | Fail e => fail e
    | Panic => panic
    | NoFuel => nofuel
    end
  end.

(** What the walk collects, before the sort. *)
Definition collect (fuel : nat) (fsys : fs_FS) (now : bytes → Z * Z) : outcome (list fileEntry) :=
  match WalkDir fsys (walk_fn fsys now) fuel (str ".") [] with
  | (Ret _, raw) => Ret raw
  | (Fail e, _) => Fail e
  | (Panic, _) => Panic
  | (NoFuel, _) => NoFuel
  end.

(** ** File systems that are trees *)

(** A file, or a directory with its entries in the order ReadDir lists them. *)
Inductive node :=
  | Leaf (info : FileInfo)
  | Dir (info : FileInfo) (children : list (bytes * node)).

Section node_induction.
Context (P : node → Prop) (PLeaf : ∀ i, P (Leaf i)) (PDir : ∀ i cs, Forall (λ c, P c.2) cs → P (Dir i cs)).
Fixpoint node_induction (t : node) : P t :=
  match t with
  | Leaf i => PLeaf i
  | Dir i cs => PDir i cs ((fix go cs : Forall (λ c, P c.2) cs :=
                              match cs with [] => Forall_nil_2 _ | c :: cs' => Forall_cons_2 _ _ _ (node_induction c.2) (go cs') end) cs)
  end.
End node_induction.

Definition node_info (t : node) : FileInfo := match t with Leaf i => i | Dir i _ => i end.
Definition node_isDir (t : node) : bool := match t with Leaf _ => false | Dir _ _ => true end.

(** The path with the given elements. *)
Definition path_of (elems : list bytes) : bytes := match elems with [] => str "." | _ => join elems end.

(** A name of a directory entry. *)
Definition elem_ok (n : bytes) : Prop := n ≠ [] ∧ n ≠ str "." ∧ n ≠ str ".." ∧ no_slash n.

Fixpoint depth (t : node) : nat :=
  match t with
  | Leaf _ => 1
  | Dir _ cs => Datatypes.S (foldr (λ c m, depth c.2 `max` m)%nat 0%nat cs)
  end.

(** [fsys] holds the tree [t] at the path [es]. *)
Fixpoint holds (fsys : fs_FS) (es : list bytes) (t : node) : Prop :=
  match t with
  | Leaf i => mode_IsDir i.(fi_Mode) = false
  | Dir i cs =>
    mode_IsDir i.(fi_Mode) = true ∧
    fsys.(fs_ReadDir) (path_of es) = ((λ c, mk_DirEntry c.1 (node_isDir c.2) (Ret (node_info c.2))) <$> cs, None) ∧
    NoDup cs.*1 ∧ foldr (λ c P, elem_ok c.1 ∧ holds fsys (es ++ [c.1]) c.2 ∧ P) True cs
  end.

(** The files of the tree, each directory before its entries. *)
Fixpoint files (es : list bytes) (t : node) : list (list bytes * FileInfo) :=
  match t with
  | Leaf i => [(es, i)]
  | Dir i cs => (es, i) :: foldr (λ c l, files (es ++ [c.1]) c.2 ++ l) [] cs
  end.

(** ** Paths *)
Lemma joined_cons w ws : ws ≠ [] → join (w :: ws) = w ++ slash :: join ws.
Proof. by destruct ws. Qed.

Lemma join_snoc ws w : ws ≠ [] → join (ws ++ [w]) = join ws ++ slash :: w.
Proof.
  induction ws as [|x ws IH]; intros H; [done|]. destruct ws as [|y ws]; [done|].
  change ((x :: y :: ws) ++ [w]) with (x :: ((y :: ws) ++ [w])). rewrite (joined_cons x (y :: ws)), joined_cons by done.
  rewrite IH by done. by rewrite <-app_assoc.
Qed.

Lemma Split_word w : no_slash w → Split w = [w].
Proof.
  induction w as [|c w IH]; [done|]. intros [Hc Hw]%not_elem_of_cons. cbn [Split].
  destruct (Z.eqb_spec c slash) as [->|_]; [done|]. by rewrite IH.
Qed.

Lemma Split_app w s : no_slash w → Split (w ++ slash :: s) = w :: Split s.
Proof.
  induction w as [|c w IH]; [done|]. intros [Hc Hw]%not_elem_of_cons. cbn [Split app].
  destruct (Z.eqb_spec c slash) as [->|_]; [done|]. by rewrite IH.
Qed.

Lemma Split_join ws : ws ≠ [] → Forall (λ w, no_slash w) ws → Split (join ws) = ws.
Proof.
  intros Hne Hw. induction Hw as [|w ws Hw Hws IH]; [done|]. destruct ws as [|y ws]; [by apply Split_word|].
  rewrite joined_cons, Split_app by done. by rewrite IH.
Qed.

Lemma elem_no_slash es : Forall elem_ok es → Forall (λ w, no_slash w) es.
Proof. intros H. eapply Forall_impl; [exact H|]. by intros w (_ & _ & _ & ?). Qed.

Lemma clean_elems_ok rooted es stack : Forall elem_ok es → clean_elems rooted es stack = reverse stack ++ es.
Proof.
  intros H. revert stack. induction H as [|e es (H1 & H2 & H3 & _) _ IH]; intros stack; cbn [clean_elems]; [by rewrite app_nil_r|].
  rewrite !bool_decide_false by done. cbn [orb]. rewrite IH, reverse_cons. by rewrite <-app_assoc.
Qed.

Lemma join_head e es : elem_ok e → ∃ c s, join (e :: es) = c :: s ∧ c ≠ slash.
Proof.
  intros (Hne & _ & _ & Hs). destruct e as [|c e]; [done|]. exists c.
  destruct es as [|y es]; [exists e|exists (e ++ slash :: join (y :: es))]; (split; [done|]); intros ->; apply Hs; left.
Qed.

Lemma Clean_elems es : es ≠ [] → Forall elem_ok es → Clean (join es) = join es.
Proof.
  intros Hne Hok. unfold Clean. rewrite Split_join by (done || by apply elem_no_slash). rewrite clean_elems_ok by done.
  destruct es as [|e es]; [done|]. apply Forall_cons in Hok as [He _]. destruct (join_head e es He) as (c & s & E & Hc).
  assert (HasPrefix (join (e :: es)) [slash] = false) as ->.
  { rewrite E, HasPrefix_byte. lia. }
  change (reverse [] ++ e :: es) with (e :: es). cbn [app]. by rewrite E.
Qed.

Lemma path_of_snoc es n : Forall elem_ok es → elem_ok n → path_Join (path_of es) n = path_of (es ++ [n]).
Proof.
  intros Hes Hn. pose proof Hn as (Hne & _ & _ & Hs). destruct es as [|e es].
  - cbn [path_of app]. change (path_Join (str ".") n) with (Clean (str "." ++ slash :: n)). unfold Clean.
    rewrite Split_app, Split_word; [|done|apply (bool_decide_unpack _); by vm_compute].
    change (clean_elems (HasPrefix (str "." ++ slash :: n) [slash]) (str "." :: [n]) []) with (clean_elems false [n] []).
    rewrite clean_elems_ok by (by apply Forall_singleton). cbn. by destruct n.
  - assert (Forall elem_ok ((e :: es) ++ [n])) as Hall by (apply Forall_app; split; [done|by apply Forall_singleton]).
    cbn [path_of]. destruct (join_head e es) as (c & s & E & _); [by apply Forall_cons in Hes as [? _]|].
    unfold path_Join. rewrite E, <-E. change ([slash] ++ n) with (slash :: n).
    rewrite <-join_snoc by done. by apply Clean_elems.
Qed.

Lemma path_of_inj es es' : Forall elem_ok es → Forall elem_ok es' → path_of es = path_of es' → es = es'.
Proof.
  assert (∀ es, Forall elem_ok es → join es ≠ str ".") as Hdot.
  { intros l Hl E. destruct l as [|x l]; [done|].
    pose proof (Split_join (x :: l) ltac:(done) (elem_no_slash _ Hl)) as Hj. rewrite E in Hj. vm_compute in Hj. simplify_eq.
    apply Forall_cons in Hl as [(_ & ? & _) _]. done. }
  intros H H' E. destruct es as [|x l], es' as [|x' l']; cbn [path_of] in E; [done|by destruct (Hdot _ H')|by destruct (Hdot _ H)|].
  rewrite <-(Split_join (x :: l)), <-(Split_join (x' :: l')) by (done || by apply elem_no_slash). by rewrite E.
Qed.

Lemma path_of_ok es : Forall elem_ok es → path_ok (path_of es).
Proof.
  intros H. destruct es as [|x l]; [by left|]. right. cbn [path_of].
  rewrite Split_join by (done || by apply elem_no_slash). intros Hin. rewrite Forall_forall in H.
  by destruct (H _ Hin) as (_ & ? & _).
Qed.

(** ** The walk of a tree *)
Section tree.
Context (fsys : fs_FS) (now : bytes → Z * Z).

Definition entry_at (f : list bytes * FileInfo) : fileEntry := walk_entry fsys now (path_of f.1) f.2.

Lemma walk_entries_tree fuel es cs raw : Forall elem_ok es →
  (∀ c raw, c ∈ cs → elem_ok c.1 ∧ holds fsys (es ++ [c.1]) c.2 ∧
     ∀ d, d.(de_IsDir) = node_isDir c.2 → d.(de_Info) = Ret (node_info c.2) →
       walkDir fsys (walk_fn fsys now) fuel (path_of (es ++ [c.1])) d raw =
         (Ret tt, raw ++ (entry_at <$> files (es ++ [c.1]) c.2))) →
  walk_entries (walkDir fsys (walk_fn fsys now) fuel) (path_of es)
    ((λ c, mk_DirEntry c.1 (node_isDir c.2) (Ret (node_info c.2))) <$> cs) raw =
  (Ret tt, raw ++ (entry_at <$> foldr (λ c l, files (es ++ [c.1]) c.2 ++ l) [] cs)).
Proof.
  intros Hes. revert raw. induction cs as [|c cs IH]; intros raw Hc; cbn [fmap list_fmap walk_entries foldr]; [by rewrite app_nil_r|].
  destruct (Hc c raw) as (Hn & _ & Hw); [left|]. cbn [de_Name]. rewrite path_of_snoc by done. rewrite Hw by done.
  rewrite IH; [|intros c' raw' ?; apply Hc; by right]. by rewrite fmap_app, <-app_assoc.
Qed.

Lemma holds_child es cs c : foldr (λ c P, elem_ok c.1 ∧ holds fsys (es ++ [c.1]) c.2 ∧ P) True cs → c ∈ cs →
  elem_ok c.1 ∧ holds fsys (es ++ [c.1]) c.2.
Proof.
  induction cs as [|c' cs IH]; intros H Hin; [by apply elem_of_nil in Hin|].
  destruct H as (? & ? & H). apply elem_of_cons in Hin as [->|Hin]; [done|by apply IH].
Qed.

Lemma depth_child (cs : list (bytes * node)) c : c ∈ cs → (depth c.2 ≤ foldr (λ c m, depth c.2 `max` m) 0 cs)%nat.
Proof. induction cs as [|c' cs IH]; intros Hin; [by apply elem_of_nil in Hin|]. apply elem_of_cons in Hin as [<-|Hin]; cbn; [lia|]. specialize (IH Hin). lia. Qed.

Lemma walkDir_tree fuel t es d raw : Forall elem_ok es → holds fsys es t → (depth t ≤ fuel)%nat →
  d.(de_IsDir) = node_isDir t → d.(de_Info) = Ret (node_info t) →
  walkDir fsys (walk_fn fsys now) fuel (path_of es) d raw = (Ret tt, raw ++ (entry_at <$> files es t)).
Proof.
  revert t es d raw. induction fuel as [|fuel IH]; intros t es d raw Hes Ht Hf Hd Hi; [by destruct t; simpl in Hf; lia|].
  cbn [walkDir]. unfold walk_fn at 1. rewrite Hi, Hd. destruct t as [i|i cs]; cbn [node_isDir node_info negb]; [done|].
  destruct Ht as (_ & -> & _ & Hc). rewrite walk_entries_tree; [by cbn; rewrite <-app_assoc|done|].
  intros c raw' Hin. destruct (holds_child es cs c Hc Hin) as [Hn Hh]. split_and!; [done|done|]. intros d' Hd' Hi'.
  apply IH; auto.
  - apply Forall_app. split; [done|by apply Forall_singleton].
  - cbn in Hf. pose proof (depth_child cs c Hin). lia.
Qed.

Lemma collect_tree fuel t : fsys.(fs_Stat) (str ".") = Ret (node_info t) → mode_IsDir (fi_Mode (node_info t)) = node_isDir t →
  holds fsys [] t → (depth t ≤ fuel)%nat → collect fuel fsys now = Ret (entry_at <$> files [] t).
Proof.
  intros Hst Hd Ht Hf. unfold collect, WalkDir. rewrite Hst.
  pose proof (walkDir_tree fuel t [] (FileInfoToDirEntry (str ".") (node_info t)) []) as Hw. cbn [path_of] in Hw.
  by rewrite Hw.
Qed.

(** ** The names the walk collects *)
Lemma files_below es cs f : f ∈ foldr (λ c l, files (es ++ [c.1]) c.2 ++ l) [] cs ↔ ∃ c, c ∈ cs ∧ f ∈ files (es ++ [c.1]) c.2.
Proof.
  induction cs as [|c cs IH]; cbn; [split; [by intros ?%elem_of_nil|by intros (? & ?%elem_of_nil & _)]|].
  rewrite elem_of_app, IH. setoid_rewrite elem_of_cons. naive_solver.
Qed.

Lemma files_prefix t es f : f ∈ files es t → es `prefix_of` f.1.
Proof.
  revert es. induction t as [i|i cs IH] using node_induction; intros es; cbn [files].
  - by intros ->%list_elem_of_singleton.
  - rewrite elem_of_cons, files_below. intros [->|(c & Hc & Hf)]; [done|]. rewrite Forall_forall in IH.
    etransitivity; [|by apply (IH c Hc (es ++ [c.1]))]. by eexists.
Qed.

Lemma files_elems t es f : Forall elem_ok es → holds fsys es t → f ∈ files es t →
  Forall elem_ok f.1 ∧ (f.1 = [] → f.2 = node_info t).
Proof.
  revert es. induction t as [i|i cs IH] using node_induction; intros es Hes Ht; cbn [files].
  - by intros ->%list_elem_of_singleton.
  - rewrite elem_of_cons, files_below. intros [->|(c & Hc & Hf)]; [done|]. rewrite Forall_forall in IH.
    destruct Ht as (_ & _ & _ & Hch). destruct (holds_child es cs c Hch Hc) as [Hn Hh].
    destruct (IH c Hc (es ++ [c.1])) as [? _]; auto; [apply Forall_app; split; [done|by apply Forall_singleton]|].
    split; [done|]. intros E. destruct (files_prefix _ _ _ Hf) as [k Ek]. rewrite E in Ek. by destruct es.
Qed.

Lemma files_NoDup t es : holds fsys es t → NoDup (files es t).*1.
Proof.
  revert es. induction t as [i|i cs IH] using node_induction; intros es Ht; cbn [files fmap list_fmap]; [apply NoDup_singleton|].
  destruct Ht as (_ & _ & Hnd & Hch). apply NoDup_cons. split.
  - intros (f & Ef & (c & _ & Hf)%files_below)%list_elem_of_fmap. destruct (files_prefix _ _ _ Hf) as [k Ek]. rewrite <-Ef in Ek.
    apply (f_equal length) in Ek. rewrite !length_app in Ek. simpl in Ek. lia.
  - induction cs as [|c cs IHc]; cbn; [constructor|]. apply Forall_cons in IH as [Hc IH]. apply NoDup_cons in Hnd as [Hni Hnd].
    destruct Hch as (_ & Hh & Hch). rewrite fmap_app. apply NoDup_app. split_and!; [by apply Hc| |by apply IHc].
    intros x (f & -> & Hf)%list_elem_of_fmap (f' & E & (c' & Hc' & Hf')%files_below)%list_elem_of_fmap.
    destruct (files_prefix _ _ _ Hf) as [k Ek]. destruct (files_prefix _ _ _ Hf') as [k' Ek'].
    rewrite E, Ek', <-!app_assoc in Ek. apply app_inj_1 in Ek as [_ [= E1 _]]; [|done].
    apply Hni. rewrite <-E1. apply list_elem_of_fmap. by exists c'.
Qed.

(** The names are distinct and the file list can order them. *)
Lemma collect_names t : holds fsys [] t → names_ok f_name (entry_at <$> files [] t).
Proof.
  intros Ht. split.
  - assert (f_name <$> (entry_at <$> files [] t) = path_of <$> (files [] t).*1) as ->.
    { rewrite <-!list_fmap_compose. apply list_fmap_ext. intros k f _. cbn. unfold entry_at, walk_entry. by case_match. }
    apply NoDup_fmap_2_strong; [|by apply files_NoDup].
    intros x y (f & -> & Hf)%list_elem_of_fmap (f' & -> & Hf')%list_elem_of_fmap.
    apply path_of_inj; by eapply files_elems.
  - apply Forall_fmap, Forall_forall. intros f Hf. cbn. unfold entry_at, walk_entry. case_match. cbn.
    apply path_of_ok. by eapply files_elems.
Qed.
End tree.

(** What is to be listed of the file at [path] with the FileInfo [info]: mode and
    size as they are; the modification time, or the clock's when it is the zero
    time; the target of a symbolic link when the file system can read it and no
    target otherwise; owner, group, device, inode and link count of the stat
    structure, as 64-bit integers, or zeros when there is none. *)
Record describes (fsys : fs_FS) (now : bytes → Z * Z) (path : bytes) (info : FileInfo) (e : fileEntry) : Prop := {
  describes_name : e.(f_name) = path;
  describes_mode : e.(f_mode) = info.(fi_Mode);
  describes_size : e.(f_size) = info.(fi_Size);
  describes_time : ¬ (info.(fi_Sec) = -62135596800 ∧ info.(fi_Nsec) = 0) → e.(f_sec) = info.(fi_Sec) ∧ e.(f_nsec) = info.(fi_Nsec);
  describes_zero_time : info.(fi_Sec) = -62135596800 → info.(fi_Nsec) = 0 → (e.(f_sec), e.(f_nsec)) = now path;
  describes_link rl target : mode_Type info.(fi_Mode) = ModeSymlink → fsys.(fs_ReadLink) = Some rl → rl path = Ret target →
    e.(f_linkTarget) = target;
  describes_bad_link rl err : fsys.(fs_ReadLink) = Some rl → rl path = Fail err → e.(f_linkTarget) = [];
  describes_no_link : mode_Type info.(fi_Mode) ≠ ModeSymlink ∨ fsys.(fs_ReadLink) = None → e.(f_linkTarget) = [];
  describes_stat sys : info.(fi_Sys) = Some sys →
    e.(f_uid) = sys.(st_Uid) ∧ e.(f_gid) = sys.(st_Gid) ∧
    e.(f_dev) = i64 sys.(st_Dev) ∧ e.(f_ino) = i64 sys.(st_Ino) ∧ e.(f_nlink) = i64 sys.(st_Nlink);
  describes_no_stat : info.(fi_Sys) = None →
    e.(f_uid) = 0 ∧ e.(f_gid) = 0 ∧ e.(f_dev) = 0 ∧ e.(f_ino) = 0 ∧ e.(f_nlink) = 0;
}.

Lemma walk_entry_describes fsys now path info : describes fsys now path info (walk_entry fsys now path info).
Proof.
  unfold walk_entry. destruct (if is_zero_time info then now path else (fi_Sec info, fi_Nsec info)) as [sec nsec] eqn:Et.
  unfold is_zero_time, zero_Sec in Et.
  split; cbn; try done.
  - intros Hnz. replace ((fi_Sec info =? -62135596800) && (fi_Nsec info =? 0)) with false in Et by lia. by simplify_eq.
  - intros E1 E2. rewrite E1, E2 in Et. by simplify_eq.
  - intros rl target Hm Hrl E. by rewrite Hm, Hrl, E.
  - intros rl err Hrl E. rewrite Hrl, E. by destruct (mode_Type (fi_Mode info) =? ModeSymlink).
  - intros [Hm| ->]; [|by destruct (mode_Type (fi_Mode info) =? ModeSymlink)]. by destruct (Z.eqb_spec (mode_Type (fi_Mode info)) ModeSymlink).
  - by intros sys ->.
  - by intros ->.
Qed.

(** C7: The walk lists the module. On a file system that holds a directory tree
    (entries with distinct proper names, FileInfo and directory flags that
    agree), with fuel for its depth, walk collects exactly one entry per file and
    directory of the tree, each directory before its entries and these in
    ReadDir's order, and each entry describes its file: the slash-separated path
    ("." for the root), mode, size and time of the FileInfo, the target of a
    readable symbolic link, and the stat structure's owner, group, device, inode
    and link count. The names are pairwise distinct and every one is a valid file
    list name. *)
Theorem walk_tree fsys now fuel i cs : fsys.(fs_Stat) (str ".") = Ret i → holds fsys [] (Dir i cs) → (depth (Dir i cs) ≤ fuel)%nat →
  ∃ raw, collect fuel fsys now = Ret raw ∧
    Forall2 (λ f e, describes fsys now (path_of f.1) f.2 e) (files [] (Dir i cs)) raw ∧ names_ok f_name raw.
Proof.
  intros Hst Ht Hf. exists (entry_at fsys now <$> files [] (Dir i cs)). split_and!; [|..|by apply collect_names].
  - apply collect_tree; [done| |done|done]. cbn. apply Ht.
  - apply Forall2_fmap_r, Forall_Forall2_diag, Forall_forall. intros f _. apply walk_entry_describes.
Qed.

(** A module with a directory, a link in it and a file. *)
Definition example_info (mode : Z) : FileInfo := mk_FileInfo mode 12 1700000000 5 (Some (mk_Stat_t 1000 100 5 77 1)).
Definition example_tree : node :=
  Dir (example_info (Z.lor ModeDir 0x1ED))
    [(str "a.txt", Leaf (example_info 0x1A4));
     (str "sub", Dir (example_info (Z.lor ModeDir 0x1ED)) [(str "link", Leaf (example_info (Z.lor ModeSymlink 0x1FF)))])].
Definition entries_of (cs : list (bytes * node)) : list DirEntry :=
  (λ c, mk_DirEntry c.1 (node_isDir c.2) (Ret (node_info c.2))) <$> cs.
Definition example_module_fs : fs_FS :=
  mk_fs_FS (λ name, if bool_decide (name = str ".") then Ret (node_info example_tree) else Fail (Errorf "stat" name))
    (λ name, if bool_decide (name = str ".") then
               match example_tree with Dir _ cs => (entries_of cs, None) | _ => ([], None) end
             else if bool_decide (name = str "sub") then
               (entries_of [(str "link", Leaf (example_info (Z.lor ModeSymlink 0x1FF)))], None)
             else ([], Some (Errorf "readdir" name)))
    (Some (λ name, Ret (str "../a.txt")))
    (λ name, if bool_decide (name = str "a.txt") then Ret (Ret (str "hello, world")) else Fail (Errorf "open" name)).

Lemma example_holds : holds example_module_fs [] example_tree.
Proof.
  assert (∀ n, elem_ok (str n) ↔ bool_decide (str n ≠ [] ∧ str n ≠ str "." ∧ str n ≠ str ".." ∧ slash ∉ str n) = true) as He.
  { intros n. symmetry. apply bool_decide_eq_true. }
  cbn [holds example_tree foldr fst snd app fmap list_fmap].
  split_and!; try done; try (by vm_compute); try (apply He; by vm_compute); apply (bool_decide_unpack _); by vm_compute.
Qed.

Lemma walk_tree_witness :
  ∃ raw : list fileEntry, collect 3 example_module_fs (λ _, (0, 0)) = Ret raw ∧
    Forall2 (λ f e, describes example_module_fs (λ _, (0, 0)) (path_of f.1) f.2 e) (files [] example_tree) raw ∧ names_ok f_name raw.
Proof. apply walk_tree; [done|exact example_holds|by vm_compute]. Defined.

Example walk_runs :
  match collect 3 example_module_fs (λ _, (0, 0)) with
  | Ret raw => f_name <$> raw = [str "."; str "a.txt"; str "sub"; str "sub/link"] ∧
               f_linkTarget <$> raw = [[]; []; []; str "../a.txt"]
  | _ => False
  end.
Proof. by vm_compute. Qed.
