(* ===== verification/Args.v ===== *)
(** * Client arguments and compatibility flags (protocol/args.go)

    The argument list of the client in both delimiter styles, the options the
    server picks out of it, and the intersection of the two ends' features.
    Scanning a string by rune for ASCII letters is scanning its bytes: no byte
    of a multi-byte rune is ASCII. *)
From S2P Require Import Prelude.
From S2P Require Import GoIO.
From S2P Require Import GoStrings.
From S2P Require Import WireInt.
#[local] Open Scope Z_scope.
#[local] Open Scope go_scope.

(** ** Definitions *)
Definition CompatIncRecurse : Z := Z.shiftl 1 0.
Definition CompatSymlinkTimes : Z := Z.shiftl 1 1.
Definition CompatSymlinkIconv : Z := Z.shiftl 1 2.
Definition CompatSafeFlist : Z := Z.shiftl 1 3.
Definition CompatAvoidXattrOptim : Z := Z.shiftl 1 4.
Definition CompatChksumSeedFix : Z := Z.shiftl 1 5.
Definition CompatInplacePartialDir : Z := Z.shiftl 1 6.
Definition CompatVarintFlistFlags : Z := Z.shiftl 1 7.
Definition CompatId0Names : Z := Z.shiftl 1 8.

Definition args_delim (version : Z) : byte := if 30 <=? version then 0 else 10.

Section io.
Context {S : Type}.

Definition readOne (r : io_Reader S) : M S Z :=
  let* buf := ReadFull r 1 in
  ret (buf !!! 0%nat).
Definition writeOne (w : io_Writer S) (b : byte) : M S unit := Write w [b].

(** The loop, with the finished arguments and the one being read; every round
    consumes a byte. *)
Fixpoint readDelimitedArgs (fuel : nat) (r : io_Reader S) (delim : byte) (args : list bytes) (current : bytes)
  : M S (list bytes) :=
  match fuel with
  | O => nofuel
  | Datatypes.S fuel' =>
    let* b := readOne r in
    if b =? delim then
      if Z.of_nat (length current) =? 0 then ret args
      else readDelimitedArgs fuel' r delim (args ++ [current]) []
    else readDelimitedArgs fuel' r delim args (current ++ [b])
  end.

Definition ReadArgs (fuel : nat) (r : io_Reader S) (version : Z) : M S (list bytes) :=
  readDelimitedArgs fuel r (args_delim version) [] [].

Definition WriteArgs (w : io_Writer S) (args : list bytes) (version : Z) : M S unit :=
  let delim := args_delim version in
  for_each args (λ arg, Write w arg ;;; writeOne w delim) ;;;
  (if Z.of_nat (length args) =? 0 then writeOne w delim else ret tt) ;;;
  writeOne w delim.
End io.

(** What follows the first [c] of [s]; [None] when there is none
    ([strings.IndexByte] returning -1). *)
Fixpoint after_byte (s : bytes) (c : byte) : option bytes :=
  match s with
  | [] => None
  | x :: s' => if x =? c then Some s' else after_byte s' c
  end.

Definition is_short_option (arg : bytes) : bool := HasPrefix arg (str "-") && negb (HasPrefix arg (str "--")).

Fixpoint ExtractClientInfo (args : list bytes) : bytes :=
  match args with
  | [] => []
  | arg :: args' =>
    if negb (is_short_option arg) then ExtractClientInfo args' else
    match after_byte arg 101 with
    | Some (c :: rest) => c :: rest
    | _ => ExtractClientInfo args'
    end
  end.

(** The switch of ExtractPreserveFlags over one argument. *)
Definition preserve_step (flags : bool * bool * bool) (ch : byte) : bool * bool * bool :=
  let '(uid, gid, hlinks) := flags in
  if ch =? 111 then (true, gid, hlinks)
  else if ch =? 103 then (uid, true, hlinks)
  else if ch =? 72 then (uid, gid, true)
  else (uid, gid, hlinks).

Definition ExtractPreserveFlags (args : list bytes) : bool * bool * bool :=
  foldl (λ flags arg, if negb (is_short_option arg) then flags else foldl preserve_step flags arg)
    (false, false, false) args.

(** The flag of a feature letter; [None] is the default case. *)
Definition compat_flag (ch : byte) : option Z :=
  if ch =? 105 then Some CompatIncRecurse
  else if ch =? 76 then Some CompatSymlinkTimes
  else if ch =? 115 then Some CompatSymlinkIconv
  else if ch =? 102 then Some CompatSafeFlist
  else if ch =? 120 then Some CompatAvoidXattrOptim
  else if ch =? 67 then Some CompatChksumSeedFix
  else if ch =? 73 then Some CompatInplacePartialDir
  else if ch =? 118 then Some CompatVarintFlistFlags
  else if ch =? 117 then Some CompatId0Names
  else None.

Definition compat_step (serverCaps : Z) (flags : Z) (ch : byte) : Z :=
  match compat_flag ch with
  | None => flags
  | Some flag => if has serverCaps flag then Z.lor flags flag else flags
  end.
Definition ResolveCompatFlags (serverCaps : Z) (clientInfo : bytes) : Z :=
  foldl (compat_step serverCaps) 0 clientInfo.

(** ** The argument list crosses the wire *)
Definition arg_ok (version : Z) (arg : bytes) : Prop := arg ≠ [] ∧ args_delim version ∉ arg.

Section codec.
Context {S : Type} (w : io_Writer S) `{!WriterSpec w}.
Context {T : Type} (r : io_Reader T) `{!ReaderSpec r}.

Definition args_bytes (delim : byte) (args : list bytes) : bytes := concat ((λ a, a ++ [delim]) <$> args).

Lemma WriteArgs_ok args version :
  emits w (WriteArgs w args version)
    (args_bytes (args_delim version) args ++ (if decide (args = []) then [args_delim version] else []) ++ [args_delim version]).
Proof.
  apply emits_seq.
  - apply emits_for_each. intros a _. apply emits_seq; apply emits_write.
  - apply emits_seq; [|apply emits_write]. destruct args; [apply emits_write|apply emits_ret].
Qed.

Lemma readOne_ok b : parses r (readOne r) [b] b.
Proof. eapply parses_bind_r; [by apply ReadFull_ok|]. apply parses_ret. Qed.

(** One argument and its delimiter. *)
Lemma read_arg_ok delim arg : ∀ fuel args current bs v, delim ∉ arg → current ++ arg ≠ [] →
  parses r (readDelimitedArgs fuel r delim (args ++ [current ++ arg]) []) bs v →
  parses r (readDelimitedArgs (length arg + 1 + fuel) r delim args current) ((arg ++ [delim]) ++ bs) v.
Proof.
  induction arg as [|c arg IH]; intros fuel args current bs v Hd Hne Hk.
  - cbn [length Nat.add readDelimitedArgs app]. rewrite app_nil_r in *.
    apply (parses_bind r _ _ [delim] bs _ _ (readOne_ok delim)). rewrite Z.eqb_refl.
    destruct (Z.eqb_spec (Z.of_nat (length current)) 0); [destruct current; simpl in *; lia||done|done].
  - cbn [length Nat.add readDelimitedArgs]. apply not_elem_of_cons in Hd as [Hc Hd].
    apply (parses_bind r _ _ [c] ((arg ++ [delim]) ++ bs) _ _ (readOne_ok c)).
    destruct (Z.eqb_spec c delim) as [->|]; [done|]. apply IH; [done| |].
    + intros E. apply app_eq_nil in E as [E _]. by apply app_eq_nil in E as [_ ?].
    + by rewrite <-app_assoc.
Qed.

Lemma read_args_ok delim l : ∀ fuel args, Forall (λ a, a ≠ [] ∧ delim ∉ a) l →
  (length (args_bytes delim l) < fuel)%nat →
  parses r (readDelimitedArgs fuel r delim args []) (args_bytes delim l ++ [delim]) (args ++ l).
Proof.
  induction l as [|a l IH]; intros fuel args Hok Hf.
  - destruct fuel as [|fuel]; [simpl in Hf; lia|]. cbn [readDelimitedArgs args_bytes fmap list_fmap concat app].
    apply (parses_bind_r r _ _ [delim] _ _ (readOne_ok delim)). rewrite Z.eqb_refl, app_nil_r. apply parses_ret.
  - apply Forall_cons in Hok as [[Hne Hd] Hok]. unfold args_bytes in *. cbn [fmap list_fmap concat] in *.
    rewrite !length_app in Hf. simpl in Hf.
    replace fuel with (length a + 1 + (fuel - length a - 1))%nat by lia. rewrite <-app_assoc.
    apply read_arg_ok; [done|done|]. cbn [app]. replace (args ++ a :: l) with ((args ++ [a]) ++ l) by by rewrite <-app_assoc.
    apply IH; [done|lia].
Qed.
End codec.

(** C29: The argument list round-trips. A non-empty list of non-empty arguments
    free of the version's delimiter, written with WriteArgs, is what ReadArgs
    returns, consuming exactly the bytes written; an empty list is read back as
    empty, but WriteArgs sends two delimiters for it and ReadArgs stops behind
    the first, so one delimiter byte stays in the stream. *)
Theorem args_roundtrip {S T} (w : io_Writer S) `{!WriterSpec w} (r : io_Reader T) `{!ReaderSpec r} version args fuel :
  Forall (arg_ok version) args → (length (args_bytes (args_delim version) args) < fuel)%nat →
  ∃ bs rest, emits w (WriteArgs w args version) (bs ++ rest) ∧ parses r (ReadArgs fuel r version) bs args ∧
    rest = if decide (args = []) then [args_delim version] else [].
Proof.
  intros Hok Hf.
  exists (args_bytes (args_delim version) args ++ [args_delim version]), (if decide (args = []) then [args_delim version] else []).
  split_and!; [|by apply (read_args_ok r _ args fuel [])|done].
  pose proof (WriteArgs_ok w args version) as H. destruct (decide (args = [])) as [->|]; [exact H|].
  by rewrite app_nil_r.
Qed.

Lemma args_roundtrip_witness :
  ∃ bs rest, emits conn_writer (WriteArgs conn_writer [str "--server"; str "-logDtpre.iLsfxCIvu"; str "mod/"] 31) (bs ++ rest) ∧
    parses conn_reader (ReadArgs 100 conn_reader 31) bs [str "--server"; str "-logDtpre.iLsfxCIvu"; str "mod/"] ∧ rest = [].
Proof.
  apply (args_roundtrip conn_writer conn_reader 31 [str "--server"; str "-logDtpre.iLsfxCIvu"; str "mod/"] 100).
  - unfold arg_ok. apply (bool_decide_unpack _). by vm_compute.
  - vm_compute. lia.
Defined.

(** ** Features *)
Lemma testbit_compat_step caps flags ch k : 0 ≤ k →
  Z.testbit (compat_step caps flags ch) k =
    Z.testbit flags k || (bool_decide (compat_flag ch = Some (Z.shiftl 1 k)) && Z.testbit caps k).
Proof.
  intros Hk. unfold compat_step.
  assert (∀ f, compat_flag ch = Some f → ∃ j, 0 ≤ j ∧ f = Z.shiftl 1 j) as Hpow.
  { unfold compat_flag. intros f. repeat case_if; intros [=]; subst f; by eexists _; split; [|reflexivity]. }
  destruct (compat_flag ch) as [f|]; [|by rewrite bool_decide_false, orb_false_r].
  destruct (Hpow f eq_refl) as (j & Hj & ->). rewrite has_bit by done.
  destruct (decide (j = k)) as [->|Hne].
  - rewrite bool_decide_true by done. destruct (Z.testbit caps k) eqn:E; cbn [andb].
    + by rewrite Z.lor_spec, Z.shiftl_1_l, Z.pow2_bits_true.
    + by rewrite orb_false_r.
  - rewrite bool_decide_false.
    2:{ intros [= E]. rewrite !Z.shiftl_1_l in E. apply Z.pow_inj_r in E; lia. }
    cbn [andb]. rewrite orb_false_r. case_if; [|done].
    by rewrite Z.lor_spec, Z.shiftl_1_l, Z.pow2_bits_false, orb_false_r by lia.
Qed.

Lemma testbit_compat_foldl caps info flags k : 0 ≤ k →
  Z.testbit (foldl (compat_step caps) flags info) k =
    Z.testbit flags k || (existsb (λ ch, bool_decide (compat_flag ch = Some (Z.shiftl 1 k))) info && Z.testbit caps k).
Proof.
  intros Hk. revert flags. induction info as [|ch info IH]; intros flags; cbn [foldl existsb]; [by rewrite orb_false_r|].
  rewrite IH, testbit_compat_step by done. destruct (Z.testbit flags k), (bool_decide _), (Z.testbit caps k); simpl; try done.
  by rewrite andb_false_r.
Qed.

(** The letters of the compatibility flags, that of bit [k] at position [k]. *)
Definition capability_letters : bytes := str "iLsfxCIvu".

Lemma compat_flag_bit ch k : 0 ≤ k → compat_flag ch = Some (Z.shiftl 1 k) ↔ capability_letters !! Z.to_nat k = Some ch.
Proof.
  intros Hk. destruct (decide (k < 9)) as [Hlt|Hge].
  - assert (capability_letters = [105; 76; 115; 102; 120; 67; 73; 118; 117]) as -> by (by vm_compute).
    assert (k = 0 ∨ k = 1 ∨ k = 2 ∨ k = 3 ∨ k = 4 ∨ k = 5 ∨ k = 6 ∨ k = 7 ∨ k = 8) as Hc by lia.
    unfold compat_flag. destruct_or! Hc; subst k;
      match goal with |- context [Z.to_nat ?a] => let n := eval vm_compute in (Z.to_nat a) in change (Z.to_nat a) with n end; simpl; 
      (split; [repeat case_if; intros E; vm_compute in E; (discriminate E || (f_equal; lia))|intros [= <-]; done]).
  - rewrite (lookup_ge_None_2 capability_letters) by (simpl; lia). split; [|done]. intros E. exfalso.
    assert (2 ^ 9 ≤ Z.shiftl 1 k) as Hbig by (rewrite Z.shiftl_1_l; apply Z.pow_le_mono_r; lia).
    unfold compat_flag in E. revert E. repeat case_if; intros [= E]; rewrite <-E in Hbig; by vm_compute in Hbig.
Qed.

(** C30: Compatibility flags are an intersection. Bit [k] of the result is on
    exactly when the server has it and the client's info string contains its
    letter, in whatever order and however often: i for incremental recursion
    (bit 0), L for symlink times, s for iconv of links, f for the safe file list, x
    for the xattr optimization, C for the checksum seed fix, I for in-place partial
    directories, v for varint file list flags and u for names of id 0 (bit 8). No
    other bit is ever set. *)
Theorem ResolveCompatFlags_spec caps info k : 0 ≤ k →
  Z.testbit (ResolveCompatFlags caps info) k =
    match str "iLsfxCIvu" !! Z.to_nat k with
    | Some letter => bool_decide (letter ∈ info) && Z.testbit caps k
    | None => false
    end.
Proof.
  intros Hk. unfold ResolveCompatFlags. rewrite testbit_compat_foldl, Z.bits_0 by done. cbn [orb]. fold capability_letters.
  destruct (capability_letters !! Z.to_nat k) as [letter|] eqn:El.
  - f_equal. apply eq_bool_prop_intro. rewrite bool_decide_spec. split.
    + intros (ch & Hin & Hch%bool_decide_eq_true)%Is_true_true%existsb_exists. apply compat_flag_bit in Hch; [|done].
      rewrite El in Hch. injection Hch as ->. by apply list_elem_of_In.
    + intros Hin. apply Is_true_true, existsb_exists. exists letter. split; [by apply list_elem_of_In|].
      apply bool_decide_eq_true. by apply compat_flag_bit.
  - assert (existsb (λ ch, bool_decide (compat_flag ch = Some (Z.shiftl 1 k))) info = false) as ->; [|done].
    apply not_true_iff_false. rewrite existsb_exists. intros (ch & _ & Hch%bool_decide_eq_true).
    apply compat_flag_bit in Hch; [|done]. congruence.
Qed.

(** A server without safe file lists, and a client that asks for everything. *)
Lemma ResolveCompatFlags_spec_witness :
  ResolveCompatFlags 0x1FF (str ".iLsfxCIvu") = 0x1FF ∧
  Z.testbit (ResolveCompatFlags 0x1A0 (str ".iLsfxCIvu")) 7 = true ∧
  Z.testbit (ResolveCompatFlags 0x1A0 (str ".iLsfxCIvu")) 3 = false.
Proof.
  split; [by vm_compute|].
  by rewrite (ResolveCompatFlags_spec 0x1A0 (str ".iLsfxCIvu") 7), (ResolveCompatFlags_spec 0x1A0 (str ".iLsfxCIvu") 3).
Defined.
