(* ===== verification/Greet.v ===== *)
(** * The greeting (protocol/greet.go and the line I/O of protocol/handshake.go)

    The text line both ends open a connection with, its parser and printer, and
    the choice of protocol version and digest made from the two greetings. *)
From S2P Require Import Prelude.
From S2P Require Import GoIO.
From S2P Require Import GoStrings.
From S2P Require Import WireInt.
From S2P Require Import Checksum.
From S2P Require Import Args.
#[local] Open Scope Z_scope.
#[local] Open Scope go_scope.

(** ** Definitions *)
Definition MinProtocolVersion : Z := 20.
Definition CurrentProtocolVersion : Z := 32.

Record Greeting := mk_Greeting { Version : Z; SubProtocol : Z; g_Digests : list bytes }.

(** The value or error a function without side effects returns. *)
Definition returned {S A} (o : outcome A) : M S A := λ s, (o, s).

(** The optional subprotocol digit behind the dot. *)
Definition parse_sub (version : Z) (verMinor : option bytes) : outcome Z :=
  match verMinor with
  | Some [c] => if (c <? 48) || (57 <? c) then Fail (Errorf "invalid subprotocol format" [c]) else Ret (u8 (c - 48))
  | Some minor => Fail (Errorf "invalid subprotocol format" minor)
  | None => if 30 <=? version then Fail (Errorf "protocol version omitted the subprotocol value" [version]) else Ret 0
  end.

Definition ParseGreeting (line : bytes) : outcome Greeting :=
  let line := TrimSpace line in
  match CutPrefix line (str "@RSYNCD:") with
  | None => Fail (Errorf "invalid greeting prefix" line)
  | Some afterPrefix =>
    match Fields afterPrefix with
    | [] => Fail (Errorf "greeting missing version information" [])
    | part :: digests =>
      let '(verMajor, verMinor) := Cut part 46 in
      match Atoi verMajor with
      | None => Fail (Errorf "invalid protocol version" verMajor)
      | Some version =>
        match parse_sub version verMinor with
        | Ret sub => Ret (mk_Greeting version sub digests)
        | Fail e => Fail e
        | Panic => Panic
        | NoFuel => NoFuel
        end
      end
    end
  end.

Definition ApplyDefaults (g : Greeting) : Greeting :=
  let g := if g.(Version) =? 0 then mk_Greeting CurrentProtocolVersion 0 g.(g_Digests) else g in
  if Z.of_nat (length g.(g_Digests)) =? 0 then mk_Greeting g.(Version) g.(SubProtocol) SupportedDigests else g.

(** [Greeting.String] *)
Definition Greeting_String (g : Greeting) : bytes :=
  str "@RSYNCD: " ++ format_d g.(Version) ++ [46] ++ format_d g.(SubProtocol)
  ++ (if 0 <? Z.of_nat (length g.(g_Digests)) then [32] ++ Join g.(g_Digests) [32] else []) ++ [10].

(** The version and subprotocol both ends settle on; [version--] wraps. *)
Definition negotiate_version (client server : Greeting) : Z * Z :=
  if server.(Version) <? client.(Version) then
    if negb (server.(SubProtocol) =? 0) then (i64 (server.(Version) - 1), 0)
    else (server.(Version), server.(SubProtocol))
  else if client.(Version) =? server.(Version) then
    if negb (client.(SubProtocol) =? server.(SubProtocol)) then (i64 (client.(Version) - 1), 0)
    else (client.(Version), client.(SubProtocol))
  else
    if negb (client.(SubProtocol) =? 0) then (i64 (client.(Version) - 1), 0)
    else (client.(Version), client.(SubProtocol)).

(** The labelled double loop: the first digest of the client's list that the
    server's list has; empty if there is none. *)
Fixpoint negotiate_digest (client server : list bytes) : bytes :=
  match client with
  | [] => []
  | cd :: client' => if existsb (λ sd, bool_decide (cd = sd)) server then cd else negotiate_digest client' server
  end.

Definition Negotiate (client server : Greeting) : outcome (Z * Z * bytes) :=
  let '(version, subProtocol) := negotiate_version client server in
  if version <? MinProtocolVersion then Fail (Errorf "negotiated protocol version is too low" [version; MinProtocolVersion])
  else
    let digest := negotiate_digest client.(g_Digests) server.(g_Digests) in
    let digest := if bool_decide (digest = []) then (if 30 <=? version then str "md5" else str "md4") else digest in
    Ret (version, subProtocol, digest).

Section io.
Context {S : Type}.

(** The loop of readLine with the bytes read so far; every round consumes one
    byte. *)
Fixpoint read_line_loop (fuel : nat) (r : io_Reader S) (buf : bytes) : M S bytes :=
  match fuel with
  | O => nofuel
  | Datatypes.S fuel' =>
    let* b := readOne r in
    if b =? 10 then ret buf else read_line_loop fuel' r (buf ++ [b])
  end.
Definition readLine (fuel : nat) (r : io_Reader S) : M S bytes := read_line_loop fuel r [].

Definition writeLine (w : io_Writer S) (s : bytes) : M S unit := Write w s ;;; Write w [10].

Definition ReadGreeting (fuel : nat) (r : io_Reader S) : M S Greeting :=
  let* line := wrap "read greeting" (readLine fuel r) in
  returned (ParseGreeting line).

Definition WriteGreeting (w : io_Writer S) (g : Greeting) : M S unit := Write w (Greeting_String g).
End io.

(** ** Lines *)
Section lines.
Context {S : Type} (r : io_Reader S) `{!ReaderSpec r}.

Lemma read_line_loop_ok line : ∀ fuel buf, 10 ∉ line → (length line < fuel)%nat →
  parses r (read_line_loop fuel r buf) (line ++ [10]) (buf ++ line).
Proof.
  induction line as [|c line IH]; intros [|fuel] buf Hn Hf; try (simpl in Hf; lia); cbn [read_line_loop app].
  - apply (parses_bind_r r _ _ [10] _ _ (readOne_ok r 10)). rewrite app_nil_r. apply parses_ret.
  - apply not_elem_of_cons in Hn as [Hc Hn].
    apply (parses_bind r _ _ [c] (line ++ [10]) _ _ (readOne_ok r c)).
    destruct (Z.eqb_spec c 10); [congruence|]. replace (buf ++ c :: line) with ((buf ++ [c]) ++ line) by by rewrite <-app_assoc.
    apply IH; [done|simpl in Hf; lia].
Qed.

Lemma readLine_ok line fuel : 10 ∉ line → (length line < fuel)%nat → parses r (readLine fuel r) (line ++ [10]) line.
Proof. apply (read_line_loop_ok line fuel []). Qed.

Lemma parses_returned {A} (v : A) : parses r (returned (Ret v)) [] v.
Proof. apply parses_ret. Qed.
End lines.

(** ** Parsing what was printed *)

(** A greeting the wire format can carry: an int version, a one-digit
    subprotocol, digest names that are words. *)
Definition greeting_ok (g : Greeting) : Prop :=
  is_i64 g.(Version) ∧ 0 ≤ g.(SubProtocol) ≤ 9 ∧ Forall word g.(g_Digests).
#[global] Instance greeting_ok_dec g : Decision (greeting_ok g).
Proof. unfold greeting_ok, is_i64. apply _. Defined.

(** The words of the line behind the prefix. *)
Definition version_word (g : Greeting) : bytes := format_d g.(Version) ++ [46] ++ [48 + g.(SubProtocol)].

Lemma Greeting_String_words g : 0 ≤ g.(SubProtocol) ≤ 9 →
  Greeting_String g = (str "@RSYNCD:" ++ 32 :: Join (version_word g :: g.(g_Digests)) [32]) ++ [10].
Proof.
  intros Hs. unfold Greeting_String, version_word.
  assert (format_d (SubProtocol g) = [48 + SubProtocol g]) as ->.
  { unfold format_d. destruct (Z.ltb_spec (SubProtocol g) 0); [lia|]. cbn [digits].
    destruct (Z.ltb_spec (SubProtocol g) 10); [done|lia]. }
  change (str "@RSYNCD: ") with (str "@RSYNCD:" ++ [32]).
  destruct (g_Digests g) as [|d l]; [cbn [Join length]; change (0 <? Z.of_nat 0) with false; cbn iota; rewrite <-!app_assoc; cbn [app]; by rewrite <-!app_assoc|].
  change (Join ((format_d (Version g) ++ [46] ++ [48 + SubProtocol g]) :: d :: l) [32])
    with ((format_d (Version g) ++ [46] ++ [48 + SubProtocol g]) ++ [32] ++ Join (d :: l) [32]).
  cbn [length]. destruct (Z.ltb_spec 0 (Z.of_nat (Datatypes.S (length l)))); [|lia].
  rewrite <-!app_assoc. cbn [app]. by rewrite <-!app_assoc.
Qed.

Lemma word_split w : word w → ∃ s c, w = s ++ [c] ∧ graphic c.
Proof.
  intros [Hne Hw]. destruct w as [|c s _] using rev_ind; [done|]. exists s, c. split; [done|].
  apply Forall_app in Hw as [_ Hc]. by inversion Hc.
Qed.

(** A line of words ends in a graphic character. *)
Lemma Join_end l : l ≠ [] → Forall word l → ∃ s c, Join l [32] = s ++ [c] ∧ graphic c.
Proof.
  induction l as [|w [|x l] IH]; intros Hne Hl; [done| |]; apply Forall_cons in Hl as [Hw Hl].
  - by apply word_split.
  - destruct IH as (s & c & E & Hc); [done|done|]. exists (w ++ [32] ++ s), c. split; [|done].
    change (Join (w :: x :: l) [32]) with (w ++ [32] ++ Join (x :: l) [32]). by rewrite E, <-!app_assoc.
Qed.

Lemma Join_no_newline l : Forall word l → 10 ∉ Join l [32].
Proof.
  intros Hl. assert (∀ w, word w → 10 ∉ w) as H10.
  { intros w [_ Hw] Hin. rewrite Forall_forall in Hw. specialize (Hw 10 Hin). unfold graphic in Hw. lia. }
  induction Hl as [|w l Hw Hl IH]; [apply not_elem_of_nil|]. destruct l as [|x l]; [by apply H10|].
  change (Join (w :: x :: l) [32]) with (w ++ 32 :: Join (x :: l) [32]).
  rewrite not_elem_of_app, not_elem_of_cons. auto.
Qed.

Lemma version_word_ok g : 0 ≤ g.(SubProtocol) ≤ 9 → word (version_word g).
Proof.
  intros Hs. destruct (format_d_word (Version g)) as [[_ Hw] _]. split.
  - intros E. by apply app_eq_nil in E as [_ ?].
  - apply Forall_app. split; [done|]. repeat constructor; unfold graphic; lia.
Qed.

Lemma ParseGreeting_String g line : greeting_ok g → Greeting_String g = line ++ [10] → ParseGreeting line = Ret g.
Proof.
  intros (Hv & Hs & Hd) E. rewrite Greeting_String_words in E by done. apply app_inj_tail in E as [<- _].
  pose proof (version_word_ok g Hs) as Hvw.
  destruct (Join_end (version_word g :: g_Digests g)) as (s & c & Ej & Hc); [done|by constructor|].
  unfold ParseGreeting, TrimSpace.
  assert (∀ x, trim_left 0 (str "@RSYNCD:" ++ x) = str "@RSYNCD:" ++ x) as ->.
  { intros x. apply (trim_left_graphic 64). unfold graphic. lia. }
  rewrite Ej. rewrite (app_comm_cons s [c] 32), (app_assoc _ (32 :: s) [c]).
  rewrite trim_right_graphic, <-app_assoc, <-app_comm_cons, <-Ej by done.
  rewrite CutPrefix_app, Fields_blank, Fields_Join by (by constructor).
  destruct (format_d_word (Version g)) as [_ Hdot]. unfold version_word.
  change ([46] ++ [48 + SubProtocol g]) with (46 :: [48 + SubProtocol g]).
  rewrite Cut_app, Atoi_format_d by done. cbn [parse_sub].
  destruct (Z.ltb_spec (48 + SubProtocol g) 48), (Z.ltb_spec 57 (48 + SubProtocol g)); try lia. cbn [orb].
  destruct g as [v sub ds]. cbn in *. do 2 f_equal. rewrite u8_id; unfold is_byte; lia.
Qed.

Lemma ReadGreeting_ok {T} (r : io_Reader T) `{!ReaderSpec r} g fuel :
  greeting_ok g → (length (Greeting_String g) ≤ fuel)%nat → parses r (ReadGreeting fuel r) (Greeting_String g) g.
Proof.
  intros Hg Hf. pose proof Hg as (Hv & Hs & Hd).
  set (line := str "@RSYNCD:" ++ 32 :: Join (version_word g :: g_Digests g) [32]).
  pose proof (Greeting_String_words g Hs) as E. fold line in E. rewrite E in Hf |- *.
  rewrite length_app in Hf. change (length [10]) with 1%nat in Hf.
  apply (parses_bind_r r _ _ _ line); [|rewrite (ParseGreeting_String g line Hg E); apply parses_returned].
  apply parses_wrap, readLine_ok; [|lia].
  unfold line. rewrite not_elem_of_app, not_elem_of_cons. split_and!; [by apply (bool_decide_unpack _); vm_compute|done|].
  apply Join_no_newline. constructor; [by apply version_word_ok|done].
Qed.

(** The greeting round-trips: for every int version, one-digit subprotocol
    and list of digest names, ReadGreeting returns the greeting WriteGreeting
    sent and consumes exactly its line, however the transport cuts it up. *)
Theorem greeting_roundtrip {S T} (w : io_Writer S) `{!WriterSpec w} (r : io_Reader T) `{!ReaderSpec r} g fuel :
  greeting_ok g → (length (Greeting_String g) ≤ fuel)%nat →
  ∃ bs, emits w (WriteGreeting w g) bs ∧ parses r (ReadGreeting fuel r) bs g.
Proof. intros Hg Hf. exists (Greeting_String g). split; [apply emits_write|by apply ReadGreeting_ok]. Qed.

Definition example_greeting : Greeting := mk_Greeting 32 0 [str "md5"; str "md4"].

Lemma greeting_roundtrip_witness :
  Greeting_String example_greeting = str "@RSYNCD: 32.0 md5 md4" ++ [10] ∧
  ∃ bs, emits conn_writer (WriteGreeting conn_writer example_greeting) bs ∧
    parses conn_reader (ReadGreeting 100 conn_reader) bs example_greeting.
Proof.
  split; [by vm_compute|]. apply (greeting_roundtrip conn_writer conn_reader example_greeting 100).
  - apply (bool_decide_unpack _). by vm_compute.
  - vm_compute. lia.
Defined.

(** ** Negotiation *)

(** A downgrade: the lower end runs a pre-release subprotocol, or equal
    versions have different ones. *)
Definition downgraded (client server : Greeting) : bool :=
  if client.(Version) =? server.(Version) then negb (client.(SubProtocol) =? server.(SubProtocol))
  else negb ((if client.(Version) <? server.(Version) then client else server).(SubProtocol) =? 0).

(** [d] is the first entry of [client] that [server] has. *)
Definition first_common (client server : list bytes) (d : bytes) : Prop :=
  ∃ i, client !! i = Some d ∧ d ∈ server ∧ ∀ j x, (j < i)%nat → client !! j = Some x → x ∉ server.

Lemma negotiate_digest_spec client server :
  first_common client server (negotiate_digest client server) ∨
  (negotiate_digest client server = [] ∧ ∀ d, d ∈ client → d ∉ server).
Proof.
  induction client as [|c client IH]; cbn [negotiate_digest]; [right; split; [done|]; intros d Hd; by apply elem_of_nil in Hd|].
  destruct (existsb _ server) eqn:E.
  - left. exists 0%nat. apply existsb_exists in E as (d & Hd & Heq). apply bool_decide_eq_true in Heq as <-.
    split_and!; [done|by apply list_elem_of_In|]. intros; lia.
  - assert (c ∉ server) as Hc.
    { intros Hin. assert (existsb (λ sd, bool_decide (c = sd)) server = true); [|congruence].
      apply existsb_exists. exists c. split; [by apply list_elem_of_In|by apply bool_decide_eq_true]. }
    destruct IH as [(i & Hi & Hs & Hj)|[E0 Hn]].
    + left. exists (Datatypes.S i). split_and!; [done..|]. intros [|j] x Hlt Hx; [by simplify_eq/=|]. apply (Hj j x); [lia|done].
    + right. split; [done|]. intros d [->|Hd]%elem_of_cons; auto.
Qed.

Lemma negotiate_version_spec client server :
  - 2^63 < client.(Version) < 2^63 → - 2^63 < server.(Version) < 2^63 →
  let '(v, sub) := negotiate_version client server in
  v = Z.min client.(Version) server.(Version) - (if downgraded client server then 1 else 0) ∧
  (sub ≠ 0 → client.(Version) = server.(Version) ∧ client.(SubProtocol) = sub ∧ server.(SubProtocol) = sub).
Proof.
  intros Hc Hs. unfold negotiate_version, downgraded.
  assert (∀ x, - 2^63 < x < 2^63 → i64 (x - 1) = x - 1) as Hi.
  { intros x Hx. unfold i64. rewrite Z.mod_small; lia. }
  destruct (Z.ltb_spec (Version server) (Version client)).
  - destruct (Z.eqb_spec (Version client) (Version server)); [lia|].
    destruct (Z.ltb_spec (Version client) (Version server)); [lia|]. rewrite Z.min_r by lia.
    case_if; b2p; split; auto; rewrite ?Hi; lia.
  - rewrite Z.min_l by lia. destruct (Z.eqb_spec (Version client) (Version server)).
    + case_if; b2p; [by rewrite Hi|]. split; [lia|auto].
    + destruct (Z.ltb_spec (Version client) (Version server)); [|lia].
      case_if; b2p; [by rewrite Hi|]. split; [lia|done].
Qed.

(** What the two greetings settle. For versions above the least int the
    negotiated version is the smaller of the two, less one when the lower end
    runs a pre-release subprotocol (or equal versions disagree on it); it is
    refused exactly when that is below 20; a non-zero subprotocol is kept only
    when both ends have the same version and subprotocol; and the digest is the
    first of the client's list that the server has, or the version's default
    when they have none in common. *)
Theorem Negotiate_spec client server :
  - 2^63 < client.(Version) < 2^63 → - 2^63 < server.(Version) < 2^63 →
  [] ∉ client.(g_Digests) →
  let v := Z.min client.(Version) server.(Version) - (if downgraded client server then 1 else 0) in
  match Negotiate client server with
  | Ret (v', sub, d) =>
      v' = v ∧ MinProtocolVersion ≤ v ∧
      (sub ≠ 0 → client.(Version) = server.(Version) ∧ client.(SubProtocol) = sub ∧ server.(SubProtocol) = sub) ∧
      (first_common client.(g_Digests) server.(g_Digests) d ∨
       (∀ x, x ∈ client.(g_Digests) → x ∉ server.(g_Digests)) ∧ d = if 30 <=? v then str "md5" else str "md4")
  | Fail _ => v < MinProtocolVersion
  | _ => False
  end.
Proof.
  intros Hc Hs Hd. unfold Negotiate. pose proof (negotiate_version_spec client server Hc Hs) as Hv.
  destruct (negotiate_version client server) as [v sub]. destruct Hv as [-> Hsub].
  destruct (Z.ltb_spec (Z.min (Version client) (Version server) - (if downgraded client server then 1 else 0)) MinProtocolVersion); [done|].
  split_and!; [done..|]. destruct (negotiate_digest_spec (g_Digests client) (g_Digests server)) as [Hf|[E Hn]].
  - left. rewrite bool_decide_false; [done|]. intros E. rewrite E in Hf. destruct Hf as (i & Hi & _).
    apply Hd. by eapply list_elem_of_lookup_2.
  - right. rewrite E. split; [done|]. by rewrite bool_decide_true.
Qed.

Lemma Negotiate_spec_witness :
  match Negotiate example_greeting (mk_Greeting 31 1 [str "md4"]) with
  | Ret (v', sub, d) => v' = 30 ∧ sub = 0 ∧ d = str "md4"
  | _ => False
  end ∧ downgraded example_greeting (mk_Greeting 31 1 [str "md4"]) = true.
Proof.
  pose proof (Negotiate_spec example_greeting (mk_Greeting 31 1 [str "md4"])) as H.
  cbn [Version g_Digests example_greeting] in H.
  specialize (H ltac:(lia) ltac:(lia) ltac:(apply (bool_decide_unpack _); by vm_compute)).
  destruct (Negotiate _ _) as [[[v sub] d]| | |] eqn:E; [|by vm_compute in E..].
  destruct H as (Hv & _). vm_compute in E. by simplify_eq.
Defined.

(** C34: The least int escapes the version check: a client greeting with version
    -2^63 and a non-zero subprotocol is downgraded by wrapping around, and the
    server accepts 2^63-1 as the protocol version. Such a greeting parses. *)
Theorem Negotiate_underflow client server :
  client.(Version) = - 2^63 → client.(SubProtocol) ≠ 0 → - 2^63 < server.(Version) →
  (∃ d, Negotiate client server = Ret (2^63 - 1, 0, d)) ∧
  (greeting_ok client → ∃ line, ParseGreeting line = Ret client).
Proof.
  intros Hv Hs Hlt. split.
  - unfold Negotiate, negotiate_version.
    destruct (Z.ltb_spec (Version server) (Version client)); [lia|].
    destruct (Z.eqb_spec (Version client) (Version server)); [lia|].
    destruct (Z.eqb_spec (SubProtocol client) 0); [done|]. cbn [negb]. rewrite Hv.
    change (i64 (- 2^63 - 1)) with (2^63 - 1). by eexists.
  - intros Hg. pose proof (Greeting_String_words client (proj1 (proj2 Hg))) as E.
    eexists. by apply (ParseGreeting_String client).
Qed.

Lemma Negotiate_underflow_witness :
  ParseGreeting (str "@RSYNCD: -9223372036854775808.1 md5") = Ret (mk_Greeting (- 2^63) 1 [str "md5"]) ∧
  ∃ d, Negotiate (mk_Greeting (- 2^63) 1 [str "md5"]) example_greeting = Ret (2^63 - 1, 0, d).
Proof.
  split; [by vm_compute|].
  apply (Negotiate_underflow (mk_Greeting (- 2^63) 1 [str "md5"]) example_greeting); cbn; lia.
Defined.
