(* ===== verification/Handshake.v ===== *)
(** * The text phase of the protocol (protocol/handshake.go)

    Module requests and listings, the authentication lines, the compatibility
    flags, the negotiation of algorithms and the checksum seed. The greeting's
    own line I/O is in [Greet]. *)
From S2P Require Import Prelude.
From S2P Require Import GoIO.
From S2P Require Import GoStrings.
From S2P Require Import Base64.
From S2P Require Import Dialogue.
From S2P Require Import WireInt.
From S2P Require Import Selector.
From S2P Require Import Checksum.
From S2P Require Import Args.
From S2P Require Import Greet.
#[local] Open Scope Z_scope.
#[local] Open Scope go_scope.

(** ** Definitions *)
Record ModuleInfo := mk_ModuleInfo { mi_Name : bytes; mi_Comment : bytes }.

(** [utf8.RuneCountInString], by which [%-15s] pads: the length of the rune [s]
    starts with, 1 for an invalid byte. *)
Definition is_cont (b : byte) : bool := (0x80 <=? b) && (b <=? 0xBF).
Definition rune_len (s : bytes) : nat :=
  match s with
  | b0 :: b1 :: s2 =>
    if (0xC2 <=? b0) && (b0 <=? 0xDF) then if is_cont b1 then 2%nat else 1%nat
    else match s2 with
    | b2 :: s3 =>
      if (0xE0 <=? b0) && (b0 <=? 0xEF) then
        if ((if b0 =? 0xE0 then 0xA0 else 0x80) <=? b1) && (b1 <=? (if b0 =? 0xED then 0x9F else 0xBF)) && is_cont b2
        then 3%nat else 1%nat
      else match s3 with
      | b3 :: _ =>
        if (0xF0 <=? b0) && (b0 <=? 0xF4) &&
           ((if b0 =? 0xF0 then 0x90 else 0x80) <=? b1) && (b1 <=? (if b0 =? 0xF4 then 0x8F else 0xBF)) &&
           is_cont b2 && is_cont b3
        then 4%nat else 1%nat
      | [] => 1%nat
      end
    | [] => 1%nat
    end
  | _ => 1%nat
  end.
Fixpoint rune_count (skip : nat) (s : bytes) : nat :=
  match s with
  | [] => O
  | _ :: s' => match skip with
               | S skip' => rune_count skip' s'
               | O => S (rune_count (rune_len s - 1) s')
               end
  end.

(** [fmt.Sprintf("%-15s\t%s\n", name, comment)] *)
Definition module_line (m : ModuleInfo) : bytes :=
  m.(mi_Name) ++ replicate (15 - rune_count 0 m.(mi_Name)) 32 ++ [9] ++ m.(mi_Comment) ++ [10].

Definition ParseError (line : bytes) : option error :=
  match CutPrefix line (str "@ERROR: ") with
  | None => None
  | Some msg => Some (Errorf "peer error" msg)
  end.

(** [strings.SplitN(line, " ", 2)]: the parts, at most two. *)
Definition SplitN2 (s : bytes) (sep : byte) : bytes * option bytes := Cut s sep.

(** The bytes of a peer's space-separated list as a set. *)
Definition pickOne (myAlgos : list bytes) (peerList : bytes) : bytes :=
  let peerSet : gset bytes := list_to_set (Fields peerList) in
  default [] (head (List.filter (λ a, bool_decide (a ∈ peerSet)) myAlgos)).

Record Algorithms := mk_Algorithms { alg_Checksum : bytes; alg_Compress : bytes }.

Definition DefaultAlgorithms (version : Z) : Algorithms :=
  mk_Algorithms (if 30 <=? version then str "md5" else str "md4") (str "zlib").

Section io.
Context {S : Type} (r : io_Reader S) (w : io_Writer S).

Definition ReadModuleRequest (fuel : nat) : M S bytes := readLine fuel r.
Definition WriteModuleRequest (moduleName : bytes) : M S unit := writeLine w moduleName.

Definition WriteModuleList (modules : list ModuleInfo) (version : Z) : M S unit :=
  for_each modules (λ m, Write w (module_line m)) ;;;
  if 25 <=? version then Write w (str "@RSYNCD: EXIT" ++ [10]) else ret tt.

(** [None] is @RSYNCD: OK. [lines] bounds the lines of the loop, [fuel] the
    bytes of one. *)
Fixpoint ReadAuthChallenge (lines fuel : nat) : M S (option bytes) :=
  match lines with
  | O => nofuel
  | Datatypes.S lines' =>
    let* line := readLine fuel r in
    match ParseError line with
    | Some e => fail e
    | None =>
      if HasPrefix line (str "@RSYNCD: OK") then ret None
      else if HasPrefix line (str "@RSYNCD: EXIT") then fail (Errorf "server exited the module connection" line)
      else match CutPrefix line (str "@RSYNCD: AUTHREQD ") with
      | Some challenge =>
        match DecodeString (TrimSpace challenge) with
        | None => fail (Errorf "decode auth challenge" (TrimSpace challenge))
        | Some data => ret (Some data)
        end
      | None => ReadAuthChallenge lines' fuel
      end
    end
  end.

Definition WriteAuthChallenge (challenge : bytes) : M S unit :=
  Write w (str "@RSYNCD: AUTHREQD " ++ EncodeToString challenge ++ [10]).

Definition WriteAuthOK : M S unit := Write w (str "@RSYNCD: OK" ++ [10]).

Definition ReadAuthResponse (fuel : nat) : M S (bytes * bytes) :=
  let* line := readLine fuel r in
  let '(username, rest) := SplitN2 line 32 in
  match rest with
  | None => fail (Errorf "invalid auth response format" line)
  | Some digest =>
    match DecodeString digest with
    | None => fail (Errorf "decode auth digest" digest)
    | Some data => ret (username, data)
    end
  end.

Definition WriteAuthResponse (username digest : bytes) : M S unit :=
  Write w (username ++ [32] ++ EncodeToString digest ++ [10]).

Definition WriteError (msg : bytes) : M S unit := Write w (str "@ERROR: " ++ msg ++ [10]).

Definition ReadCompatFlags (version : Z) : M S Z :=
  if version <? 30 then ret 0 else ReadVarint r.
Definition WriteCompatFlags (flags version : Z) : M S unit :=
  if version <? 30 then ret tt else WriteVarint w (i32 flags).

Definition NegotiateAlgorithms (myChecksums myCompressions : list bytes) : M S Algorithms :=
  wrap "send checksum list" (WriteVstring w (Join myChecksums [32])) ;;;
  let sentCompression := 0 <? Z.of_nat (length myCompressions) in
  (if sentCompression then wrap "send compression list" (WriteVstring w (Join myCompressions [32])) else ret tt) ;;;
  let* peerChecksums := wrap "read peer checksum list" (ReadVstring r) in
  let* peerCompressions := (if sentCompression then wrap "read peer compression list" (ReadVstring r) else ret []) in
  ret (mk_Algorithms (pickOne myChecksums peerChecksums)
         (if sentCompression then pickOne myCompressions peerCompressions else [])).

Definition ReadChecksumSeed : M S Z := ReadInt32 r.
Definition WriteChecksumSeed (seed : Z) : M S unit := WriteInt32 w seed.

Definition ExchangeVersion (ourVersion : Z) : M S Z :=
  wrap "write version" (WriteInt32 w (i32 ourVersion)) ;;;
  let* theirVersion := wrap "read version" (ReadInt32 r) in
  ret (if ourVersion <? theirVersion then ourVersion else theirVersion).
End io.

(** ** Authentication lines *)

(** A line the client's response loop skips. *)
Definition motd_line (line : bytes) : Prop :=
  (10 ∉ line) ∧ Forall (λ p, HasPrefix line (str p) = false)
    ["@ERROR: "; "@RSYNCD: OK"; "@RSYNCD: EXIT"; "@RSYNCD: AUTHREQD "].
#[global] Instance motd_line_dec line : Decision (motd_line line).
Proof. unfold motd_line. apply _. Defined.

Definition lines_bytes (lines : list bytes) : bytes := concat ((λ l, l ++ [10]) <$> lines).

Lemma TrimSpace_graphic s : Forall graphic s → TrimSpace s = s.
Proof.
  intros Hs. unfold TrimSpace. destruct s as [|c s]; [done|]. apply Forall_cons in Hs as [Hc Hs].
  rewrite trim_left_graphic by done. destruct s as [|x s _] using rev_ind; [by apply (trim_right_graphic [] c)|].
  apply Forall_app in Hs as [_ Hx]. apply Forall_cons in Hx as [Hx _]. by apply (trim_right_graphic (c :: s) x).
Qed.

Lemma graphic_no_newline s : Forall graphic s → (10 ∉ s) ∧ 32 ∉ s.
Proof.
  intros Hs. rewrite Forall_forall in Hs. unfold graphic in Hs.
  split; intros Hin; specialize (Hs _ Hin); lia.
Qed.

(** A line that starts with a literal of the protocol. *)
Lemma literal_line (p : string) s : 10 ∉ str p → 10 ∉ s → 10 ∉ str p ++ s.
Proof. rewrite not_elem_of_app. auto. Qed.

Section auth.
Context {S : Type} (r : io_Reader S) `{!ReaderSpec r}.

Lemma skip_motd motd : ∀ lines fuel bs v, Forall motd_line motd → (length motd ≤ lines)%nat →
  (∀ l, l ∈ motd → length l < fuel)%nat →
  parses r (ReadAuthChallenge r (lines - length motd) fuel) bs v →
  parses r (ReadAuthChallenge r lines fuel) (lines_bytes motd ++ bs) v.
Proof.
  induction motd as [|l motd IH]; intros lines fuel bs v Hm Hl Hf H.
  { cbn [length] in H. by rewrite Nat.sub_0_r in H. }
  apply Forall_cons in Hm as [[Hn Hp] Hm]. cbn [length] in Hl, H.
  destruct lines as [|lines]; [lia|]. unfold lines_bytes. cbn [ReadAuthChallenge fmap list_fmap concat]. rewrite <-app_assoc.
  eapply parses_bind; [apply readLine_ok; [done|apply Hf; by constructor]|].
  do 4 (apply Forall_cons in Hp as [? Hp]). unfold ParseError, CutPrefix.
  repeat match goal with H : HasPrefix _ _ = false |- _ => rewrite H; clear H end.
  apply IH; [done|lia| |done]. intros l' Hl'. apply Hf. by constructor.
Qed.

Lemma read_challenge_ok challenge lines fuel : bytes_ok challenge →
  (length (str "@RSYNCD: AUTHREQD " ++ EncodeToString challenge) < fuel)%nat → (0 < lines)%nat →
  parses r (ReadAuthChallenge r lines fuel) (str "@RSYNCD: AUTHREQD " ++ EncodeToString challenge ++ [10]) (Some challenge).
Proof.
  intros Hc Hf Hl. destruct lines as [|lines]; [lia|]. cbn [ReadAuthChallenge]. rewrite app_assoc.
  assert (Forall graphic (EncodeToString challenge)) as Hg by (by apply Encode_graphic).
  eapply parses_bind_r; [apply readLine_ok; [|done]|].
  { apply literal_line; [by apply (bool_decide_unpack _); vm_compute|]. by apply graphic_no_newline. }
  change (ParseError (str "@RSYNCD: AUTHREQD " ++ EncodeToString challenge)) with (@None error).
  change (HasPrefix (str "@RSYNCD: AUTHREQD " ++ EncodeToString challenge) (str "@RSYNCD: OK")) with false.
  change (HasPrefix (str "@RSYNCD: AUTHREQD " ++ EncodeToString challenge) (str "@RSYNCD: EXIT")) with false.
  rewrite CutPrefix_app, TrimSpace_graphic, DecodeString_Encode by done. apply parses_ret.
Qed.

Lemma read_ok_ok lines fuel : (11 < fuel)%nat → (0 < lines)%nat →
  parses r (ReadAuthChallenge r lines fuel) (str "@RSYNCD: OK" ++ [10]) None.
Proof.
  intros Hf Hl. destruct lines as [|lines]; [lia|]. cbn [ReadAuthChallenge].
  eapply parses_bind_r; [apply readLine_ok; [by apply (bool_decide_unpack _); vm_compute|done]|].
  change (ParseError (str "@RSYNCD: OK")) with (@None error). apply parses_ret.
Qed.

(** A peer's error line ends the exchange with its message. *)
Lemma read_error_ok msg lines fuel s rest : 10 ∉ msg → (8 + length msg < fuel)%nat → (0 < lines)%nat →
  stream r s ((str "@ERROR: " ++ msg ++ [10]) ++ rest) →
  ∃ s', ReadAuthChallenge r lines fuel s = (Fail (Errorf "peer error" msg), s') ∧ consumed r s s' rest.
Proof.
  intros Hn Hf Hl Hs. destruct lines as [|lines]; [lia|]. cbn [ReadAuthChallenge]. rewrite (app_assoc _ msg) in Hs.
  destruct (readLine_ok r (str "@ERROR: " ++ msg) fuel) with (s := s) (rest := rest) as (s' & E & C); [| |done|].
  { apply literal_line; [by apply (bool_decide_unpack _); vm_compute|done]. }
  { rewrite length_app. change (length (str "@ERROR: ")) with 8%nat. lia. }
  exists s'. rewrite (bind_Ret _ _ _ _ _ E). split; [|done].
  unfold ParseError. by rewrite CutPrefix_app.
Qed.

Lemma ReadAuthResponse_ok username digest fuel : 10 ∉ username → 32 ∉ username → bytes_ok digest →
  (length (username ++ [32%Z] ++ EncodeToString digest) < fuel)%nat →
  parses r (ReadAuthResponse r fuel) (username ++ [32] ++ EncodeToString digest ++ [10]) (username, digest).
Proof.
  intros Hu10 Hu32 Hd Hf. pose proof (Encode_graphic digest Hd) as Hg. apply graphic_no_newline in Hg as [Hg _].
  replace (username ++ [32] ++ EncodeToString digest ++ [10]) with ((username ++ [32] ++ EncodeToString digest) ++ [10])
    by by rewrite <-!app_assoc.
  eapply parses_bind_r; [apply readLine_ok; [|done]|].
  { rewrite !not_elem_of_app, list_elem_of_singleton. split_and!; [done|lia|done]. }
  unfold SplitN2. cbn [app]. rewrite Cut_app, DecodeString_Encode by done. apply parses_ret.
Qed.
End auth.

(** The authentication exchange. Behind any message-of-the-day lines the
    client's ReadAuthChallenge returns the challenge WriteAuthChallenge sent,
    or nil for WriteAuthOK, or the message of WriteError as an error; and
    ReadAuthResponse returns the user name and digest WriteAuthResponse sent,
    for a user name without blanks. Each consumes exactly what was written. *)
Theorem auth_exchange {S T} (w : io_Writer S) `{!WriterSpec w} (r : io_Reader T) `{!ReaderSpec r}
    motd challenge username digest msg lines fuel :
  Forall motd_line motd → bytes_ok challenge → bytes_ok digest → 10 ∉ msg → 10 ∉ username → 32 ∉ username →
  (length motd < lines)%nat →
  (length (lines_bytes motd ++ username ++ EncodeToString challenge ++ EncodeToString digest ++ msg) + 20 < fuel)%nat →
  ∃ cb ob eb rb,
    emits w (WriteAuthChallenge w challenge) cb ∧ emits w (WriteAuthOK w) ob ∧
    emits w (WriteError w msg) eb ∧ emits w (WriteAuthResponse w username digest) rb ∧
    parses r (ReadAuthChallenge r lines fuel) (lines_bytes motd ++ cb) (Some challenge) ∧
    parses r (ReadAuthChallenge r lines fuel) (lines_bytes motd ++ ob) None ∧
    (∀ s rest, stream r s (eb ++ rest) →
       ∃ s', ReadAuthChallenge r lines fuel s = (Fail (Errorf "peer error" msg), s') ∧ consumed r s s' rest) ∧
    parses r (ReadAuthResponse r fuel) rb (username, digest).
Proof.
  intros Hm Hc Hd Hmsg Hu10 Hu32 Hl Hf. rewrite !length_app in Hf.
  assert (∀ l, l ∈ motd → length l < fuel)%nat as Hml.
  { intros l Hin. assert (length l ≤ length (lines_bytes motd))%nat; [|lia].
    clear -Hin. unfold lines_bytes. induction Hin as [l' motd|l' x motd Hin IH]; cbn [fmap list_fmap concat];
      rewrite !length_app; lia. }
  do 4 eexists. split; [apply emits_write|]. split; [apply emits_write|]. split; [apply emits_write|]. split; [apply emits_write|].
  split_and!.
  - apply skip_motd; [done|lia|done|]. apply read_challenge_ok; [done| |lia].
    rewrite length_app. change (length (str "@RSYNCD: AUTHREQD ")) with 18%nat. lia.
  - apply skip_motd; [done|lia|done|]. apply read_ok_ok; lia.
  - intros s rest Hs. apply read_error_ok; [done|lia|lia|done].
  - apply ReadAuthResponse_ok; [done..|]. rewrite !length_app. simpl. lia.
Qed.

Lemma auth_exchange_witness :
  EncodeToString [1; 2; 3; 255] = str "AQID/w==" ∧
  ∃ cb ob eb rb,
    emits conn_writer (WriteAuthChallenge conn_writer [1; 2; 3; 255]) cb ∧ emits conn_writer (WriteAuthOK conn_writer) ob ∧
    emits conn_writer (WriteError conn_writer (str "Unknown module")) eb ∧
    emits conn_writer (WriteAuthResponse conn_writer (str "alice") [9; 8; 7]) rb ∧
    parses conn_reader (ReadAuthChallenge conn_reader 5 200) (lines_bytes [str "Welcome!"] ++ cb) (Some [1; 2; 3; 255]) ∧
    parses conn_reader (ReadAuthChallenge conn_reader 5 200) (lines_bytes [str "Welcome!"] ++ ob) None ∧
    (∀ s rest, stream conn_reader s (eb ++ rest) →
       ∃ s', ReadAuthChallenge conn_reader 5 200 s = (Fail (Errorf "peer error" (str "Unknown module")), s') ∧
         consumed conn_reader s s' rest) ∧
    parses conn_reader (ReadAuthResponse conn_reader 200) rb (str "alice", [9; 8; 7]).
Proof.
  split; [by vm_compute|].
  apply (auth_exchange conn_writer conn_reader [str "Welcome!"] [1; 2; 3; 255] (str "alice") [9; 8; 7] (str "Unknown module") 5 200);
    try (apply (bool_decide_unpack _); by vm_compute); vm_compute; lia.
Defined.

(** ** Algorithms *)
Lemma pickOne_spec my peer : Forall word peer →
  first_common my peer (pickOne my (Join peer [32])) ∨
  (pickOne my (Join peer [32]) = [] ∧ ∀ d, d ∈ my → d ∉ peer).
Proof.
  intros Hp. unfold pickOne. rewrite Fields_Join by done. cbv zeta.
  induction my as [|a my IH]; cbn [List.filter]; [right; split; [done|]; intros d Hd; by apply elem_of_nil in Hd|].
  case_bool_decide as Ha; rewrite elem_of_list_to_set in Ha.
  - left. exists 0%nat. split_and!; [done|done|]. intros; lia.
  - destruct IH as [(i & Hi & Hs & Hj)|[E Hn]].
    + left. exists (Datatypes.S i). split_and!; [done..|].
      intros [|j] x Hlt Hx; [by simplify_eq/=|]. apply (Hj j x); [lia|done].
    + right. split; [done|]. intros d [->|Hd]%elem_of_cons; auto.
Qed.

Lemma pickOne_same l d rest : l = d :: rest → Forall word l → pickOne l (Join l [32]) = d.
Proof.
  intros -> Hl. unfold pickOne. rewrite Fields_Join by done. cbn [List.filter].
  rewrite bool_decide_true; [done|]. rewrite elem_of_list_to_set. by constructor.
Qed.

Lemma NegotiateAlgorithms_ok {S} (r : io_Reader S) (w : io_Writer S) `{!ReaderSpec r} `{!WriterSpec w} `{!Duplex r w} my peer :
  Z.of_nat (length (Join my [32])) ≤ 0x7FFF → Z.of_nat (length (Join peer [32])) ≤ 0x7FFF →
  dialogue r w (NegotiateAlgorithms r w my []) (vstring_bytes (Join peer [32])) (vstring_bytes (Join my [32]))
    (mk_Algorithms (pickOne my (Join peer [32])) []).
Proof.
  intros Hm Hp. unfold NegotiateAlgorithms. rewrite <-(app_nil_r (vstring_bytes (Join my [32]))).
  apply (dialogue_write r w); [by apply yields_wrap, WriteVstring_ok|]. cbn [length]. change (0 <? Z.of_nat 0) with false.
  apply (dialogue_pure r w). rewrite <-(app_nil_r (vstring_bytes (Join peer [32]))).
  eapply (dialogue_read r w); [by apply parses_wrap, ReadVstring_ok|]. apply (dialogue_pure r w), dialogue_ret.
Qed.

(** The negotiation of the strong checksum. When the two ends exchange lists
    of algorithm names, each sends its list before it reads the other's, and
    picks the first name of its own list that the other end sent (nothing if
    there is none); so two ends with the same list agree on its first name. *)
Theorem algorithms_agree {S T} (r : io_Reader S) (w : io_Writer S) `{!ReaderSpec r} `{!WriterSpec w} `{!Duplex r w}
    (r' : io_Reader T) (w' : io_Writer T) `{!ReaderSpec r'} `{!WriterSpec w'} `{!Duplex r' w'} lc ls :
  Forall word lc → Forall word ls →
  Z.of_nat (length (Join lc [32])) ≤ 0x7FFF → Z.of_nat (length (Join ls [32])) ≤ 0x7FFF →
  ∃ cb sb c s,
    dialogue r w (NegotiateAlgorithms r w lc []) sb cb (mk_Algorithms c []) ∧
    dialogue r' w' (NegotiateAlgorithms r' w' ls []) cb sb (mk_Algorithms s []) ∧
    (first_common lc ls c ∨ c = [] ∧ ∀ d, d ∈ lc → d ∉ ls) ∧
    (first_common ls lc s ∨ s = [] ∧ ∀ d, d ∈ ls → d ∉ lc) ∧
    (lc = ls → lc ≠ [] → c = s ∧ head lc = Some c).
Proof.
  intros Hc Hs Lc Ls. exists (vstring_bytes (Join lc [32])), (vstring_bytes (Join ls [32])),
    (pickOne lc (Join ls [32])), (pickOne ls (Join lc [32])).
  split_and!; [by apply NegotiateAlgorithms_ok..|by apply pickOne_spec|by apply pickOne_spec|].
  intros <- Hne. split; [done|]. destruct lc as [|d lc]; [done|]. by rewrite (pickOne_same (d :: lc) d lc).
Qed.

Lemma algorithms_agree_witness :
  ∃ cb sb c s,
    dialogue conn_reader conn_writer (NegotiateAlgorithms conn_reader conn_writer SupportedDigests []) sb cb (mk_Algorithms c []) ∧
    dialogue conn_reader conn_writer (NegotiateAlgorithms conn_reader conn_writer SupportedDigests []) cb sb (mk_Algorithms s []) ∧
    c = s ∧ head SupportedDigests = Some c.
Proof.
  destruct (algorithms_agree conn_reader conn_writer conn_reader conn_writer SupportedDigests SupportedDigests)
    as (cb & sb & c & s & Hc & Hs & _ & _ & Heq); try (apply (bool_decide_unpack _); by vm_compute).
  exists cb, sb, c, s. split; [done|]. split; [done|]. by apply Heq.
Defined.
