(* ===== verification/Connect.v ===== *)
(** * Establishing a connection (server-handshake.go, server.go, client-connect.go)

    The server's doHandshake and the client's runHandshake, each as one
    operation over the connection, and the theorem that the two of them
    complete and come out with the same parameters. *)
From S2P Require Import Prelude.
From S2P Require Import GoIO.
From S2P Require Import GoStrings.
From S2P Require Import Base64.
From S2P Require Import Dialogue.
From S2P Require Import WireInt.
From S2P Require Import Selector.
From S2P Require Import Checksum.
From S2P Require Import Mux.
From S2P Require Import FileList.
From S2P Require Import Args.
From S2P Require Import Greet.
From S2P Require Import Handshake.
#[local] Open Scope Z_scope.
#[local] Open Scope go_scope.

(** ** The server *)

(** A module; its backing fs.FS is code of the caller, of which the handshake
    only uses the error of opening the root. *)
Record ServerModule := mk_ServerModule {
  sm_Name : bytes;
  sm_Comment : bytes;
  sm_root : option error;
  AuthCallback : option (bytes → bytes → outcome bytes);
}.

Record Server := mk_Server { modules : gmap bytes ServerModule; sv_Greeting : Greeting }.

Fixpoint add_modules (mods : list ServerModule) (acc : gmap bytes ServerModule) : outcome (gmap bytes ServerModule) :=
  match mods with
  | [] => Ret acc
  | m :: mods' =>
    match acc !! m.(sm_Name) with
    | Some _ => Fail (Errorf "duplicate module name" m.(sm_Name))
    | None => add_modules mods' (<[m.(sm_Name) := m]> acc)
    end
  end.
Definition NewServer (mods : list ServerModule) : outcome Server :=
  match add_modules mods ∅ with
  | Ret ms => Ret (mk_Server ms (mk_Greeting 0 0 []))
  | Fail e => Fail e
  | Panic => Panic
  | NoFuel => NoFuel
  end.

(** What one connection takes from outside: rand.Read for the challenge and the
    seed ([None] is an error), the clock, and the order in which Go ranges over
    a map, which is unspecified: any rearrangement of the map's values. *)
Record outside := mk_outside {
  rand_challenge : option bytes;
  rand_seed : option bytes;
  clock : Z;
  map_order : list ServerModule → list ServerModule;
  map_order_perm l : map_order l ≡ₚ l;
}.

(** [for _, m := range s.modules] *)
Definition ranged (o : outside) (sv : Server) : list ServerModule := o.(map_order) (map_to_list sv.(modules)).*2.

(** The negotiated state; [outMw] is the multiplexer started below protocol 23. *)
Record handshakeResult := mk_handshakeResult {
  h_module : ServerModule;
  h_ver : Z;
  h_varint : bool;
  h_seedFix : bool;
  h_id0Names : bool;
  h_preserve : bool * bool;
  h_preserveHlinks : bool;
  h_checksum : bytes;
  h_seed : Z;
  outMw : option mux_Writer;
}.

Definition serverCapabilities : Z :=
  Z.lor (Z.lor (Z.lor (Z.lor CompatSymlinkTimes CompatSafeFlist) CompatAvoidXattrOptim) CompatChksumSeedFix)
    CompatVarintFlistFlags.

(** The constant-time comparison. *)
Fixpoint hash_differs (a b : bytes) (result : Z) : Z :=
  match a, b with
  | x :: a', y :: b' => hash_differs a' b' (if x =? y then result else 1)
  | _, _ => result
  end.
Definition hashEqual (a b : bytes) : bool :=
  if negb (Z.of_nat (length a) =? Z.of_nat (length b)) then false else hash_differs a b 0 =? 0.

Definition choose_seed (o : outside) : Z :=
  let seed := match o.(rand_seed) with Some seedBuf => i32 (Uint32 seedBuf) | None => i32 o.(clock) end in
  if seed =? 0 then 32761 else seed.

(** [_ = f()]: the error is dropped. *)
Definition ignore {S A} (m : M S A) : M S unit := λ s,
  match m s with
  | (Panic, s') => (Panic, s')
  | (NoFuel, s') => (NoFuel, s')
  | (_, s') => (Ret tt, s')
  end.

(** [if err != nil { handler(err) }] *)
Definition on_error {S A} (m : M S A) (handler : error → M S A) : M S A := λ s,
  match m s with
  | (Fail e, s') => handler e s'
  | x => x
  end.

Section server.
Context {S : Type} (fuel : nat) (r : io_Reader S) (w : io_Writer S).

(** The reply to the error, then the error itself. *)
Definition refuse {A} (msg : string) (e : error) : M S A :=
  ignore (WriteError w (str msg)) ;;;
  fail e.

Definition authenticate (o : outside) (m : ServerModule) : M S unit :=
  match m.(AuthCallback) with
  | Some callback =>
    match o.(rand_challenge) with
    | None => fail (Errorf "generate challenge" [])
    | Some challenge =>
      wrap "write auth challenge" (WriteAuthChallenge w challenge) ;;;
      let* (username, responseHash) :=
        on_error (ReadAuthResponse r fuel) (λ e, refuse "Authentication failed" (Wrap "read auth response" e)) in
      match callback username challenge with
      | Ret expectedHash =>
        if negb (hashEqual responseHash expectedHash)
        then refuse "Authentication failed" (Errorf "authentication failed for user" username)
        else wrap "write auth ok" (WriteAuthOK w)
      | Fail _ => refuse "Authentication failed" (Errorf "authentication failed for user" username)
      | Panic => panic
      | NoFuel => nofuel
      end
    end
  | None => wrap "write auth ok" (WriteAuthOK w)
  end.

(** From the arguments on: flags, algorithms and seed. *)
Definition exchange_parameters (o : outside) (selected : ServerModule) (version : Z) : M S handshakeResult :=
  let* args := wrap "read arguments" (ReadArgs fuel r version) in
  let* compatFlags :=
    (if 30 <=? version then
       let clientInfo := ExtractClientInfo args in
       let compatFlags := ResolveCompatFlags serverCapabilities clientInfo in
       wrap "write compat flags" (WriteCompatFlags w compatFlags version) ;;;
       ret compatFlags
     else ret 0) in
  let* checksum :=
    (if has compatFlags CompatVarintFlistFlags then
       let* algos := wrap "negotiate algorithms" (NegotiateAlgorithms r w SupportedDigests []) in
       ret algos.(alg_Checksum)
     else ret (DefaultAlgorithms version).(alg_Checksum)) in
  let seed := choose_seed o in
  let* outMw :=
    (if version <? 23 then
       let* (_, mw) := on_object NewWriter (wrap "write checksum seed" (WriteChecksumSeed (mux_writer w) seed)) in
       ret (Some mw)
     else
       wrap "write checksum seed" (WriteChecksumSeed w seed) ;;;
       ret None) in
  let '(preserveUID, preserveGID, preserveHlinks) := ExtractPreserveFlags args in
  ret (mk_handshakeResult selected version (has compatFlags CompatVarintFlistFlags)
         (has compatFlags CompatChksumSeedFix) (has compatFlags CompatId0Names)
         (preserveUID, preserveGID) preserveHlinks checksum seed outMw).

(** [None]: a clean disconnect or a finished module listing. *)
Definition doHandshake (o : outside) (sv : Server) : M S (option handshakeResult) :=
  let greeting := ApplyDefaults sv.(sv_Greeting) in
  wrap "write greeting" (WriteGreeting w greeting) ;;;
  let* clientGreeting :=
    on_error (ReadGreeting fuel r) (λ e, refuse "invalid greeting" (Wrap "read client greeting" e)) in
  let* (version, _, _) :=
    on_error (returned (Negotiate clientGreeting greeting))
      (λ e, refuse "protocol version negotiation failed" (Wrap "negotiate version" e)) in
  let* request :=
    on_error (let* name := ReadModuleRequest r fuel in ret (Some name))
      (λ e, if errors_Is is_EOF e then ret None else fail (Wrap "read module request" e)) in
  match request with
  | None => ret None
  | Some moduleName =>
    if bool_decide (moduleName = str "#list") || bool_decide (moduleName = []) then
      wrap "write module list"
        (WriteModuleList w ((λ m, mk_ModuleInfo m.(sm_Name) m.(sm_Comment)) <$> ranged o sv) version) ;;;
      ret None
    else
    match sv.(modules) !! moduleName with
    | None => refuse "Unknown module" (Errorf "unknown module" moduleName)
    | Some selected =>
      match selected.(sm_root) with
      | Some e => refuse "chdir failed" (Wrap "module root inaccessible" e)
      | None =>
        authenticate o selected ;;;
        let* res := exchange_parameters o selected version in
        ret (Some res)
      end
    end
  end.
End server.

(** ** The client *)
Record Client := mk_Client {
  c_Greeting : Greeting;
  c_Module : bytes;
  AuthUser : bytes;
  AuthResponse : option (bytes → bytes → outcome bytes);
}.

(** The live state of a Session; [s_mw] is nil below protocol 30. *)
Record Session := mk_Session {
  s_version : Z;
  s_subProtocol : Z;
  s_digest : bytes;
  s_checksum : bytes;
  s_seed : Z;
  s_compatFlags : Z;
  s_varintFlist : bool;
  s_seedFix : bool;
  s_id0Names : bool;
  s_moduleName : bytes;
  s_ndx : NdxState;
  s_recvNdx : NdxState;
  s_mr : mux_Reader;
  s_mw : option mux_Writer;
}.

Definition set_mw (mw : option mux_Writer) (s : Session) : Session :=
  mk_Session s.(s_version) s.(s_subProtocol) s.(s_digest) s.(s_checksum) s.(s_seed) s.(s_compatFlags)
    s.(s_varintFlist) s.(s_seedFix) s.(s_id0Names) s.(s_moduleName) s.(s_ndx) s.(s_recvNdx) s.(s_mr) mw.

Definition set_mr (mr : mux_Reader) (s : Session) : Session :=
  mk_Session s.(s_version) s.(s_subProtocol) s.(s_digest) s.(s_checksum) s.(s_seed) s.(s_compatFlags)
    s.(s_varintFlist) s.(s_seedFix) s.(s_id0Names) s.(s_moduleName) s.(s_ndx) s.(s_recvNdx) mr s.(s_mw).

Definition clientInfo : bytes := str ".fxCv".
Definition transferArgstr (version : Z) : bytes :=
  let argstr := str "-logDtpr" in
  if 30 <=? version then argstr ++ str "e" ++ clientInfo else argstr.

Section client.
Context {S : Type} (fuel : nat) (frames : S → nat) (r : io_Reader S) (w : io_Writer S).

(** The response loop. *)
Fixpoint auth_loop (n : nat) (c : Client) (digest : bytes) : M S unit :=
  match n with
  | O => nofuel
  | Datatypes.S n' =>
    let* response := wrap "read server response" (ReadAuthChallenge r fuel fuel) in
    match response with
    | None => ret tt
    | Some challenge =>
      match c.(AuthResponse) with
      | None => fail (Errorf "server requires authentication but AuthUser/AuthResponse are not set" [])
      | Some respond =>
        if bool_decide (c.(AuthUser) = [])
        then fail (Errorf "server requires authentication but AuthUser/AuthResponse are not set" [])
        else
          let* digestBytes := wrap "compute auth response" (returned (respond digest challenge)) in
          wrap "send auth response" (WriteAuthResponse w c.(AuthUser) digestBytes) ;;;
          auth_loop n' c digest
      end
    end
  end.

(** The flags and the checksum algorithm. *)
Definition read_parameters (version : Z) : M S (Z * bytes) :=
  if 30 <=? version then
    let* compatFlags := wrap "read compat flags" (ReadCompatFlags r version) in
    if has compatFlags CompatVarintFlistFlags then
      let* algos := wrap "negotiate algorithms" (NegotiateAlgorithms r w SupportedDigests []) in
      ret (compatFlags, algos.(alg_Checksum))
    else ret (compatFlags, (DefaultAlgorithms version).(alg_Checksum))
  else ret (0, (DefaultAlgorithms version).(alg_Checksum)).

(** The seed; the input is multiplexed from here on, below protocol 23 the seed
    with it. *)
Definition read_seed (version : Z) : M S (Z * mux_Reader) :=
  if version <? 23 then on_object NewReader (wrap "read checksum seed" (ReadChecksumSeed (mux_reader frames r)))
  else let* seed := wrap "read checksum seed" (ReadChecksumSeed r) in ret (seed, NewReader).

(** The unframed part of runHandshake: version, subprotocol, digest, flags and
    checksum. *)
Definition text_phase (c : Client) : M S (Z * Z * bytes * Z * bytes) :=
  let greet := ApplyDefaults c.(c_Greeting) in
  wrap "write greeting" (WriteGreeting w greet) ;;;
  let* serverGreet := wrap "read server greeting" (ReadGreeting fuel r) in
  let* (version, subProtocol, digest) := wrap "negotiate protocol version" (returned (Negotiate greet serverGreet)) in
  wrap "send module request" (WriteModuleRequest w c.(c_Module)) ;;;
  auth_loop fuel c digest ;;;
  let args := [str "--server"; str "--sender"; transferArgstr version; str "."; c.(c_Module) ++ str "/"] in
  wrap "send arguments" (WriteArgs w args version) ;;;
  let* (compatFlags, checksum) := read_parameters version in
  ret (version, subProtocol, digest, compatFlags, checksum).

(** runHandshake up to [s.in = ...]: the Session's fields with the multiplexed
    writer from protocol 30 on. *)
Definition before_filter (c : Client) : M S Session :=
  let* (version, subProtocol, digest, compatFlags, checksum) := text_phase c in
  let* (seed, mr) := read_seed version in
  ret (mk_Session version subProtocol digest checksum seed compatFlags
         (has compatFlags CompatVarintFlistFlags) (has compatFlags CompatChksumSeedFix) (has compatFlags CompatId0Names)
         c.(c_Module) NewNdxState NewNdxState mr (if 30 <=? version then Some NewWriter else None)).

(** The filter list on the Session's output. *)
Definition send_filter (sess : Session) : M S Session :=
  match sess.(s_mw) with
  | Some mw =>
      let* (_, mw') := on_object mw (wrap "send filter list" (WriteInt32 (mux_writer w) 0)) in
      ret (set_mw (Some mw') sess)
  | None => wrap "send filter list" (WriteInt32 w 0) ;;; ret sess
  end.

Definition runHandshake (c : Client) : M S Session :=
  let* sess := before_filter c in
  send_filter sess.
End client.

(** ** The modules of a server *)
Lemma add_modules_values mods : ∀ acc ms, add_modules mods acc = Ret ms →
  (∀ n m, acc !! n = Some m → m.(sm_Name) = n) →
  (∀ n m, ms !! n = Some m → m.(sm_Name) = n) ∧ (map_to_list ms).*2 ≡ₚ mods ++ (map_to_list acc).*2.
Proof.
  induction mods as [|m mods IH]; intros acc ms E Hacc; cbn [add_modules] in E; [by injection E as <-|].
  destruct (acc !! sm_Name m) eqn:Hm; [done|].
  destruct (IH _ _ E) as [Hn HP].
  { intros n m' [[<- <-]|[_ ?]]%lookup_insert_Some; [done|by apply Hacc]. }
  split; [done|]. rewrite HP, map_to_list_insert by done. cbn. by rewrite Permutation_middle.
Qed.

(** NewServer keeps exactly the modules it is given, whose names are distinct. *)
Lemma NewServer_modules mods sv : NewServer mods = Ret sv →
  (∀ n m, sv.(modules) !! n = Some m → m.(sm_Name) = n) ∧ (map_to_list sv.(modules)).*2 ≡ₚ mods ∧ NoDup (sm_Name <$> mods).
Proof.
  unfold NewServer. destruct (add_modules mods ∅) as [ms|e| |] eqn:E; [|done..]. intros [= <-]. cbn [modules].
  destruct (add_modules_values _ _ _ E) as [Hn HP]; [by intros ???%lookup_empty_Some|].
  rewrite map_to_list_empty in HP. cbn in HP. rewrite app_nil_r in HP. split_and!; [done..|]. rewrite <-HP.
  assert (sm_Name <$> (map_to_list ms).*2 = (map_to_list ms).*1) as ->; [|apply NoDup_fst_map_to_list].
  rewrite <-list_fmap_compose. apply list_fmap_ext. intros i [n m] Hi. apply list_elem_of_lookup_2, elem_of_map_to_list in Hi.
  by apply Hn.
Qed.

Lemma ranged_modules o sv : ranged o sv ≡ₚ (map_to_list sv.(modules)).*2.
Proof. apply map_order_perm. Qed.

(** ** Both ends complete the handshake with the same parameters *)

(** The module asks for no authentication, or the client's response to this
    connection's challenge is what the module's callback expects. *)
Definition auth_ok (o : outside) (c : Client) (m : ServerModule) (digest : bytes) : Prop :=
  match m.(AuthCallback) with
  | None => True
  | Some callback => ∃ challenge h respond,
      o.(rand_challenge) = Some challenge ∧ bytes_ok challenge ∧ bytes_ok h ∧
      c.(AuthResponse) = Some respond ∧ respond digest challenge = Ret h ∧
      callback c.(AuthUser) challenge = Ret h ∧
      c.(AuthUser) ≠ [] ∧ (10 ∉ c.(AuthUser)) ∧ 32 ∉ c.(AuthUser)
  end.

(** A module name both ends can handle: one line, free of the delimiter, not
    the listing request, and not read as an option by the server. *)
Definition module_ok (name : bytes) : Prop :=
  name ≠ [] ∧ name ≠ str "#list" ∧ HasPrefix name (str "-") = false ∧ (0 ∉ name) ∧ 10 ∉ name.

(** What the parameters come to when these two ends talk to each other. *)
Definition agreed_flags (v : Z) : Z := if 30 <=? v then 184 else 0.
Definition agreed_checksum (v : Z) : bytes := if 30 <=? v then str "md5" else str "md4".

(** The parameters of the file list on both sides. *)
Definition transfer_params (h : handshakeResult) : list_params :=
  mk_list_params h.(h_ver) h.(h_varint) h.(h_id0Names) h.(h_preserve) true true h.(h_preserveHlinks).
Definition session_params (s : Session) : list_session :=
  mk_list_session s.(s_version) s.(s_varintFlist) s.(s_id0Names).

Lemma hashEqual_refl a : hashEqual a a = true.
Proof.
  unfold hashEqual. rewrite Z.eqb_refl. cbn [negb].
  assert (hash_differs a a 0 = 0) as ->; [|done]. induction a; cbn [hash_differs]; [done|]. by rewrite Z.eqb_refl.
Qed.

Lemma choose_seed_ok o : is_i32 (choose_seed o) ∧ choose_seed o ≠ 0.
Proof.
  unfold choose_seed. cbv zeta.
  assert (∀ x, is_i32 (i32 x)) as Hi by (intros; apply i32_range).
  destruct (rand_seed o); case_if; b2p; split; auto; unfold is_i32; lia.
Qed.

Section helpers.
Context {S : Type} (r : io_Reader S) (w : io_Writer S) `{!ReaderSpec r} `{!WriterSpec w} `{!Duplex r w}.

Lemma dialogue_on_error {A} (m : M S A) h i o v : dialogue r w m i o v → dialogue r w (on_error m h) i o v.
Proof. intros H s rest Hs. destruct (H s rest Hs) as (s' & E & ?). exists s'. unfold on_error. by rewrite E. Qed.

Lemma write_seed_muxed ctx seed s :
  on_object NewWriter (wrap ctx (WriteChecksumSeed (mux_writer w) seed)) s =
    (Ret (tt, mk_mux_Writer (PutUint32 (u32 seed)) defaultBufSize), s).
Proof. reflexivity. Qed.

Lemma write_filter_muxed ctx s :
  on_object NewWriter (wrap ctx (WriteInt32 (mux_writer w) 0)) s =
    (Ret (tt, mk_mux_Writer (PutUint32 0) defaultBufSize), s).
Proof. reflexivity. Qed.

(** The first read of a fresh multiplexed reader at a data frame. *)
Lemma mux_first_frame (frames : S → nat) `{!EnoughFuel r frames} n p s rest :
  p ≠ [] → Z.of_nat (length p) ≤ maxPayload → stream r s (frame_bytes MsgData p ++ rest) →
  ∃ s', mux_Read frames r n (NewReader, s) = (Ret (take n p), (mk_mux_Reader (drop n p), s')) ∧ consumed r s s' rest.
Proof.
  intros Hne Hl Hs. pose proof (enough_fuel (r := r) s) as Hf.
  destruct (frames s) as [|k] eqn:Ek; [lia|].
  pose proof (readFrame_ok r s _ Hs) as Hfr. rewrite parse_frame_bytes in Hfr by done.
  destruct Hfr as (s' & E & C). exists s'. split; [|done].
  apply mux_Read_fetch; [done|]. rewrite Ek. cbn [fetch_data]. rewrite (bind_Ret _ _ _ _ _ E).
  change (negb (u8 MsgData =? MsgData)) with false. cbn iota.
  destruct (Z.ltb_spec 0 (Z.of_nat (length p))); [done|]. destruct p; simpl in *; [done|lia].
Qed.

Lemma read_seed_muxed (frames : S → nat) `{!EnoughFuel r frames} ctx seed : is_i32 seed →
  parses r (on_object NewReader (wrap ctx (ReadChecksumSeed (mux_reader frames r))))
    (frame_bytes MsgData (PutUint32 (u32 seed))) (seed, NewReader).
Proof.
  intros Hi s rest Hs.
  destruct (mux_first_frame frames 4 (PutUint32 (u32 seed)) s rest) as (s' & E & C); [done|by vm_compute|done|].
  exists s'. split; [|done]. change (take 4 (PutUint32 (u32 seed))) with (PutUint32 (u32 seed)) in E.
  change (drop 4 (PutUint32 (u32 seed))) with (@nil Z) in E.
  unfold on_object, wrap, ReadChecksumSeed, ReadInt32, ReadFull.
  assert (read_full_loop 4 (mux_reader frames r) 4 [] (NewReader, s) = (Ret (PutUint32 (u32 seed)), (NewReader, s'))) as E4.
  { cbn [read_full_loop]. destruct (decide (4 ≤ length (@nil Z))%nat) as [H|_]; [simpl in H; lia|].
    rewrite (bind_Ret _ _ _ (PutUint32 (u32 seed), None) (NewReader, s')); [reflexivity|].
    cbn [Read mux_reader]. change (4 - length (@nil Z))%nat with 4%nat. by rewrite E. }
  rewrite (bind_Ret _ _ _ _ _ E4). unfold ret. rewrite Uint32_PutUint32, u32_u32, i32_u32 by done. done.
Qed.
End helpers.

Section handshake.
Context {S : Type} (r : io_Reader S) (w : io_Writer S) `{!ReaderSpec r} `{!WriterSpec w} `{!Duplex r w}.
Context {T : Type} (r' : io_Reader T) (w' : io_Writer T) `{!ReaderSpec r'} `{!WriterSpec w'} `{!Duplex r' w'}.
Context (frames : S → nat) `{!EnoughFuel r frames}.

Lemma auth_dialogues o c m d : auth_ok o c m d →
  ∃ cb sb n, ∀ fuel, (n ≤ fuel)%nat →
    dialogue r w (auth_loop fuel r w fuel c d) sb cb tt ∧
    dialogue r' w' (authenticate fuel r' w' o m) cb sb tt.
Proof.
  unfold auth_ok, authenticate. destruct (AuthCallback m) as [callback|].
  - intros (challenge & h & respond & Hch & Hcok & Hhok & Hr & Eh & Ecb & Hne & H10 & H32).
    rewrite Hch.
    set (cl := str "@RSYNCD: AUTHREQD " ++ EncodeToString challenge ++ [10]).
    set (rl := AuthUser c ++ [32] ++ EncodeToString h ++ [10]).
    exists rl, (cl ++ str "@RSYNCD: OK" ++ [10]), (20 + length cl + length rl)%nat. intros fuel Hf.
    assert (length (str "@RSYNCD: AUTHREQD " ++ EncodeToString challenge) < fuel)%nat as Hf1.
    { unfold cl in Hf. rewrite !length_app in *. lia. }
    assert (length (AuthUser c ++ [32%Z] ++ EncodeToString h) < fuel)%nat as Hf2.
    { unfold rl in Hf. rewrite !length_app in *. lia. }
    split.
    + assert (∃ k, fuel = Datatypes.S (Datatypes.S k)) as [k Ek] by (exists (fuel - 2)%nat; lia).
      rewrite Ek at 2. cbn [auth_loop]. rewrite Hr, bool_decide_false by done.
      eapply (dialogue_cast r w).
      * eapply (dialogue_read r w); [by apply parses_wrap, (read_challenge_ok r challenge); [| |lia]|]. cbv beta iota. rewrite Eh.
        eapply (dialogue_bind r w _ _ [] [] h); [apply (dialogue_wrap r w), (dialogue_returned r w)|].
        eapply (dialogue_write r w); [apply yields_wrap, (emits_write w)|].
        eapply (dialogue_read r w); [apply parses_wrap, read_ok_ok; lia|]. apply (dialogue_ret r w).
      * unfold cl. bytes_eq.
      * unfold rl. bytes_eq.
    + eapply (dialogue_cast r' w').
      * eapply (dialogue_write r' w'); [apply yields_wrap, (emits_write w')|].
        eapply (dialogue_bind r' w').
        { apply (dialogue_on_error r' w'), (dialogue_parses r' w'), (ReadAuthResponse_ok r' (AuthUser c) h); done. }
        cbv beta iota. rewrite Ecb, hashEqual_refl. cbn [negb].
        apply (dialogue_emits r' w'), yields_wrap, (emits_write w').
      * unfold rl. bytes_eq.
      * unfold cl. bytes_eq.
  - intros _. exists [], (str "@RSYNCD: OK" ++ [10]), 20%nat. intros fuel Hf. split.
    + assert (∃ k, fuel = Datatypes.S k) as [k Ek] by (exists (fuel - 1)%nat; lia).
      rewrite Ek at 2. cbn [auth_loop]. eapply (dialogue_cast r w).
      * eapply (dialogue_read r w); [apply parses_wrap, read_ok_ok; lia|]. apply (dialogue_ret r w).
      * bytes_eq.
      * reflexivity.
    + apply (dialogue_emits r' w'), yields_wrap, (emits_write w').
Qed.

Definition client_args (v : Z) (name : bytes) : list bytes :=
  [str "--server"; str "--sender"; transferArgstr v; str "."; name ++ str "/"].

Lemma client_args_ok v name : module_ok name → Forall (λ a, a ≠ [] ∧ args_delim v ∉ a) (client_args v name).
Proof.
  intros (Hne & _ & _ & H0 & H10). unfold client_args.
  assert (args_delim v = 0 ∨ args_delim v = 10) as Hd by (unfold args_delim; case_if; auto).
  repeat apply Forall_cons_2; [..|by constructor];
    try (split; [by unfold transferArgstr; try case_if|]; destruct Hd as [->| ->];
         unfold transferArgstr; try case_if; by apply (bool_decide_unpack _); vm_compute).
  split; [by destruct name|]. rewrite not_elem_of_app.
  destruct Hd as [->| ->]; (split; [done|by apply (bool_decide_unpack _); vm_compute]).
Qed.

Lemma client_args_preserve v name : module_ok name → ExtractPreserveFlags (client_args v name) = (true, true, false).
Proof.
  intros (Hne & _ & Hp & _). unfold ExtractPreserveFlags, client_args. cbn [foldl].
  assert (is_short_option (name ++ str "/") = false) as ->.
  { unfold is_short_option. destruct name as [|b name]; [done|]. change (str "-") with [45] in *.
    cbn [app]. rewrite HasPrefix_byte in Hp |- *. by rewrite Hp. }
  cbn [negb]. unfold transferArgstr. destruct (30 <=? v); by vm_compute.
Qed.

(** The flags the server resolves from the client's arguments. *)
Lemma client_args_flags v name : 30 ≤ v →
  ResolveCompatFlags serverCapabilities (ExtractClientInfo (client_args v name)) = 184.
Proof. intros Hv. unfold client_args, transferArgstr. destruct (Z.leb_spec 30 v); [|lia]. reflexivity. Qed.

(** What follows the arguments, in both directions; below protocol 23 the seed
    is framed and still in the server's buffer. *)
Definition digest_list : bytes := vstring_bytes (Join SupportedDigests [32]).
Definition params_client (v : Z) : bytes := if 30 <=? v then digest_list else [].
Definition params_server (v : Z) : bytes := if 30 <=? v then varint_bytes 184 ++ digest_list else [].

Lemma digest_list_dialogue {U} (q : io_Reader U) (x : io_Writer U) `{!ReaderSpec q} `{!WriterSpec x} `{!Duplex q x} :
  dialogue q x (NegotiateAlgorithms q x SupportedDigests []) digest_list digest_list (mk_Algorithms (str "md5") []).
Proof.
  pose proof (NegotiateAlgorithms_ok q x SupportedDigests SupportedDigests) as H.
  replace (pickOne SupportedDigests (Join SupportedDigests [32])) with (str "md5") in H by by vm_compute.
  apply H; by vm_compute.
Qed.

Lemma read_parameters_ok v :
  dialogue r w (read_parameters r w v) (params_server v) (params_client v) (agreed_flags v, agreed_checksum v).
Proof.
  unfold read_parameters, params_server, params_client, agreed_flags, agreed_checksum, DefaultAlgorithms.
  destruct (Z.leb_spec 30 v) as [Hv|Hv]; [|apply (dialogue_ret r w)].
  unfold ReadCompatFlags. destruct (Z.ltb_spec v 30); [lia|].
  eapply (dialogue_read r w); [apply parses_wrap, (ReadVarint_ok r 184); unfold is_i32; lia|].
  change (has 184 CompatVarintFlistFlags) with true. cbn iota. eapply (dialogue_cast r w).
  - eapply (dialogue_bind r w); [apply (dialogue_wrap r w), (digest_list_dialogue r w)|]. apply (dialogue_ret r w).
  - bytes_eq.
  - bytes_eq.
Qed.

Lemma agreed_flags_has v :
  has (agreed_flags v) CompatVarintFlistFlags = (30 <=? v) ∧ has (agreed_flags v) CompatChksumSeedFix = (30 <=? v) ∧
  has (agreed_flags v) CompatId0Names = false.
Proof. unfold agreed_flags. by destruct (30 <=? v). Qed.

(** The outcome of the handshake on either side. *)
Definition server_outcome (o : outside) (m : ServerModule) (v : Z) : handshakeResult :=
  mk_handshakeResult m v (30 <=? v) (30 <=? v) false (true, true) false (agreed_checksum v) (choose_seed o)
    (if v <? 23 then Some (mk_mux_Writer (PutUint32 (u32 (choose_seed o))) defaultBufSize) else None).
Definition client_outcome (o : outside) (name : bytes) (v sub : Z) (d : bytes) : Session :=
  mk_Session v sub d (agreed_checksum v) (choose_seed o) (agreed_flags v) (30 <=? v) (30 <=? v) false name
    NewNdxState NewNdxState NewReader
    (if 30 <=? v then Some (mk_mux_Writer (PutUint32 0) defaultBufSize) else None).

Definition args_line (v : Z) (name : bytes) : bytes :=
  args_bytes (args_delim v) (client_args v name) ++ [args_delim v].

Lemma exchange_parameters_ok o m v name fuel : module_ok name → (length (args_line v name) ≤ fuel)%nat →
  dialogue r' w' (exchange_parameters fuel r' w' o m v) (args_line v name ++ params_client v)
    (params_server v ++ if v <? 23 then [] else PutUint32 (u32 (choose_seed o))) (server_outcome o m v).
Proof.
  intros Hn Hf. unfold args_line in Hf. rewrite length_app in Hf. change (length [args_delim v]) with 1%nat in Hf.
  destruct (choose_seed_ok o) as [Hseed _]. destruct (agreed_flags_has v) as (F1 & F2 & F3).
  eapply (dialogue_read r' w').
  { apply parses_wrap, (read_args_ok r' (args_delim v) (client_args v name) fuel []); [by apply client_args_ok|lia]. }
  cbn [app]. eapply (dialogue_cast r' w').
  - eapply (dialogue_bind r' w' _ _ [] (if 30 <=? v then varint_bytes 184 else []) (agreed_flags v)).
    { unfold agreed_flags. destruct (Z.leb_spec 30 v); [|apply (dialogue_ret r' w')]. rewrite client_args_flags by done.
      unfold WriteCompatFlags. destruct (Z.ltb_spec v 30); [lia|]. eapply (dialogue_cast r' w').
      - eapply (dialogue_write r' w'); [apply yields_wrap, (WriteVarint_ok w')|]. apply (dialogue_ret r' w').
      - reflexivity.
      - bytes_eq. }
    rewrite F1. eapply (dialogue_bind r' w' _ _ (params_client v) (params_client v) (agreed_checksum v)).
    { unfold params_client, agreed_checksum, DefaultAlgorithms. destruct (Z.leb_spec 30 v); [|apply (dialogue_ret r' w')].
      eapply (dialogue_cast r' w').
      - eapply (dialogue_bind r' w'); [apply (dialogue_wrap r' w'), (digest_list_dialogue r' w')|]. apply (dialogue_ret r' w').
      - bytes_eq.
      - bytes_eq. }
    eapply (dialogue_bind r' w' _ _ [] (if v <? 23 then [] else PutUint32 (u32 (choose_seed o)))
      (if v <? 23 then Some (mk_mux_Writer (PutUint32 (u32 (choose_seed o))) defaultBufSize) else None)).
    { destruct (v <? 23).
      - eapply (dialogue_bind r' w' _ _ [] [] (tt, _)); [|apply (dialogue_ret r' w')].
        intros s rest Hs. exists s. rewrite write_seed_muxed, app_nil_r. done.
      - eapply (dialogue_cast r' w').
        + eapply (dialogue_write r' w'); [apply yields_wrap, (WriteInt32_ok w')|]. apply (dialogue_ret r' w').
        + reflexivity.
        + bytes_eq. }
    fold (client_args v name). rewrite client_args_preserve by done. rewrite F2, F3. apply (dialogue_ret r' w').
  - bytes_eq.
  - unfold params_server, params_client. destruct (30 <=? v); bytes_eq.
Qed.

(** The seed in a frame of its own, or plain. *)
Lemma read_seed_ok o v :
  dialogue r w (read_seed frames r v)
    (if v <? 23 then frame_bytes MsgData (PutUint32 (u32 (choose_seed o))) else PutUint32 (u32 (choose_seed o))) []
    (choose_seed o, NewReader).
Proof.
  destruct (choose_seed_ok o) as [Hseed _]. unfold read_seed.
  destruct (v <? 23); apply (dialogue_parses r w); [by apply read_seed_muxed|].
  eapply parses_bind_r; [by apply parses_wrap, ReadInt32_ok|]. apply parses_ret.
Qed.

Lemma send_filter_ok sess : (∀ mw, sess.(s_mw) = Some mw → mw = NewWriter) →
  dialogue r w (send_filter w sess) [] (if sess.(s_mw) then [] else PutUint32 0)
    (set_mw ((λ _, mk_mux_Writer (PutUint32 0) defaultBufSize) <$> sess.(s_mw)) sess).
Proof.
  intros Hmw. unfold send_filter. destruct (s_mw sess) as [mw|] eqn:E.
  - rewrite (Hmw mw) by done. eapply (dialogue_bind r w _ _ [] [] (tt, _)); [|apply (dialogue_ret r w)].
    intros s rest Hs. exists s. rewrite write_filter_muxed, app_nil_r. done.
  - assert (set_mw ((λ _, mk_mux_Writer (PutUint32 0) defaultBufSize) <$> None) sess = sess) as -> by (destruct sess; cbn in *; by subst).
    eapply (dialogue_cast r w).
    + eapply (dialogue_write r w); [apply yields_wrap, (WriteInt32_ok w)|]. apply (dialogue_ret r w).
    + reflexivity.
    + bytes_eq.
Qed.

(** What crosses the wire in the handshake, apart from the authentication. *)
Definition client_bytes (gc : Greeting) (auth name : bytes) (v : Z) : bytes :=
  Greeting_String gc ++ (name ++ [10]) ++ auth ++ args_line v name ++ params_client v.
Definition server_bytes (gs : Greeting) (auth : bytes) (o : outside) (v : Z) : bytes :=
  Greeting_String gs ++ auth ++ params_server v ++ if v <? 23 then [] else PutUint32 (u32 (choose_seed o)).

Lemma text_phase_ok c gs v sub d cb sb fuel :
  greeting_ok gs → Negotiate (ApplyDefaults c.(c_Greeting)) gs = Ret (v, sub, d) →
  dialogue r w (auth_loop fuel r w fuel c d) sb cb tt → (length (Greeting_String gs) ≤ fuel)%nat →
  dialogue r w (text_phase fuel r w c) (Greeting_String gs ++ sb ++ params_server v)
    (client_bytes (ApplyDefaults c.(c_Greeting)) cb c.(c_Module) v) (v, sub, d, agreed_flags v, agreed_checksum v).
Proof.
  intros Hgs Hneg Hauth Hf. eapply (dialogue_cast r w).
  - eapply (dialogue_write r w); [apply yields_wrap, (emits_write w)|].
    eapply (dialogue_read r w); [by apply parses_wrap, ReadGreeting_ok|].
    rewrite Hneg. eapply (dialogue_bind r w _ _ [] [] (v, sub, d)); [apply (dialogue_wrap r w), (dialogue_returned r w)|].
    eapply (dialogue_write r w); [apply yields_wrap, (emits_seq w); apply (emits_write w)|].
    eapply (dialogue_bind r w); [exact Hauth|].
    eapply (dialogue_write r w); [apply yields_wrap, (WriteArgs_ok w (client_args v (c_Module c)))|].
    eapply (dialogue_bind r w); [apply read_parameters_ok|]. cbv beta iota. apply (dialogue_ret r w).
  - bytes_eq.
  - unfold client_bytes, args_line. destruct (decide (client_args v (c_Module c) = [])) as [E|_]; [done|]. bytes_eq.
Qed.

Lemma before_filter_ok o c gs v sub d cb sb fuel :
  greeting_ok gs → Negotiate (ApplyDefaults c.(c_Greeting)) gs = Ret (v, sub, d) →
  dialogue r w (auth_loop fuel r w fuel c d) sb cb tt → (length (Greeting_String gs) ≤ fuel)%nat →
  dialogue r w (before_filter fuel frames r w c)
    (server_bytes gs sb o v ++ if v <? 23 then frame_bytes MsgData (PutUint32 (u32 (choose_seed o))) else [])
    (client_bytes (ApplyDefaults c.(c_Greeting)) cb c.(c_Module) v)
    (set_mw (if 30 <=? v then Some NewWriter else None) (client_outcome o c.(c_Module) v sub d)).
Proof.
  intros Hgs Hneg Hauth Hf. eapply (dialogue_cast r w).
  - eapply (dialogue_bind r w); [by apply (text_phase_ok c gs v sub d cb sb fuel)|]. cbv beta iota.
    eapply (dialogue_bind r w); [apply (read_seed_ok o)|]. cbv beta iota.
    destruct (agreed_flags_has v) as (-> & -> & ->). apply (dialogue_ret r w).
  - unfold server_bytes. destruct (v <? 23); bytes_eq.
  - bytes_eq.
Qed.

Lemma runHandshake_ok o c gs v sub d cb sb fuel :
  greeting_ok gs → Negotiate (ApplyDefaults c.(c_Greeting)) gs = Ret (v, sub, d) →
  dialogue r w (auth_loop fuel r w fuel c d) sb cb tt → (length (Greeting_String gs) ≤ fuel)%nat →
  dialogue r w (runHandshake fuel frames r w c)
    (server_bytes gs sb o v ++ if v <? 23 then frame_bytes MsgData (PutUint32 (u32 (choose_seed o))) else [])
    (client_bytes (ApplyDefaults c.(c_Greeting)) cb c.(c_Module) v ++ if 30 <=? v then [] else PutUint32 0)
    (client_outcome o c.(c_Module) v sub d).
Proof.
  intros Hgs Hneg Hauth Hf. eapply (dialogue_cast r w).
  - eapply (dialogue_bind r w); [by apply (before_filter_ok o c gs v sub d cb sb fuel)|].
    set (sess := set_mw _ _).
    assert (dialogue r w (send_filter w sess) [] (if 30 <=? v then [] else PutUint32 0) (client_outcome o (c_Module c) v sub d)) as Hsend.
    { pose proof (send_filter_ok sess) as Hs. unfold sess in Hs |- *. cbn [s_mw set_mw client_outcome] in Hs |- *.
      unfold client_outcome in *. destruct (30 <=? v); apply Hs; by intros mw [= <-]. }
    exact Hsend.
  - by rewrite app_nil_r.
  - done.
Qed.

Lemma doHandshake_ok o sv m gc name v sub d cb sb fuel :
  greeting_ok gc → module_ok name → sv.(modules) !! name = Some m → m.(sm_root) = None →
  Negotiate gc (ApplyDefaults sv.(sv_Greeting)) = Ret (v, sub, d) →
  dialogue r' w' (authenticate fuel r' w' o m) cb sb tt →
  (length (Greeting_String gc) + length name + length (args_line v name) < fuel)%nat →
  dialogue r' w' (doHandshake fuel r' w' o sv) (client_bytes gc cb name v)
    (server_bytes (ApplyDefaults sv.(sv_Greeting)) sb o v) (Some (server_outcome o m v)).
Proof.
  intros Hgc Hname Hm Hroot Hneg Hauth Hf. pose proof Hname as (Hne & Hlist & _ & _ & H10). eapply (dialogue_cast r' w').
  - eapply (dialogue_write r' w'); [apply yields_wrap, (emits_write w')|].
    eapply (dialogue_bind r' w'); [apply (dialogue_on_error r' w'), (dialogue_parses r' w'), ReadGreeting_ok; [exact Hgc|lia]|].
    rewrite Hneg. eapply (dialogue_bind r' w' _ _ [] [] (v, sub, d)); [apply (dialogue_on_error r' w'), (dialogue_returned r' w')|].
    cbv beta iota. eapply (dialogue_bind r' w' _ _ (name ++ [10]) [] (Some name)).
    { apply (dialogue_on_error r' w'), (dialogue_parses r' w'). eapply parses_bind_r; [apply readLine_ok; [done|lia]|]. apply parses_ret. }
    cbv beta iota. rewrite !bool_decide_false by done. cbn [orb]. rewrite Hm, Hroot.
    eapply (dialogue_bind r' w'); [exact Hauth|].
    eapply (dialogue_bind r' w'); [apply exchange_parameters_ok; [exact Hname|lia]|]. apply (dialogue_ret r' w').
  - unfold client_bytes. bytes_eq.
  - unfold server_bytes. bytes_eq.
Qed.
End handshake.

(** What is left in a buffer by the handshake is the client's filter list from
    protocol 30 on, and below 23 the server's seed. *)
Lemma handshake_completes {S T} (r : io_Reader S) (w : io_Writer S) `{!ReaderSpec r} `{!WriterSpec w} `{!Duplex r w}
    (r' : io_Reader T) (w' : io_Writer T) `{!ReaderSpec r'} `{!WriterSpec w'} `{!Duplex r' w'}
    (frames : S → nat) `{!EnoughFuel r frames} o c sv m v sub d :
  greeting_ok (ApplyDefaults c.(c_Greeting)) → greeting_ok (ApplyDefaults sv.(sv_Greeting)) →
  Negotiate (ApplyDefaults c.(c_Greeting)) (ApplyDefaults sv.(sv_Greeting)) = Ret (v, sub, d) →
  module_ok c.(c_Module) → sv.(modules) !! c.(c_Module) = Some m → m.(sm_root) = None → auth_ok o c m d →
  ∃ cb sb n, ∀ fuel, (n ≤ fuel)%nat →
    dialogue r w (runHandshake fuel frames r w c)
      (sb ++ if v <? 23 then frame_bytes MsgData (PutUint32 (u32 (choose_seed o))) else [])
      (cb ++ if 30 <=? v then [] else PutUint32 0) (client_outcome o c.(c_Module) v sub d) ∧
    dialogue r' w' (doHandshake fuel r' w' o sv) cb sb (Some (server_outcome o m v)).
Proof.
  intros Hgc Hgs Hneg Hname Hm Hroot Hauth. destruct (auth_dialogues r w r' w' o c m d Hauth) as (cb & sb & n & Ha).
  set (gc := ApplyDefaults (c_Greeting c)) in *. set (gs := ApplyDefaults (sv_Greeting sv)) in *.
  exists (client_bytes gc cb (c_Module c) v), (server_bytes gs sb o v),
    (n + length (Greeting_String gc) + length (Greeting_String gs) + length (c_Module c) + length (args_line v (c_Module c)) + 1)%nat.
  intros fuel Hf. destruct (Ha fuel) as [Hc Hs]; [lia|]. split.
  - apply (runHandshake_ok r w frames o c gs v sub d cb sb fuel Hgs Hneg Hc). lia.
  - apply (doHandshake_ok r' w' o sv m gc (c_Module c) v sub d cb sb fuel Hgc Hname Hm Hroot Hneg Hs). lia.
Qed.

(** C10: The handshake completes and both ends agree. When the greetings can be
    printed and negotiate a version, the module exists with a readable root,
    its name is usable and authentication (if any) would succeed, the client's
    runHandshake and the server's doHandshake, each given exactly the bytes the
    other sends, both return; version, strong checksum, seed (never 0) and the
    three feature flags are the same on both sides and the file list parameters
    fit together. What is still in a buffer then is the filter list on the
    client's side from protocol 30 on, and below 23 the seed on the server's,
    which the client's input contains as the frame a flush would send. *)
Theorem handshake_agreement {S T} (r : io_Reader S) (w : io_Writer S) `{!ReaderSpec r} `{!WriterSpec w} `{!Duplex r w}
    (r' : io_Reader T) (w' : io_Writer T) `{!ReaderSpec r'} `{!WriterSpec w'} `{!Duplex r' w'}
    (frames : S → nat) `{!EnoughFuel r frames} o c sv m v sub d :
  greeting_ok (ApplyDefaults c.(c_Greeting)) → greeting_ok (ApplyDefaults sv.(sv_Greeting)) →
  Negotiate (ApplyDefaults c.(c_Greeting)) (ApplyDefaults sv.(sv_Greeting)) = Ret (v, sub, d) →
  module_ok c.(c_Module) → sv.(modules) !! c.(c_Module) = Some m → m.(sm_root) = None → auth_ok o c m d →
  ∃ cb sb sess res n, ∀ fuel, (n ≤ fuel)%nat →
    dialogue r w (runHandshake fuel frames r w c)
      (sb ++ match res.(outMw) with Some mw => frame_bytes MsgData mw.(wbuf) | None => [] end)
      (cb ++ match sess.(s_mw) with Some _ => [] | None => PutUint32 0 end) sess ∧
    dialogue r' w' (doHandshake fuel r' w' o sv) cb sb (Some res) ∧
    res.(h_module) = m ∧ res.(h_ver) = v ∧ sess.(s_version) = v ∧
    sess.(s_checksum) = res.(h_checksum) ∧ sess.(s_seed) = res.(h_seed) ∧ res.(h_seed) = choose_seed o ∧ res.(h_seed) ≠ 0 ∧
    sess.(s_seedFix) = res.(h_seedFix) ∧ sess.(s_mr) = NewReader ∧
    negotiated (transfer_params res) (session_params sess) ∧
    match sess.(s_mw) with Some mw => 30 ≤ v ∧ mw.(wbuf) = PutUint32 0 | None => v < 30 end ∧
    match res.(outMw) with Some mw => v < 23 ∧ mw.(wbuf) = PutUint32 (u32 res.(h_seed)) | None => 23 ≤ v end.
Proof.
  intros Hgc Hgs Hneg Hname Hm Hroot Hauth.
  destruct (handshake_completes r w r' w' frames o c sv m v sub d Hgc Hgs Hneg Hname Hm Hroot Hauth) as (cb & sb & n & Hrun).
  exists cb, sb, (client_outcome o (c_Module c) v sub d), (server_outcome o m v), n. intros fuel Hf. destruct (Hrun fuel Hf) as [Hc Hs].
  cbn [outMw s_mw server_outcome client_outcome h_module h_ver s_version s_checksum h_checksum s_seed h_seed s_seedFix h_seedFix s_mr].
  split_and!; try done; [by destruct (v <? 23), (30 <=? v)|apply choose_seed_ok| | |].
  - unfold negotiated. cbn. split_and!; [done..|]. by intros ?%Z.leb_le.
  - destruct (Z.leb_spec 30 v); [by split|done].
  - destruct (Z.ltb_spec v 23); [by split|done].
Qed.

Definition example_module : ServerModule :=
  mk_ServerModule (str "pub") (str "public files") None (Some (λ user challenge, Ret (user ++ challenge))).
Definition example_server : Server := mk_Server {[ str "pub" := example_module ]} (mk_Greeting 31 0 []).
Definition example_client : Client :=
  mk_Client (mk_Greeting 0 0 []) (str "pub") (str "alice") (Some (λ _ challenge, Ret (str "alice" ++ challenge))).
Definition example_outside : outside := mk_outside (Some (replicate 16 7)) (Some [1; 2; 3; 4]) 0 (λ l, l) (λ l, reflexivity l).

Lemma handshake_agreement_witness :
  ∃ cb sb sess res n,
    dialogue conn_reader conn_writer (runHandshake n conn_fuel conn_reader conn_writer example_client) sb cb sess ∧
    dialogue conn_reader conn_writer (doHandshake n conn_reader conn_writer example_outside example_server) cb sb (Some res) ∧
    res.(h_ver) = 31 ∧ res.(h_seed) = 67305985 ∧ sess.(s_seed) = res.(h_seed).
Proof.
  destruct (handshake_agreement conn_reader conn_writer conn_reader conn_writer conn_fuel
              example_outside example_client example_server example_module 31 0 (str "md5"))
    as (cb & sb & sess & res & n & H).
  - apply (bool_decide_unpack _). by vm_compute.
  - apply (bool_decide_unpack _). by vm_compute.
  - by vm_compute.
  - unfold module_ok. apply (bool_decide_unpack _). by vm_compute.
  - by vm_compute.
  - done.
  - exists (replicate 16 7), (str "alice" ++ replicate 16 7), (λ _ challenge, Ret (str "alice" ++ challenge)).
    split_and!; try done; apply (bool_decide_unpack _); by vm_compute.
  - exists cb, sb, sess, res, n. destruct (H n (le_n n)) as (Hc & Hs & _ & Hv & _ & _ & Hseed & Hch & _ & _ & _ & _ & Hmw & Hout).
    destruct (outMw res) as [?|]; [lia|]. destruct (s_mw sess) as [?|]; [|lia]. rewrite !app_nil_r in Hc.
    split_and!; [done|done|done| |done]. by rewrite Hch.
Defined.

(** ** What a completed handshake guarantees the server *)
Lemma refuse_fails {S A} (w : io_Writer S) msg e s (a : A) s' : refuse w msg e s ≠ (Ret a, s').
Proof.
  unfold refuse, ignore, fail. intros H. apply bind_inv_Ret in H as (? & ? & _ & H). done.
Qed.

Lemma on_error_refuse {S A} (w : io_Writer S) (m : M S A) msg (f : error → error) s a s' :
  on_error m (λ e, refuse w msg (f e)) s = (Ret a, s') → m s = (Ret a, s').
Proof. unfold on_error. destruct (m s) as [[] ?]; try done. by intros ?%refuse_fails. Qed.

Lemma hash_differs_mono a b : hash_differs a b 1 = 1.
Proof. revert b. induction a as [|x a IH]; intros [|y b]; cbn [hash_differs]; auto. case_if; apply IH. Qed.

Lemma hashEqual_true a b : hashEqual a b = true → a = b.
Proof.
  unfold hashEqual. case_if; [done|]. intros H. b2p.
  assert (length a = length b) as Hl by lia. clear Heqb0. revert b Hl H.
  induction a as [|x a IH]; intros [|y b] Hl H; try done. cbn [hash_differs] in H.
  destruct (Z.eqb_spec x y) as [->|]; [|by rewrite hash_differs_mono in H]. f_equal. apply IH; [simpl in Hl; lia|done].
Qed.

Lemma authenticate_inv {S} fuel (r : io_Reader S) (w : io_Writer S) o m s s' :
  authenticate fuel r w o m s = (Ret tt, s') → ∀ callback, m.(AuthCallback) = Some callback →
  ∃ challenge user h s1 s2, o.(rand_challenge) = Some challenge ∧
    ReadAuthResponse r fuel s1 = (Ret (user, h), s2) ∧ callback user challenge = Ret h.
Proof.
  intros H callback Hcb. unfold authenticate in H. rewrite Hcb in H.
  destruct (rand_challenge o) as [challenge|]; [|done].
  apply bind_inv_Ret in H as ([] & s1 & _ & H). apply bind_inv_Ret in H as ([user h] & s2 & E & H).
  apply on_error_refuse in E.
  destruct (callback user challenge) as [h'| | |] eqn:Ec; try done; [|by apply refuse_fails in H].
  destruct (hashEqual h h') eqn:Eh; [|by apply refuse_fails in H]. apply hashEqual_true in Eh as ->.
  by exists challenge, user, h', s1, s2.
Qed.

(** C11: No transfer without the handshake's guarantees. Whatever the peer sends,
    when doHandshake returns a result the module is one of the server's, its
    root could be opened, the version is at least 20, the seed is not 0, and a
    module with an AuthCallback has been unlocked: the peer sent a user name and
    exactly the digest the callback expects for this connection's challenge. *)
Theorem doHandshake_guards {S} fuel (r : io_Reader S) (w : io_Writer S) o sv s res s' :
  doHandshake fuel r w o sv s = (Ret (Some res), s') →
  (∃ name, sv.(modules) !! name = Some res.(h_module)) ∧ res.(h_module).(sm_root) = None ∧
  MinProtocolVersion ≤ res.(h_ver) ∧ res.(h_seed) ≠ 0 ∧
  ∀ callback, res.(h_module).(AuthCallback) = Some callback →
    ∃ challenge user h s1 s2, o.(rand_challenge) = Some challenge ∧
      ReadAuthResponse r fuel s1 = (Ret (user, h), s2) ∧ callback user challenge = Ret h.
Proof.
  intros H. unfold doHandshake in H.
  apply bind_inv_Ret in H as ([] & s1 & _ & H). apply bind_inv_Ret in H as (gc & s2 & _ & H).
  apply bind_inv_Ret in H as ([[v sub] d] & s3 & Hneg & H). apply on_error_refuse in Hneg.
  apply bind_inv_Ret in H as (req & s4 & _ & H). destruct req as [name|]; [|done].
  destruct (bool_decide _ || bool_decide _).
  { apply bind_inv_Ret in H as (? & ? & _ & H). done. }
  destruct (modules sv !! name) as [m|] eqn:Em; [|by apply refuse_fails in H].
  destruct (sm_root m) as [?|] eqn:Er; [by apply refuse_fails in H|].
  apply bind_inv_Ret in H as ([] & s5 & Ha & H). apply bind_inv_Ret in H as (res' & s6 & Hx & H).
  injection H as <- <-.
  assert (h_module res' = m ∧ h_ver res' = v ∧ h_seed res' = choose_seed o) as (-> & -> & ->).
  { unfold exchange_parameters in Hx. do 4 (apply bind_inv_Ret in Hx as (? & ? & _ & Hx)).
    destruct (ExtractPreserveFlags _) as [[??]?]. by injection Hx as <- <-. }
  split_and!; [by exists name|done| |apply choose_seed_ok|by apply (authenticate_inv fuel r w o m s4 s5)].
  unfold returned, Negotiate in Hneg. destruct (negotiate_version gc _) as [v' sub'].
  destruct (Z.ltb_spec v' MinProtocolVersion); [done|]. by injection Hneg as <- _ _ _.
Qed.

(** The bytes of a client that knows the password. *)
Definition example_input : bytes :=
  client_bytes example_greeting (str "alice " ++ EncodeToString (str "alice" ++ replicate 16 7) ++ [10]) (str "pub") 31.

Lemma doHandshake_guards_witness :
  ∃ res s', doHandshake 500 conn_reader conn_writer example_outside example_server (conn_dribble example_input) = (Ret (Some res), s') ∧
    MinProtocolVersion ≤ res.(h_ver) ∧ res.(h_seed) ≠ 0.
Proof.
  destruct (doHandshake 500 conn_reader conn_writer example_outside example_server (conn_dribble example_input))
    as [[[res|]| | |] s'] eqn:E; [|by vm_compute in E..].
  exists res, s'. split; [done|].
  destruct (doHandshake_guards 500 conn_reader conn_writer example_outside example_server _ res s' E) as (_ & _ & Hv & Hs & _).
  by split.
Defined.

(** The same connection with a wrong digest is refused. *)
Example wrong_digest_refused :
  (doHandshake 500 conn_reader conn_writer example_outside example_server
     (conn_of (client_bytes example_greeting (str "alice " ++ EncodeToString (replicate 16 7) ++ [10]) (str "pub") 31))).1
  = Fail (Errorf "authentication failed for user" (str "alice")).
Proof. by vm_compute. Qed.
