(* ===== verification/Sender.v ===== *)
(** * The server's transfer phase (server-send.go)

    doServerSender from the filter list to the final goodbye: the file list,
    the selector loop with its echoes and file transfers, the statistics. The
    multiplexing set-up is abstracted: [r] and [w] are the input and output of
    the connection's state and [flush] its flush method. The module's file
    system is the caller's: [walk] is the result of collecting its entries ([Walk.v])
    and [fsys] what Open and io.ReadAll return. *)
From S2P Require Import Prelude.
From S2P Require Import GoIO.
From S2P Require Import Dialogue.
From S2P Require Import WireInt.
From S2P Require Import Selector.
From S2P Require Import Checksum.
From S2P Require Import Delta.
From S2P Require Import Sort.
From S2P Require Import FileList.
From S2P Require Import HashSearch.
From S2P Require Import Connect.
From S2P Require Import Greet.
#[local] Open Scope Z_scope.
#[local] Open Scope go_scope.

Definition ndxDelStats : Z := -3.

(** [FS.Open(name)], then [io.ReadAll] of the file. *)
Definition file_system := bytes → outcome (outcome bytes).

(** The fields of transferState the phase uses besides its connection. *)
Record transferState := mk_transferState {
  st_list : list_params;
  st_seed : Z;
  st_seedFix : bool;
  st_checksum : bytes;
  st_entries : list fileEntry;
}.
Definition st_ver (st : transferState) : Z := st.(st_list).(lp_ver).

Section sender.
Context {S : Type} (r : io_Reader S) (w : io_Writer S) (flush : M S unit) `{Digests} (fsys : file_system).

(** The loop of recvFilterList; every round consumes at least four bytes. *)
Fixpoint recvFilterList (fuel : nat) : M S unit :=
  match fuel with
  | O => nofuel
  | Datatypes.S fuel' =>
    let* len32 := wrap "read filter list length" (ReadInt32 r) in
    if len32 =? 0 then ret tt
    else if len32 <? 0 then fail (Errorf "negative filter rule length" [len32])
    else wrap "read filter rule" (CopyN_discard r (Z.to_nat len32)) ;;; recvFilterList fuel'
  end.

Section state.
Context (st : transferState).

Definition echoNdx (outNdx : NdxState) (ndx : Z) : M S NdxState :=
  if 30 <=? st_ver st then
    let* (_, outNdx') := on_object outNdx (WriteNdx w ndx) in ret outNdx'
  else WriteInt32 w ndx ;;; ret outNdx.

Definition echoSelector (outNdx : NdxState) (sel : Selector) : M S NdxState :=
  let* (_, outNdx') := on_object outNdx (WriteSelector w (st_ver st) sel) in
  ret outNdx'.

Definition echoDelStats (outNdx : NdxState) : M S NdxState :=
  times 5 (wrap "read del_stats varint" (ReadVarint r)) ;;;
  let* outNdx' := echoNdx outNdx ndxDelStats in
  times 5 (wrap "write del_stats varint" (WriteVarint w 0)) ;;;
  ret outNdx'.

(** The bytes of the file, or of nothing for a non-regular entry below
    protocol 30. *)
Definition file_data (entry : fileEntry) : M S bytes :=
  if mode_IsRegular entry.(f_mode) then
    let* f := wrap "open" (returned (fsys entry.(f_name))) in
    wrap "read" (returned f)
  else if 30 <=? st_ver st then fail (Errorf "transfer request for non-regular file" entry.(f_name))
  else ret [].

Definition sendFile (entry : fileEntry) (sel : Selector) (outNdx : NdxState) : M S NdxState :=
  let* (sh, sums) := receiveSums r (st_ver st) in
  let* data := file_data entry in
  let* outNdx' := echoSelector outNdx sel in
  wrap "write sum head" (WriteSumHead w sh (st_ver st)) ;;;
  matchSums w st.(st_checksum) st.(st_seed) st.(st_seedFix) (st_ver st) data sh sums ;;;
  flush ;;;
  ret outNdx'.

(** The selector loop; [fuel] bounds the selectors. *)
Fixpoint send_files_loop (fuel : nat) (phase maxPhase : Z) (inNdx outNdx : NdxState) : M S NdxState :=
  match fuel with
  | O => nofuel
  | Datatypes.S fuel' =>
    let* (sel, inNdx') := on_object inNdx (wrap "read selector" (ReadSelector r (st_ver st))) in
    if sel.(Ndx) =? NDxDone then
      let phase' := phase + 1 in
      if maxPhase <? phase' then ret outNdx
      else
        let* outNdx' := echoNdx outNdx sel.(Ndx) in
        send_files_loop fuel' phase' maxPhase inNdx' outNdx'
    else if sel.(Ndx) =? NDXFlistEOF then fail (Errorf "unexpected NDX_FLIST_EOF (unsupported inc-recursive mode)" [])
    else if sel.(Ndx) =? ndxDelStats then
      let* outNdx' := echoDelStats outNdx in
      send_files_loop fuel' phase maxPhase inNdx' outNdx'
    else if sel.(Ndx) <? 0 then fail (Errorf "invalid file index" [sel.(Ndx)])
    else if (st_ver st <? 30) && (sel.(Ndx) =? i32 (Z.of_nat (length st.(st_entries)))) && (sel.(Iflags) =? ItemIsNew)
    then send_files_loop fuel' phase maxPhase inNdx' outNdx
    else match st.(st_entries) !! Z.to_nat sel.(Ndx) with
    | None => fail (Errorf "file-list index out of range" [sel.(Ndx)])
    | Some entry =>
      if negb (has sel.(Iflags) ItemTransfer) then
        let* outNdx' := echoSelector outNdx sel in
        send_files_loop fuel' phase maxPhase inNdx' outNdx'
      else if phase =? 2 then fail (Errorf "got transfer request in phase 2" [])
      else
        let* outNdx' := sendFile entry sel outNdx in
        send_files_loop fuel' phase maxPhase inNdx' outNdx'
    end
  end.

Definition sendFiles (fuel : nat) : M S unit :=
  let maxPhase := if 29 <=? st_ver st then 2 else 1 in
  let* outNdx := send_files_loop fuel 0 maxPhase NewNdxState NewNdxState in
  echoNdx outNdx NDxDone ;;;
  ret tt.

(** The sum of the sizes of the files and symbolic links, an int64. *)
Definition total_size (entries : list fileEntry) : Z :=
  foldl (λ t e, if mode_IsRegular e.(f_mode) || (mode_Type e.(f_mode) =? ModeSymlink) then i64 (t + e.(f_size)) else t) 0 entries.

Definition sendStats : M S unit :=
  let vals := [0; 0; total_size st.(st_entries)] ++ if 29 <=? st_ver st then [0; 0] else [] in
  for_each vals (λ v, wrap "write stat"
    (if 30 <=? st_ver st then WriteVarlong w v 3 else WriteLongInt w v)) ;;;
  flush.

Definition readNdx (inNdx : NdxState) : M S (Z * NdxState) :=
  if 30 <=? st_ver st then on_object inNdx (ReadNdx r)
  else let* v := ReadInt32 r in ret (v, inNdx).

(** The second goodbye of protocol 31; an end of the stream stands for it. *)
Definition second_goodbye (inNdx outNdx : NdxState) : M S unit :=
  echoNdx outNdx NDxDone ;;;
  let* second :=
    on_error (let* (sel, _) := on_object inNdx (ReadSelector r (st_ver st)) in ret (Some sel))
      (λ e, if errors_Is is_EOF e then ret None else fail (Wrap "read final goodbye (second)" e)) in
  match second with
  | None => ret tt
  | Some sel => if negb (sel.(Ndx) =? NDxDone) then fail (Errorf "invalid packet at end of run" [sel.(Ndx)]) else ret tt
  end.

Definition readFinalGoodbye : M S unit :=
  let* (first, inNdx) :=
    (if st_ver st <? 29 then on_error (readNdx NewNdxState) (λ _, ret (0, NewNdxState))
     else
       let* (sel, inNdx) := wrap "read final goodbye" (on_object NewNdxState (ReadSelector r (st_ver st))) in
       ret (sel.(Ndx), inNdx)) in
  if negb (first =? NDxDone) then fail (Errorf "invalid packet at end of run" [first]) else
  if 31 <=? st_ver st then second_goodbye inNdx NewNdxState else ret tt.
End state.

(** The end of walk: the entries in the order of the file list. *)
Definition sorted_entries (raw : list fileEntry) (v : Z) : list fileEntry :=
  sortFlist f_name (λ e, mode_IsDir e.(f_mode)) raw v.

(** doServerSender behind the set-up of the multiplexing; [walk] is the result
    of the walk before it is sorted. *)
Definition doServerSender (fuel : nat) (st : transferState) (walk : outcome (list fileEntry)) : M S unit :=
  recvFilterList fuel ;;;
  let* raw := wrap "walk module fs" (returned walk) in
  let entries := sorted_entries raw (st_ver st) in
  let st := mk_transferState st.(st_list) st.(st_seed) st.(st_seedFix) st.(st_checksum) entries in
  if Z.of_nat (length entries) =? 0 then flush else
  send_entries w st.(st_list) entries ;;;
  flush ;;;
  sendFiles st fuel ;;;
  flush ;;;
  sendStats st ;;;
  readFinalGoodbye st ;;;
  flush.
End sender.
