(* ===== verification/Receiver.v ===== *)
(** * The client's file operations (client-open.go)

    What a Session does on a live connection: read the file list, find the
    entry, pull the file, and end the session with the phase exchange, the
    statistics and the goodbye. [r] and [w] are the Session's input and output,
    [flush] the flush of its multiplexed writer. A Session's index trackers
    change even in calls that fail, so its methods run on the Session. *)
From S2P Require Import Prelude.
From S2P Require Import GoIO.
From S2P Require Import GoStrings.
From S2P Require Import Dialogue.
From S2P Require Import WireInt.
From S2P Require Import Selector.
From S2P Require Import Checksum.
From S2P Require Import Delta.
From S2P Require Import Flist.
From S2P Require Import Sort.
From S2P Require Import FileList.
From S2P Require Import Connect.
#[local] Open Scope Z_scope.
#[local] Open Scope go_scope.

(** ** Names and file information *)

(** What follows the last slash. *)
Definition baseName (path : bytes) : bytes := foldl (λ acc c, if c =? slash then [] else acc ++ [c]) [] path.
Definition Contains_slash (s : bytes) : bool := existsb (Z.eqb slash) s.

Definition wireModeIsDir (mode : Z) : bool := S_IFMT mode =? S_IFDIR.
Definition wireModeIsSymlink (mode : Z) : bool := S_IFMT mode =? S_IFLNK.

(** The time as the arguments of time.Unix. *)
Record flistFileInfo := mk_flistFileInfo {
  fi_name : bytes; fi_mode : Z; fi_size : Z; fi_sec : Z; fi_nsec : Z;
}.

Definition flistInfo (name : bytes) (e : FlistEntry) : flistFileInfo :=
  mk_flistFileInfo name (wireModeToFS e.(Mode))
    (if wireModeIsSymlink e.(Mode) then Z.of_nat (length e.(LinkTarget)) else e.(Size))
    e.(Mtime) e.(ModNsec).

(** The fs.File values Open returns. *)
Inductive fs_File :=
  | flistFile (info : flistFileInfo) (data : bytes)
  | moduleDirFile (info : flistFileInfo) (children : list FlistEntry)
  | symlinkFile (info : flistFileInfo) (linkTarget : bytes).

Definition is_child (dirName : bytes) (e : FlistEntry) : bool :=
  if bool_decide (dirName = str ".") then
    negb (bool_decide (e.(Name) = str ".") || Contains_slash e.(Name))
  else
    let prefix := dirName ++ [slash] in
    HasPrefix e.(Name) prefix && negb (Contains_slash (drop (length prefix) e.(Name))).

(** sort.Slice by base name; the names of a list are distinct, so the base names
    of one directory are, and any sort gives the same list. *)
Definition filterFlistChildren (entries : list FlistEntry) (dirName : bytes) : list FlistEntry :=
  sort_stable (λ a b, Compare (baseName a.(Name)) (baseName b.(Name)) <? 0) (List.filter (is_child dirName) entries).

(** [ctx *openContext] without its Session. *)
Record openContext := mk_openContext {
  ctx_entries : list FlistEntry; ctx_entry : FlistEntry; ctx_ndx : Z; ctx_name : bytes;
}.

(** ** Session methods *)

(** The result or the error of a call, as a value. *)
Definition attempt {S A} (m : M S A) : M S (error + A) := λ s,
  match m s with
  | (Ret a, s') => (Ret (inr a), s')
  | (Fail e, s') => (Ret (inl e), s')
  | (Panic, s') => (Panic, s')
  | (NoFuel, s') => (NoFuel, s')
  end.

(** [m] with [defer d()]: [d] runs however [m] ended, a panic included. *)
Definition deferred {S A} (m : M S A) (d : M S unit) : M S A := λ s,
  match m s with
  | (NoFuel, s1) => (NoFuel, s1)
  | (x, s1) =>
      match d s1 with
      | (Ret _, s2) | (Fail _, s2) => (x, s2)
      | (Panic, s2) => (Panic, s2)
      | (NoFuel, s2) => (NoFuel, s2)
      end
  end.

Definition set_ndx (n : NdxState) (s : Session) : Session :=
  mk_Session s.(s_version) s.(s_subProtocol) s.(s_digest) s.(s_checksum) s.(s_seed) s.(s_compatFlags)
    s.(s_varintFlist) s.(s_seedFix) s.(s_id0Names) s.(s_moduleName) n s.(s_recvNdx) s.(s_mr) s.(s_mw).
Definition set_recvNdx (n : NdxState) (s : Session) : Session :=
  mk_Session s.(s_version) s.(s_subProtocol) s.(s_digest) s.(s_checksum) s.(s_seed) s.(s_compatFlags)
    s.(s_varintFlist) s.(s_seedFix) s.(s_id0Names) s.(s_moduleName) s.(s_ndx) n s.(s_mr) s.(s_mw).

(** Calls of a tracker's methods. *)
Definition on_ndx {S A} (m : M (NdxState * S) A) : M (Session * S) A := λ '(sess, s),
  let '(x, (n, s')) := m (sess.(s_ndx), s) in (x, (set_ndx n sess, s')).
Definition on_recvNdx {S A} (m : M (NdxState * S) A) : M (Session * S) A := λ '(sess, s),
  let '(x, (n, s')) := m (sess.(s_recvNdx), s) in (x, (set_recvNdx n sess, s')).

Section session.
Context {S : Type} (r : io_Reader S) (w : io_Writer S) (flush : M S unit) `{Digests}.

(** The token loop of openFile, the data so far in [data]; a block reference
    carries no bytes. *)
Fixpoint read_delta (fuel : nat) (data : bytes) : M (DeltaReader * S) bytes :=
  match fuel with
  | O => nofuel
  | Datatypes.S fuel' =>
    let* (lit, _, isEnd) := wrap "read delta" (ReadToken r) in
    if isEnd : bool then ret data else read_delta fuel' (data ++ default [] lit)
  end.

Definition openFile (fuel : nat) (e : FlistEntry) (ndx : Z) : M (Session * S) fs_File :=
  let* s := get in
  wrap "write selector"
    (on_ndx (WriteSelector w s.(s_version) (mk_Selector ndx (Z.lor ItemTransfer ItemMissingData) 0 []))) ;;;
  lift (wrap "write sum head" (WriteSumHead w (mk_SumHead 0 0 0 0) s.(s_version))) ;;;
  wrap "read echoed selector" (on_recvNdx (ReadSelector r s.(s_version))) ;;;
  let* sh := lift (wrap "read sum head" (ReadSumHead r s.(s_version))) in
  let s2len := if sh.(S2Length) <=? 0 then 16 else sh.(S2Length) in
  let* data := lift (with_local NewDeltaReader (read_delta fuel [])) in
  let* want := lift (wrap "read file checksum" (ReadFull r (Z.to_nat s2len))) in
  let got := FileChecksum data s.(s_checksum) s.(s_version) s.(s_seed) in
  if negb (equalBytes got want) then fail (Errorf "checksum mismatch" e.(Name))
  else ret (flistFile (flistInfo (baseName e.(Name)) e) data).

Definition writePhaseNdx : M (Session * S) unit :=
  let* s := get in
  if 30 <=? s.(s_version) then on_ndx (WriteNdx w NDxDone) else lift (WriteInt32 w NDxDone).

Definition readPhaseNdx : M (Session * S) unit :=
  let* s := get in
  if 29 <=? s.(s_version) then
    let* sel := wrap "read NDX_DONE" (on_recvNdx (ReadSelector r s.(s_version))) in
    if negb (sel.(Ndx) =? NDxDone) then fail (Errorf "expected NDX_DONE, got ndx" [sel.(Ndx)]) else ret tt
  else
    let* v := wrap "read NDX_DONE" (lift (ReadInt32 r)) in
    if negb (v =? NDxDone) then fail (Errorf "expected NDX_DONE, got" [v]) else ret tt.

Definition readStats : M (Session * S) unit :=
  let* s := get in
  let n := if 29 <=? s.(s_version) then 5%nat else 3%nat in
  let* _ := lift (times n (wrap "read stat" (if 30 <=? s.(s_version) then ReadVarlong r 3 else ReadLongInt r))) in
  ret tt.

Definition finalGoodbye : M (Session * S) unit :=
  let* s := get in
  if s.(s_version) <? 29 then lift (WriteInt32 w NDxDone) else
  writePhaseNdx ;;;
  if 31 <=? s.(s_version) then readPhaseNdx ;;; writePhaseNdx else ret tt.

(** [for i := 0; i <= maxPhase; i++]: [maxPhase+1] rounds. *)
Fixpoint phase_rounds (n : nat) : M (Session * S) unit :=
  match n with
  | O => ret tt
  | Datatypes.S n' => writePhaseNdx ;;; readPhaseNdx ;;; phase_rounds n'
  end.

Definition finishSession : M (Session * S) unit :=
  let* s := get in
  let maxPhase := if 29 <=? s.(s_version) then 2%nat else 1%nat in
  phase_rounds (maxPhase + 1) ;;;
  readStats ;;;
  finalGoodbye.

Definition openFileFromContext (fuel : nat) (ctx : openContext) : M (Session * S) fs_File :=
  let e := ctx.(ctx_entry) in
  if wireModeIsDir e.(Mode) then
    ret (moduleDirFile (flistInfo (baseName ctx.(ctx_name)) e) (filterFlistChildren ctx.(ctx_entries) ctx.(ctx_name)))
  else if wireModeIsSymlink e.(Mode) then
    ret (symlinkFile (flistInfo (baseName ctx.(ctx_name)) e) e.(LinkTarget))
  else openFile fuel e ctx.(ctx_ndx).

(** withEntry on the live Session it acquired; the deferred consume flushes the
    output and closes the connection. *)
Definition entry_result {A} (fuel : nat) (name : bytes) (fn : openContext → M (Session * S) A) : M (Session * S) A :=
  let* s := get in
  let* entries := lift (wrap "read file list" (readFileList r fuel (session_params s))) in
  let ndxByName := sortFlistEntries entries s.(s_version) in
  let idx := findFlistEntry entries name in
  let* res := attempt
    (if 0 <=? idx then
       match entries !! Z.to_nat idx with
       | None => panic
       | Some e => fn (mk_openContext entries e (default 0 (ndxByName !! e.(Name))) name)
       end
     else fail (Errorf "open: file does not exist" name)) in
  let* fin := attempt finishSession in
  match res, fin with
  | inl oerr, _ => fail oerr
  | inr f, inl ferr => fail (Wrap "finish session" ferr)
  | inr f, inr _ => ret f
  end.

Definition withEntry {A} (fuel : nat) (name : bytes) (fn : openContext → M (Session * S) A) : M (Session * S) A :=
  deferred (entry_result fuel name fn) (lift (ignore flush)).

(** Lstat and ReadLink give withEntry these callbacks. *)
Definition lstat_callback (ctx : openContext) : M (Session * S) flistFileInfo :=
  ret (flistInfo (baseName ctx.(ctx_name)) ctx.(ctx_entry)).
Definition readlink_callback (name : bytes) (ctx : openContext) : M (Session * S) bytes :=
  if negb (wireModeIsSymlink ctx.(ctx_entry).(Mode)) then fail (Errorf "readlink: not a symlink" name)
  else ret ctx.(ctx_entry).(LinkTarget).
End session.
