(* ===== verification/Transfer.v ===== *)
(** * A whole session, end to end

    The server's transfer phase ([Sender]) against the client's file operation
    ([Receiver]): each given the bytes the other one sends, both complete, and
    what the client's Open returns is what the module's file system holds. *)
From S2P Require Import Prelude.
From S2P Require Import GoIO.
From S2P Require Import GoStrings.
From S2P Require Import Dialogue.
From S2P Require Import WireInt.
From S2P Require Import Selector.
From S2P Require Import Checksum.
From S2P Require Import Delta.
From S2P Require Import Flist.
From S2P Require Import Sort.
From S2P Require Import FileList.
From S2P Require Import HashSearch.
From S2P Require Import HashSearchProofs.
From S2P Require Import Connect.
From S2P Require Import Greet.
From S2P Require Import Sender.
From S2P Require Import Receiver.
#[local] Open Scope Z_scope.
#[local] Open Scope go_scope.

(** What a connection's flush promises the code above it: nothing changes in
    the byte streams it sees. *)
Class Flushes {S} (r : io_Reader S) (w : io_Writer S) `{!ReaderSpec r} `{!WriterSpec w} (flush : M S unit) :=
  flush_ok : dialogue r w flush [] [] tt.

(** An unbuffered connection flushes by doing nothing. *)
#[global] Instance ret_flushes {S} (r : io_Reader S) (w : io_Writer S) `{!ReaderSpec r} `{!WriterSpec w} :
  Flushes r w (ret tt).
Proof. apply (dialogue_ret r w). Qed.

(** ** What crosses the wire *)
Definition done_bytes (v : Z) : bytes := if 30 <=? v then [0] else PutUint32 (u32 NDxDone).
Definition dones (v : Z) (n : nat) : bytes := concat (replicate n (done_bytes v)).
Definition maxPhase_of (v : Z) : nat := if 29 <=? v then 2 else 1.

Definition null_head : SumHead := mk_SumHead 0 0 0 0.
Definition request (i : Z) : Selector := mk_Selector i (Z.lor ItemTransfer ItemMissingData) 0 [].
Definition delta_bytes (data : bytes) : bytes := concat (chunk_bytes <$> chunks data) ++ PutUint32 0.

(** The request for a file and the reply to it; nothing when there is none. *)
Definition ask_bytes (v : Z) (req : option Z) : bytes :=
  match req with
  | None => []
  | Some i => sel_bytes v NewNdxState (request i) ++ sumhead_bytes null_head v
  end.
Definition reply_bytes (v : Z) (req : option Z) (data csum : bytes) : bytes :=
  match req with
  | None => []
  | Some i => sel_bytes v NewNdxState (sel_seen v (request i)) ++ sumhead_bytes null_head v ++ delta_bytes data ++ csum
  end.

Definition stat_bytes (v x : Z) : bytes := if 30 <=? v then default [] (varlong_bytes x 3) else longint_bytes x.
Definition stats_bytes (v total : Z) : bytes :=
  concat (stat_bytes v <$> ([0; 0; total] ++ if 29 <=? v then [0; 0] else [])).

Definition goodbye_client (v : Z) : bytes := dones v (if 31 <=? v then 2 else 1).
Definition goodbye_server (v : Z) : bytes := if 31 <=? v then done_bytes v else [].

(** ** Selectors *)
Definition sel_done : Selector := mk_Selector NDxDone 0 0 [].

Lemma sel_done_bytes v s : sel_bytes v s sel_done = done_bytes v ∧ sel_next v s sel_done = s.
Proof. unfold sel_bytes, sel_next, done_bytes. cbn. rewrite andb_false_r. by destruct (30 <=? v). Qed.

Lemma request_ok v i : 0 ≤ i < 2^31 → sel_ok v (request i) ∧ sel_ok v (sel_seen v (request i)).
Proof.
  intros Hi. assert (∀ f k, f = Z.lor ItemTransfer ItemMissingData ∨ f = u16 (Z.lor ItemTransfer ItemMissingData) →
    k = ItemBasisTypeFollows ∨ k = ItemXnameFollows → has f k = false) as Hf by (by intros f k [->| ->] [->| ->]).
  assert (sel_ok v (mk_Selector i (Z.lor ItemTransfer ItemMissingData) 0 []) ∧
          sel_ok v (mk_Selector i (u16 (Z.lor ItemTransfer ItemMissingData)) 0 [])) as [H1 H2].
  { split; (split; [cbn [Ndx]; lia|]; split; [unfold is_byte; cbn; lia|]; split; [cbn; lia|]; right; cbn [Iflags]; auto). }
  split; [done|]. unfold sel_seen, request. cbn [Iflags Ndx BasisType Xname]. rewrite !Hf by auto. by case_if.
Qed.

Lemma request_transfers v i : has (sel_seen v (request i)).(Iflags) ItemTransfer = true.
Proof. unfold sel_seen, request. cbn [Iflags]. by case_if. Qed.

Lemma request_twice v i : sel_seen v (sel_seen v (request i)) = sel_seen v (request i).
Proof. unfold sel_seen, request. cbn [Iflags Ndx BasisType Xname]. by case_if. Qed.

Lemma NewNdxState_wf : ndx_wf NewNdxState.
Proof. split; cbn; lia. Qed.

Section endpoint.
Context {S : Type} (r : io_Reader S) (w : io_Writer S) `{!ReaderSpec r} `{!WriterSpec w} `{!Duplex r w}.

Lemma read_done v s : ndx_wf s →
  reads r (ReadSelector r v) s (done_bytes v) (mk_Selector NDxDone (Z.lor ItemTransfer ItemMissingData) 0 []) s.
Proof.
  intros Hs. destruct (sel_done_bytes v s) as [Eb En].
  pose proof (ReadSelector_ok r v s sel_done) as H. rewrite Eb, En in H.
  replace (sel_seen v sel_done) with (mk_Selector NDxDone (Z.lor ItemTransfer ItemMissingData) 0 []) in H.
  2:{ unfold sel_seen, sel_done. cbn [Ndx Iflags]. by rewrite andb_false_r. }
  apply H; [|done]. split; [unfold sel_done, NDxDone; cbn [Ndx]; lia|]. split; [unfold is_byte; cbn; lia|]. split; [cbn; lia|]. by right.
Qed.

Lemma write_done v s : 30 ≤ v → writes w (WriteNdx w NDxDone) s (done_bytes v) s.
Proof.
  intros Hv. unfold done_bytes. destruct (Z.leb_spec 30 v); [|lia].
  apply (WriteNdx_ok w s NDxDone). unfold NDxDone. lia.
Qed.

Lemma done_int32 v : v < 30 → emits w (WriteInt32 w NDxDone) (done_bytes v) ∧ parses r (ReadInt32 r) (done_bytes v) NDxDone.
Proof.
  intros Hv. unfold done_bytes. destruct (Z.leb_spec 30 v); [lia|].
  split; [apply WriteInt32_ok|apply ReadInt32_ok]. unfold is_i32, NDxDone. lia.
Qed.

(** ** The server *)
Section server.
Context (flush : M S unit) `{!Flushes r w flush} `{Digests} (fsys : file_system) (st : transferState).

Abbreviation v := (st_ver st).

Lemma echoNdx_done outNdx : dialogue r w (echoNdx w st outNdx NDxDone) [] (done_bytes v) outNdx.
Proof.
  unfold echoNdx. destruct (Z.leb_spec 30 v); eapply (dialogue_cast r w).
  - eapply (dialogue_bind r w); [apply (talks_writes r w), (write_done v); lia|]. apply (dialogue_ret r w).
  - reflexivity.
  - bytes_eq.
  - eapply (dialogue_write r w); [apply (done_int32 v); lia|]. apply (dialogue_ret r w).
  - reflexivity.
  - bytes_eq.
Qed.

Lemma loop_done k : ∀ fuel phase inNdx outNdx, ndx_wf inNdx → (k < fuel)%nat →
  dialogue r w (send_files_loop r w flush fsys st fuel phase (phase + Z.of_nat k) inNdx outNdx)
    (dones v (k + 1)) (dones v k) outNdx.
Proof.
  induction k as [|k IH]; intros [|fuel] phase inNdx outNdx Hin Hf; try lia; cbn [send_files_loop];
    (eapply (dialogue_cast r w);
     [eapply (dialogue_bind r w); [apply (talks_wrap r w), (talks_reads r w), read_done, Hin|]; cbv beta iota; cbn [Ndx];
      rewrite Z.eqb_refl| |]).
  - destruct (Z.ltb_spec (phase + Z.of_nat 0) (phase + 1)); [|lia]. apply (dialogue_ret r w).
  - unfold dones. cbn. bytes_eq.
  - reflexivity.
  - destruct (Z.ltb_spec (phase + Z.of_nat (Datatypes.S k)) (phase + 1)); [lia|].
    eapply (dialogue_bind r w); [apply echoNdx_done|].
    replace (phase + Z.of_nat (Datatypes.S k)) with (phase + 1 + Z.of_nat k) by lia. apply IH; [done|lia].
  - reflexivity.
  - reflexivity.
Qed.

Lemma null_head_ok u : parses r (ReadSumHead r u) (sumhead_bytes null_head u) null_head.
Proof.
  apply ReadSumHead_bytes; try (unfold is_i32; cbn [null_head Count BLength S2Length Remainder]; lia).
  unfold sumhead_check, null_head. cbn [Count BLength S2Length]. pose proof (maxBlockLength_bound u).
  destruct (Z.ltb_spec (maxBlockLength u) 0); [lia|]. cbn. by rewrite andb_false_r.
Qed.

Lemma receive_null_sums : parses r (receiveSums r v) (sumhead_bytes null_head v) (null_head, []).
Proof. eapply parses_bind_r; [apply parses_wrap, null_head_ok|]. apply parses_ret. Qed.

Lemma match_null data :
  emits w (matchSums w st.(st_checksum) st.(st_seed) st.(st_seedFix) v data null_head [])
    (delta_bytes data ++ FileChecksum data st.(st_checksum) v st.(st_seed)).
Proof.
  unfold matchSums, delta_bytes. cbn [null_head Count]. rewrite Z.ltb_irrefl, andb_false_r, <-app_assoc.
  apply (emits_seq w); [apply yields_wrap, WriteLiteral_ok|].
  apply (emits_seq w); [apply yields_wrap, (emits_write w)|apply (emits_write w)].
Qed.

Lemma sendFile_ok entry sel outNdx data : sel_ok v sel → mode_IsRegular entry.(f_mode) = true →
  fsys entry.(f_name) = Ret (Ret data) →
  dialogue r w (sendFile r w flush fsys st entry sel outNdx) (sumhead_bytes null_head v)
    (sel_bytes v outNdx sel ++ sumhead_bytes null_head v ++ delta_bytes data ++ FileChecksum data st.(st_checksum) v st.(st_seed))
    (sel_next v outNdx sel).
Proof.
  intros Hsel Hreg Hfs. eapply (dialogue_cast r w).
  - eapply (dialogue_read r w); [apply receive_null_sums|]. cbv beta iota.
    eapply (dialogue_bind r w _ _ [] [] data).
    { unfold file_data. rewrite Hreg, Hfs.
      apply (dialogue_bind r w _ _ [] [] (Ret data) [] [] data); apply (dialogue_wrap r w), (dialogue_returned r w). }
    eapply (dialogue_bind r w).
    { eapply (dialogue_bind r w); [by apply (talks_writes r w), WriteSelector_ok|]. apply (dialogue_ret r w). }
    eapply (dialogue_write r w); [apply yields_wrap, (emits_write w)|].
    eapply (dialogue_write r w); [apply match_null|].
    eapply (dialogue_bind r w); [apply flush_ok|]. apply (dialogue_ret r w).
  - bytes_eq.
  - bytes_eq.
Qed.

(** A request the server can serve. *)
Definition servable (req : option Z) (data : bytes) : Prop :=
  match req with
  | None => True
  | Some i => 0 ≤ i < 2^31 ∧ ∃ entry, st.(st_entries) !! Z.to_nat i = Some entry ∧
      mode_IsRegular entry.(f_mode) = true ∧ fsys entry.(f_name) = Ret (Ret data)
  end.

Lemma loop_request i data fuel k : servable (Some i) data → (k < fuel)%nat →
  dialogue r w (send_files_loop r w flush fsys st (Datatypes.S fuel) 0 (Z.of_nat k) NewNdxState NewNdxState)
    (ask_bytes v (Some i) ++ dones v (k + 1))
    (reply_bytes v (Some i) data (FileChecksum data st.(st_checksum) v st.(st_seed)) ++ dones v k)
    (sel_next v NewNdxState (sel_seen v (request i))).
Proof.
  intros (Hi & entry & He & Hreg & Hfs) Hk. destruct (request_ok v i Hi) as [Hok Hok'].
  eapply (dialogue_cast r w).
  - cbn [send_files_loop]. eapply (dialogue_bind r w).
    { apply (talks_wrap r w), (talks_reads r w), ReadSelector_ok; [exact Hok|apply NewNdxState_wf]. }
    cbv beta iota. change (Ndx (sel_seen v (request i))) with i.
    unfold NDxDone, NDXFlistEOF, ndxDelStats.
    destruct (Z.eqb_spec i (-1)); [lia|]. destruct (Z.eqb_spec i (-2)); [lia|]. destruct (Z.eqb_spec i (-3)); [lia|].
    destruct (Z.ltb_spec i 0); [lia|].
    assert ((v <? 30) && (i =? i32 (Z.of_nat (length (st_entries st)))) && (Iflags (sel_seen v (request i)) =? ItemIsNew) = false) as ->.
    { unfold sel_seen, request. cbn [Iflags]. rewrite andb_comm. by case_if. }
    rewrite He, request_transfers. cbn [negb].
    eapply (dialogue_bind r w); [by apply sendFile_ok|].
    apply (loop_done k fuel 0); [|done].
    unfold sel_next. case_if; [apply ndx_next_wf; [apply NewNdxState_wf|cbn [Ndx request]; lia]|apply NewNdxState_wf].
  - cbn [ask_bytes]. bytes_eq.
  - cbn [reply_bytes]. bytes_eq.
Qed.

Lemma sendFiles_ok req data fuel : servable req data → (4 < fuel)%nat →
  dialogue r w (sendFiles r w flush fsys st fuel) (ask_bytes v req ++ dones v (maxPhase_of v + 1))
    (reply_bytes v req data (FileChecksum data st.(st_checksum) v st.(st_seed)) ++ dones v (maxPhase_of v + 1)) tt.
Proof.
  intros Hreq Hf. unfold sendFiles. assert ((if 29 <=? v then 2 else 1) = Z.of_nat (maxPhase_of v)) as ->.
  { unfold maxPhase_of. by case_if. }
  assert (maxPhase_of v ≤ 2)%nat by (unfold maxPhase_of; case_if; lia).
  assert (dones v (maxPhase_of v + 1) = dones v (maxPhase_of v) ++ done_bytes v) as Hd.
  { unfold dones. rewrite replicate_add, concat_app. cbn [replicate concat]. by rewrite app_nil_r. }
  destruct fuel as [|fuel]; [lia|].
  assert (∃ out, dialogue r w (send_files_loop r w flush fsys st (Datatypes.S fuel) 0 (Z.of_nat (maxPhase_of v)) NewNdxState NewNdxState)
            (ask_bytes v req ++ dones v (maxPhase_of v + 1))
            (reply_bytes v req data (FileChecksum data st.(st_checksum) v st.(st_seed)) ++ dones v (maxPhase_of v)) out) as [out Hl].
  { destruct req as [i|]; eexists; [apply (loop_request i data); [exact Hreq|lia]|].
    apply (loop_done (maxPhase_of v) (Datatypes.S fuel) 0); [apply NewNdxState_wf|lia]. }
  eapply (dialogue_cast r w).
  - eapply (dialogue_bind r w); [exact Hl|]. eapply (dialogue_bind r w); [apply echoNdx_done|apply (dialogue_ret r w)].
  - bytes_eq.
  - rewrite Hd. bytes_eq.
Qed.

Lemma total_size_i64 entries : is_i64 (total_size entries).
Proof.
  unfold total_size. assert (is_i64 0) as H0 by (unfold is_i64; lia). revert H0. generalize 0.
  induction entries as [|e entries IH]; intros t Ht; cbn [foldl]; [done|]. apply IH. case_if; [apply i64_range|done].
Qed.

(** One statistics value in either format. *)
Lemma stat_value u x : is_i64 x →
  emits w (if 30 <=? u then WriteVarlong w x 3 else WriteLongInt w x) (stat_bytes u x) ∧
  parses r (if 30 <=? u then ReadVarlong r 3 else ReadLongInt r) (stat_bytes u x) x.
Proof.
  intros Hx. unfold stat_bytes. destruct (30 <=? u); [|split; [apply WriteLongInt_ok|by apply ReadLongInt_ok]].
  destruct (varlong_value_ok 3 x ltac:(lia) Hx) as (b2 & more & E & _). change (Z.of_nat 3) with 3 in E. rewrite E.
  split; [by apply (WriteVarlong_ok w 3)|apply (ReadVarlong_ok r 3); [lia|done|done]].
Qed.

Definition stat_values (u total : Z) : list Z := [0; 0; total] ++ if 29 <=? u then [0; 0] else [].

Lemma stat_values_i64 u total : is_i64 total → Forall is_i64 (stat_values u total).
Proof.
  intros Ht. assert (is_i64 0) as H0 by (unfold is_i64; lia).
  apply Forall_app. split; [|case_if]; repeat (constructor; [done|]); constructor.
Qed.

Lemma sendStats_ok : dialogue r w (sendStats w flush st) [] (stats_bytes v (total_size st.(st_entries))) tt.
Proof.
  unfold sendStats. eapply (dialogue_cast r w); [eapply (dialogue_write r w); [|apply flush_ok]|reflexivity|apply app_nil_r].
  apply emits_for_each. intros x Hx. apply yields_wrap, stat_value.
  pose proof (stat_values_i64 v _ (total_size_i64 (st_entries st))) as Hall. rewrite Forall_forall in Hall. by apply Hall.
Qed.

Lemma second_goodbye_ok inNdx outNdx : ndx_wf inNdx →
  dialogue r w (second_goodbye r w st inNdx outNdx) (done_bytes v) (done_bytes v) tt.
Proof.
  intros Hin. eapply (dialogue_cast r w).
  - eapply (dialogue_bind r w); [apply echoNdx_done|]. eapply (dialogue_bind r w).
    { apply (dialogue_on_error r w). eapply (dialogue_bind r w); [by apply (talks_reads r w), read_done|apply (dialogue_ret r w)]. }
    cbv beta iota. cbn [Ndx]. rewrite Z.eqb_refl. apply (dialogue_ret r w).
  - bytes_eq.
  - bytes_eq.
Qed.

Lemma readFinalGoodbye_ok : dialogue r w (readFinalGoodbye r w st) (goodbye_client v) (goodbye_server v) tt.
Proof.
  unfold readFinalGoodbye, goodbye_client, goodbye_server, dones.
  assert (dialogue r w (if v <? 29 then on_error (readNdx r st NewNdxState) (λ _, ret (0, NewNdxState))
     else let* (sel, inNdx) := wrap "read final goodbye" (on_object NewNdxState (ReadSelector r v)) in ret (sel.(Ndx), inNdx))
    (done_bytes v) [] (NDxDone, NewNdxState)) as Hfirst.
  { destruct (Z.ltb_spec v 29).
    - apply (dialogue_on_error r w). unfold readNdx. destruct (Z.leb_spec 30 v); [lia|].
      apply (dialogue_parses r w). eapply parses_bind_r; [apply (done_int32 v); lia|]. apply parses_ret.
    - eapply (dialogue_cast r w).
      + eapply (dialogue_bind r w); [apply (dialogue_wrap r w), (talks_reads r w), read_done, NewNdxState_wf|]. apply (dialogue_ret r w).
      + bytes_eq.
      + reflexivity. }
  destruct (Z.leb_spec 31 v); (eapply (dialogue_cast r w);
    [eapply (dialogue_bind r w); [exact Hfirst|]; cbv beta iota; rewrite Z.eqb_refl; cbn [negb]| |]).
  - apply second_goodbye_ok, NewNdxState_wf.
  - cbn [replicate concat]. bytes_eq.
  - bytes_eq.
  - apply (dialogue_ret r w).
  - cbn [replicate concat]. bytes_eq.
  - bytes_eq.
Qed.

Lemma recvFilterList_empty fuel : (0 < fuel)%nat → parses r (recvFilterList r fuel) (PutUint32 0) tt.
Proof.
  intros Hf. destruct fuel as [|fuel]; [lia|]. cbn [recvFilterList].
  eapply (parses_bind_r r _ _ _ 0); [apply parses_wrap, (ReadInt32_ok r 0); unfold is_i32; lia|]. apply parses_ret.
Qed.
End server.

(** The transfer phase on the server's side, for a list of which [lb] are the
    bytes. *)
Lemma doServerSender_ok flush `{!Flushes r w flush} `{Digests} fsys st raw req data lb fuel :
  let u := st_ver st in
  let entries := sortFlist f_name (λ e, mode_IsDir e.(f_mode)) raw u in
  let st' := mk_transferState st.(st_list) st.(st_seed) st.(st_seedFix) st.(st_checksum) entries in
  entries ≠ [] → emits w (send_entries w st.(st_list) entries) lb → servable fsys st' req data → (4 < fuel)%nat →
  dialogue r w (doServerSender r w flush fsys fuel st (Ret raw))
    (PutUint32 0 ++ ask_bytes u req ++ dones u (maxPhase_of u + 1) ++ goodbye_client u)
    (lb ++ reply_bytes u req data (FileChecksum data st.(st_checksum) u st.(st_seed)) ++ dones u (maxPhase_of u + 1)
       ++ stats_bytes u (total_size entries) ++ goodbye_server u) tt.
Proof.
  intros u entries st' Hne Hlist Hreq Hf. unfold doServerSender, sorted_entries. eapply (dialogue_cast r w).
  - eapply (dialogue_read r w); [apply recvFilterList_empty; lia|].
    eapply (dialogue_bind r w _ _ [] [] raw); [apply (dialogue_wrap r w), (dialogue_returned r w)|]. cbv zeta. fold u entries st'.
    destruct (Z.eqb_spec (Z.of_nat (length entries)) 0); [exfalso; destruct entries; [done|simpl in *; lia]|].
    eapply (dialogue_write r w); [exact Hlist|]. eapply (dialogue_bind r w); [apply flush_ok|].
    eapply (dialogue_bind r w); [by apply (sendFiles_ok flush fsys st' req data)|].
    eapply (dialogue_bind r w); [apply flush_ok|]. eapply (dialogue_bind r w); [apply (sendStats_ok flush st')|].
    eapply (dialogue_bind r w); [apply (readFinalGoodbye_ok st')|]. apply flush_ok.
  - unfold st', st_ver, u. cbn [st_list]. bytes_eq.
  - unfold st', st_ver, u. cbn [st_list st_seed st_checksum st_entries]. bytes_eq.
Qed.

(** ** The client *)
Lemma talks_on_ndx (m : M (NdxState * S) unit) sess bs n' :
  writes w m sess.(s_ndx) bs n' → talks r w (on_ndx m) sess [] bs tt (set_ndx n' sess).
Proof.
  intros H. apply (dialogue_yields r w). intros s Hs. destruct (H s Hs) as (s' & E & C).
  exists s'. unfold on_object, on_ndx. by rewrite E.
Qed.

Lemma talks_on_recvNdx {A} (m : M (NdxState * S) A) sess bs v n' :
  reads r m sess.(s_recvNdx) bs v n' → talks r w (on_recvNdx m) sess bs [] v (set_recvNdx n' sess).
Proof.
  intros H. apply (dialogue_parses r w). intros s rest Hs. destruct (H s rest Hs) as (s' & E & C).
  exists s'. unfold on_object, on_recvNdx. by rewrite E.
Qed.

Lemma set_ndx_same sess : set_ndx sess.(s_ndx) sess = sess.
Proof. by destruct sess. Qed.
Lemma set_recvNdx_same sess : set_recvNdx sess.(s_recvNdx) sess = sess.
Proof. by destruct sess. Qed.

Lemma writePhaseNdx_ok sess : talks r w (writePhaseNdx w) sess [] (done_bytes sess.(s_version)) tt sess.
Proof.
  apply talks_get. destruct (Z.leb_spec 30 (s_version sess)).
  - rewrite <-(set_ndx_same sess) at 3. by apply talks_on_ndx, write_done.
  - apply (talks_lift r w), (dialogue_emits r w), done_int32. lia.
Qed.

Lemma readPhaseNdx_ok sess : ndx_wf sess.(s_recvNdx) →
  talks r w (readPhaseNdx r) sess (done_bytes sess.(s_version)) [] tt sess.
Proof.
  intros Hwf. apply talks_get. destruct (Z.leb_spec 29 (s_version sess)); eapply (talks_cast r w).
  - eapply (talks_bind r w).
    { apply (talks_wrap r w), talks_on_recvNdx, (read_done (s_version sess) _ Hwf). }
    cbn [Ndx]. rewrite Z.eqb_refl, set_recvNdx_same. apply (talks_ret r w).
  - bytes_eq.
  - reflexivity.
  - eapply (talks_bind r w).
    { apply (talks_wrap r w), (talks_lift r w), (dialogue_parses r w), (done_int32 (s_version sess)). lia. }
    cbn [negb]. rewrite Z.eqb_refl. apply (talks_ret r w).
  - bytes_eq.
  - reflexivity.
Qed.

Lemma phase_rounds_ok sess n : ndx_wf sess.(s_recvNdx) →
  talks r w (phase_rounds r w n) sess (dones sess.(s_version) n) (dones sess.(s_version) n) tt sess.
Proof.
  intros Hwf. induction n as [|n IH]; [apply (talks_ret r w)|]. cbn [phase_rounds].
  eapply (talks_cast r w).
  - eapply (talks_bind r w); [apply writePhaseNdx_ok|]. eapply (talks_bind r w); [by apply readPhaseNdx_ok|]. exact IH.
  - reflexivity.
  - reflexivity.
Qed.

Lemma times_ok {A} (m : M S A) (enc : A → bytes) l : (∀ x, x ∈ l → parses r m (enc x) x) →
  parses r (times (length l) m) (concat (enc <$> l)) l.
Proof.
  induction l as [|x l IH]; intros Hl; [apply parses_ret|]. cbn [length times fmap list_fmap concat].
  eapply parses_bind; [apply Hl; by constructor|].
  eapply parses_bind_r; [apply IH; intros y Hy; apply Hl; by constructor|]. apply parses_ret.
Qed.

Lemma readStats_ok sess total : is_i64 total →
  talks r w (readStats r) sess (stats_bytes sess.(s_version) total) [] tt sess.
Proof.
  intros Ht. apply talks_get. eapply (talks_cast r w).
  - eapply (talks_bind r w); [|apply (talks_ret r w)]. apply (talks_lift r w), (dialogue_parses r w).
    replace (if 29 <=? s_version sess then 5%nat else 3%nat) with (length (stat_values (s_version sess) total)).
    2:{ unfold stat_values. rewrite length_app. by case_if. }
    apply (times_ok _ (stat_bytes (s_version sess))). intros x Hx. apply parses_wrap, stat_value.
    pose proof (stat_values_i64 (s_version sess) total Ht) as Hall. rewrite Forall_forall in Hall. by apply Hall.
  - unfold stats_bytes, stat_values. bytes_eq.
  - reflexivity.
Qed.

Lemma finalGoodbye_ok sess : ndx_wf sess.(s_recvNdx) →
  talks r w (finalGoodbye r w) sess (goodbye_server sess.(s_version)) (goodbye_client sess.(s_version)) tt sess.
Proof.
  intros Hwf. apply talks_get. unfold goodbye_server, goodbye_client, dones.
  destruct (Z.ltb_spec (s_version sess) 29).
  - destruct (Z.leb_spec 31 (s_version sess)); [lia|]. cbn [replicate concat]. rewrite app_nil_r.
    apply (talks_lift r w), (dialogue_emits r w), done_int32. lia.
  - eapply (talks_cast r w).
    + eapply (talks_bind r w); [apply writePhaseNdx_ok|].
      instantiate (2 := if 31 <=? s_version sess then done_bytes (s_version sess) else []).
      instantiate (1 := if 31 <=? s_version sess then done_bytes (s_version sess) else []).
      destruct (31 <=? s_version sess); [|apply (talks_ret r w)].
      eapply (talks_cast r w); [eapply (talks_bind r w); [by apply readPhaseNdx_ok|apply writePhaseNdx_ok]|bytes_eq|reflexivity].
    + bytes_eq.
    + destruct (31 <=? s_version sess); cbn [replicate concat]; bytes_eq.
Qed.

Lemma finishSession_ok sess total : ndx_wf sess.(s_recvNdx) → is_i64 total →
  let u := sess.(s_version) in
  talks r w (finishSession r w) sess
    (dones u (maxPhase_of u + 1) ++ stats_bytes u total ++ goodbye_server u)
    (dones u (maxPhase_of u + 1) ++ goodbye_client u) tt sess.
Proof.
  intros Hwf Ht u. apply talks_get. eapply (talks_cast r w).
  - eapply (talks_bind r w); [by apply (phase_rounds_ok sess)|].
    eapply (talks_bind r w); [by apply (readStats_ok sess total)|]. by apply finalGoodbye_ok.
  - reflexivity.
  - reflexivity.
Qed.

(** The token loop on the chunks of a literal. *)
Lemma read_delta_ok cs : Forall (λ c, 0 < Z.of_nat (length c) ≤ deltaChunkSize) cs →
  ∀ fuel acc d, (length cs < fuel)%nat → d.(residue) = 0 →
  ∃ d', reads r (read_delta r fuel acc) d (concat (chunk_bytes <$> cs) ++ PutUint32 0) (acc ++ concat cs) d'.
Proof.
  assert (∀ d bs x d', reads r (ReadToken r) d bs x d' → reads r (wrap "read delta" (ReadToken r)) d bs x d') as Hw.
  { intros d bs x d' H s rest Hs. destruct (H s rest Hs) as (s' & E & C). exists s'. unfold wrap. by rewrite E. }
  induction 1 as [|c cs Hc _ IH]; intros [|fuel] acc d Hf Hd; try (simpl in Hf; lia); cbn [read_delta fmap list_fmap concat].
  - exists d. rewrite app_nil_r. eapply reads_bind_r; [by apply Hw, ReadToken_end|]. apply reads_ret.
  - destruct (IH fuel (acc ++ c) (mk_DeltaReader 0 (Z.of_nat (length c)) (Z.of_nat (length c)))) as (d' & H); [simpl in Hf; lia|done|].
    exists d'. rewrite <-app_assoc. eapply reads_bind; [by apply Hw, ReadToken_chunk|].
    cbn [default]. rewrite app_assoc. exact H.
Qed.

Lemma chunks_length data : (length (chunks data) ≤ length data)%nat.
Proof.
  rewrite <-(chunks_concat data) at 2. pose proof (chunks_of_bound (length data) data) as H. fold (chunks data) in H.
  induction H as [|c cs Hc _ IH]; cbn [concat length]; [lia|]. rewrite length_app. lia.
Qed.

Lemma read_literal_ok data fuel : (length data < fuel)%nat →
  parses r (with_local NewDeltaReader (read_delta r fuel [])) (delta_bytes data) data.
Proof.
  intros Hf s rest Hs. pose proof (chunks_length data) as Hcl.
  destruct (read_delta_ok (chunks data) (chunks_of_bound _ data) fuel [] NewDeltaReader) as (d' & H); [lia|done|].
  destruct (H s rest Hs) as (s' & E & C). exists s'. split; [|done]. unfold with_local. rewrite E.
  cbn [app]. by rewrite chunks_concat.
Qed.

Lemma FileChecksum_length `{Digests} data checksum u seed : checksum = str "md4" ∨ checksum = str "md5" →
  length (FileChecksum data checksum u seed) = 16%nat.
Proof. intros [->| ->]; unfold FileChecksum; [apply md4_len|apply md5_len]. Qed.

(** The Session after it asked for file [i]. *)
Definition after_request (sess : Session) (i : Z) : Session :=
  let u := sess.(s_version) in
  set_recvNdx (sel_next u NewNdxState (sel_seen u (request i))) (set_ndx (sel_next u NewNdxState (request i)) sess).

Lemma after_request_wf sess i : 0 ≤ i < 2^31 → ndx_wf (after_request sess i).(s_recvNdx).
Proof.
  intros Hi. cbn [s_recvNdx set_recvNdx after_request]. unfold sel_next. case_if; [|apply NewNdxState_wf].
  apply ndx_next_wf; [apply NewNdxState_wf|]. cbn [Ndx sel_seen request]. lia.
Qed.

Lemma openFile_ok `{Digests} sess e i data fuel : 0 ≤ i < 2^31 → (length data < fuel)%nat →
  sess.(s_ndx) = NewNdxState → sess.(s_recvNdx) = NewNdxState →
  sess.(s_checksum) = str "md4" ∨ sess.(s_checksum) = str "md5" →
  let u := sess.(s_version) in
  talks r w (openFile r w fuel e i) sess
    (reply_bytes u (Some i) data (FileChecksum data sess.(s_checksum) u sess.(s_seed))) (ask_bytes u (Some i))
    (flistFile (flistInfo (baseName e.(Name)) e) data) (after_request sess i).
Proof.
  intros Hi Hf Hn1 Hn2 Hcs u. destruct (request_ok u i Hi) as [Hok Hok'].
  set (csum := FileChecksum data (s_checksum sess) u (s_seed sess)).
  assert (length csum = 16%nat) as Hl by by apply FileChecksum_length.
  unfold openFile. apply talks_get. fold u. eapply (talks_cast r w).
  - eapply (talks_bind r w). { apply (talks_wrap r w), talks_on_ndx. rewrite Hn1. by apply WriteSelector_ok. }
    eapply (talks_bind r w). { apply (talks_lift r w), (dialogue_wrap r w), (dialogue_emits r w), (emits_write w). }
    eapply (talks_bind r w).
    { apply (talks_wrap r w), talks_on_recvNdx. cbn [s_recvNdx set_ndx]. rewrite Hn2.
      apply ReadSelector_ok; [exact Hok'|apply NewNdxState_wf]. }
    eapply (talks_bind r w). { apply (talks_lift r w), (dialogue_wrap r w), (dialogue_parses r w), null_head_ok. }
    cbn [S2Length null_head]. change (Z.to_nat (if 0 <=? 0 then 16 else 0)) with 16%nat.
    eapply (talks_bind r w). { by apply (talks_lift r w), (dialogue_parses r w), read_literal_ok. }
    eapply (talks_bind r w). { by apply (talks_lift r w), (dialogue_wrap r w), (dialogue_parses r w), (ReadFull_ok r csum). }
    fold csum. rewrite equalBytes_spec, bool_decide_true by done. apply (talks_ret r w).
  - cbn [reply_bytes]. bytes_eq.
  - cbn [ask_bytes]. bytes_eq.
Qed.

Lemma talks_attempt {O A} (m : M (O * S) A) (o o' : O) i x v : talks r w m o i x v o' → talks r w (attempt m) o i x (inr v) o'.
Proof.
  intros H s rest Hs. destruct (H s rest Hs) as (s' & E & C). exists s'. split; [|done].
  unfold on_object, attempt in *. destruct (m (o, s)) as [[] [??]]; by simplify_eq.
Qed.

(** The session is always brought to its end, whatever the callback returned. *)
Lemma withEntry_ok {A} flush `{!Flushes r w flush} fuel name (fn : openContext → M (Session * S) A) sess sess1
    lb l ib ob total res :
  let u := sess.(s_version) in
  parses r (readFileList r fuel (session_params sess)) lb l → is_i64 total →
  talks r w (attempt
    (if 0 <=? findFlistEntry l name then
       match l !! Z.to_nat (findFlistEntry l name) with
       | None => panic
       | Some e => fn (mk_openContext l e (default 0 (sortFlistEntries l u !! e.(Name))) name)
       end
     else fail (Errorf "open: file does not exist" name))) sess ib ob res sess1 →
  sess1.(s_version) = u → ndx_wf sess1.(s_recvNdx) →
  talks r w (attempt (withEntry r w flush fuel name fn)) sess
    (lb ++ ib ++ dones u (maxPhase_of u + 1) ++ stats_bytes u total ++ goodbye_server u)
    (ob ++ dones u (maxPhase_of u + 1) ++ goodbye_client u) res sess1.
Proof.
  intros u Hlist Ht Hfn Hv Hwf.
  assert (talks r w (attempt (entry_result r w fuel name fn)) sess
    (lb ++ ib ++ dones u (maxPhase_of u + 1) ++ stats_bytes u total ++ goodbye_server u)
    (ob ++ dones u (maxPhase_of u + 1) ++ goodbye_client u) res sess1) as Hentry.
  { pose proof (finishSession_ok sess1 total Hwf Ht) as Hfin. cbv zeta in Hfin. rewrite Hv in Hfin.
    apply talks_attempt in Hfin.
    pose proof (talks_bind r w _ (λ res, let* fin := attempt (finishSession r w) in ret (res, fin)) _ _ _ _ _ _ _ _ _
      Hfn (talks_bind r w _ _ _ _ _ _ _ _ _ _ _ Hfin (talks_ret r w sess1 (res, inr tt)))) as Hboth.
    intros s rest Hs. rewrite <-app_assoc in Hs. destruct Hs as [Hs Hwr].
    destruct (dialogue_parses r w _ _ _ Hlist s _ (conj Hs Hwr)) as (s1 & E1 & Ho1 & W1 & F1).
    destruct (Hboth s1 rest) as (s2 & E2 & Ho2 & W2 & F2); [by rewrite <-!app_assoc, !app_nil_r in *|].
    exists s2. split_and!; [|done| |congruence].
    - unfold on_object in *. unfold attempt, entry_result. rewrite bind_get.
      assert (lift (wrap "read file list" (readFileList r fuel (session_params sess))) (sess, s) = (Ret l, (sess, s1))) as El.
      { apply lift_eq. unfold wrap. by rewrite E1. }
      rewrite (bind_Ret _ _ _ _ _ El). fold u.
      unfold bind in E2 |- *. cbv zeta.
      destruct (attempt (if 0 <=? findFlistEntry l name then _ else _) (sess, s1)) as [[res'| | |] [se sx]]; try done.
      destruct (attempt (finishSession r w) (se, sx)) as [[fin'| | |] [se' sx']]; try done.
      unfold ret in E2. simplify_eq. destruct res; done.
    - rewrite W2, W1. by rewrite !app_nil_r. }
  unfold withEntry. set (m := entry_result r w fuel name fn) in *.
  intros s rest Hs. destruct (Hentry s rest Hs) as (s1 & E1 & Ho1 & W1 & F1).
  destruct (flush_ok s1 rest Ho1) as (s2 & E2 & Ho2 & W2 & F2). exists s2.
  split_and!; [|done|by rewrite W2, W1, app_nil_r|congruence].
  unfold on_object, attempt, deferred in *.
  assert (lift (ignore flush) (sess1, s1) = (Ret tt, (sess1, s2))) as Ef by (apply lift_eq; unfold ignore; by rewrite E2).
  destruct (m (sess, s)) as [[a|e| |] [se sx]]; simplify_eq; by rewrite Ef.
Qed.
End endpoint.

(** ** What Open is specified to return *)

(** [n] is an entry directly in the directory [dir]. *)
Definition child_of (dir n : bytes) : Prop :=
  ∃ b, (slash ∉ b) ∧ if bool_decide (dir = str ".") then n = b ∧ b ≠ str "." else n = dir ++ [slash] ++ b.

Lemma Contains_slash_false b : Contains_slash b = false ↔ slash ∉ b.
Proof.
  unfold Contains_slash. split.
  - intros E Hin. assert (existsb (Z.eqb slash) b = true); [|congruence].
    apply existsb_exists. exists slash. split; [by apply list_elem_of_In|done].
  - intros Hn. destruct (existsb (Z.eqb slash) b) eqn:E; [|done]. exfalso. apply Hn.
    apply existsb_exists in E as (x & Hx & Ex). apply Z.eqb_eq in Ex as <-. by apply list_elem_of_In.
Qed.

Lemma HasPrefix_true s p : HasPrefix s p = true → s = p ++ drop (length p) s.
Proof.
  revert s. induction p as [|c p IH]; intros [|x s] H; try done. cbn [HasPrefix] in H.
  apply andb_true_iff in H as [Hc H]. apply Z.eqb_eq in Hc as ->. cbn [length drop app]. f_equal. by apply IH.
Qed.

Lemma is_child_spec dir e : is_child dir e = true ↔ child_of dir e.(Name).
Proof.
  unfold is_child, child_of. case_bool_decide as Hd.
  - rewrite negb_true_iff, orb_false_iff, bool_decide_eq_false, Contains_slash_false. naive_solver.
  - rewrite andb_true_iff, negb_true_iff, Contains_slash_false. split.
    + intros [Hp Hn]. exists (drop (length (dir ++ [slash])) (Name e)). split; [done|].
      rewrite (app_assoc dir). by apply HasPrefix_true.
    + intros (b & Hb & ->). rewrite (app_assoc dir), HasPrefix_app, drop_app_length. done.
Qed.

(** What the client is told about an entry. *)
Definition info_of (v : Z) (name : bytes) (e : fileEntry) : flistFileInfo :=
  mk_flistFileInfo (baseName name) (wireModeToFS (modeToWire e.(f_mode)))
    (if mode_Type e.(f_mode) =? ModeSymlink then Z.of_nat (length e.(f_linkTarget)) else e.(f_size))
    e.(f_sec) (if 31 <=? v then e.(f_nsec) else 0).

(** [opened raw v fsys name res]: [res] is the right answer to opening [name]
    in a module whose walk is [raw] and whose files read as [fsys] says. *)
Inductive opened (raw : list fileEntry) (v : Z) (fsys : file_system) (name : bytes) : error + fs_File → Prop :=
  | opened_missing :
      name ∉ f_name <$> raw → opened raw v fsys name (inl (Errorf "open: file does not exist" name))
  | opened_dir e children :
      e ∈ raw → e.(f_name) = name → mode_IsDir e.(f_mode) = true →
      Forall (λ c, ∃ e', e' ∈ raw ∧ agrees v e' c) children →
      (∀ n, n ∈ Name <$> children ↔ n ∈ f_name <$> raw ∧ child_of name n) →
      opened raw v fsys name (inr (moduleDirFile (info_of v name e) children))
  | opened_symlink e :
      e ∈ raw → e.(f_name) = name → mode_Type e.(f_mode) = ModeSymlink →
      opened raw v fsys name (inr (symlinkFile (info_of v name e) e.(f_linkTarget)))
  | opened_regular e data :
      e ∈ raw → e.(f_name) = name → mode_IsRegular e.(f_mode) = true → fsys name = Ret (Ret data) →
      opened raw v fsys name (inr (flistFile (info_of v name e) data)).

(** The entry asked for is of a kind the protocol carries, and readable. *)
Definition openable (fsys : file_system) (e : fileEntry) : Prop :=
  mode_IsDir e.(f_mode) = true ∨ mode_Type e.(f_mode) = ModeSymlink ∨
  (mode_IsRegular e.(f_mode) = true ∧ ∃ data, fsys e.(f_name) = Ret (Ret data)).

Lemma mode_kinds m : mode_IsDir m = negb (Z.land (mode_Type m) ModeDir =? 0).
Proof. unfold mode_IsDir, has, mode_Type. by rewrite <-Z.land_assoc. Qed.

Lemma find_from_spec l name : ∀ i, 0 ≤ i →
  (find_from l name i = -1 ∧ name ∉ Name <$> l) ∨
  (∃ k e, find_from l name i = i + Z.of_nat k ∧ l !! k = Some e ∧ e.(Name) = name).
Proof.
  induction l as [|e l IH]; intros i Hi; cbn [find_from]; [left; split; [done|apply not_elem_of_nil]|].
  case_bool_decide as Hn; [right; exists 0%nat, e; split_and!; [lia|done|done]|].
  destruct (IH (i + 1)) as [[E Hnot]|(k & e' & E & Hk & He)]; [lia| |].
  - left. split; [done|]. cbn. rewrite not_elem_of_cons. auto.
  - right. exists (Datatypes.S k), e'. split_and!; [lia|done|done].
Qed.

Lemma wire_symlink m : wireModeIsSymlink (modeToWire m) = (mode_Type m =? ModeSymlink).
Proof.
  unfold wireModeIsSymlink. rewrite modeToWire_type, mode_kinds.
  destruct (Z.eqb_spec (mode_Type m) ModeSymlink) as [->|]; [done|]. by destruct (_ =? 0).
Qed.

Lemma wire_dir m : wireModeIsDir (modeToWire m) = mode_IsDir m.
Proof. unfold wireModeIsDir. rewrite modeToWire_type. by repeat case_if. Qed.

Lemma flistInfo_agrees v e f name : agrees v e f → flistInfo (baseName name) f = info_of v name e.
Proof.
  intros (Hn & Hm & Hs & Ht & Hns & _ & _ & Hl & _). unfold flistInfo, info_of. rewrite Hm, Hs, Ht, Hns, Hl, wire_symlink.
  destruct (Z.eqb_spec (mode_Type (f_mode e)) ModeSymlink) as [E|]; [|done]. unfold isSymlink.
  pose proof (wire_symlink (f_mode e)) as Hw. unfold wireModeIsSymlink in Hw. rewrite E in Hw. by rewrite Hw.
Qed.

Lemma children_spec v entries l dir : Forall2 (agrees v) entries l →
  Forall (λ c, ∃ e', e' ∈ entries ∧ agrees v e' c) (filterFlistChildren l dir) ∧
  ∀ n, n ∈ Name <$> filterFlistChildren l dir ↔ n ∈ f_name <$> entries ∧ child_of dir n.
Proof.
  intros HF. assert (∀ c, c ∈ filterFlistChildren l dir ↔ c ∈ l ∧ child_of dir c.(Name)) as Hin.
  { intros c. unfold filterFlistChildren.
    rewrite sort_perm, <-is_child_spec, !list_elem_of_In. apply filter_In. }
  split.
  - rewrite Forall_forall. intros c [Hc _]%Hin. apply list_elem_of_lookup in Hc as [k Hk].
    destruct (Forall2_lookup_r _ _ _ _ _ HF Hk) as (e & He & Ha). exists e. split; [by eapply list_elem_of_lookup_2|done].
  - intros n. assert (Name <$> l = f_name <$> entries) as <-.
    { clear -HF. induction HF as [|? ? ? ? Ha _ IH]; [done|]. cbn. rewrite IH. by destruct Ha as [-> _]. }
    rewrite !list_elem_of_fmap. split.
    + intros (c & -> & [Hc Hch]%Hin). split; [|done]. by exists c.
    + intros [(c & -> & Hc) Hch]. exists c. split; [done|]. by apply Hin.
Qed.

Section session.
Context {S : Type} (r : io_Reader S) (w : io_Writer S) `{!ReaderSpec r} `{!WriterSpec w} `{!Duplex r w}.
Context {T : Type} (r' : io_Reader T) (w' : io_Writer T) `{!ReaderSpec r'} `{!WriterSpec w'} `{!Duplex r' w'}.
Context (flush : M S unit) `{!Flushes r w flush} (flush' : M T unit) `{!Flushes r' w' flush'} `{Digests}.

(** The entry, its position in the server's list, and the index the client
    sends for it. *)
Lemma found_entry v raw l name k f :
  let entries := sortFlist f_name (λ e, mode_IsDir e.(f_mode)) raw v in
  names_ok f_name raw → Z.of_nat (length raw) < 2^31 → Forall2 (agrees v) entries l →
  l !! k = Some f → f.(Name) = name →
  ∃ e, entries !! k = Some e ∧ e ∈ raw ∧ e.(f_name) = name ∧ agrees v e f ∧
    default 0 (sortFlistEntries l v !! f.(Name)) = Z.of_nat k ∧ Z.of_nat k < 2^31.
Proof.
  intros entries Hok Hlen HF Hk Hname. pose proof (sort_perm (λ a b, flistNameCmp (f_name a) (mode_IsDir (f_mode a)) (f_name b) (mode_IsDir (f_mode b)) v <? 0) raw) as HP.
  fold (sortFlist f_name (λ e, mode_IsDir e.(f_mode)) raw v) in HP. fold entries in HP.
  destruct (Forall2_lookup_r _ _ _ _ _ HF Hk) as (e & He & Ha). exists e.
  assert (e.(f_name) = name) as En by (by destruct Ha as [<- _]).
  split_and!; [done| |done|done| |].
  - rewrite <-HP. by eapply list_elem_of_lookup_2.
  - rewrite Hname, <-En. rewrite (index_agree f_name (λ e, mode_IsDir (f_mode e)) v raw l k e Hok Hlen); [done| |done].
    eapply Forall2_impl; [exact HF|]. intros a b (Hna & Hmo & _). by rewrite Hna, Hmo, modeToWire_isDir.
  - apply lookup_lt_Some in He. rewrite HP in He. lia.
Qed.

End session.

(** ** Operations on an entry *)

(** What a file operation gives withEntry as its callback, what it needs of the
    entry it is about, and what it is specified to return. *)
Record entry_op (A : Type) := mk_entry_op {
  op_run : ∀ S, io_Reader S → io_Writer S → nat → openContext → M (Session * S) A;
  op_needs : file_system → fileEntry → Prop;
  op_answer : list fileEntry → Z → file_system → bytes → error + A → Prop;
}.
Arguments op_run {_} _ {_} _ _ _ _.
Arguments op_needs {_} _ _ _.
Arguments op_answer {_} _ _ _ _ _ _.

(** A Session as the handshake leaves it. *)
Definition fresh_session (sess : Session) (v : Z) : Prop :=
  sess.(s_version) = v ∧ sess.(s_ndx) = NewNdxState ∧ sess.(s_recvNdx) = NewNdxState ∧
  (sess.(s_checksum) = str "md4" ∨ sess.(s_checksum) = str "md5").

(** [res] is what the operation [m] returns, with at most one file requested and
    served. *)
Definition op_talks `{Digests} {A S} (r : io_Reader S) (w : io_Writer S) `{!ReaderSpec r} `{!WriterSpec w}
    (sess : Session) (entries : list fileEntry) (v : Z) (fsys : file_system) (m : nat → M (Session * S) A) (res : error + A) : Prop :=
  ∃ req data sess1, sess1.(s_version) = v ∧ ndx_wf sess1.(s_recvNdx) ∧
    (∀ st, st.(st_entries) = entries → servable fsys st req data) ∧
    ∀ fuel, (length data < fuel)%nat →
      talks r w (attempt (m fuel)) sess (reply_bytes v req data (FileChecksum data sess.(s_checksum) v sess.(s_seed)))
        (ask_bytes v req) res sess1.

Class EntryOp `{Digests} {A} (op : entry_op A) := {
  op_missing raw v fsys name : name ∉ f_name <$> raw →
    op_answer op raw v fsys name (inl (Errorf "open: file does not exist" name));
  op_found {S} (r : io_Reader S) (w : io_Writer S) `{!ReaderSpec r} `{!WriterSpec w} `{!Duplex r w} sess raw l v fsys name k f e :
    let entries := sortFlist f_name (λ e, mode_IsDir e.(f_mode)) raw v in
    fresh_session sess v → Forall2 (agrees v) entries l → Permutation entries raw →
    entries !! k = Some e → e ∈ raw → e.(f_name) = name → agrees v e f → f.(Name) = name → Z.of_nat k < 2^31 → op_needs op fsys e →
    ∃ res, op_answer op raw v fsys name res ∧
      op_talks r w sess entries v fsys (λ fuel, op_run op r w fuel (mk_openContext l f (Z.of_nat k) name)) res;
}.

(** An operation that is decided by the entry alone. *)
Lemma op_talks_pure `{Digests} {A S} (r : io_Reader S) (w : io_Writer S) `{!ReaderSpec r} `{!WriterSpec w}
    sess entries v fsys (m : nat → M (Session * S) A) (res : error + A) :
  fresh_session sess v → (∀ fuel st, attempt (m fuel) st = (Ret res, st)) → op_talks r w sess entries v fsys m res.
Proof.
  intros (Hv & _ & Hn2 & _) Hm. exists None, [], sess. split_and!; [done|rewrite Hn2; apply NewNdxState_wf|done|].
  intros fuel _ s rest Hs. exists s. unfold on_object. rewrite Hm, app_nil_r. done.
Qed.

(** ** Open, Lstat and ReadLink *)
Definition open_op `{Digests} : entry_op fs_File :=
  mk_entry_op _ (λ S r w fuel, openFileFromContext r w fuel) openable (λ raw v fsys name, opened raw v fsys name).

#[global] Instance open_op_ok `{Digests} : EntryOp open_op.
Proof.
  split; [by intros; constructor|]. intros S r w ? ? ? sess raw l v fsys name k f e entries Hs HF HP He Hraw En Ha Hname Hk31 Hop.
  pose proof Ha as (_ & Hm & _ & _ & _ & _ & _ & Hlt & _). pose proof (flistInfo_agrees v e f name Ha) as Hinfo.
  assert (∀ fuel, op_run open_op r w fuel (mk_openContext l f (Z.of_nat k) name) =
    if mode_IsDir (f_mode e) then ret (moduleDirFile (info_of v name e) (filterFlistChildren l name))
    else if mode_Type (f_mode e) =? ModeSymlink then ret (symlinkFile (info_of v name e) (f_linkTarget e))
    else openFile r w fuel f (Z.of_nat k)) as Hrun.
  { intros fuel. cbn [op_run open_op]. unfold openFileFromContext. cbn [ctx_entry ctx_name ctx_entries ctx_ndx].
    rewrite Hm, wire_dir, wire_symlink, Hinfo. destruct (mode_IsDir (f_mode e)); [done|].
    rewrite Hlt. change (isSymlink (modeToWire (f_mode e))) with (wireModeIsSymlink (modeToWire (f_mode e))).
    rewrite wire_symlink. by destruct (mode_Type (f_mode e) =? ModeSymlink). }
  destruct (mode_IsDir (f_mode e)) eqn:Hdir; [|destruct (Z.eqb_spec (mode_Type (f_mode e)) ModeSymlink) as [Hsym|Hsym]].
  - destruct (children_spec v entries l name HF) as [Hc1 Hc2].
    eexists. split; [|apply (op_talks_pure r w); [done|]; intros fuel st; by rewrite Hrun].
    apply opened_dir; auto.
    + eapply Forall_impl; [exact Hc1|]. intros c (e' & He' & ?). exists e'. by rewrite <-HP.
    + intros n. by rewrite Hc2, HP.
  - eexists. split; [by apply opened_symlink|]. apply (op_talks_pure r w); [done|]. intros fuel st. by rewrite Hrun.
  - destruct Hop as [?|[?|(Hreg & data & Hfs)]]; [congruence|done|]. destruct Hs as (Hv & Hn1 & Hn2 & Hcs).
    exists (inr (flistFile (info_of v name e) data)). split; [apply opened_regular; [done..|by rewrite <-En]|].
    exists (Some (Z.of_nat k)), data, (after_request sess (Z.of_nat k)). split_and!; [done|apply after_request_wf; lia| |].
    + intros st Hst. cbn. split; [lia|]. exists e. rewrite Nat2Z.id, Hst. done.
    + intros fuel Hf. rewrite Hrun. pose proof (openFile_ok r w sess f (Z.of_nat k) data fuel) as Ht. cbv zeta in Ht.
      rewrite Hv, Hname, Hinfo in Ht. apply talks_attempt, Ht; auto; lia.
Qed.

(** What Lstat returns: the information on the entry itself. *)
Inductive statted (raw : list fileEntry) (v : Z) (name : bytes) : error + flistFileInfo → Prop :=
  | statted_missing : name ∉ f_name <$> raw → statted raw v name (inl (Errorf "open: file does not exist" name))
  | statted_entry e : e ∈ raw → e.(f_name) = name → statted raw v name (inr (info_of v name e)).

Definition lstat_op : entry_op flistFileInfo :=
  mk_entry_op _ (λ S r w fuel, lstat_callback) (λ _ _, True) (λ raw v fsys name, statted raw v name).

#[global] Instance lstat_op_ok `{Digests} : EntryOp lstat_op.
Proof.
  split; [by intros; constructor|]. intros S r w ? ? ? sess raw l v fsys name k f e entries Hs HF HP He Hraw En Ha Hname Hk31 _.
  exists (inr (info_of v name e)). split; [by apply statted_entry|]. apply (op_talks_pure r w); [done|]. intros fuel st.
  cbn [op_run lstat_op]. unfold lstat_callback. cbn [ctx_entry ctx_name]. by rewrite (flistInfo_agrees v e f name Ha).
Qed.

(** What ReadLink returns: the target of a link, an error for anything else.
    [path] is the name as the caller gave it. *)
Inductive linked (path : bytes) (raw : list fileEntry) (name : bytes) : error + bytes → Prop :=
  | linked_missing : name ∉ f_name <$> raw → linked path raw name (inl (Errorf "open: file does not exist" name))
  | linked_target e : e ∈ raw → e.(f_name) = name → mode_Type e.(f_mode) = ModeSymlink →
      linked path raw name (inr e.(f_linkTarget))
  | linked_other e : e ∈ raw → e.(f_name) = name → mode_Type e.(f_mode) ≠ ModeSymlink →
      linked path raw name (inl (Errorf "readlink: not a symlink" path)).

Definition readlink_op (path : bytes) : entry_op bytes :=
  mk_entry_op _ (λ S r w fuel, readlink_callback path) (λ _ _, True) (λ raw v fsys name, linked path raw name).

#[global] Instance readlink_op_ok `{Digests} path : EntryOp (readlink_op path).
Proof.
  split; [by intros; constructor|]. intros S r w ? ? ? sess raw l v fsys name k f e entries Hs HF HP He Hraw En Ha Hname Hk31 _.
  pose proof Ha as (_ & Hm & _ & _ & _ & _ & _ & Hlt & _).
  exists (if mode_Type (f_mode e) =? ModeSymlink then inr (f_linkTarget e) else inl (Errorf "readlink: not a symlink" path)). split.
  - cbn. destruct (Z.eqb_spec (mode_Type (f_mode e)) ModeSymlink); [by apply linked_target|by eapply linked_other].
  - apply (op_talks_pure r w); [done|]. intros fuel st. cbn [op_run readlink_op]. unfold readlink_callback. cbn [ctx_entry ctx_name].
    rewrite Hlt, Hm, wire_symlink. change (isSymlink (modeToWire (f_mode e))) with (wireModeIsSymlink (modeToWire (f_mode e))).
    rewrite wire_symlink. by destruct (mode_Type (f_mode e) =? ModeSymlink).
Qed.

(** The callback of an operation, run or not. *)
Lemma op_entry `{Digests} {A} (op : entry_op A) `{!EntryOp op} {S} (r : io_Reader S) (w : io_Writer S)
    `{!ReaderSpec r} `{!WriterSpec w} `{!Duplex r w} sess raw l v fsys name :
  let entries := sortFlist f_name (λ e, mode_IsDir e.(f_mode)) raw v in
  fresh_session sess v → names_ok f_name raw → Z.of_nat (length raw) < 2^31 → Forall2 (agrees v) entries l →
  (∀ e, e ∈ raw → e.(f_name) = name → op_needs op fsys e) →
  ∃ res, op_answer op raw v fsys name res ∧
    op_talks r w sess entries v fsys (λ fuel,
       if 0 <=? findFlistEntry l name then
         match l !! Z.to_nat (findFlistEntry l name) with
         | None => panic
         | Some e => op_run op r w fuel (mk_openContext l e (default 0 (sortFlistEntries l v !! e.(Name))) name)
         end
       else fail (Errorf "open: file does not exist" name)) res.
Proof.
  intros entries Hs Hok Hlen HF Hop. assert (Permutation entries raw) as HP by apply sort_perm.
  unfold findFlistEntry. destruct (find_from_spec l name 0) as [[E Hnot]|(k & f & E & Hk & Hname)]; [lia| |]; rewrite E.
  - eexists. split; [|by apply (op_talks_pure r w)]. apply op_missing. rewrite <-HP.
    assert (Name <$> l = f_name <$> entries) as <-; [|done].
    clear -HF. induction HF as [|? ? ? ? Ha _ IH]; [done|]. cbn. rewrite IH. by destruct Ha as [-> _].
  - destruct (found_entry v raw l name k f Hok Hlen HF Hk Hname) as (e & He & Hraw & En & Ha & Hidx & Hk31).
    rewrite Z.add_0_l. destruct (Z.leb_spec 0 (Z.of_nat k)); [|lia]. rewrite Nat2Z.id, Hk, Hidx.
    by apply (op_found r w sess raw l v fsys name k f e); auto.
Qed.

(** The requirements on the two ends and the module, as the handshake leaves
    them; [needs] is about the entry asked for. *)
Definition session_ready (sess : Session) (st : transferState) (raw : list fileEntry) (name : bytes) (needs : fileEntry → Prop) : Prop :=
  negotiated st.(st_list) (session_params sess) ∧
  sess.(s_checksum) = st.(st_checksum) ∧ sess.(s_seed) = st.(st_seed) ∧
  (st.(st_checksum) = str "md4" ∨ st.(st_checksum) = str "md5") ∧
  sess.(s_ndx) = NewNdxState ∧ sess.(s_recvNdx) = NewNdxState ∧
  raw ≠ [] ∧ names_ok f_name raw ∧ Z.of_nat (length raw) < 2^31 ∧
  Forall (file_ok (st_ver st) st.(st_list).(lp_varint)) raw ∧
  ∀ e, e ∈ raw → e.(f_name) = name → needs e.

Lemma session_completes {S T} (r : io_Reader S) (w : io_Writer S) `{!ReaderSpec r} `{!WriterSpec w} `{!Duplex r w}
    (r' : io_Reader T) (w' : io_Writer T) `{!ReaderSpec r'} `{!WriterSpec w'} `{!Duplex r' w'}
    (flush : M S unit) `{!Flushes r w flush} (flush' : M T unit) `{!Flushes r' w' flush'} `{Digests}
    {A} (op : entry_op A) `{!EntryOp op} sess st fsys raw name :
  session_ready sess st raw name (op_needs op fsys) →
  ∃ cb sb res sess' n, op_answer op raw (st_ver st) fsys name res ∧ ∀ fuel, (n ≤ fuel)%nat →
    talks r w (attempt (withEntry r w flush fuel name (op_run op r w fuel))) sess sb cb res sess' ∧
    dialogue r' w' (doServerSender r' w' flush' fsys fuel st (Ret raw)) (PutUint32 0 ++ cb) sb tt.
Proof.
  intros (Hneg & Hcs & Hseed & Hck & Hn1 & Hn2 & Hne & Hok & Hlen & Hfile & Hop). set (v := st_ver st) in *.
  assert (s_version sess = v) as Hv by apply Hneg.
  set (entries := sortFlist f_name (λ e, mode_IsDir e.(f_mode)) raw v).
  assert (Permutation entries raw) as HP by apply sort_perm.
  destruct (file_list_codec w' r st.(st_list) (session_params sess) entries Hneg) as (lb & l & He & Hag & Hpar); [by rewrite HP|].
  destruct (op_entry op r w sess raw l v fsys name) as (res & Hres & req & data & sess1 & Hv1 & Hwf1 & Hserv & Hopen);
    [by repeat split; rewrite ?Hcs|done..|].
  pose proof (total_size_i64 entries) as Htot.
  exists (ask_bytes v req ++ dones v (maxPhase_of v + 1) ++ goodbye_client v),
    (lb ++ reply_bytes v req data (FileChecksum data st.(st_checksum) v st.(st_seed)) ++ dones v (maxPhase_of v + 1)
       ++ stats_bytes v (total_size entries) ++ goodbye_server v), res, sess1, (length raw + length data + 5)%nat.
  split; [done|]. intros fuel Hf. split.
  - pose proof (withEntry_ok r w flush fuel name (op_run op r w fuel) sess sess1 lb l) as Hwe. cbv zeta in Hwe.
    rewrite Hv in Hwe. apply Hwe; [apply Hpar; rewrite HP; lia|done| |done|done].
    rewrite <-Hcs, <-Hseed. apply Hopen. lia.
  - apply (doServerSender_ok r' w' flush' fsys st raw req data lb fuel); [|done|by apply Hserv|lia].
    fold v entries. intros E. rewrite E in HP. by apply Permutation_nil in HP.
Qed.

(** A file operation end to end. For a client and a server whose handshake
    agreed, a module whose walk gives entries the list can carry with distinct
    valid names, and a requested name that, if it exists, is a directory, a
    symbolic link or a readable regular file: the client's withEntry with the
    callback of Open, and the server's transfer phase, each given exactly what
    the other sends (the client's filter list first), both run to completion,
    and Open returns what the file system holds: the file with its exact bytes,
    the directory with its direct children, the link with its target, or the
    error that the name does not exist. *)
Theorem session_open {S T} (r : io_Reader S) (w : io_Writer S) `{!ReaderSpec r} `{!WriterSpec w} `{!Duplex r w}
    (r' : io_Reader T) (w' : io_Writer T) `{!ReaderSpec r'} `{!WriterSpec w'} `{!Duplex r' w'}
    (flush : M S unit) `{!Flushes r w flush} (flush' : M T unit) `{!Flushes r' w' flush'} `{Digests}
    sess st fsys raw name :
  session_ready sess st raw name (openable fsys) →
  ∃ cb sb res sess' n, opened raw (st_ver st) fsys name res ∧ ∀ fuel, (n ≤ fuel)%nat →
    talks r w (attempt (withEntry r w flush fuel name (openFileFromContext r w fuel))) sess sb cb res sess' ∧
    dialogue r' w' (doServerSender r' w' flush' fsys fuel st (Ret raw)) (PutUint32 0 ++ cb) sb tt.
Proof. apply (session_completes r w r' w' flush flush' open_op). Qed.

(** ** Witness: opening a file of a small module *)
Definition example_fs : file_system := λ name,
  if bool_decide (name = str "a.txt") then Ret (Ret (str "hello, world")) else Fail (Errorf "open" name).
Definition example_state : transferState := mk_transferState example_params 77 true (str "md5") [].
Definition example_live : Session :=
  mk_Session 31 0 (str "md5") (str "md5") 77 424 true true true (str "pub") NewNdxState NewNdxState Mux.NewReader None.

Lemma example_ready : session_ready example_live example_state example_walk (str "a.txt") (openable example_fs).
Proof.
  unfold session_ready. split_and!; try done.
  - by right.
  - unfold names_ok, path_ok. apply (bool_decide_unpack _). by vm_compute.
  - repeat (apply Forall_cons_2; [constructor; simpl; unfold is_i64, is_i32, is_u32, MaxPathLen; split_and?; try lia; done|]).
    apply Forall_nil_2.
  - intros e He En. right. right. unfold example_walk in He. rewrite !elem_of_cons, elem_of_nil in He.
    destruct He as [->|[->|[->|[->|[]]]]]; try (by vm_compute in En). split; [by vm_compute|]. by exists (str "hello, world").
Qed.

Lemma session_open_witness :
  ∃ cb sb res sess' n, opened example_walk 31 example_fs (str "a.txt") res ∧ ∀ fuel, (n ≤ fuel)%nat →
    talks conn_reader conn_writer
      (attempt (withEntry conn_reader conn_writer (ret tt) fuel (str "a.txt")
         (openFileFromContext conn_reader conn_writer (H := pad_digests) fuel))) example_live sb cb res sess' ∧
    dialogue conn_reader conn_writer
      (doServerSender conn_reader conn_writer (ret tt) (H := pad_digests) example_fs fuel example_state (Ret example_walk))
      (PutUint32 0 ++ cb) sb tt.
Proof.
  apply (session_open conn_reader conn_writer conn_reader conn_writer (ret tt) (ret tt) (H := pad_digests)
           example_live example_state example_fs example_walk (str "a.txt")).
  exact example_ready.
Defined.

(** The same session evaluated: the server's answer to the client's bytes, and
    the file the client makes of it. *)
Definition example_cb : bytes := ask_bytes 31 (Some 1) ++ dones 31 3 ++ goodbye_client 31.
Example session_runs :
  let '(res, c) := doServerSender conn_reader conn_writer (ret tt) (H := pad_digests) example_fs 100 example_state
                     (Ret example_walk) (conn_dribble (PutUint32 0 ++ example_cb)) in
  let '(res', (_, c')) := withEntry conn_reader conn_writer (ret tt) 100 (str "a.txt")
                     (openFileFromContext conn_reader conn_writer (H := pad_digests) 100) (example_live, conn_of c.(tx)) in
  res = Ret tt ∧ c'.(tx) = example_cb ∧ match res' with Ret (flistFile _ d) => d = str "hello, world" | _ => False end.
Proof. by vm_compute. Qed.

(** ** What openFile guarantees against any peer *)
Lemma wrap_Ret {S A} ctx (m : M S A) s a s' : wrap ctx m s = (Ret a, s') → m s = (Ret a, s').
Proof. unfold wrap. destruct (m s) as [[] ?]; congruence. Qed.

(** C35: A file is handed out only when its checksum is right. Whatever the peer
    sends, when openFile returns, it returns a regular file with the entry's
    information, and the last bytes it read from the connection are the strong
    checksum of exactly the data it returns, with the negotiated algorithm and the
    connection's seed. *)
Theorem openFile_verified {S} (r : io_Reader S) (w : io_Writer S) `{Digests} fuel e ndx sess s f sess' s' :
  openFile r w fuel e ndx (sess, s) = (Ret f, (sess', s')) →
  ∃ data k s1, f = flistFile (flistInfo (baseName e.(Name)) e) data ∧
    ReadFull r k s1 = (Ret (FileChecksum data sess.(s_checksum) sess.(s_version) sess.(s_seed)), s').
Proof.
  unfold openFile. rewrite bind_get. intros E.
  do 3 (apply bind_inv_Ret in E as (? & [? ?] & _ & E)). apply bind_inv_Ret in E as (sh & [se1 t1] & _ & E).
  apply bind_inv_Ret in E as (data & [se2 t2] & _ & E). apply bind_inv_Ret in E as (want & [se3 t3] & Hw & E).
  rewrite equalBytes_spec in E. destruct (bool_decide_reflect (FileChecksum data (s_checksum sess) (s_version sess) (s_seed sess) = want)) as [<-|];
    [|done]. injection E as <- <- <-.
  unfold lift in Hw. destruct (wrap _ _ t2) as [y t4] eqn:Er. simplify_eq. apply wrap_Ret in Er. by eexists data, _, t2.
Qed.

Lemma openFile_verified_witness :
  let data := str "hello, world" in
  let reply := reply_bytes 31 (Some 1) data (FileChecksum (H := pad_digests) data (str "md5") 31 77) in
  let e := mk_FlistEntry (str "a.txt") S_IFREG 12 0 0 0 0 0 [] [] 0 0 [] 0 0 0 0 [] false false in
  ∃ f sess' s', openFile conn_reader conn_writer (H := pad_digests) 100 e 1 (example_live, conn_dribble reply) = (Ret f, (sess', s')) ∧
    ∃ data k s1, f = flistFile (flistInfo (baseName e.(Name)) e) data ∧
      ReadFull conn_reader k s1 = (Ret (FileChecksum (H := pad_digests) data (str "md5") 31 77), s').
Proof.
  intros data reply e.
  destruct (openFile conn_reader conn_writer (H := pad_digests) 100 e 1 (example_live, conn_dribble reply)) as [[f| | |] [sess' s']] eqn:E;
    [|by vm_compute in E..].
  exists f, sess', s'. split; [done|].
  exact (openFile_verified conn_reader conn_writer (H := pad_digests) 100 e 1 example_live (conn_dribble reply) f sess' s' E).
Defined.
