(* ===== verification/Endpoint.v ===== *)
(** * The two ends of a live connection (server-send.go, client-connect.go)

    After the handshake each end wraps its transport: multiplexers, and
    flushBeforeRead, which pushes the pending output out before every read. The
    instances show that each combination the code sets up is again a two-way
    connection in the sense of [Dialogue], with the multiplexed payload as its
    byte streams, so what is proved of the code above holds on the wire. *)
From S2P Require Import Prelude.
From S2P Require Import GoIO.
From S2P Require Import Dialogue.
From S2P Require Import WireInt.
From S2P Require Import Checksum.
From S2P Require Import Mux.
From S2P Require Import Flist.
From S2P Require Import FlistProofs.
From S2P Require Import HashSearchProofs.
From S2P Require Import Sort.
From S2P Require Import FileList.
From S2P Require Import Connect.
From S2P Require Import Sender.
From S2P Require Import Receiver.
From S2P Require Import Transfer.
#[local] Open Scope Z_scope.
#[local] Open Scope go_scope.

(** ** Definitions *)
Definition flushBeforeRead {S} (inner : io_Reader S) (flush : M S unit) : io_Reader S := {|
  Read := λ n s, match flush s with
                 | (Ret _, s') => Read inner n s'
                 | (Fail e, s') => (Ret ([], Some e), s')
                 | (Panic, s') => (Panic, s')
                 | (NoFuel, s') => (NoFuel, s')
                 end |}.

(** From protocol 30 on both directions are framed on either end. *)
Section set_up.
Context {S : Type} (frames : S → nat) (r : io_Reader S) (w : io_Writer S).

Definition framed_out : io_Writer (mux_Writer * (mux_Reader * S)) := mux_writer (lift_writer w).
Definition framed_flush : M (mux_Writer * (mux_Reader * S)) unit := Flush (lift_writer w).
Definition framed_in : io_Reader (mux_Writer * (mux_Reader * S)) :=
  flushBeforeRead (lift_reader (mux_reader frames r)) framed_flush.

(** Below it only the server's output is: the server ... *)
Definition sender_out : io_Writer (mux_Writer * S) := mux_writer w.
Definition sender_flush : M (mux_Writer * S) unit := Flush w.
Definition sender_in : io_Reader (mux_Writer * S) := flushBeforeRead (lift_reader r) sender_flush.

(** ... and the client. *)
Definition receiver_out : io_Writer (mux_Reader * S) := lift_writer w.
Definition receiver_in : io_Reader (mux_Reader * S) := flushBeforeRead (mux_reader frames r) (ret tt).
End set_up.

(** ** Readers and writers of a world, used beside an object *)
Section lifted.
Context {O S : Type}.

#[global, refine] Instance lift_reader_spec (r : io_Reader S) `{!ReaderSpec r} : ReaderSpec (lift_reader (O := O) r) := {|
  readable := λ st, readable r st.2;
  pending := λ st, pending r st.2;
  fin := λ st, fin r st.2;
  kept := λ st st', st'.1 = st.1 ∧ kept r st.2 st'.2;
|}.
Proof.
  - split; [intros [??]; split; reflexivity|]. intros [o1 s1] [o2 s2] [o3 s3] [E1 K1] [E2 K2]; cbn in *.
    split; [congruence|]. by transitivity s2.
  - intros n [o s] Hn Hr Hp. destruct (read_some n s Hn Hr Hp) as (k & s' & E & ? & ? & ? & ? & ? & ?).
    exists k, (o, s'). cbn [fst snd] in *. split_and!; [by apply lift_eq|lia|lia|lia|done..].
  - intros n [o s] Hn Hr Hp. destruct (read_end n s Hn Hr Hp) as (s' & E & ?).
    exists (o, s'). cbn [fst snd] in *. split_and!; [by apply lift_eq|done..].
Defined.

#[global, refine] Instance lift_writer_spec (w : io_Writer S) `{!WriterSpec w} : WriterSpec (lift_writer (O := O) w) := {|
  writable := λ st, writable w st.2;
  written := λ st, written w st.2;
  untouched := λ st st', st'.1 = st.1 ∧ untouched w st.2 st'.2;
|}.
Proof.
  - split; [intros [??]; split; reflexivity|]. intros [o1 s1] [o2 s2] [o3 s3] [E1 K1] [E2 K2]; cbn in *.
    split; [congruence|]. by transitivity s2.
  - intros p [o s] Hs. destruct (write_ok p s Hs) as (s' & E & ? & ? & ?).
    exists (o, s'). cbn [fst snd] in *. split_and!; [by apply lift_eq|done..].
Defined.
End lifted.

(** ** Multiplexed input *)
#[global] Instance mux_input_duplex {S} (r : io_Reader S) (w : io_Writer S) `{!ReaderSpec r} `{!WriterSpec w} `{!Duplex r w}
    (frames : S → nat) `{!EnoughFuel r frames} : Duplex (mux_reader frames r) (lift_writer (O := mux_Reader) w).
Proof.
  split; cbn; intros [mr s] [mr' s'].
  - intros K. by apply (read_keeps_writer s s').
  - intros [Eo U] Hw. cbn in *. subst mr'. destruct (write_keeps_reader s s' U Hw) as (Ep & Ef & Hr).
    unfold mux_pending, mux_fin. cbn [fst snd]. by rewrite Ep, Ef.
Qed.

(** ** Multiplexed output *)
Section output.
Context {S : Type} (r : io_Reader S) (w : io_Writer S) `{!ReaderSpec r} `{!WriterSpec w} `{!Duplex r w} (base : bytes).

Lemma mux_output_duplex : Duplex (lift_reader (O := mux_Writer) r) (mux_writer w) (WriterSpec0 := mux_writer_spec w base).
Proof.
  split; cbn; intros [mw s] [mw' s'].
  - intros [Eo K]. cbn in *. subst mw'. destruct (read_keeps_writer s s' K) as [Ew Hw].
    unfold mux_written, mux_writable. cbn [fst snd]. rewrite Ew. split; [done|]. intros (? & ? & ? & ps & ?). split_and!; auto. by exists ps.
  - intros (U & _ & _) (Hw & _). cbn in *. by destruct (write_keeps_reader s s' U Hw) as (-> & -> & Hr).
Qed.

Lemma Flush_flushes : Flushes (lift_reader (O := mux_Writer) r) (mux_writer w) (WriterSpec0 := mux_writer_spec w base) (Flush w).
Proof.
  intros [mw s] rest [[Hr Hp] Hw]. cbn in *. destruct (Flush_written w base mw s Hw) as (s' & E & Hw' & U & _ & Hd).
  destruct (write_keeps_reader s s' U (proj1 Hw')) as (Ep & Ef & Hr').
  exists (mk_mux_Writer [] (bufSize mw), s'). split_and!; [done| |rewrite app_nil_r|cbn; done].
  - split; [split; cbn; [by apply Hr'|by rewrite Ep]|done].
  - cbn [written mux_writer_spec]. unfold mux_written at 1. cbn [fst snd wbuf]. by rewrite Hd, app_nil_r.
Qed.
End output.

(** ** flushBeforeRead *)
Section flushing.
Context {S : Type} (r : io_Reader S) (w : io_Writer S) `{!ReaderSpec r} `{!WriterSpec w} `{!Duplex r w}.
Context (flush : M S unit) `{!Flushes r w flush}.

Lemma flush_first s : readable r s → writable w s →
  ∃ s', flush s = (Ret tt, s') ∧ readable r s' ∧ writable w s' ∧ pending r s' = pending r s ∧ fin r s' = fin r s ∧
    written w s' = written w s.
Proof.
  intros Hr Hw. destruct (flush_ok s (pending r s)) as (s' & E & [[Hr' Hp'] Hw'] & Ew & Ef); [by split|].
  exists s'. rewrite app_nil_r in Ew. by split_and!.
Qed.

#[refine] Definition flush_reader_spec : ReaderSpec (flushBeforeRead r flush) := {|
  readable := λ s, readable r s ∧ writable w s;
  pending := pending r;
  fin := fin r;
  kept := λ s s', written w s' = written w s ∧ (writable w s → writable w s');
|}.
Proof.
  - split; [by intros s|]. intros s1 s2 s3 [E1 H1] [E2 H2]. split; [congruence|auto].
  - intros n s Hn [Hr Hw] Hp. destruct (flush_first s Hr Hw) as (s1 & E & Hr1 & Hw1 & Ep & Ef & Ew).
    destruct (read_some n s1 Hn Hr1) as (k & s2 & E2 & Hk & Hkl & Hr2 & Hp2 & Hf2 & K2); [by rewrite Ep|].
    destruct (read_keeps_writer s1 s2 K2) as [Ew2 Hw2].
    exists k, s2. cbn [Read flushBeforeRead]. rewrite E, E2, <-Ep. split_and!; try done; try lia; auto; congruence.
  - intros n s Hn [Hr Hw] Hp. destruct (flush_first s Hr Hw) as (s1 & E & Hr1 & Hw1 & Ep & Ef & Ew).
    destruct (read_end n s1 Hn Hr1) as (s2 & E2 & K2); [by rewrite Ep|].
    destruct (read_keeps_writer s1 s2 K2) as [Ew2 Hw2].
    exists s2. cbn [Read flushBeforeRead]. rewrite E, E2, Ef. split_and!; [done|congruence|auto].
Defined.

Lemma flush_duplex : Duplex (flushBeforeRead r flush) w (ReaderSpec0 := flush_reader_spec).
Proof.
  split; cbn; intros s s'.
  - done.
  - intros U Hw'. destruct (write_keeps_reader s s' U Hw') as (-> & -> & Hr). naive_solver.
Qed.

Lemma flush_flushes : Flushes (flushBeforeRead r flush) w (ReaderSpec0 := flush_reader_spec) flush.
Proof.
  intros s rest [[[Hr _] Hp] Hw]. cbn in *. destruct (flush_ok s rest) as (s' & E & [[Hr' Hp'] Hw'] & Ew & Ef); [by repeat split|].
  exists s'. by split_and!.
Qed.
End flushing.

(** ** Runs on the wire *)

(** A flush leaves the buffer empty, even when the transport fails. *)
Lemma Flush_empties {S} (w : io_Writer S) st x mw' s' : Flush w st = (x, (mw', s')) → mw'.(wbuf) = [].
Proof.
  destruct st as [mw s]. unfold Flush. rewrite bind_get. destruct (Z.eqb_spec (Z.of_nat (length (wbuf mw))) 0) as [E|].
  - intros [= <- <- <-]. destruct (wbuf mw); [done|simpl in E; lia].
  - unfold bind, put, lift. destruct (flush_loop w _ _ _) as [y s1]. by intros [= <- <- <-].
Qed.

(** Both sides end with a flush. *)
Lemma doServerSender_flushed {S} (r : io_Reader S) w flush `{Digests} fsys fuel st walk s s' :
  doServerSender r w flush fsys fuel st walk s = (Ret tt, s') → ∃ s1, flush s1 = (Ret tt, s').
Proof.
  unfold doServerSender. intros H1. do 2 (apply bind_inv_Ret in H1 as (? & ? & _ & H1)).
  destruct (Z.of_nat _ =? 0); [by eexists|].
  do 6 (apply bind_inv_Ret in H1 as (? & ? & _ & H1)). by eexists.
Qed.

Lemma withEntry_flushed {S A} (r : io_Reader S) w flush fuel name (fn : openContext → M (Session * S) A) st x sess' s' :
  attempt (withEntry r w flush fuel name fn) st = (Ret x, (sess', s')) → ∃ s1 y, flush s1 = (y, s').
Proof.
  unfold withEntry, attempt, deferred, lift, ignore. intros H1.
  destruct (entry_result r w fuel name fn st) as [[a|e| |] [se s1]]; try done;
    destruct (flush s1) as [[] s2] eqn:Ef; simplify_eq; by eauto.
Qed.

Section framed.
Context {S : Type} (frames : S → nat) (r : io_Reader S) (w : io_Writer S).
Context `{!ReaderSpec r} `{!WriterSpec w} `{!Duplex r w} `{!EnoughFuel r frames} (base : bytes).

#[local] Instance framed_writer_spec : WriterSpec (framed_out w) := mux_writer_spec (lift_writer w) base.
#[local] Instance framed_duplex0 : Duplex (lift_reader (O := mux_Writer) (mux_reader frames r)) (framed_out w) := mux_output_duplex _ _ base.
#[local] Instance framed_flushes0 : Flushes (lift_reader (O := mux_Writer) (mux_reader frames r)) (framed_out w) (framed_flush w) :=
  Flush_flushes _ _ base.
Definition framed_reader_spec : ReaderSpec (framed_in frames r w) := flush_reader_spec _ (framed_out w) (framed_flush w).
#[local] Existing Instance framed_reader_spec.
#[local] Instance framed_duplex : Duplex (framed_in frames r w) (framed_out w) := flush_duplex _ _ _.
#[local] Instance framed_flushes : Flushes (framed_in frames r w) (framed_out w) (framed_flush w) := flush_flushes _ _ _.

Lemma framed_open mw s wire d : written w s = base → stream r s wire → writable w s →
  mw.(bufSize) = defaultBufSize → Z.of_nat (length mw.(wbuf)) ≤ defaultBufSize →
  demux wire (fin r s) = (d, fin r s) →
  open (framed_in frames r w) (framed_out w) (mw, (NewReader, s)) d ∧
  written (framed_out w) (mw, (NewReader, s)) = mw.(wbuf).
Proof.
  intros Hb [Hr Hp] Hw Hsz Hl Hd.
  assert (mux_writable (lift_writer w) base (mw, (NewReader, s))) as Hmw.
  { unfold mux_writable. cbn [fst snd writable written lift_writer_spec]. rewrite Hsz. split_and!; [done|done|lia|].
    exists []. split; [constructor|]. by rewrite app_nil_r. }
  split.
  - split; [|done]. split; [by split|]. change (mux_pending r (NewReader, s) = d).
    unfold mux_pending. cbn [fst snd rbuf NewReader]. by rewrite Hp, Hd.
  - cbn [written framed_writer_spec mux_writer_spec]. unfold mux_written. cbn [fst snd written lift_writer_spec].
    by rewrite <-Hb, drop_all.
Qed.

(** A dialogue over the framed connection, seen from the wire. *)
Lemma framed_run {A} (m : M (mux_Writer * (mux_Reader * S)) A) ins outs v mw s wire :
  written w s = base → stream r s wire → writable w s →
  mw.(bufSize) = defaultBufSize → Z.of_nat (length mw.(wbuf)) ≤ defaultBufSize →
  demux wire (fin r s) = (ins, fin r s) → dialogue (framed_in frames r w) (framed_out w) m ins outs v →
  ∃ mw' mr' s' wire', m (mw, (NewReader, s)) = (Ret v, (mw', (mr', s'))) ∧ written w s' = base ++ wire' ∧
    (mw'.(wbuf) = [] → ∀ e, demux wire' e = (mw.(wbuf) ++ outs, e)).
Proof.
  intros Hb Hs Hw Hsz Hl Hd Hm. destruct (framed_open mw s wire ins Hb Hs Hw Hsz Hl Hd) as [Ho Ewr].
  rewrite <-(app_nil_r ins) in Ho. destruct (Hm _ [] Ho) as ([mw' [mr' s']] & E & [_ Hw'] & Ew & _).
  rewrite Ewr in Ew. cbn [written writable framed_writer_spec mux_writer_spec] in Ew, Hw'.
  destruct Hw' as (_ & _ & _ & ps & Hps & Hwire). cbn [fst snd written lift_writer_spec] in Hwire.
  exists mw', mr', s', (wire_of ps). split_and!; [done..|]. intros Hnil e. unfold mux_written in Ew.
  cbn [fst snd written lift_writer_spec] in Ew. rewrite Hwire, drop_app_length, demux_wire_of, Hnil, app_nil_r in Ew by done.
  rewrite demux_wire_of by done. cbn in Ew. by rewrite Ew.
Qed.
End framed.

(** A new multiplexed reader holds what the transport's frames hold. *)
Lemma mux_pending_new {S} (r : io_Reader S) `{!ReaderSpec r} s wire d : pending r s = wire → demux wire (fin r s) = (d, fin r s) →
  mux_pending r (NewReader, s) = d.
Proof. intros <- Hd. unfold mux_pending. cbn [fst snd rbuf NewReader]. by rewrite Hd. Qed.

(** The client's and the server's side below protocol 30. *)
Section plain.
Context {S : Type} (frames : S → nat) (r : io_Reader S) (w : io_Writer S).
Context `{!ReaderSpec r} `{!WriterSpec w} `{!Duplex r w} (base : bytes).

Section receiver.
Context `{!EnoughFuel r frames}.
#[local] Instance receiver_writer_spec : WriterSpec (receiver_out w) := lift_writer_spec w.
#[local] Instance receiver_duplex0 : Duplex (mux_reader frames r) (receiver_out w) := mux_input_duplex r w frames.
Definition receiver_reader_spec : ReaderSpec (receiver_in frames r) := flush_reader_spec _ (receiver_out w) (ret tt).
#[local] Existing Instance receiver_reader_spec.
#[local] Instance receiver_duplex : Duplex (receiver_in frames r) (receiver_out w) := flush_duplex _ _ _.
#[local] Instance receiver_flushes : Flushes (receiver_in frames r) (receiver_out w) (ret tt) := flush_flushes _ _ _.

Lemma receiver_run {A} (m : M (mux_Reader * S) A) ins outs v mr s :
  readable r s → writable w s → mux_pending r (mr, s) = ins →
  dialogue (receiver_in frames r) (receiver_out w) m ins outs v →
  ∃ mr' s', m (mr, s) = (Ret v, (mr', s')) ∧ written w s' = written w s ++ outs.
Proof.
  intros Hr Hw Hp Hm. destruct (Hm (mr, s) []) as ([mr' s'] & E & _ & Ew & _).
  - rewrite app_nil_r. split; [|done]. by split; [split|].
  - exists mr', s'. by split.
Qed.
End receiver.

#[local] Instance sender_writer_spec : WriterSpec (sender_out w) := mux_writer_spec w base.
#[local] Instance sender_duplex0 : Duplex (lift_reader (O := mux_Writer) r) (sender_out w) := mux_output_duplex _ _ base.
#[local] Instance sender_flushes0 : Flushes (lift_reader (O := mux_Writer) r) (sender_out w) (sender_flush w) := Flush_flushes _ _ base.
Definition sender_reader_spec : ReaderSpec (sender_in r w) := flush_reader_spec _ (sender_out w) (sender_flush w).
#[local] Existing Instance sender_reader_spec.
#[local] Instance sender_duplex : Duplex (sender_in r w) (sender_out w) := flush_duplex _ _ _.
#[local] Instance sender_flushes : Flushes (sender_in r w) (sender_out w) (sender_flush w) := flush_flushes _ _ _.

Lemma sender_run {A} (m : M (mux_Writer * S) A) ins outs v mw s :
  written w s = base → stream r s ins → writable w s →
  mw.(bufSize) = defaultBufSize → Z.of_nat (length mw.(wbuf)) ≤ defaultBufSize →
  dialogue (sender_in r w) (sender_out w) m ins outs v →
  ∃ mw' s' wire', m (mw, s) = (Ret v, (mw', s')) ∧ written w s' = base ++ wire' ∧
    (mw'.(wbuf) = [] → ∀ e, demux wire' e = (mw.(wbuf) ++ outs, e)).
Proof.
  intros Hb [Hr Hp] Hw Hsz Hl Hm.
  assert (mux_writable w base (mw, s)) as Hmw.
  { unfold mux_writable. cbn [fst snd]. rewrite Hsz. split_and!; [done|done|lia|].
    exists []. split; [constructor|]. by rewrite app_nil_r. }
  destruct (Hm (mw, s) []) as ([mw' s'] & E & [_ Hw'] & Ew & _).
  { rewrite app_nil_r. split; [|done]. by split. }
  cbn [written writable sender_writer_spec mux_writer_spec] in Ew, Hw'.
  destruct Hw' as (_ & _ & _ & ps & Hps & Hwire). unfold mux_written in Ew. cbn [fst snd] in Ew, Hwire.
  exists mw', s', (wire_of ps). split_and!; [done..|]. intros Hnil e.
  rewrite Hb, drop_all, Hwire, drop_app_length, demux_wire_of, Hnil, app_nil_r in Ew by done.
  rewrite demux_wire_of by done. cbn in Ew. by rewrite Ew.
Qed.
End plain.


(** ** A file operation over the wire *)
#[local] Existing Instances framed_writer_spec framed_reader_spec framed_duplex framed_flushes.
#[local] Existing Instances receiver_writer_spec receiver_reader_spec receiver_duplex receiver_flushes.
#[local] Existing Instances sender_writer_spec sender_reader_spec sender_duplex sender_flushes.

(** A call on an object that returns, as one call on the object and the world. *)
Lemma on_object_Ret {O S A} (o o' : O) (m : M (O * S) A) v s s' :
  on_object o m s = (Ret (v, o'), s') → m (o, s) = (Ret v, (o', s')).
Proof. unfold on_object. destruct (m (o, s)) as [[] [??]]; naive_solver. Qed.

(** From protocol 30 on both directions are framed. Give each end any sequence of
    frames, cut and interleaved with informational messages in any way, whose
    data is what the other end sends: both return, the answer is right, and
    what each end put on the wire is again a sequence of whole frames with exactly
    its data, the client's filter list (left in its buffer by the handshake)
    first. Nothing stays in either output buffer. *)
Lemma framed_completes {S T} (frames : S → nat) (r : io_Reader S) (w : io_Writer S)
    `{!ReaderSpec r} `{!WriterSpec w} `{!Duplex r w} `{!EnoughFuel r frames}
    (frames' : T → nat) (r' : io_Reader T) (w' : io_Writer T)
    `{!ReaderSpec r'} `{!WriterSpec w'} `{!Duplex r' w'} `{!EnoughFuel r' frames'} `{Digests}
    base base' {A} (op : entry_op A) `{!EntryOp op} sess st fsys raw name :
  session_ready sess st raw name (op_needs op fsys) →
  ∃ cb sb res sess' n, op_answer op raw (st_ver st) fsys name res ∧ ∀ fuel, (n ≤ fuel)%nat →
    (∀ s wire, written w s = base → stream r s wire → writable w s → demux wire (fin r s) = (sb, fin r s) →
       ∃ mw' mr' s' wire', attempt (withEntry (framed_in frames r w) (framed_out w) (framed_flush w) fuel name
                           (op_run op (framed_in frames r w) (framed_out w) fuel))
                   (sess, (mk_mux_Writer (PutUint32 0) defaultBufSize, (NewReader, s)))
                 = (Ret res, (sess', (mw', (mr', s')))) ∧ mw'.(wbuf) = [] ∧
         written w s' = written w s ++ wire' ∧ ∀ e, demux wire' e = (PutUint32 0 ++ cb, e)) ∧
    (∀ t wire, written w' t = base' → stream r' t wire → writable w' t →
       demux wire (fin r' t) = (PutUint32 0 ++ cb, fin r' t) →
       ∃ mw' mr' t' wire', doServerSender (framed_in frames' r' w') (framed_out w') (framed_flush w') fsys fuel st (Ret raw)
                   (NewWriter, (NewReader, t))
                 = (Ret tt, (mw', (mr', t'))) ∧ mw'.(wbuf) = [] ∧
         written w' t' = written w' t ++ wire' ∧ ∀ e, demux wire' e = (sb, e)).
Proof.
  intros Hready.
  destruct (session_completes (framed_in frames r w) (framed_out w) (framed_in frames' r' w') (framed_out w')
              (framed_flush w) (framed_flush w') (Flushes0 := framed_flushes frames r w base)
              (Flushes1 := framed_flushes frames' r' w' base') op sess st fsys raw name Hready)
    as (cb & sb & res & sess' & n & Hres & Hrun).
  exists cb, sb, res, sess', n. split; [done|]. intros fuel Hf. destruct (Hrun fuel Hf) as [Hc Hs]. split.
  - intros s wire Hb Hst Hw Hd.
    assert (Z.of_nat (length (PutUint32 0)) ≤ defaultBufSize) as Hl by done.
    destruct (framed_run frames r w base _ _ _ _ (mk_mux_Writer (PutUint32 0) defaultBufSize) s wire Hb Hst Hw eq_refl Hl Hd Hc)
      as (mw' & mr' & s' & wire' & E & Ewr & Hsent).
    apply on_object_Ret in E. pose proof E as E'. apply withEntry_flushed in E' as (s1 & y & Ef).
    apply Flush_empties in Ef. exists mw', mr', s', wire'. rewrite Hb. by auto.
  - intros t wire Hb Hst Hw Hd.
    assert (Z.of_nat (length (wbuf NewWriter)) ≤ defaultBufSize) as Hl by done.
    destruct (framed_run frames' r' w' base' _ _ _ _ NewWriter t wire Hb Hst Hw eq_refl Hl Hd Hs) as (mw' & mr' & t' & wire' & E & Ewr & Hsent).
    pose proof E as E'. apply doServerSender_flushed in E' as (s1 & Ef).
    apply Flush_empties in Ef. exists mw', mr', t', wire'. rewrite Hb. by auto.
Qed.

(** Over connections where only the server's output is framed. *)
Lemma unframed_completes {S T} (frames : S → nat) (r : io_Reader S) (w : io_Writer S)
    `{!ReaderSpec r} `{!WriterSpec w} `{!Duplex r w} `{!EnoughFuel r frames}
    (r' : io_Reader T) (w' : io_Writer T) `{!ReaderSpec r'} `{!WriterSpec w'} `{!Duplex r' w'} `{Digests}
    base {A} (op : entry_op A) `{!EntryOp op} sess st fsys raw name mw :
  session_ready sess st raw name (op_needs op fsys) →
  mw.(bufSize) = defaultBufSize → Z.of_nat (length mw.(wbuf)) ≤ defaultBufSize →
  ∃ cb sb res sess' n, op_answer op raw (st_ver st) fsys name res ∧ ∀ fuel, (n ≤ fuel)%nat →
    (∀ mr s, readable r s → writable w s → mux_pending r (mr, s) = sb →
       ∃ mr' s', attempt (withEntry (receiver_in frames r) (receiver_out w) (ret tt) fuel name
                           (op_run op (receiver_in frames r) (receiver_out w) fuel))
                   (sess, (mr, s)) = (Ret res, (sess', (mr', s'))) ∧
         written w s' = written w s ++ cb) ∧
    (∀ t, written w' t = base → stream r' t (PutUint32 0 ++ cb) → writable w' t →
       ∃ mw' t' wire', doServerSender (sender_in r' w') (sender_out w') (sender_flush w') fsys fuel st (Ret raw) (mw, t)
                 = (Ret tt, (mw', t')) ∧ mw'.(wbuf) = [] ∧
         written w' t' = written w' t ++ wire' ∧ ∀ e, demux wire' e = (mw.(wbuf) ++ sb, e)).
Proof.
  intros Hready Hsz Hl.
  destruct (session_completes (receiver_in frames r) (receiver_out w) (sender_in r' w') (sender_out w')
              (ret tt) (sender_flush w') (Flushes0 := receiver_flushes frames r w)
              (Flushes1 := sender_flushes r' w' base) op sess st fsys raw name Hready)
    as (cb & sb & res & sess' & n & Hres & Hrun).
  exists cb, sb, res, sess', n. split; [done|]. intros fuel Hf. destruct (Hrun fuel Hf) as [Hc Hs]. split.
  - intros mr s Hst Hw Hp.
    destruct (receiver_run frames r w _ _ _ _ mr s Hst Hw Hp Hc) as (mr' & s' & E & Ew).
    apply on_object_Ret in E. by exists mr', s'.
  - intros t Hb Hst Hw.
    destruct (sender_run r' w' base _ _ _ _ mw t Hb Hst Hw Hsz Hl Hs) as (mw' & t' & wire' & E & Ewr & Hsent).
    pose proof E as E'. apply doServerSender_flushed in E' as (s1 & Ef).
    apply Flush_empties in Ef. exists mw', t', wire'. rewrite Hb. by auto.
Qed.

(** A file operation on the wire below protocol 30, where only the server's
    output is multiplexed: the client, given frames whose data is what the
    server sends, returns the right answer and writes its bytes unframed; the
    server, given those bytes after the filter list, completes and puts whole
    frames on the wire whose data is the seed still in its buffer (below
    protocol 23) and what the client is to receive. *)
Theorem unframed_session {S T} (frames : S → nat) (r : io_Reader S) (w : io_Writer S)
    `{!ReaderSpec r} `{!WriterSpec w} `{!Duplex r w} `{!EnoughFuel r frames}
    (r' : io_Reader T) (w' : io_Writer T) `{!ReaderSpec r'} `{!WriterSpec w'} `{!Duplex r' w'} `{Digests}
    base sess st fsys raw name mw :
  session_ready sess st raw name (openable fsys) → st_ver st < 30 →
  mw.(bufSize) = defaultBufSize → Z.of_nat (length mw.(wbuf)) ≤ defaultBufSize →
  ∃ cb sb res sess' n, opened raw (st_ver st) fsys name res ∧ ∀ fuel, (n ≤ fuel)%nat →
    (∀ s wire, stream r s wire → writable w s → demux wire (fin r s) = (sb, fin r s) →
       ∃ mr' s', attempt (withEntry (receiver_in frames r) (receiver_out w) (ret tt) fuel name
                           (openFileFromContext (receiver_in frames r) (receiver_out w) fuel))
                   (sess, (NewReader, s)) = (Ret res, (sess', (mr', s'))) ∧
         written w s' = written w s ++ cb) ∧
    (∀ t, written w' t = base → stream r' t (PutUint32 0 ++ cb) → writable w' t →
       ∃ mw' t' wire', doServerSender (sender_in r' w') (sender_out w') (sender_flush w') fsys fuel st (Ret raw) (mw, t)
                 = (Ret tt, (mw', t')) ∧ mw'.(wbuf) = [] ∧
         written w' t' = written w' t ++ wire' ∧ ∀ e, demux wire' e = (mw.(wbuf) ++ sb, e)).
Proof.
  intros Hready _ Hsz Hl.
  destruct (unframed_completes frames r w r' w' base open_op _ _ _ _ _ _ Hready Hsz Hl) as (cb & sb & res & sess' & n & Hres & Hrun).
  exists cb, sb, res, sess', n. split; [done|]. intros fuel Hf. destruct (Hrun fuel Hf) as [Hc Hs]. split; [|done].
  intros s wire [Hr Hp] Hw Hd. apply Hc; [done..|]. by eapply mux_pending_new.
Qed.

(** The client and the server of the example, at a version below 23. *)
Definition example_old_state : transferState :=
  mk_transferState (mk_list_params 22 false false (true, true) true true false) 77 false (str "md4") [].
Definition example_old_live : Session :=
  mk_Session 22 0 [] (str "md4") 77 0 false false false (str "pub") NewNdxState NewNdxState NewReader None.

Lemma example_old_ready : session_ready example_old_live example_old_state example_walk (str "sub/link") (openable example_fs).
Proof.
  unfold session_ready. split_and!; try done.
  - by left.
  - unfold names_ok, path_ok. apply (bool_decide_unpack _). by vm_compute.
  - repeat (apply Forall_cons_2; [constructor; simpl; unfold is_i64, is_i32, is_u32, MaxPathLen; split_and?; try lia; done|]).
    apply Forall_nil_2.
  - intros e He En. unfold example_walk in He. rewrite !elem_of_cons, elem_of_nil in He.
    destruct He as [->|[->|[->|[->|[]]]]]; try (by vm_compute in En). right. by left.
Qed.

Lemma unframed_session_witness :
  ∃ cb sb res sess' n, opened example_walk 22 example_fs (str "sub/link") res ∧ ∀ fuel, (n ≤ fuel)%nat →
    (∀ s wire, stream conn_reader s wire → writable conn_writer s →
       demux wire (fin conn_reader s) = (sb, fin conn_reader s) →
       ∃ mr' s', attempt (withEntry (receiver_in conn_fuel conn_reader) (receiver_out conn_writer) (ret tt) fuel (str "sub/link")
                           (openFileFromContext (receiver_in conn_fuel conn_reader) (receiver_out conn_writer)
                              (H := pad_digests) fuel))
                   (example_old_live, (NewReader, s)) = (Ret res, (sess', (mr', s'))) ∧
         written conn_writer s' = written conn_writer s ++ cb) ∧
    (∀ t, written conn_writer t = [] → stream conn_reader t (PutUint32 0 ++ cb) → writable conn_writer t →
       ∃ mw' t' wire', doServerSender (sender_in conn_reader conn_writer) (sender_out conn_writer) (sender_flush conn_writer)
                   (H := pad_digests) example_fs fuel example_old_state (Ret example_walk)
                   (mk_mux_Writer (PutUint32 77) defaultBufSize, t)
                 = (Ret tt, (mw', t')) ∧ mw'.(wbuf) = [] ∧
         written conn_writer t' = written conn_writer t ++ wire' ∧ ∀ e, demux wire' e = (PutUint32 77 ++ sb, e)).
Proof.
  apply (unframed_session conn_fuel conn_reader conn_writer conn_reader conn_writer (H := pad_digests) []
           example_old_live example_old_state example_fs example_walk (str "sub/link")
           (mk_mux_Writer (PutUint32 77) defaultBufSize) example_old_ready); done.
Defined.
