(* ===== verification/Connection.v ===== *)
(** * A connection from greeting to goodbye (server-handshake.go, client-connect.go)

    HandleConnection on the server's side; Connect followed by one file operation
    on the client's. Each composes the handshake with the transfer phase over the
    readers and writers the negotiated version asks for. *)
From S2P Require Import Prelude.
From S2P Require Import GoIO.
From S2P Require Import GoStrings.
From S2P Require Import Dialogue.
From S2P Require Import WireInt.
From S2P Require Import Checksum.
From S2P Require Import Mux.
From S2P Require Import Flist.
From S2P Require Import FlistProofs.
From S2P Require Import HashSearchProofs.
From S2P Require Import Sort.
From S2P Require Import FileList.
From S2P Require Import Walk.
From S2P Require Import Greet.
From S2P Require Import Handshake.
From S2P Require Import Connect.
From S2P Require Import Sender.
From S2P Require Import Receiver.
From S2P Require Import Transfer.
From S2P Require Import Endpoint.
#[local] Open Scope Z_scope.
#[local] Open Scope go_scope.

(** ** Definitions *)

(** The file systems of the modules, and the clock the walk reads for files
    without a time. *)
Record module_files := mk_module_files { fs_of : ServerModule → fs_FS; now_of : bytes → Z * Z }.

Section connection.
Context {S : Type} (frames : S → nat) (r : io_Reader S) (w : io_Writer S) `{Digests}.

(** doServerSender with the state and the multiplexing it sets up: the writer of
    the handshake if there is one, and framed input from protocol 30 on. *)
Definition start_sender (fuel : nat) (fss : module_files) (h : handshakeResult) : M S unit :=
  let st := mk_transferState (transfer_params h) h.(h_seed) h.(h_seedFix) h.(h_checksum) [] in
  let mw := default NewWriter h.(outMw) in
  let walk := collect fuel (fss.(fs_of) h.(h_module)) fss.(now_of) in
  let fsys := (fss.(fs_of) h.(h_module)).(fs_Open) in
  if 30 <=? h.(h_ver) then
    with_local NewReader (with_local mw
      (doServerSender (framed_in frames r w) (framed_out w) (framed_flush w) fsys fuel st walk))
  else
    with_local mw (doServerSender (sender_in r w) (sender_out w) (sender_flush w) fsys fuel st walk).

Definition HandleConnection (fuel : nat) (o : outside) (fss : module_files) (sv : Server) : M S unit :=
  let* result := doHandshake fuel r w o sv in
  match result with
  | None => ret tt
  | Some h => start_sender fuel fss h
  end.

(** Connect on an established transport, outside root mode. *)
Definition Connect (fuel : nat) (c : Client) : M S Session :=
  if bool_decide (c.(c_Module) = []) then fail (Errorf "Module is empty; use OpenRoot for root mode" [])
  else runHandshake fuel frames r w c.

(** An operation on the connection of a fresh Session, whose input and output
    runHandshake set up; the Session is consumed by it. The multiplexed reader and
    writer of the Session are part of the connection then. *)
Definition on_connection {A} (sess : Session)
    (framed : M (Session * (mux_Writer * (mux_Reader * S))) A) (plain : M (Session * (mux_Reader * S)) A) : M S A :=
  match sess.(s_mw) with
  | Some mw => with_local sess.(s_mr) (with_local mw (with_local (set_mr NewReader sess) framed))
  | None => with_local sess.(s_mr) (with_local (set_mr NewReader sess) plain)
  end.

(** withEntry with the callback of [op], on a Session that is live. *)
Definition entry_live {A} (op : entry_op A) (fuel : nat) (name : bytes) (sess : Session) : M S (error + A) :=
  on_connection sess
    (attempt (withEntry (framed_in frames r w) (framed_out w) (framed_flush w) fuel name
                (op_run op (framed_in frames r w) (framed_out w) fuel)))
    (attempt (withEntry (receiver_in frames r) (receiver_out w) (ret tt) fuel name
                (op_run op (receiver_in frames r) (receiver_out w) fuel))).

Definition connect_and {A} (op : entry_op A) (fuel : nat) (c : Client) (name : bytes) : M S (error + A) :=
  let* sess := Connect fuel c in
  entry_live op fuel name sess.
End connection.

(** ** The whole connection *)

(** [wire] carries [data] towards the server: framed from protocol 30 on. *)
Definition carries (v : Z) (wire data : bytes) (e : error) : Prop :=
  if 30 <=? v then demux wire e = (data, e) else wire = data.

(** The files of a tree as the walk of module [m] lists them. *)
Definition listing (fss : module_files) (m : ServerModule) (t : node) : list fileEntry :=
  entry_at (fss.(fs_of) m) fss.(now_of) <$> files [] t.

(** The module's file system is a tree whose files the list can carry at version
    [v], and the file called [name], if there is one, satisfies [needs]. *)
Definition module_ready (fss : module_files) (m : ServerModule) (v : Z) (t : node) (name : bytes)
    (needs : file_system → fileEntry → Prop) : Prop :=
  (fss.(fs_of) m).(fs_Stat) (str ".") = Ret (node_info t) ∧ node_isDir t = true ∧ holds (fss.(fs_of) m) [] t ∧
  Z.of_nat (length (files [] t)) < 2^31 ∧ Forall (file_ok v (30 <=? v)) (listing fss m t) ∧
  ∀ e, e ∈ listing fss m t → e.(f_name) = name → needs (fss.(fs_of) m).(fs_Open) e.

Lemma outcomes_ready o m c fss v sub d t name needs :
  module_ready fss m v t name needs →
  let h := server_outcome o m v in
  session_ready (client_outcome o c v sub d)
    (mk_transferState (transfer_params h) h.(h_seed) h.(h_seedFix) h.(h_checksum) []) (listing fss m t) name
    (needs (fss.(fs_of) m).(fs_Open)).
Proof.
  intros (_ & Hd & Hh & Hlen & Hfile & Hop). cbv zeta. unfold session_ready. cbn.
  split_and!; try done; [|unfold agreed_checksum; destruct (30 <=? v); auto|by destruct t| |by unfold listing; rewrite length_fmap].
  - unfold negotiated. cbn. split_and!; [done..|]. by intros ?%Z.leb_le.
  - by apply collect_names.
Qed.

Lemma module_listed fss m v t name needs fuel : module_ready fss m v t name needs → (depth t ≤ fuel)%nat →
  collect fuel (fss.(fs_of) m) fss.(now_of) = Ret (listing fss m t).
Proof.
  intros (Hst & Hd & Hh & _) Hf. apply collect_tree; [done| |done|done]. rewrite Hd. destruct t; [done|]. cbn. apply Hh.
Qed.

(** Where a dialogue stops, the rest of the input is still there. *)
Lemma dialogue_then {S A} (r : io_Reader S) (w : io_Writer S) `{!ReaderSpec r} `{!WriterSpec w} (m : M S A) ins outs v s rest :
  dialogue r w m ins outs v → stream r s (ins ++ rest) → writable w s →
  ∃ s', m s = (Ret v, s') ∧ stream r s' rest ∧ writable w s' ∧ written w s' = written w s ++ outs ∧ fin r s' = fin r s.
Proof. intros Hm Hs Hw. destruct (Hm s rest) as (s' & E & [Hs' Hw'] & Ew & Ef); [by split|]. by exists s'. Qed.

Section whole.
Context {S T : Type} (frames : S → nat) (r : io_Reader S) (w : io_Writer S).
Context `{!ReaderSpec r} `{!WriterSpec w} `{!Duplex r w} `{!EnoughFuel r frames}.
Context (frames' : T → nat) (r' : io_Reader T) (w' : io_Writer T).
Context `{!ReaderSpec r'} `{!WriterSpec w'} `{!Duplex r' w'} `{!EnoughFuel r' frames'} `{Digests}.

(** The transfer phase from protocol 23 on, on a connection of either kind, the
    handshake's bytes [base] and [base'] already sent. *)
Lemma transfer_completes {A} (op : entry_op A) `{!EntryOp op} base base' o c fss m v sub d t name :
  23 ≤ v → module_ready fss m v t name (op_needs op) →
  ∃ cb sb res n, op_answer op (listing fss m t) v (fss.(fs_of) m).(fs_Open) name res ∧ ∀ fuel, (n ≤ fuel)%nat →
    (∀ s wire, written w s = base → stream r s wire → writable w s → demux wire (fin r s) = (sb, fin r s) →
       ∃ s' wire', entry_live frames r w op fuel name (client_outcome o c v sub d) s = (Ret res, s') ∧
         written w s' = base ++ wire' ∧ ∀ e, carries v ((if 30 <=? v then [] else PutUint32 0) ++ wire') (PutUint32 0 ++ cb) e) ∧
    (∀ t wire, written w' t = base' → stream r' t wire → writable w' t → carries v wire (PutUint32 0 ++ cb) (fin r' t) →
       ∃ t' wire', start_sender frames' r' w' fuel fss (server_outcome o m v) t = (Ret tt, t') ∧
         written w' t' = base' ++ wire' ∧ ∀ e, demux wire' e = (sb, e)).
Proof.
  intros Hv Hready. pose proof (outcomes_ready o m c fss v sub d t name _ Hready) as Hsess.
  pose proof (λ fuel, module_listed fss m v t name _ fuel Hready) as Hwalk.
  assert ((v <? 23) = false) as H23 by lia.
  unfold entry_live, on_connection, start_sender, carries. cbn [s_mw client_outcome h_ver server_outcome outMw h_module s_mr].
  change (set_mr NewReader (client_outcome o c v sub d)) with (client_outcome o c v sub d).
  rewrite H23. destruct (30 <=? v) eqn:H30.
  - destruct (framed_completes frames r w frames' r' w' base base' op _ _ _ _ _ Hsess) as (cb & sb & res & sess' & n & Hres & Hrun).
    exists cb, sb, res, (n + depth t)%nat. split; [done|]. intros fuel Hf. destruct (Hrun fuel) as [Hc Hs]; [lia|].
    rewrite Hwalk by lia. split.
    + intros s wire Hb Hst Hw Hd. destruct (Hc s wire Hb Hst Hw Hd) as (mw' & mr' & s' & wire' & E & _ & Ew & Hsent).
      exists s', wire'. unfold with_local. cbn in E |- *. rewrite E. by rewrite <-Hb.
    + intros t0 wire Hb Hst Hw Hd. destruct (Hs t0 wire Hb Hst Hw Hd) as (mw' & mr' & t' & wire' & E & _ & Ew & Hsent).
      exists t', wire'. unfold with_local. cbn in E |- *. rewrite E. by rewrite <-Hb.
  - destruct (unframed_completes frames r w r' w' base' op _ _ _ _ _ NewWriter Hsess eq_refl ltac:(done))
      as (cb & sb & res & sess' & n & Hres & Hrun).
    exists cb, sb, res, (n + depth t)%nat. split; [done|]. intros fuel Hf. destruct (Hrun fuel) as [Hc Hs]; [lia|].
    rewrite Hwalk by lia. split.
    + intros s wire Hb [Hr Hp] Hw Hd.
      destruct (Hc NewReader s Hr Hw) as (mr' & s' & E & Ew); [by eapply mux_pending_new|].
      exists s', cb. unfold with_local. cbn in E |- *. rewrite E. by rewrite <-Hb.
    + intros t0 wire Hb Hst Hw ->. destruct (Hs t0 Hb Hst Hw) as (mw' & t' & wire' & E & _ & Ew & Hsent).
      exists t', wire'. unfold with_local. cbn in E |- *. rewrite E. by rewrite <-Hb.
Qed.

(** Below protocol 23 the seed is still in the server's buffer, and the client's
    reader may hold the data behind it already. *)
Lemma old_transfer_completes {A} (op : entry_op A) `{!EntryOp op} base' o c fss m v sub d t name :
  v < 23 → module_ready fss m v t name (op_needs op) →
  ∃ cb sb res n, op_answer op (listing fss m t) v (fss.(fs_of) m).(fs_Open) name res ∧ ∀ fuel, (n ≤ fuel)%nat →
    (∀ mr s, readable r s → writable w s → mux_pending r (mr, s) = sb →
       ∃ s', entry_live frames r w op fuel name (set_mr mr (client_outcome o c v sub d)) s = (Ret res, s') ∧
         written w s' = written w s ++ cb) ∧
    (∀ t, written w' t = base' → stream r' t (PutUint32 0 ++ cb) → writable w' t →
       ∃ t' wire', start_sender frames' r' w' fuel fss (server_outcome o m v) t = (Ret tt, t') ∧
         written w' t' = base' ++ wire' ∧ ∀ e, demux wire' e = (PutUint32 (u32 (choose_seed o)) ++ sb, e)).
Proof.
  intros Hv Hready. pose proof (λ fuel, module_listed fss m v t name _ fuel Hready) as Hwalk.
  assert ((v <? 23) = true) as H23 by lia. assert ((30 <=? v) = false) as H30 by lia.
  pose proof (outcomes_ready o m c fss v sub d t name _ Hready) as Hsess.
  set (mw := mk_mux_Writer (PutUint32 (u32 (choose_seed o))) defaultBufSize).
  destruct (unframed_completes frames r w r' w' base' op _ _ _ _ _ mw Hsess eq_refl ltac:(done))
    as (cb & sb & res & sess' & n & Hres & Hrun).
  exists cb, sb, res, (n + depth t)%nat. split; [done|]. intros fuel Hf. destruct (Hrun fuel) as [Hc Hs]; [lia|]. split.
  - intros mr s Hr Hw Hp. destruct (Hc mr s Hr Hw Hp) as (mr' & s' & E & Ew). exists s'.
    unfold entry_live, on_connection, with_local. set (sess := client_outcome o c v sub d) in *.
    change (set_mr NewReader (set_mr mr sess)) with sess. change (s_mr (set_mr mr sess)) with mr.
    assert (s_mw (set_mr mr sess) = None) as -> by (unfold sess; cbn; by rewrite H30). by rewrite E.
  - intros t0 Hb Hst Hw. destruct (Hs t0 Hb Hst Hw) as (mw' & t' & wire' & E & _ & Ew & Hsent).
    exists t', wire'. unfold start_sender, with_local. cbn [h_ver server_outcome outMw h_module]. rewrite H23, H30, Hwalk by lia.
    cbn [default]. fold mw. cbn in E |- *. rewrite E. by rewrite <-Hb.
Qed.

(** The handshake below protocol 23: the seed is the first of the data in the
    server's frames, wherever the first frame ends. *)
Lemma read_seed_old o v s wire data : v < 23 → stream r s wire → writable w s →
  demux wire (fin r s) = (PutUint32 (u32 (choose_seed o)) ++ data, fin r s) →
  ∃ mr s', read_seed frames r v s = (Ret (choose_seed o, mr), s') ∧ readable r s' ∧ writable w s' ∧
    mux_pending r (mr, s') = data ∧ written w s' = written w s.
Proof.
  intros Hv [Hr Hp] Hw Hd. destruct (choose_seed_ok o) as [Hseed _].
  pose proof (parses_wrap (mux_reader frames r) "read checksum seed" _ _ _ (ReadInt32_ok (mux_reader frames r) _ Hseed)) as Hread.
  apply (dialogue_parses (mux_reader frames r) (lift_writer (O := mux_Reader) w)) in Hread.
  destruct (Hread (NewReader, s) data) as ([mr s'] & E & [[Hr' Hp'] Hw'] & Ew & _).
  { split; [|done]. split; [done|]. by eapply mux_pending_new. }
  exists mr, s'. cbn in *. rewrite app_nil_r in Ew. split_and?; try done.
  unfold read_seed. replace (v <? 23) with true by lia. unfold on_object, ReadChecksumSeed. by rewrite E.
Qed.

Lemma old_handshake_completes o c sv m v sub d :
  greeting_ok (ApplyDefaults c.(c_Greeting)) → greeting_ok (ApplyDefaults sv.(sv_Greeting)) →
  Negotiate (ApplyDefaults c.(c_Greeting)) (ApplyDefaults sv.(sv_Greeting)) = Ret (v, sub, d) →
  module_ok c.(c_Module) → sv.(modules) !! c.(c_Module) = Some m → m.(sm_root) = None → auth_ok o c m d → v < 23 →
  ∃ hc hs n, ∀ fuel, (n ≤ fuel)%nat →
    (∀ s wire data, stream r s (hs ++ wire) → writable w s → demux wire (fin r s) = (PutUint32 (u32 (choose_seed o)) ++ data, fin r s) →
       ∃ mr s', runHandshake fuel frames r w c s = (Ret (set_mr mr (client_outcome o c.(c_Module) v sub d)), s') ∧
         readable r s' ∧ writable w s' ∧ mux_pending r (mr, s') = data ∧ written w s' = written w s ++ hc ++ PutUint32 0) ∧
    dialogue r' w' (doHandshake fuel r' w' o sv) hc hs (Some (server_outcome o m v)).
Proof.
  intros Hgc Hgs Hneg Hname Hm Hroot Hauth Hv. destruct (auth_dialogues r w r' w' o c m d Hauth) as (cb & sb & n & Ha).
  set (gc := ApplyDefaults (c_Greeting c)) in *. set (gs := ApplyDefaults (sv_Greeting sv)) in *.
  exists (client_bytes gc cb (c_Module c) v), (server_bytes gs sb o v),
    (n + length (Greeting_String gc) + length (Greeting_String gs) + length (c_Module c) + length (args_line v (c_Module c)) + 1)%nat.
  intros fuel Hf. destruct (Ha fuel) as [Hc Hs]; [lia|]. split.
  - intros s wire data Hst Hw Hd. unfold server_bytes in Hst. replace (v <? 23) with true in Hst by lia. rewrite app_nil_r in Hst.
    destruct (dialogue_then r w _ _ _ _ s wire (text_phase_ok r w c gs v sub d cb sb fuel Hgs Hneg Hc ltac:(lia)) Hst Hw)
      as (s1 & E1 & Hst1 & Hw1 & Ew1 & Ef1).
    rewrite <-Ef1 in Hd. destruct (read_seed_old o v s1 wire data Hv Hst1 Hw1 Hd) as (mr & s2 & E2 & Hr2 & Hw2 & Hp2 & Ew2).
    set (sess := set_mr mr (client_outcome o (c_Module c) v sub d)).
    assert (before_filter fuel frames r w c s = (Ret sess, s2)) as E3.
    { unfold before_filter. rewrite (bind_Ret _ _ _ _ _ E1). cbv beta iota. rewrite (bind_Ret _ _ _ _ _ E2). cbv beta iota.
      destruct (agreed_flags_has v) as (-> & -> & ->). unfold sess, client_outcome, set_mr. by replace (30 <=? v) with false by lia. }
    destruct (send_filter_ok r w sess) with (s := s2) (rest := pending r s2) as (s3 & E4 & [[Hr3 Hp3] Hw3] & Ew3 & Ef3).
    { unfold sess. cbn. replace (30 <=? v) with false by lia. done. }
    { by split. }
    exists mr, s3. unfold runHandshake. rewrite (bind_Ret _ _ _ _ _ E3), E4. unfold sess, client_outcome. cbn.
    replace (30 <=? v) with false in * by lia. split_and?; try done.
    + revert Hp2. unfold mux_pending. cbn [fst snd]. by rewrite Hp3, Ef3.
    + rewrite Ew3, Ew2, Ew1. unfold sess, client_outcome. cbn. replace (30 <=? v) with false by lia. by rewrite <-app_assoc.
  - apply (doHandshake_ok r' w' o sv m gc (c_Module c) v sub d cb sb fuel Hgc Hname Hm Hroot Hneg Hs). lia.
Qed.

(** Both ends of a connection with any operation complete, from protocol 23 on. *)
Lemma new_connection_completes {A} (op : entry_op A) `{!EntryOp op} base base' o c sv fss m v sub d tree name :
  greeting_ok (ApplyDefaults c.(c_Greeting)) → greeting_ok (ApplyDefaults sv.(sv_Greeting)) →
  Negotiate (ApplyDefaults c.(c_Greeting)) (ApplyDefaults sv.(sv_Greeting)) = Ret (v, sub, d) →
  module_ok c.(c_Module) → sv.(modules) !! c.(c_Module) = Some m → m.(sm_root) = None → auth_ok o c m d →
  23 ≤ v → module_ready fss m v tree name (op_needs op) →
  ∃ hc hs cb sb res n, op_answer op (listing fss m tree) v (fss.(fs_of) m).(fs_Open) name res ∧ ∀ fuel, (n ≤ fuel)%nat →
    (∀ s wire, written w s = base → stream r s (hs ++ wire) → writable w s → demux wire (fin r s) = (sb, fin r s) →
       ∃ s' wire', connect_and frames r w op fuel c name s = (Ret res, s') ∧
         written w s' = base ++ hc ++ wire' ∧ ∀ e, carries v wire' (PutUint32 0 ++ cb) e) ∧
    (∀ t wire, written w' t = base' → stream r' t (hc ++ wire) → writable w' t →
       carries v wire (PutUint32 0 ++ cb) (fin r' t) →
       ∃ t' wire', HandleConnection frames' r' w' fuel o fss sv t = (Ret tt, t') ∧
         written w' t' = base' ++ hs ++ wire' ∧ ∀ e, demux wire' e = (sb, e)).
Proof.
  intros Hgc Hgs Hneg Hname Hm Hroot Hauth Hv Hready.
  destruct (handshake_completes r w r' w' frames o c sv m v sub d Hgc Hgs Hneg Hname Hm Hroot Hauth) as (hc & hs & n1 & Hhand).
  set (pre := if 30 <=? v then [] else PutUint32 0) in *.
  destruct (transfer_completes op (base ++ hc ++ pre) (base' ++ hs) o (c_Module c) fss m v sub d tree name Hv Hready)
    as (cb & sb & res & n2 & Hres & Htrans). fold pre in Htrans.
  exists hc, hs, cb, sb, res, (n1 + n2)%nat. split; [done|]. intros fuel Hf.
  destruct (Hhand fuel) as [Hc1 Hs1]; [lia|]. destruct (Htrans fuel) as [Hc2 Hs2]; [lia|].
  assert ((v <? 23) = false) as H23 by lia. rewrite H23, app_nil_r in Hc1. split.
  - intros s wire Hb Hst Hw Hd. destruct (dialogue_then r w _ _ _ _ s wire Hc1 Hst Hw) as (s1 & E1 & Hst1 & Hw1 & Ew1 & Ef1).
    rewrite <-Ef1 in Hd. rewrite Hb in Ew1. destruct (Hc2 s1 wire Ew1 Hst1 Hw1 Hd) as (s' & wire' & E2 & Ew2 & Hsent).
    exists s', (pre ++ wire'). split_and!; [|by rewrite Ew2, <-!app_assoc|done].
    unfold connect_and, Connect. rewrite bool_decide_false by apply Hname. by rewrite (bind_Ret _ _ _ _ _ E1).
  - intros t wire Hb Hst Hw Hd. destruct (dialogue_then r' w' _ _ _ _ t wire Hs1 Hst Hw) as (t1 & E1 & Hst1 & Hw1 & Ew1 & Ef1).
    rewrite <-Ef1 in Hd. rewrite Hb in Ew1. destruct (Hs2 t1 wire Ew1 Hst1 Hw1 Hd) as (t' & wire' & E2 & Ew2 & Hsent).
    exists t', wire'. split_and!; [|by rewrite Ew2, <-!app_assoc|done].
    unfold HandleConnection. by rewrite (bind_Ret _ _ _ _ _ E1).
Qed.

(** And at every version. *)
Lemma connection_completes {A} (op : entry_op A) `{!EntryOp op} base base' o c sv fss m v sub d tree name :
  greeting_ok (ApplyDefaults c.(c_Greeting)) → greeting_ok (ApplyDefaults sv.(sv_Greeting)) →
  Negotiate (ApplyDefaults c.(c_Greeting)) (ApplyDefaults sv.(sv_Greeting)) = Ret (v, sub, d) →
  module_ok c.(c_Module) → sv.(modules) !! c.(c_Module) = Some m → m.(sm_root) = None → auth_ok o c m d →
  module_ready fss m v tree name (op_needs op) →
  ∃ hc hs cb sb res n, op_answer op (listing fss m tree) v (fss.(fs_of) m).(fs_Open) name res ∧ ∀ fuel, (n ≤ fuel)%nat →
    (∀ s wire, written w s = base → stream r s (hs ++ wire) → writable w s → demux wire (fin r s) = (sb, fin r s) →
       ∃ s' wire', connect_and frames r w op fuel c name s = (Ret res, s') ∧
         written w s' = base ++ hc ++ wire' ∧ ∀ e, carries v wire' (PutUint32 0 ++ cb) e) ∧
    (∀ t wire, written w' t = base' → stream r' t (hc ++ wire) → writable w' t →
       carries v wire (PutUint32 0 ++ cb) (fin r' t) →
       ∃ t' wire', HandleConnection frames' r' w' fuel o fss sv t = (Ret tt, t') ∧
         written w' t' = base' ++ hs ++ wire' ∧ ∀ e, demux wire' e = (sb, e)).
Proof.
  intros Hgc Hgs Hneg Hname Hm Hroot Hauth Hready. destruct (Z.le_gt_cases 23 v) as [Hv|Hv].
  { by apply (new_connection_completes op base base' o c sv fss m v sub d tree name). }
  destruct (old_handshake_completes o c sv m v sub d Hgc Hgs Hneg Hname Hm Hroot Hauth Hv) as (hc & hs & n1 & Hhand).
  destruct (old_transfer_completes op (base' ++ hs) o (c_Module c) fss m v sub d tree name Hv Hready)
    as (cb & sb & res & n2 & Hres & Htrans).
  assert ((30 <=? v) = false) as H30 by lia.
  exists hc, hs, cb, (PutUint32 (u32 (choose_seed o)) ++ sb), res, (n1 + n2)%nat. split; [done|]. intros fuel Hf. unfold carries.
  rewrite H30. destruct (Hhand fuel) as [Hc1 Hs1]; [lia|]. destruct (Htrans fuel) as [Hc2 Hs2]; [lia|]. split.
  - intros s wire Hb Hst Hw Hd. destruct (Hc1 s wire sb Hst Hw Hd) as (mr & s1 & E1 & Hr1 & Hw1 & Hp1 & Ew1).
    destruct (Hc2 mr s1 Hr1 Hw1 Hp1) as (s' & E2 & Ew2). exists s', (PutUint32 0 ++ cb).
    split_and!; [|by rewrite Ew2, Ew1, Hb, <-!app_assoc|done].
    unfold connect_and, Connect. rewrite bool_decide_false by apply Hname. by rewrite (bind_Ret _ _ _ _ _ E1).
  - intros t wire Hb Hst Hw ->. destruct (dialogue_then r' w' _ _ _ _ t _ Hs1 Hst Hw) as (t1 & E1 & Hst1 & Hw1 & Ew1 & Ef1).
    rewrite Hb in Ew1. destruct (Hs2 t1 Ew1 Hst1 Hw1) as (t' & wire' & E2 & Ew2 & Hsent).
    exists t', wire'. split_and!; [|by rewrite Ew2, <-!app_assoc|done]. unfold HandleConnection. by rewrite (bind_Ret _ _ _ _ _ E1).
Qed.

(** C1: A whole connection, from the greeting to the goodbye, at any version.
    When the greetings negotiate version [v], the module exists with a
    readable root and a usable name, authentication (if any) would succeed and
    the module's files fit the list: the client's Connect and Open, given what
    the server sends, and the server's HandleConnection, given what the client
    sends, both return. Each direction starts with the plain bytes of the
    handshake; behind them the server's frames carry [sb] in any cut and the
    client's output (framed from protocol 30 on) carries the filter list and
    [cb]. Open's answer is what the module's file system holds under the name. *)
Theorem connection_open base base' o c sv fss m v sub d tree name :
  greeting_ok (ApplyDefaults c.(c_Greeting)) → greeting_ok (ApplyDefaults sv.(sv_Greeting)) →
  Negotiate (ApplyDefaults c.(c_Greeting)) (ApplyDefaults sv.(sv_Greeting)) = Ret (v, sub, d) →
  module_ok c.(c_Module) → sv.(modules) !! c.(c_Module) = Some m → m.(sm_root) = None → auth_ok o c m d →
  module_ready fss m v tree name openable →
  ∃ hc hs cb sb res n, opened (listing fss m tree) v (fss.(fs_of) m).(fs_Open) name res ∧ ∀ fuel, (n ≤ fuel)%nat →
    (∀ s wire, written w s = base → stream r s (hs ++ wire) → writable w s → demux wire (fin r s) = (sb, fin r s) →
       ∃ s' wire', connect_and frames r w open_op fuel c name s = (Ret res, s') ∧
         written w s' = base ++ hc ++ wire' ∧ ∀ e, carries v wire' (PutUint32 0 ++ cb) e) ∧
    (∀ t wire, written w' t = base' → stream r' t (hc ++ wire) → writable w' t →
       carries v wire (PutUint32 0 ++ cb) (fin r' t) →
       ∃ t' wire', HandleConnection frames' r' w' fuel o fss sv t = (Ret tt, t') ∧
         written w' t' = base' ++ hs ++ wire' ∧ ∀ e, demux wire' e = (sb, e)).
Proof. apply (connection_completes open_op). Qed.
End whole.

(** ** Witness *)
Definition example_files : module_files := mk_module_files (λ _, example_module_fs) (λ _, (0, 0)).

Lemma example_module_fits name (needs : file_system → fileEntry → Prop) :
  (∀ e, e ∈ listing example_files example_module example_tree → e.(f_name) = name → needs example_module_fs.(fs_Open) e) →
  module_ready example_files example_module 31 example_tree name needs.
Proof.
  intros Hneeds. unfold module_ready. split_and!; try done; [exact example_holds|].
  repeat (apply Forall_cons_2; [constructor; simpl; unfold is_i64, is_i32, is_u32, MaxPathLen; split_and?; try lia; done|]).
  apply Forall_nil_2.
Qed.

Lemma example_module_ready : module_ready example_files example_module 31 example_tree (str "a.txt") openable.
Proof.
  apply example_module_fits. intros e He En. right. right. cbn in He. rewrite !elem_of_cons, elem_of_nil in He.
  destruct He as [->|[->|[->|[->|[]]]]]; try (by vm_compute in En). split; [by vm_compute|]. by exists (str "hello, world").
Qed.

Lemma connection_open_witness :
  ∃ hc hs cb sb res n, opened (listing example_files example_module example_tree) 31 example_module_fs.(fs_Open) (str "a.txt") res ∧ ∀ fuel, (n ≤ fuel)%nat →
    (∀ s wire, written conn_writer s = [] → stream conn_reader s (hs ++ wire) → writable conn_writer s →
       demux wire (fin conn_reader s) = (sb, fin conn_reader s) →
       ∃ s' wire', connect_and conn_fuel conn_reader conn_writer (open_op (H := pad_digests)) fuel example_client (str "a.txt") s
                   = (Ret res, s') ∧
         written conn_writer s' = [] ++ hc ++ wire' ∧ ∀ e, carries 31 wire' (PutUint32 0 ++ cb) e) ∧
    (∀ t wire, written conn_writer t = [] → stream conn_reader t (hc ++ wire) → writable conn_writer t →
       carries 31 wire (PutUint32 0 ++ cb) (fin conn_reader t) →
       ∃ t' wire', HandleConnection conn_fuel conn_reader conn_writer (H := pad_digests) fuel example_outside example_files
                     example_server t = (Ret tt, t') ∧
         written conn_writer t' = [] ++ hs ++ wire' ∧ ∀ e, demux wire' e = (sb, e)).
Proof.
  apply (connection_open conn_fuel conn_reader conn_writer conn_fuel conn_reader conn_writer (H := pad_digests) [] []
           example_outside example_client example_server example_files example_module 31 0 (str "md5") example_tree (str "a.txt")).
  - apply (bool_decide_unpack _). by vm_compute.
  - apply (bool_decide_unpack _). by vm_compute.
  - by vm_compute.
  - unfold module_ok. apply (bool_decide_unpack _). by vm_compute.
  - by vm_compute.
  - done.
  - exists (replicate 16 7), (str "alice" ++ replicate 16 7), (λ _ challenge, Ret (str "alice" ++ challenge)).
    split_and!; try done; apply (bool_decide_unpack _); by vm_compute.
  - exact example_module_ready.
Defined.

(** The connection evaluated: the server answers what the client sends, and the
    client, fed with that answer byte by byte, gets the file and sends the same
    payload. *)
Example connection_runs :
  let payload := PutUint32 0 ++ example_cb in
  let request := client_bytes (ApplyDefaults example_client.(c_Greeting))
                   (str "alice YWxpY2UHBwcHBwcHBwcHBwcHBwcH" ++ [10]) (str "pub") 31 in
  let '(res, t) := HandleConnection conn_fuel conn_reader conn_writer (H := pad_digests) 200 example_outside example_files
                     example_server (conn_of (request ++ frame_bytes MsgData payload)) in
  let '(res', s) := connect_and conn_fuel conn_reader conn_writer (open_op (H := pad_digests)) 200 example_client (str "a.txt")
                      (conn_dribble t.(tx)) in
  res = Ret tt ∧ demux (drop (length request) s.(tx)) EOF = (payload, EOF) ∧
  match res' with Ret (inr (flistFile _ data)) => data = str "hello, world" | _ => False end.
Proof. vm_compute. split_and!; reflexivity. Qed.

(** The same below protocol 23, where the seed shares a frame with the list. *)
Definition example_old_client : Client := mk_Client (mk_Greeting 22 0 []) (str "pub") [] None.
Definition example_open_server : Server :=
  mk_Server {[ str "pub" := mk_ServerModule (str "pub") [] None None ]} (mk_Greeting 0 0 []).
Example old_connection_runs :
  let payload := PutUint32 0 ++ ask_bytes 22 (Some 1) ++ dones 22 2 ++ goodbye_client 22 in
  let request := client_bytes (ApplyDefaults example_old_client.(c_Greeting)) [] (str "pub") 22 in
  let '(res, t) := HandleConnection conn_fuel conn_reader conn_writer (H := pad_digests) 200 example_outside example_files
                     example_open_server (conn_of (request ++ payload)) in
  let '(res', s) := connect_and conn_fuel conn_reader conn_writer (open_op (H := pad_digests)) 200 example_old_client (str "a.txt")
                      (conn_dribble t.(tx)) in
  res = Ret tt ∧ s.(tx) = request ++ payload ∧
  match res' with Ret (inr (flistFile _ data)) => data = str "hello, world" | _ => False end.
Proof. vm_compute. split_and!; reflexivity. Qed.
