(* ===== verification/Files.v ===== *)
(** * The fs.File values of the client (client-open.go)

    Open returns a flistFile, a moduleDirFile or a symlinkFile; a root-mode Open
    of the root returns a rootDir. A handle is the value with its offset. Reading
    a file is an [io_Reader] that satisfies the interface of [GoIO]; ReadDir
    hands out a directory's entries page by page. *)
From Stdlib Require Import Sorted.
From S2P Require Import Prelude.
From S2P Require Import GoIO.
From S2P Require Import GoStrings.
From S2P Require Import Flist.
From S2P Require Import Sort.
From S2P Require Import FileList.
From S2P Require Import Receiver.
From S2P Require Import Transfer.
#[local] Open Scope Z_scope.
#[local] Open Scope go_scope.

(** ** Definitions *)
Definition ErrInvalid : error := Errorf "invalid argument" [].

(** A file that is open: [hd_off] counts bytes, or entries of a directory. *)
Record handle := mk_handle { hd_file : fs_File; hd_off : Z }.
Definition new_handle (f : fs_File) : handle := mk_handle f 0.

Definition file_Stat (h : handle) : flistFileInfo :=
  match h.(hd_file) with flistFile i _ => i | moduleDirFile i _ => i | symlinkFile i _ => i end.

(** FileInfo.IsDir. *)
Definition info_IsDir (i : flistFileInfo) : bool := mode_IsDir i.(fi_mode).

(** Read of the three kinds: only a regular file has data. *)
Definition file_Read (n : nat) : M handle (bytes * option error) := λ h,
  match h.(hd_file) with
  | flistFile info data =>
    if Z.of_nat (length data) <=? h.(hd_off) then (Ret ([], Some EOF), h)
    else
      let p := take n (drop (Z.to_nat h.(hd_off)) data) in
      (Ret (p, None), mk_handle h.(hd_file) (h.(hd_off) + Z.of_nat (length p)))
  | moduleDirFile _ _ | symlinkFile _ _ => (Ret ([], Some ErrInvalid), h)
  end.
Definition file_reader : io_Reader handle := {| Read := file_Read |}.

(** The paging of ReadDir over a list of entries at an offset: the page, the new
    offset and the error. *)
Definition page {E} (entries : list E) (off n : Z) : list E * Z * option error :=
  let len := Z.of_nat (length entries) in
  if len <=? off then
    if n <=? 0 then ([], off, None) else ([], off, Some EOF)
  else
    let n := if (n <=? 0) || (len - off <? n) then len - off else n in
    (take (Z.to_nat n) (drop (Z.to_nat off) entries), off + n, None).

(** flistDirEntry: an entry of a directory listing. *)
Definition dirEntry_Name (e : FlistEntry) : bytes := baseName e.(Name).
Definition dirEntry_IsDir (e : FlistEntry) : bool := wireModeIsDir e.(Mode).
Definition dirEntry_Type (e : FlistEntry) : Z := mode_Type (wireModeToFS e.(Mode)).
Definition dirEntry_Info (e : FlistEntry) : flistFileInfo := flistInfo (baseName e.(Name)) e.

Definition file_ReadDir (n : Z) : M handle (list FlistEntry * option error) := λ h,
  match h.(hd_file) with
  | moduleDirFile _ children =>
    let '(out, off, err) := page children h.(hd_off) n in (Ret (out, err), mk_handle h.(hd_file) off)
  | flistFile info _ | symlinkFile info _ => (Fail (Wrap "readdir" ErrInvalid), h)
  end.

(** The root directory of root mode. *)
Record moduleInfo := mk_moduleInfo { md_name : bytes; md_comment : bytes }.
Record rootDir := mk_rootDir { rd_modules : list moduleInfo; rd_off : Z }.
Record rootDirEntry := mk_rootDirEntry { re_name : bytes; re_mode : Z; re_target : bytes }.

Definition rootDir_Stat : flistFileInfo := mk_flistFileInfo (str ".") ModeDir 0 0 0.
Definition rootEntry_Info (e : rootDirEntry) : flistFileInfo :=
  mk_flistFileInfo e.(re_name) e.(re_mode) (Z.of_nat (length e.(re_target))) 0 0.

(** A module as a directory, and its comment as the name of a hidden link. *)
Definition module_entries (m : moduleInfo) : list rootDirEntry :=
  [mk_rootDirEntry m.(md_name) ModeDir [];
   mk_rootDirEntry (str "." ++ m.(md_name) ++ [9] ++ m.(md_comment)) ModeSymlink m.(md_name)].

(** sort.Slice by name; any sort gives this list when the names are distinct. *)
Definition root_entries (modules : list moduleInfo) : list rootDirEntry :=
  sort_stable (λ a b, Compare a.(re_name) b.(re_name) <? 0) (concat (module_entries <$> modules)).

Definition rootDir_ReadDir (n : Z) : M rootDir (list rootDirEntry * option error) := λ d,
  let '(out, off, err) := page (root_entries d.(rd_modules)) d.(rd_off) n in
  (Ret (out, err), mk_rootDir d.(rd_modules) off).

(** ** Reading a file *)

(** The bytes still to come. *)
Definition unread (h : handle) : bytes :=
  match h.(hd_file) with flistFile _ data => drop (Z.to_nat h.(hd_off)) data | _ => [] end.
Definition file_readable (h : handle) : Prop :=
  0 ≤ h.(hd_off) ∧ match h.(hd_file) with flistFile _ _ => True | _ => False end.

#[global, refine] Instance file_reader_spec : ReaderSpec file_reader := {|
  readable := file_readable;
  pending := unread;
  fin := λ _, EOF;
  kept := λ h h', h'.(hd_file) = h.(hd_file);
|}.
Proof.
  - split; [by intros h|]. intros h1 h2 h3 E1 E2. congruence.
  - intros n [f off] Hn [Ho Hf] Hp. cbn in *. destruct f as [i data| |]; try done. unfold unread in *. cbn in *.
    assert (Z.to_nat off < length data)%nat as Hlt.
    { destruct (decide (Z.to_nat off < length data)%nat); [done|]. destruct Hp. apply drop_ge. lia. }
    unfold file_Read. cbn [hd_file hd_off]. replace (Z.of_nat (length data) <=? off) with false by lia.
    exists (n `min` length (drop (Z.to_nat off) data))%nat, (mk_handle (flistFile i data) (off + Z.of_nat (length (take n (drop (Z.to_nat off) data))))).
    rewrite length_take, length_drop. split_and!; try done; try lia.
    + f_equal. f_equal. f_equal. destruct (decide (n ≤ length data - Z.to_nat off)%nat).
      * by rewrite Nat.min_l.
      * rewrite Nat.min_r by lia. rewrite !take_ge by (rewrite length_drop; lia). done.
    + unfold file_readable. cbn. split; [lia|done].
    + unfold unread. cbn. rewrite drop_drop. f_equal. lia.
  - intros n [f off] Hn [Ho Hf] Hp. cbn in *. destruct f as [i data| |]; try done. unfold unread in Hp. cbn in Hp.
    assert (length data ≤ Z.to_nat off)%nat as Hge by (apply (f_equal length) in Hp; rewrite length_drop in Hp; simpl in Hp; lia).
    exists (mk_handle (flistFile i data) off). unfold file_Read. cbn [hd_file hd_off].
    by replace (Z.of_nat (length data) <=? off) with true by lia.
Defined.

(** [io.ReadAll]: [room] is the free space of its growing buffer at each round,
    never zero. *)
Fixpoint ReadAll {S} (fuel : nat) (room : nat → nat) (r : io_Reader S) (got : bytes) : M S bytes :=
  match fuel with
  | O => nofuel
  | Datatypes.S fuel' =>
    let* (p, err) := Read r (Datatypes.S (room (length got))) in
    match err with
    | None => ReadAll fuel' room r (got ++ p)
    | Some EOF => ret (got ++ p)
    | Some e => fail e
    end
  end.

Lemma ReadAll_ok {S} (r : io_Reader S) `{!ReaderSpec r} room : ∀ fuel s got bs, stream r s bs → fin r s = EOF → (length bs < fuel)%nat →
  ∃ s', ReadAll fuel room r got s = (Ret (got ++ bs), s') ∧ kept r s s'.
Proof.
  induction fuel as [|fuel IH]; intros s got bs [Hr Hp] He Hf; [lia|]. cbn [ReadAll]. destruct (decide (bs = [])) as [->|Hne].
  - destruct (read_end (Datatypes.S (room (length got))) s ltac:(lia) Hr Hp) as (s' & E & K). exists s'. rewrite He in E.
    by rewrite (bind_Ret _ _ _ _ _ E).
  - destruct (read_some (Datatypes.S (room (length got))) s ltac:(lia) Hr) as (k & s1 & E & Hk & Hkl & Hr1 & Hp1 & He1 & K1); [by rewrite Hp|].
    rewrite Hp in E, Hkl, Hp1. rewrite (bind_Ret _ _ _ _ _ E).
    destruct (IH s1 (got ++ take k bs) (drop k bs)) as (s' & E' & K'); [by split|by rewrite He1|rewrite length_drop; lia|].
    exists s'. split; [|by transitivity s1]. by rewrite E', <-app_assoc, take_drop.
Qed.

(** C37: Reading an opened file to the end gives its content: io.ReadAll over the
    handle of a regular file, whatever free space its buffer has at each call,
    returns exactly the bytes the transfer produced, and directories and links
    refuse to be read. *)
Theorem file_ReadAll info data room fuel : (length data < fuel)%nat →
  ∃ h', ReadAll fuel room file_reader [] (new_handle (flistFile info data)) = (Ret data, h') ∧ h'.(hd_file) = flistFile info data ∧
    ∀ children target n,
      file_Read n (new_handle (moduleDirFile info children)) = (Ret ([], Some ErrInvalid), new_handle (moduleDirFile info children)) ∧
      file_Read n (new_handle (symlinkFile info target)) = (Ret ([], Some ErrInvalid), new_handle (symlinkFile info target)).
Proof.
  intros Hf. destruct (ReadAll_ok file_reader room fuel (new_handle (flistFile info data)) [] data) as (h' & E & K); [by split|done|done|].
  by exists h'.
Qed.

Definition example_file_info : flistFileInfo := mk_flistFileInfo (str "f") 0x1A4 3 0 0.
Lemma file_ReadAll_witness :
  ∃ h', ReadAll 4 (λ _, 0%nat) file_reader [] (new_handle (flistFile example_file_info [1; 2; 3])) = (Ret [1; 2; 3], h') ∧
    h'.(hd_file) = flistFile example_file_info [1; 2; 3] ∧
    ∀ children target n,
      file_Read n (new_handle (moduleDirFile example_file_info children)) = (Ret ([], Some ErrInvalid), new_handle (moduleDirFile example_file_info children)) ∧
      file_Read n (new_handle (symlinkFile example_file_info target)) = (Ret ([], Some ErrInvalid), new_handle (symlinkFile example_file_info target)).
Proof. apply (file_ReadAll example_file_info [1; 2; 3] (λ _, 0%nat) 4). simpl. lia. Defined.

(** ** Listing a directory *)
Lemma page_rest {E} (l : list E) off n : 0 ≤ off → 0 < n →
  let '(out, off', err) := page l off n in
  (drop (Z.to_nat off) l = [] ∧ out = [] ∧ off' = off ∧ err = Some EOF) ∨
  (err = None ∧ out ≠ [] ∧ Z.of_nat (length out) ≤ n ∧ off' = off + Z.of_nat (length out) ∧
   drop (Z.to_nat off) l = out ++ drop (Z.to_nat off') l).
Proof.
  intros Ho Hn. unfold page. destruct (Z.leb_spec (Z.of_nat (length l)) off) as [Hl|Hl].
  - replace (n <=? 0) with false by lia. left. split_and!; [apply drop_ge; lia|done..].
  - right. replace (n <=? 0) with false by lia. cbn [orb].
    set (k := if Z.of_nat (length l) - off <? n then Z.of_nat (length l) - off else n).
    assert (k = Z.min (Z.of_nat (length l) - off) n) as Hk by (unfold k; destruct (Z.ltb_spec (Z.of_nat (length l) - off) n); lia).
    assert (length (take (Z.to_nat k) (drop (Z.to_nat off) l)) = Z.to_nat k) as Hlen by (rewrite length_take, length_drop; lia).
    split_and!; [done| |lia|lia|].
    + intros E0. rewrite E0 in Hlen. simpl in Hlen. lia.
    + replace (Z.to_nat (off + k)) with (Z.to_nat off + Z.to_nat k)%nat by lia. by rewrite <-drop_drop, take_drop.
Qed.

Lemma page_all {E} (l : list E) n : n ≤ 0 → page l 0 n = (l, Z.of_nat (length l), None).
Proof.
  intros Hn. unfold page. replace (n <=? 0) with true by lia. rewrite Z.sub_0_r. destruct l as [|c l]; [done|]. cbn [orb].
  assert ((Z.of_nat (length (c :: l)) <=? 0) = false) as -> by (apply Z.leb_gt; cbn [length]; lia).
  cbn [Z.to_nat drop]. rewrite Nat2Z.id, firstn_all, Z.add_0_l. done.
Qed.

(** Reading a directory page by page until io.EOF. *)
Fixpoint ReadDir_all (fuel : nat) (n : Z) : M handle (list FlistEntry) :=
  match fuel with
  | O => nofuel
  | Datatypes.S fuel' =>
    let* (out, err) := file_ReadDir n in
    match err with
    | None => let* rest := ReadDir_all fuel' n in ret (out ++ rest)
    | Some EOF => ret out
    | Some e => fail e
    end
  end.

Lemma ReadDir_all_ok info children n : 0 < n → ∀ fuel off, 0 ≤ off → (length (drop (Z.to_nat off) children) < fuel)%nat →
  ∃ off', ReadDir_all fuel n (mk_handle (moduleDirFile info children) off) =
    (Ret (drop (Z.to_nat off) children), mk_handle (moduleDirFile info children) off').
Proof.
  intros Hn. induction fuel as [|fuel IH]; intros off Ho Hf; [lia|]. cbn [ReadDir_all]. unfold bind at 1, file_ReadDir. cbn [hd_file hd_off].
  pose proof (page_rest children off n Ho Hn) as Hp. destruct (page children off n) as [[out off'] err].
  destruct Hp as [(Hd & -> & -> & ->)|(-> & Hne & _ & Eo & Hd)]; [rewrite Hd; by eexists|].
  destruct (IH off') as (off2 & E); [lia| |].
  - rewrite Hd, length_app in Hf. destruct out; [done|]. simpl in Hf. lia.
  - exists off2. cbv beta iota. unfold bind. rewrite E. unfold ret. by rewrite Hd.
Qed.

(** ** Order of a listing *)
Section by_key.
Context {E : Type} (key : E → bytes).
Abbreviation key_less := (λ a b, Compare (key a) (key b) <? 0).
Definition ascending : list E → Prop := StronglySorted (λ a b, Compare (key a) (key b) < 0).

Lemma insert_ascending x l : key x ∉ key <$> l → ascending l → ascending (insert_stable key_less x l).
Proof.
  intros Hx Hs. induction Hs as [|y l Hs IH Hall]; cbn [insert_stable]; [repeat constructor|].
  cbn in Hx. apply not_elem_of_cons in Hx as [Hxy Hx].
  destruct (Z.ltb_spec (Compare (key y) (key x)) 0) as [Hlt|Hge].
  - constructor; [by apply IH|]. rewrite insert_perm. by constructor.
  - assert (Compare (key x) (key y) < 0) as Hb.
    { rewrite cmp_anti. assert (Compare (key y) (key x) ≠ 0); [|lia]. rewrite cmp_zero. congruence. }
    constructor; [by constructor|]. constructor; [done|]. eapply Forall_impl; [exact Hall|]. intros z Hz. by apply (cmp_trans _ (key y)).
Qed.

Lemma sort_ascending l : NoDup (key <$> l) → ascending (sort_stable key_less l).
Proof.
  induction l as [|x l IH]; intros Hn; [constructor|]. cbn [fmap list_fmap] in Hn. apply NoDup_cons in Hn as [Hx Hn].
  change (sort_stable key_less (x :: l)) with (insert_stable key_less x (sort_stable key_less l)).
  apply insert_ascending; [|by apply IH]. by rewrite (sort_perm key_less l).
Qed.
End by_key.

(** ** Base names *)
Lemma baseName_loop acc s : foldl (λ acc c, if c =? slash then [] else acc ++ [c]) acc s =
  if bool_decide (slash ∈ s) then baseName s else acc ++ s.
Proof.
  revert acc. induction s as [|c s IH]; intros acc; cbn [foldl].
  - rewrite bool_decide_false by apply not_elem_of_nil. by rewrite app_nil_r.
  - unfold baseName at 1. cbn [foldl]. rewrite !IH. destruct (Z.eqb_spec c slash) as [->|Hc].
    + rewrite (bool_decide_true (slash ∈ slash :: s)) by left. case_bool_decide; done.
    + assert (bool_decide (slash ∈ c :: s) = bool_decide (slash ∈ s)) as -> by (apply bool_decide_ext; rewrite elem_of_cons; naive_solver).
      case_bool_decide; [done|]. by rewrite <-app_assoc.
Qed.

Lemma baseName_word b : slash ∉ b → baseName b = b.
Proof. intros H. unfold baseName. rewrite baseName_loop. by rewrite bool_decide_false. Qed.

Lemma baseName_app dir b : slash ∉ b → baseName (dir ++ [slash] ++ b) = b.
Proof.
  intros H. unfold baseName. rewrite foldl_app. cbn [app foldl]. change (slash =? slash) with true. cbv iota.
  rewrite baseName_loop. by rewrite bool_decide_false.
Qed.

Lemma child_name dir n : child_of dir n → n = (if bool_decide (dir = str ".") then baseName n else dir ++ [slash] ++ baseName n).
Proof.
  intros (b & Hb & H). case_bool_decide; [destruct H as [-> _]; by rewrite baseName_word|subst n; by rewrite baseName_app].
Qed.

Lemma elem_of_filter_List {A} (f : A → bool) x l : x ∈ List.filter f l ↔ x ∈ l ∧ f x = true.
Proof. rewrite !list_elem_of_In. apply filter_In. Qed.

Lemma children_NoDup entries dir : NoDup (Name <$> entries) → NoDup (dirEntry_Name <$> List.filter (is_child dir) entries).
Proof.
  induction entries as [|e l IH]; intros Hn; [constructor|]. cbn [fmap list_fmap] in Hn. apply NoDup_cons in Hn as [He Hn].
  cbn [List.filter]. destruct (is_child dir e) eqn:Hc; [|by apply IH]. cbn [fmap list_fmap]. apply NoDup_cons. split; [|by apply IH].
  intros (e' & E & (Hin & Hc')%elem_of_filter_List)%list_elem_of_fmap. unfold dirEntry_Name in E.
  apply is_child_spec, child_name in Hc, Hc'. apply He. rewrite Hc, E, <-Hc'. by apply list_elem_of_fmap_2.
Qed.

(** C36: Listing a directory. For a list whose names are distinct, the entries of
    the directory handle are exactly those directly in the directory, in
    strictly ascending order of their base names as io/fs asks; ReadDir with a
    positive count hands them out in consecutive pages until io.EOF, each entry
    once; and with a count of zero or less it returns all the rest at once,
    without an error. *)
Theorem readdir_children entries dir info n m fuel : NoDup (Name <$> entries) → 0 < n → m ≤ 0 →
  let children := filterFlistChildren entries dir in
  let h := new_handle (moduleDirFile info children) in
  (length children < fuel)%nat →
  (∀ e, e ∈ children ↔ e ∈ entries ∧ child_of dir e.(Name)) ∧ ascending dirEntry_Name children ∧
  (∃ off, ReadDir_all fuel n h = (Ret children, mk_handle (moduleDirFile info children) off)) ∧
  file_ReadDir m h = (Ret (children, None), mk_handle (moduleDirFile info children) (Z.of_nat (length children))).
Proof.
  intros Hnd Hn Hm children h Hf. split_and!.
  - intros e. unfold children, filterFlistChildren. rewrite (sort_perm _ (List.filter _ _)), elem_of_filter_List. by rewrite is_child_spec.
  - apply (sort_ascending dirEntry_Name). by apply children_NoDup.
  - destruct (ReadDir_all_ok info children n Hn fuel 0) as (off & E); [lia|done|]. by exists off.
  - unfold file_ReadDir, h, new_handle. cbn [hd_file hd_off]. by rewrite page_all.
Qed.

Definition example_entry (name : string) : FlistEntry :=
  mk_FlistEntry (str name) S_IFREG 0 0 0 0 0 0 [] [] 0 0 [] 0 0 0 0 [] false false.
Definition example_entries : list FlistEntry := example_entry <$> ["."; "d"; "d/b"; "d/a"; "d/a/x"; "c"]%string.

Lemma readdir_children_witness :
  let children := filterFlistChildren example_entries (str "d") in
  let h := new_handle (moduleDirFile example_file_info children) in
  Name <$> children = [str "d/a"; str "d/b"] ∧
  (∀ e, e ∈ children ↔ e ∈ example_entries ∧ child_of (str "d") e.(Name)) ∧ ascending dirEntry_Name children ∧
  (∃ off, ReadDir_all 5 1 h = (Ret children, mk_handle (moduleDirFile example_file_info children) off)) ∧
  file_ReadDir (-1) h = (Ret (children, None), mk_handle (moduleDirFile example_file_info children) (Z.of_nat (length children))).
Proof.
  split; [by vm_compute|].
  apply (readdir_children example_entries (str "d") example_file_info 1 (-1) 5); [|lia|lia|by vm_compute; lia].
  apply (bool_decide_unpack _). by vm_compute.
Defined.

(** ** The root directory *)

Definition hidden_name (m : moduleInfo) : bytes := str "." ++ m.(md_name) ++ [9] ++ m.(md_comment).

Lemma tab_split (a b c d : bytes) : 9 ∉ a → 9 ∉ b → a ++ 9 :: c = b ++ 9 :: d → a = b.
Proof.
  revert b. induction a as [|x a IH]; intros [|y b] Ha Hb E; [done|..]; cbn in E; injection E as E1 E2; subst.
  - destruct Hb. left.
  - destruct Ha. left.
  - f_equal. apply not_elem_of_cons in Ha as [_ Ha], Hb as [_ Hb]. by apply IH.
Qed.

Lemma root_names_elem x modules : x ∈ re_name <$> concat (module_entries <$> modules) ↔
  ∃ m, m ∈ modules ∧ (x = m.(md_name) ∨ x = hidden_name m).
Proof.
  induction modules as [|m l IH]; cbn; [split; [by intros ?%elem_of_nil|by intros (? & ?%elem_of_nil & _)]|].
  rewrite !elem_of_cons, IH. setoid_rewrite elem_of_cons. unfold hidden_name. naive_solver.
Qed.

Lemma root_names_NoDup modules : NoDup (md_name <$> modules) → Forall (λ m, 9 ∉ m.(md_name)) modules →
  NoDup (re_name <$> concat (module_entries <$> modules)).
Proof.
  intros Hn Ht. induction Ht as [|m l Hm Ht IH]; [constructor|]. cbn in Hn. apply NoDup_cons in Hn as [Hx Hn].
  assert (∀ m', 9 ∈ hidden_name m') as Htab by (intros m'; unfold hidden_name; rewrite !elem_of_app; right; right; left; left).
  rewrite Forall_forall in Ht. cbn. fold (hidden_name m). apply NoDup_cons. split; [|apply NoDup_cons; split; [|by apply IH]].
  - rewrite elem_of_cons, root_names_elem. intros [E|(m' & Hin & [E|E])].
    + apply Hm. rewrite E. apply Htab.
    + apply Hx. rewrite E. by apply list_elem_of_fmap_2.
    + apply Hm. rewrite E. apply Htab.
  - rewrite root_names_elem. intros (m' & Hin & [E|E]).
    + apply (Ht m' Hin). rewrite <-E. apply Htab.
    + change (str "." ++ md_name m ++ 9 :: md_comment m = str "." ++ md_name m' ++ 9 :: md_comment m') in E.
      apply Hx. apply app_inv_head in E.
      apply (tab_split _ _ m.(md_comment) m'.(md_comment)) in E; [|done|by apply Ht]. rewrite E. by apply list_elem_of_fmap_2.
Qed.

Lemma root_entries_elem modules e : e ∈ root_entries modules ↔ ∃ m, m ∈ modules ∧
  (e = mk_rootDirEntry m.(md_name) ModeDir [] ∨
   e = mk_rootDirEntry (str "." ++ m.(md_name) ++ [9] ++ m.(md_comment)) ModeSymlink m.(md_name)).
Proof.
  unfold root_entries. rewrite (sort_perm _ (concat _)). induction modules as [|m l IH].
  - split; [by intros ?%elem_of_nil|by intros (? & ?%elem_of_nil & _)].
  - cbn [fmap list_fmap concat]. rewrite elem_of_app, IH. unfold module_entries. setoid_rewrite elem_of_cons.
    rewrite elem_of_cons, elem_of_nil. naive_solver.
Qed.

Lemma root_entries_ascending modules : NoDup (md_name <$> modules) → Forall (λ m, 9 ∉ m.(md_name)) modules →
  ascending re_name (root_entries modules).
Proof. intros Hn Ht. apply (sort_ascending re_name). by apply root_names_NoDup. Qed.

Lemma rootDir_ReadDir_all modules :
  rootDir_ReadDir 0 (mk_rootDir modules 0) = (Ret (root_entries modules, None), mk_rootDir modules (Z.of_nat (length (root_entries modules)))).
Proof. unfold rootDir_ReadDir. cbn [rd_modules rd_off]. by rewrite page_all. Qed.

(** C38: The root of root mode lists every module as a directory and, beside it,
    one hidden link whose name carries the module's comment and whose target is
    the module; nothing else; in strictly ascending order; and all of it at once
    for a ReadDir of everything. Module names are distinct and free of tabs. *)
Theorem root_listing modules : NoDup (md_name <$> modules) → Forall (λ m, 9 ∉ m.(md_name)) modules →
  let entries := root_entries modules in
  (∀ e, e ∈ entries ↔ ∃ m, m ∈ modules ∧
     (e = mk_rootDirEntry m.(md_name) ModeDir [] ∨
      e = mk_rootDirEntry (str "." ++ m.(md_name) ++ [9] ++ m.(md_comment)) ModeSymlink m.(md_name))) ∧
  ascending re_name entries ∧
  rootDir_ReadDir 0 (mk_rootDir modules 0) = (Ret (entries, None), mk_rootDir modules (Z.of_nat (length entries))).
Proof.
  intros Hn Ht entries. split_and!; [apply root_entries_elem|by apply root_entries_ascending|apply rootDir_ReadDir_all].
Qed.

Definition example_modules : list moduleInfo := [mk_moduleInfo (str "pub") (str "public files"); mk_moduleInfo (str "home") []].

Lemma root_listing_witness :
  let entries := root_entries example_modules in
  re_name <$> entries = [str ".home" ++ [9]; str ".pub" ++ [9] ++ str "public files"; str "home"; str "pub"] ∧
  (∀ e, e ∈ entries ↔ ∃ m, m ∈ example_modules ∧
     (e = mk_rootDirEntry m.(md_name) ModeDir [] ∨
      e = mk_rootDirEntry (str "." ++ m.(md_name) ++ [9] ++ m.(md_comment)) ModeSymlink m.(md_name))) ∧
  ascending re_name entries ∧
  rootDir_ReadDir 0 (mk_rootDir example_modules 0) = (Ret (entries, None), mk_rootDir example_modules (Z.of_nat (length entries))).
Proof.
  split; [by vm_compute|]. apply (root_listing example_modules); apply (bool_decide_unpack _); by vm_compute.
Defined.
