(* ===== verification/ModuleList.v ===== *)
(** * Listing the modules of a server, and password authentication
    (client-open.go: doListRequest; client.go)

    The client's #list request over a connection of its own, and the answer of
    doHandshake to it; and PasswordAuth, the response function the library
    offers for challenges. *)
From S2P Require Import Prelude.
From S2P Require Import GoIO.
From S2P Require Import GoStrings.
From S2P Require Import Base64.
From S2P Require Import Dialogue.
From S2P Require Import Checksum.
From S2P Require Import HashSearchProofs.
From S2P Require Import Args.
From S2P Require Import Greet.
From S2P Require Import Handshake.
From S2P Require Import Connect.
From S2P Require Import Files.
#[local] Open Scope Z_scope.
#[local] Open Scope go_scope.

(** ** PasswordAuth *)
Section auth.
Context `{Digests}.

Definition computeAuthHash (digest password challenge : bytes) : outcome bytes :=
  if bool_decide (digest = str "md4") then Ret (md4_sum (password ++ challenge))
  else if bool_decide (digest = str "md5") then Ret (md5_sum (password ++ challenge))
  else Fail (Errorf "auth digest not supported" digest).

Definition PasswordAuth (password : bytes) : bytes → bytes → outcome bytes :=
  λ digest challenge, computeAuthHash digest password challenge.
End auth.

(** ** The request *)
Section list.
Context {S : Type} (fuel : nat) (r : io_Reader S) (w : io_Writer S).

(** The loop of readTextLine with the bytes so far. *)
Fixpoint text_line_loop (n : nat) (sb : bytes) : M S bytes :=
  match n with
  | O => nofuel
  | Datatypes.S n' =>
    let* buf := ReadFull r 1 in
    match buf with
    | [] => text_line_loop n' sb
    | b :: _ => if b =? 10 then ret sb else text_line_loop n' (sb ++ [b])
    end
  end.
Definition readTextLine : M S bytes := text_line_loop fuel [].

Definition TrimPrefix (s prefix : bytes) : bytes := default s (CutPrefix s prefix).

(** The answer to a challenge in the listing; the digest is empty. *)
Definition list_auth (c : Client) (line : bytes) : M S unit :=
  let challenge := TrimSpace (TrimPrefix line (str "@RSYNCD: AUTHREQD ")) in
  match DecodeString challenge with
  | None => fail (Errorf "decode auth challenge" challenge)
  | Some data =>
    match c.(AuthResponse) with
    | None => fail (Errorf "#list requires authentication but AuthUser/AuthResponse are not set" [])
    | Some respond =>
      if bool_decide (c.(AuthUser) = [])
      then fail (Errorf "#list requires authentication but AuthUser/AuthResponse are not set" [])
      else
        let* digestBytes := wrap "compute auth response" (returned (respond [] data)) in
        wrap "send auth response" (WriteAuthResponse w c.(AuthUser) digestBytes)
    end
  end.

(** The loop over the lines; [n] bounds their number. *)
Fixpoint list_loop (n : nat) (c : Client) (modules : list moduleInfo) : M S (list moduleInfo) :=
  match n with
  | O => nofuel
  | Datatypes.S n' =>
    let* line :=
      on_error (let* line := readTextLine in ret (Some line))
        (λ e, if is_EOF e then ret None else fail (Wrap "read module list" e)) in
    match line with
    | None => ret modules
    | Some line =>
      if HasPrefix line (str "@RSYNCD: EXIT") then ret modules
      else if HasPrefix line (str "@ERROR") then fail (Errorf "server error" line)
      else if HasPrefix line (str "@RSYNCD: AUTHREQD ") then list_auth c line ;;; list_loop n' c modules
      else
        let '(name, comment) := Cut line 9 in
        list_loop n' c (modules ++ [mk_moduleInfo (TrimSpace name) (default [] comment)])
    end
  end.

Definition doListRequest (c : Client) : M S (list moduleInfo) :=
  let greet := ApplyDefaults c.(c_Greeting) in
  wrap "write greeting" (WriteGreeting w greet) ;;;
  let* serverGreet := wrap "read server greeting" (ReadGreeting fuel r) in
  let* _ := wrap "negotiate" (returned (Negotiate greet serverGreet)) in
  wrap "write #list" (WriteModuleRequest w (str "#list")) ;;;
  list_loop fuel c [].
End list.

(** ** Proofs *)
Lemma readTextLine_ok {S} fuel (r : io_Reader S) `{!ReaderSpec r} bs : (10 ∉ bs) → (length bs < fuel)%nat →
  parses r (readTextLine fuel r) (bs ++ [10]) bs.
Proof.
  unfold readTextLine. intros Hn Hf.
  assert (∀ sb n, (length bs < n)%nat → parses r (text_line_loop r n sb) (bs ++ [10]) (sb ++ bs)) as H; [|by apply (H [])].
  clear Hf fuel. induction bs as [|b bs IH]; intros sb [|n] Hf; try (simpl in Hf; lia); cbn [text_line_loop app].
  - eapply parses_bind_r; [by apply (ReadFull_ok r [10])|]. cbn. rewrite app_nil_r. apply parses_ret.
  - apply not_elem_of_cons in Hn as [Hb Hn]. change (b :: bs ++ [10]) with ([b] ++ (bs ++ [10])).
    eapply parses_bind; [by apply (ReadFull_ok r [b])|]. cbn. destruct (Z.eqb_spec b 10); [congruence|].
    replace (sb ++ b :: bs) with ((sb ++ [b]) ++ bs) by (by rewrite <-app_assoc). apply IH; [done|simpl in Hf; lia].
Qed.

(** A module whose line can be read back: a name between graphic characters that
    does not look like a protocol line, no tab in it, no line breaks. *)
Definition listed_ok (m : ModuleInfo) : Prop :=
  ∃ c s, m.(mi_Name) = c :: s ∧ graphic c ∧ c ≠ 64 ∧ (s = [] ∨ ∃ s' d, s = s' ++ [d] ∧ graphic d) ∧
    (9 ∉ m.(mi_Name)) ∧ (10 ∉ m.(mi_Name)) ∧ 10 ∉ m.(mi_Comment).

Definition exit_line : bytes := str "@RSYNCD: EXIT".
Definition to_moduleInfo (m : ModuleInfo) : moduleInfo := mk_moduleInfo m.(mi_Name) m.(mi_Comment).

(** The line of a module without its line break. *)
Definition line_of (m : ModuleInfo) : bytes :=
  (m.(mi_Name) ++ replicate (15 - rune_count 0 m.(mi_Name)) 32) ++ 9 :: m.(mi_Comment).

Lemma module_line_eq m : module_line m = line_of m ++ [10].
Proof. unfold module_line, line_of. by rewrite <-!app_assoc. Qed.

Lemma line_of_ok m : listed_ok m →
  (10 ∉ line_of m) ∧ (∀ p, HasPrefix (line_of m) (64 :: p) = false) ∧
  ∃ name, Cut (line_of m) 9 = (name, Some m.(mi_Comment)) ∧ TrimSpace name = m.(mi_Name).
Proof.
  intros (c & s & En & Hc & Hat & Hs & H9 & H10 & Hcom). unfold line_of. split_and!.
  - rewrite !elem_of_app, elem_of_cons, elem_of_replicate. intros [[?|[? _]]|[?|?]]; done.
  - intros p. rewrite En. cbn [app HasPrefix]. replace (64 =? c) with false by lia. done.
  - eexists. split; [apply Cut_app; rewrite elem_of_app, elem_of_replicate; by intros [?|[? _]]|]. rewrite En. by apply TrimSpace_padded.
Qed.

Lemma parses_on_error {S} (r : io_Reader S) `{!ReaderSpec r} {A} (m : M S A) h bs v : parses r m bs v → parses r (on_error m h) bs v.
Proof. intros H s rest Hs. destruct (H s rest Hs) as (s' & E & C). exists s'. unfold on_error. by rewrite E. Qed.

Section listing.
Context {S : Type} (r : io_Reader S) (w : io_Writer S) `{!ReaderSpec r} `{!WriterSpec w} `{!Duplex r w}.

Lemma read_list_line fuel line : (10 ∉ line) → (length line < fuel)%nat →
  parses r (on_error (let* line := readTextLine fuel r in ret (Some line))
              (λ e, if is_EOF e then ret None else fail (Wrap "read module list" e))) (line ++ [10]) (Some line).
Proof.
  intros Hn Hf. apply parses_on_error. eapply parses_bind_r; [by apply readTextLine_ok|]. apply parses_ret.
Qed.

Lemma list_loop_ok fuel c mods : Forall listed_ok mods → ∀ acc n, (length mods < n)%nat →
  (length (concat (module_line <$> mods)) + 13 < fuel)%nat →
  parses r (list_loop fuel r w n c acc) (concat (module_line <$> mods) ++ exit_line ++ [10]) (acc ++ (to_moduleInfo <$> mods)).
Proof.
  intros Hok. induction Hok as [|m mods Hm _ IH]; intros acc [|n] Hn Hf; try (simpl in Hn; lia); cbn [list_loop].
  - cbn. rewrite app_nil_r. eapply parses_bind_r; [apply (read_list_line fuel exit_line)|].
    + apply (bool_decide_unpack _). by vm_compute.
    + simpl in Hf. simpl. lia.
    + cbv iota. replace (HasPrefix exit_line (str "@RSYNCD: EXIT")) with true by (by vm_compute). apply parses_ret.
  - destruct (line_of_ok m Hm) as (H10 & Hpre & name & Hcut & Htrim). cbn [fmap list_fmap concat] in *. rewrite length_app in Hf.
    rewrite module_line_eq, length_app in Hf. rewrite module_line_eq, <-app_assoc.
    eapply parses_bind; [apply (read_list_line fuel (line_of m)); [done|simpl in Hf; lia]|]. cbv iota.
    change (str "@RSYNCD: EXIT") with (64 :: str "RSYNCD: EXIT"). change (str "@ERROR") with (64 :: str "ERROR").
    change (str "@RSYNCD: AUTHREQD ") with (64 :: str "RSYNCD: AUTHREQD "). rewrite !Hpre, Hcut. cbn [default].
    rewrite Htrim. replace (acc ++ to_moduleInfo m :: (to_moduleInfo <$> mods)) with ((acc ++ [to_moduleInfo m]) ++ (to_moduleInfo <$> mods)) by (by rewrite <-app_assoc).
    apply IH; [simpl in Hn; lia|lia].
Qed.

Lemma doListRequest_ok c gs v sub d mods fuel :
  greeting_ok gs → Negotiate (ApplyDefaults c.(c_Greeting)) gs = Ret (v, sub, d) → Forall listed_ok mods →
  (length (Greeting_String gs) + length mods + length (concat (module_line <$> mods)) + 13 < fuel)%nat →
  dialogue r w (doListRequest fuel r w c) (Greeting_String gs ++ concat (module_line <$> mods) ++ exit_line ++ [10])
    (Greeting_String (ApplyDefaults c.(c_Greeting)) ++ str "#list" ++ [10]) (to_moduleInfo <$> mods).
Proof.
  intros Hgs Hneg Hok Hf. eapply (dialogue_cast r w).
  - eapply (dialogue_write r w); [apply yields_wrap, (emits_write w)|].
    eapply (dialogue_read r w); [apply parses_wrap, ReadGreeting_ok; [exact Hgs|lia]|].
    rewrite Hneg. eapply (dialogue_bind r w _ _ [] [] (v, sub, d)); [apply (dialogue_wrap r w), (dialogue_returned r w)|].
    eapply (dialogue_write r w); [apply yields_wrap, (emits_seq w); apply (emits_write w)|].
    apply (dialogue_parses r w). apply (list_loop_ok fuel c mods Hok []); lia.
  - bytes_eq.
  - bytes_eq.
Qed.

Lemma doHandshake_list_ok o sv gc v sub d fuel : greeting_ok gc →
  Negotiate gc (ApplyDefaults sv.(sv_Greeting)) = Ret (v, sub, d) → 25 ≤ v →
  (length (Greeting_String gc) + 5 < fuel)%nat →
  let mods := (λ m, mk_ModuleInfo m.(sm_Name) m.(sm_Comment)) <$> ranged o sv in
  dialogue r w (doHandshake fuel r w o sv) (Greeting_String gc ++ str "#list" ++ [10])
    (Greeting_String (ApplyDefaults sv.(sv_Greeting)) ++ concat (module_line <$> mods) ++ exit_line ++ [10]) None.
Proof.
  intros Hgc Hneg Hv Hf mods. eapply (dialogue_cast r w).
  - eapply (dialogue_write r w); [apply yields_wrap, (emits_write w)|].
    eapply (dialogue_bind r w); [apply (dialogue_on_error r w), (dialogue_parses r w), ReadGreeting_ok; [exact Hgc|lia]|].
    rewrite Hneg. eapply (dialogue_bind r w _ _ [] [] (v, sub, d)); [apply (dialogue_on_error r w), (dialogue_returned r w)|].
    cbv beta iota. eapply (dialogue_bind r w _ _ (str "#list" ++ [10]) [] (Some (str "#list"))).
    { apply (dialogue_on_error r w), (dialogue_parses r w). eapply parses_bind_r; [apply readLine_ok|apply parses_ret].
      - apply (bool_decide_unpack _). by vm_compute.
      - simpl. lia. }
    cbv beta iota. rewrite bool_decide_true by done. cbn [orb].
    eapply (dialogue_write r w); [|apply (dialogue_ret r w)]. apply yields_wrap, (emits_seq w).
    + apply emits_for_each. intros m _. apply (emits_write w).
    + replace (25 <=? v) with true by lia. apply (emits_write w).
  - bytes_eq.
  - bytes_eq.
Qed.
End listing.

(** Listing the modules end to end. When the greetings negotiate version 25 or
    later and every module's line can be read back, the client's doListRequest
    and the server's doHandshake, each given exactly the bytes the other sends,
    both complete: the server ends the connection without a transfer and the
    client has the name and comment of every module the server iterated over,
    in that order, the padding of the names removed. *)
Lemma listing_completes {S T} (r : io_Reader S) (w : io_Writer S) `{!ReaderSpec r} `{!WriterSpec w} `{!Duplex r w}
    (r' : io_Reader T) (w' : io_Writer T) `{!ReaderSpec r'} `{!WriterSpec w'} `{!Duplex r' w'} o c sv v sub d :
  greeting_ok (ApplyDefaults c.(c_Greeting)) → greeting_ok (ApplyDefaults sv.(sv_Greeting)) →
  Negotiate (ApplyDefaults c.(c_Greeting)) (ApplyDefaults sv.(sv_Greeting)) = Ret (v, sub, d) → 25 ≤ v →
  Forall (λ m, listed_ok (mk_ModuleInfo m.(sm_Name) m.(sm_Comment))) (ranged o sv) →
  ∃ cb sb n, ∀ fuel, (n ≤ fuel)%nat →
    dialogue r w (doListRequest fuel r w c) sb cb ((λ m, mk_moduleInfo m.(sm_Name) m.(sm_Comment)) <$> ranged o sv) ∧
    dialogue r' w' (doHandshake fuel r' w' o sv) cb sb None.
Proof.
  intros Hgc Hgs Hneg Hv Hok. set (gc := ApplyDefaults (c_Greeting c)) in *. set (gs := ApplyDefaults (sv_Greeting sv)) in *.
  set (mods := (λ m, mk_ModuleInfo m.(sm_Name) m.(sm_Comment)) <$> ranged o sv).
  assert (Forall listed_ok mods) as Hmods by by apply Forall_fmap.
  exists (Greeting_String gc ++ str "#list" ++ [10]), (Greeting_String gs ++ concat (module_line <$> mods) ++ exit_line ++ [10]),
    (length (Greeting_String gc) + length (Greeting_String gs) + length mods + length (concat (module_line <$> mods)) + 20)%nat.
  intros fuel Hf. split.
  - assert ((λ m, mk_moduleInfo m.(sm_Name) m.(sm_Comment)) <$> ranged o sv = to_moduleInfo <$> mods) as ->
      by (unfold mods; by rewrite <-list_fmap_compose).
    apply (doListRequest_ok r w c gs v sub d mods fuel Hgs Hneg Hmods). lia.
  - apply (doHandshake_list_ok r' w' o sv gc v sub d fuel Hgc Hneg Hv). lia.
Qed.

(** C40: A #list request cannot be authenticated with PasswordAuth. doListRequest
    asks the response function for the empty digest name, which PasswordAuth
    refuses, so on an AUTHREQD line with any well-formed challenge the request
    fails and nothing is sent; with a negotiated name (md4 or md5) the same
    function answers. *)
Theorem list_password_auth_fails {S} (w : io_Writer S) `{Digests} c password challenge s :
  c.(AuthResponse) = Some (PasswordAuth password) → bytes_ok challenge →
  list_auth w c (str "@RSYNCD: AUTHREQD " ++ EncodeToString challenge) s =
    (Fail (if bool_decide (c.(AuthUser) = [])
           then Errorf "#list requires authentication but AuthUser/AuthResponse are not set" []
           else Wrap "compute auth response" (Errorf "auth digest not supported" [])), s) ∧
  PasswordAuth password (str "md5") challenge = Ret (md5_sum (password ++ challenge)).
Proof.
  intros Hr Hb. split; [|done]. unfold list_auth, TrimPrefix. rewrite CutPrefix_app.
  change (default (str "@RSYNCD: AUTHREQD " ++ EncodeToString challenge) (Some (EncodeToString challenge))) with (EncodeToString challenge).
  rewrite TrimSpace_graphic, DecodeString_Encode, Hr by (done || by apply Encode_graphic). by case_bool_decide.
Qed.

Lemma list_password_auth_fails_witness :
  let c := mk_Client (mk_Greeting 0 0 []) [] (str "alice") (Some (PasswordAuth (H := pad_digests) (str "secret"))) in
  list_auth conn_writer c (str "@RSYNCD: AUTHREQD " ++ EncodeToString [1; 2; 3]) (conn_of []) =
    (Fail (if bool_decide (c.(AuthUser) = [])
           then Errorf "#list requires authentication but AuthUser/AuthResponse are not set" []
           else Wrap "compute auth response" (Errorf "auth digest not supported" [])), conn_of []) ∧
  PasswordAuth (H := pad_digests) (str "secret") (str "md5") [1; 2; 3] = Ret (md5_sum (Digests := pad_digests) (str "secret" ++ [1; 2; 3])).
Proof.
  intros c. apply (list_password_auth_fails conn_writer (H := pad_digests) c (str "secret") [1; 2; 3] (conn_of [])); [done|].
  apply (bool_decide_unpack _). by vm_compute.
Defined.
