(* ===== verification/Lifecycle.v ===== *)
(** * The life of a Session (client-open.go, client-connect.go)

    A Session is the file system a program uses. In module mode it owns one
    connection at a time: the first operation runs on the connection of Connect,
    each later one on a connection that ConnectFunc supplies, and every operation
    uses its connection up. In root mode it owns none: the first component of a
    name selects a module and each operation dials for itself.

    The environment [N] is what ConnectFunc and Close act on. A connection is an
    io.ReadWriter: an identity and the state [S] of the transport behind it, which
    reading and writing change. [close rw] is what closing the connection does to
    the environment (nothing for a transport that is no io.Closer). *)
From S2P Require Import Prelude.
From S2P Require Import GoIO.
From S2P Require Import GoStrings.
From S2P Require Import Dialogue.
From S2P Require Import Checksum.
From S2P Require Import Mux.
From S2P Require Import HashSearchProofs.
From S2P Require Import Sort.
From S2P Require Import FileList.
From S2P Require Import Walk.
From S2P Require Import Greet.
From S2P Require Import Handshake.
From S2P Require Import Connect.
From S2P Require Import Sender.
From S2P Require Import Receiver.
From S2P Require Import Transfer.
From S2P Require Import Endpoint.
From S2P Require Import Connection.
From S2P Require Import Files.
From S2P Require Import ModuleList.
#[local] Open Scope Z_scope.
#[local] Open Scope go_scope.

(** ** Names *)

(** utf8.ValidString; [skip] bytes of the current character are still to come. *)
Fixpoint valid_utf8 (skip : nat) (s : bytes) : bool :=
  match s with
  | [] => true
  | b :: s' =>
    match skip with
    | S skip' => valid_utf8 skip' s'
    | O => if b <? 0x80 then valid_utf8 0 s'
           else negb (Nat.eqb (rune_len s) 1) && valid_utf8 (rune_len s - 1) s'
    end
  end.

(** fs.ValidPath. *)
Definition elem_valid (e : bytes) : bool :=
  negb (bool_decide (e = []) || bool_decide (e = str ".") || bool_decide (e = str "..")).
Definition ValidPath (name : bytes) : bool :=
  valid_utf8 0 name && (bool_decide (name = str ".") || forallb elem_valid (Split name)).

(** The module and the path in it, of a name in root mode: [SplitN] of the name
    without a leading slash. *)
Definition root_split (name : bytes) : bytes * option bytes := SplitN2 (TrimPrefix name (str "/")) slash.

(** ** Sessions *)

Record io_ReadWriter (S : Type) := mk_rw { rw_id : nat; rw_state : S }.
Arguments mk_rw {_} _ _.
Arguments rw_id {_} _.
Arguments rw_state {_} _.

(** The connection after I/O on it. *)
Definition rw_after {S} (rw : io_ReadWriter S) (s : S) : io_ReadWriter S := mk_rw rw.(rw_id) s.

(** A Client with its ConnectFunc. *)
Record dialing_Client (N S : Type) := mk_dialing_Client {
  dc_client : Client;
  ConnectFunc : option (bytes → M N (io_ReadWriter S));
}.
Arguments mk_dialing_Client {_ _} _ _.
Arguments dc_client {_ _} _.
Arguments ConnectFunc {_ _} _.

(** The connection of a Session: [rw] nil; [rw] set and [in] still nil; or ready
    for an operation. [consumed] is only ever true when [rw] is nil. *)
Inductive link (S : Type) :=
  | NoLink
  | HalfOpen (rw : io_ReadWriter S)
  | Live (sess : Session) (rw : io_ReadWriter S).
Arguments NoLink {_}.
Arguments HalfOpen {_} _.
Arguments Live {_} _ _.

(** What OpenRoot stores: the version and digest of the client's greeting, and
    [connectFunc]. *)
Record root_mode (N S : Type) := mk_root_mode {
  rt_version : Z;
  rt_digest : bytes;
  rt_connectFunc : bytes → M N (io_ReadWriter S);
}.
Arguments mk_root_mode {_ _} _ _ _.
Arguments rt_connectFunc {_ _} _ _.

Record fs_Session (N S : Type) := mk_fs_Session {
  ss_client : option (dialing_Client N S);
  ss_link : link S;
  ss_root : option (root_mode N S);
}.
Arguments mk_fs_Session {_ _} _ _ _.
Arguments ss_client {_ _} _.
Arguments ss_link {_ _} _.
Arguments ss_root {_ _} _.

Definition set_link {N S} (l : link S) (ss : fs_Session N S) : fs_Session N S := mk_fs_Session ss.(ss_client) l ss.(ss_root).

(** [c := *s.client; c.Module = m] *)
Definition with_module {N S} (m : bytes) (c : dialing_Client N S) : dialing_Client N S :=
  mk_dialing_Client (mk_Client c.(dc_client).(c_Greeting) m c.(dc_client).(AuthUser) c.(dc_client).(AuthResponse)) c.(ConnectFunc).

(** What Open returns: a file of a module, or the root directory. *)
Inductive opened_file := ModuleFile (f : fs_File) | RootFile (d : rootDir).

Definition joined {A} (x : outcome (error + A)) : outcome A :=
  match x with
  | Ret (inr a) => Ret a
  | Ret (inl e) => Fail e
  | Fail e => Fail e
  | Panic => Panic
  | NoFuel => NoFuel
  end.

Section session.
Context {N S : Type} (frames : S → nat) (r : io_Reader S) (w : io_Writer S) `{Digests}
  (close : io_ReadWriter S → N → N) (fuel : nat).

(** runHandshake on a Session: what it leaves in [rw] and [in], however it ends. *)
Definition establish (c : dialing_Client N S) (rw : io_ReadWriter S) : outcome unit * link S :=
  match before_filter fuel frames r w c.(dc_client) rw.(rw_state) with
  | (Ret sess, s1) =>
    match send_filter w sess s1 with
    | (Ret sess', s2) => (Ret tt, Live sess' (rw_after rw s2))
    | (Fail e, s2) => (Fail e, Live sess (rw_after rw s2))
    | (Panic, s2) => (Panic, Live sess (rw_after rw s2))
    | (NoFuel, s2) => (NoFuel, Live sess (rw_after rw s2))
    end
  | (Fail e, s1) => (Fail e, HalfOpen (rw_after rw s1))
  | (Panic, s1) => (Panic, HalfOpen (rw_after rw s1))
  | (NoFuel, s1) => (NoFuel, HalfOpen (rw_after rw s1))
  end.

(** Connect; [None] is a nil io.ReadWriter. *)
Definition Client_Connect (c : dialing_Client N S) (rw : option (io_ReadWriter S)) : M N (fs_Session N S) :=
  if bool_decide (c.(dc_client).(c_Module) = []) then fail (Errorf "Module is empty; use OpenRoot for root mode" []) else
  let* conn :=
    match rw with
    | Some conn => ret conn
    | None =>
      match c.(ConnectFunc) with
      | None => fail (Errorf "Connect called with nil io.ReadWriter but ConnectFunc is not set" [])
      | Some dial => wrap "ConnectFunc" (dial c.(dc_client).(c_Module))
      end
    end in
  let '(x, l) := establish c conn in
  let* _ := returned x in
  ret (mk_fs_Session (Some c) l None).

Definition OpenRoot (c : dialing_Client N S) : outcome (fs_Session N S) :=
  if negb (bool_decide (c.(dc_client).(c_Module) = [])) then Fail (Errorf "OpenRoot requires Module to be empty" c.(dc_client).(c_Module)) else
  match c.(ConnectFunc) with
  | None => Fail (Errorf "root mode requires ConnectFunc" [])
  | Some dial =>
    let greet := ApplyDefaults c.(dc_client).(c_Greeting) in
    match greet.(g_Digests) with
    | [] => Panic
    | digest :: _ => Ret (mk_fs_Session (Some c) NoLink (Some (mk_root_mode greet.(Version) digest dial)))
    end
  end.

(** ** Module mode *)
Definition acquireLive : M (fs_Session N S * N) unit :=
  let* ss := get in
  match ss.(ss_link) with
  | HalfOpen _ | Live _ _ => ret tt
  | NoLink =>
    match ss.(ss_client) with
    | None => fail (Errorf "no live connection and ConnectFunc is not set" [])
    | Some c =>
      match c.(ConnectFunc) with
      | None => fail (Errorf "no live connection and ConnectFunc is not set" [])
      | Some dial =>
        let* conn := lift (wrap "ConnectFunc" (dial c.(dc_client).(c_Module))) in
        let '(x, l) := establish c conn in
        put (set_link l ss) ;;;
        returned x
      end
    end
  end.

(** The flush of the multiplexed output is the one [entry_live] ends with; the
    output of a half-open connection is empty. *)
Definition consume : M (fs_Session N S * N) unit := λ '(ss, n),
  match ss.(ss_link) with
  | NoLink => (Ret tt, (ss, n))
  | HalfOpen rw | Live _ rw => (Ret tt, (set_link NoLink ss, close rw n))
  end.

(** withEntry on the Session as it stands: reading from a nil [in] panics. *)
Definition session_withEntry {A} (op : entry_op A) (name : bytes) : M (fs_Session N S * N) A :=
  acquireLive ;;;
  deferred (λ '(ss, n),
    match ss.(ss_link) with
    | Live sess rw =>
      let '(x, s') := entry_live frames r w op fuel name sess rw.(rw_state) in
      (joined x, (set_link (Live sess (rw_after rw s')) ss, n))
    | HalfOpen _ | NoLink => (Panic, (ss, n))
    end) consume.

(** ** Root mode *)

(** A connection of its own for one operation in module [m]. *)
Definition root_withEntry {A} (rt : root_mode N S) (ss : fs_Session N S) (op : entry_op A) (m path : bytes) : M N A :=
  let* rw := wrap "connect to module" (rt.(rt_connectFunc) m) in
  match ss.(ss_client) with
  | None => panic
  | Some c =>
    let* sess := wrap "handshake with module" (Client_Connect (with_module m c) (Some rw)) in
    with_local sess (session_withEntry op path)
  end.

Definition rootOpenModule (rt : root_mode N S) (ss : fs_Session N S) (modName modulePath : bytes) : M N fs_File :=
  root_withEntry rt ss open_op modName (if bool_decide (modulePath = []) then str "." else modulePath).

Definition listModules (rt : root_mode N S) (ss : fs_Session N S) : M N (list moduleInfo) :=
  let* rw := wrap "connect for #list" (rt.(rt_connectFunc) []) in
  match ss.(ss_client) with
  | None => panic
  | Some c =>
    λ n, match doListRequest fuel r w (with_module [] c).(dc_client) rw.(rw_state) with
         | (Ret modules, s') => (Ret modules, close (rw_after rw s') n)
         | (Fail e, s') => (Fail e, n)
         | (Panic, s') => (Panic, n)
         | (NoFuel, s') => (NoFuel, n)
         end
  end.

Definition openRoot (rt : root_mode N S) (ss : fs_Session N S) (name : bytes) : M N opened_file :=
  if bool_decide (name = str ".") || bool_decide (name = []) then
    let* modules := listModules rt ss in
    ret (RootFile (mk_rootDir modules 0))
  else
    let '(modName, modulePath) := root_split name in
    let modulePath := default [] modulePath in
    let* f := (if bool_decide (modulePath = []) then rootOpenModule rt ss modName (str ".")
               else rootOpenModule rt ss modName modulePath) in
    ret (ModuleFile f).

Definition rootLstat (rt : root_mode N S) (ss : fs_Session N S) (name : bytes) : M N flistFileInfo :=
  let '(modName, modulePath) := root_split name in
  match modulePath with
  | None | Some [] => ret (mk_flistFileInfo modName ModeDir 0 0 0)
  | Some path => root_withEntry rt ss lstat_op modName path
  end.

Definition rootReadLink (rt : root_mode N S) (ss : fs_Session N S) (name : bytes) : M N bytes :=
  let full := TrimPrefix name (str "/") in
  let '(modName, modulePath) := root_split name in
  match modulePath with
  | None | Some [] => fail (Errorf "readlink: not a module path" full)
  | Some path => root_withEntry rt ss (readlink_op full) modName path
  end.

(** ** The methods of io/fs *)

(** [s.rw == nil && s.connectFunc != nil] selects root mode. *)
Definition in_root (ss : fs_Session N S) : option (root_mode N S) :=
  match ss.(ss_link) with NoLink => ss.(ss_root) | _ => None end.

Definition method {A} (op : bytes → entry_op A) (ctx : string) (root : root_mode N S → fs_Session N S → bytes → M N A)
    (name : bytes) : M (fs_Session N S * N) A :=
  let* ss := get in
  match in_root ss with
  | Some rt => lift (root rt ss name)
  | None =>
    if negb (ValidPath name) then fail (Wrap ctx ErrInvalid)
    else session_withEntry (op name) name
  end.

Definition Lstat : bytes → M (fs_Session N S * N) flistFileInfo := method (λ _, lstat_op) "lstat" rootLstat.
Definition ReadLink : bytes → M (fs_Session N S * N) bytes := method readlink_op "readlink" rootReadLink.
Definition Open (name : bytes) : M (fs_Session N S * N) opened_file :=
  let* ss := get in
  match in_root ss with
  | Some rt => lift (openRoot rt ss name)
  | None =>
    if negb (ValidPath name) then fail (Wrap "open" ErrInvalid)
    else let* f := session_withEntry open_op name in ret (ModuleFile f)
  end.
End session.

(** ** One handshake, one link *)
Section proofs.
Context {N S : Type} (frames : S → nat) (r : io_Reader S) (w : io_Writer S) `{Digests} (close : io_ReadWriter S → N → N).

Lemma establish_Ret fuel (c : dialing_Client N S) rw sess s' :
  runHandshake fuel frames r w c.(dc_client) rw.(rw_state) = (Ret sess, s') →
  establish frames r w fuel c rw = (Ret tt, Live sess (rw_after rw s')).
Proof.
  unfold runHandshake, bind, establish. destruct (before_filter fuel frames r w (dc_client c) (rw_state rw)) as [[] s1]; try done.
  by intros ->.
Qed.

(** The identity of the connection that a Session holds. *)
Definition held (l : link S) : list nat := match l with NoLink => [] | HalfOpen rw | Live _ rw => [rw.(rw_id)] end.

Lemma establish_held fuel (c : dialing_Client N S) rw x l : establish frames r w fuel c rw = (x, l) → held l = [rw.(rw_id)].
Proof.
  unfold establish. destruct (before_filter _ _ _ _ _ _) as [[] s1]; [|by intros; simplify_eq..].
  destruct (send_filter _ _ _) as [[] s2]; by intros; simplify_eq.
Qed.

(** Dialling for an idle Session. *)
Lemma acquireLive_dials fuel (ss : fs_Session N S) (c : dialing_Client N S) dial n rw n1 :
  ss.(ss_link) = NoLink → ss.(ss_client) = Some c → c.(ConnectFunc) = Some dial →
  dial c.(dc_client).(c_Module) n = (Ret rw, n1) →
  acquireLive frames r w fuel (ss, n) =
    let '(x, l) := establish frames r w fuel c rw in (x, (set_link l ss, n1)).
Proof.
  intros El Ec Ed Hd. unfold acquireLive. rewrite bind_get, El, Ec, Ed. unfold wrap, lift, bind. rewrite Hd.
  by destruct (establish frames r w fuel c rw) as [x l].
Qed.

(** ** Every connection is closed *)

(** The environment records which connections ConnectFunc returned and which were
    closed, in order. *)
Context (dialled closed : N → list nat).
Class Ledger (dial : option (bytes → M N (io_ReadWriter S))) := {
  dial_recorded f m n x n1 : dial = Some f → f m n = (x, n1) →
    closed n1 = closed n ∧ dialled n1 = dialled n ++ match x with Ret rw => [rw.(rw_id)] | _ => [] end;
  close_recorded rw n : dialled (close rw n) = dialled n ∧ closed (close rw n) = closed n ++ [rw.(rw_id)];
}.

(** Between [n] and [n'] the connections [ds] were dialled and [cs] closed. *)
Definition traffic (n n' : N) (ds cs : list nat) : Prop := dialled n' = dialled n ++ ds ∧ closed n' = closed n ++ cs.

Lemma traffic_refl n : traffic n n [] [].
Proof. split; by rewrite app_nil_r. Qed.

(** The side conditions on what was dialled and closed. *)
#[local] Ltac ledger := solve [done | apply traffic_refl | cbn; lia].

Lemma traffic_trans n1 n2 n3 ds ds' cs cs' : traffic n1 n2 ds cs → traffic n2 n3 ds' cs' → traffic n1 n3 (ds ++ ds') (cs ++ cs').
Proof. intros [E1 E2] [E3 E4]. split; by rewrite app_assoc, <-?E1, <-?E2. Qed.

Lemma traffic_dial `{!Ledger dial} f m n x n1 : dial = Some f → f m n = (x, n1) →
  traffic n n1 match x with Ret rw => [rw.(rw_id)] | _ => [] end [].
Proof. intros Ef E. destruct (dial_recorded _ _ _ _ _ Ef E). split; by rewrite ?app_nil_r. Qed.

Lemma traffic_close `{!Ledger dial} rw n : traffic n (close rw n) [] [rw.(rw_id)].
Proof. destruct (close_recorded (dial := dial) rw n). split; by rewrite ?app_nil_r. Qed.

(** The connection given to Connect. *)
Definition given (rw : option (io_ReadWriter S)) : list nat := match rw with Some rw => [rw.(rw_id)] | None => [] end.

Definition module_session (c : dialing_Client N S) (ss : fs_Session N S) : Prop :=
  ss.(ss_client) = Some c ∧ ss.(ss_root) = None.

Lemma module_not_root c ss : module_session c ss → in_root ss = None.
Proof. intros [_ Hr]. unfold in_root. by destruct (ss_link ss). Qed.

(** A call of a Session with the connections [ds] dialled and [cs] closed on the
    way: what it held and dialled is what it closed and holds. *)
Definition settles (ss ss' : fs_Session N S) (ds cs : list nat) : Prop :=
  held ss.(ss_link) ++ ds ≡ₚ cs ++ held ss'.(ss_link) ∧ (length ds ≤ 1)%nat ∧ (held ss.(ss_link) ≠ [] → ds = []).

Definition accounted (c : dialing_Client N S) {A} (m : M (fs_Session N S * N) A) : Prop :=
  ∀ ss n x ss' n', module_session c ss → m (ss, n) = (x, (ss', n')) →
    module_session c ss' ∧ (∃ ds cs, traffic n n' ds cs ∧ settles ss ss' ds cs) ∧ (∀ a, x = Ret a → ss'.(ss_link) = NoLink).

#[local] Instance ledger_with_module c m `{HL : !Ledger c.(ConnectFunc)} : Ledger (with_module m c).(ConnectFunc) := HL.

Lemma Client_Connect_accounted (c : dialing_Client N S) `{!Ledger c.(ConnectFunc)} fuel rw n x n1 : Client_Connect frames r w fuel c rw n = (x, n1) →
  ∃ ds, traffic n n1 ds [] ∧ (length (given rw ++ ds) ≤ 1)%nat ∧
    ∀ ss, x = Ret ss → module_session c ss ∧ held ss.(ss_link) = given rw ++ ds.
Proof.
  unfold Client_Connect. case_bool_decide.
  { intros [= <- <-]. exists []. destruct rw; split_and!; ledger. }
  assert (∀ rw' n', (let '(x, l) := establish frames r w fuel c rw' in let* _ := returned x in ret (mk_fs_Session (Some c) l None)) n' = (x, n1) →
    n' = n1 ∧ ∀ ss, x = Ret ss → module_session c ss ∧ held ss.(ss_link) = [rw'.(rw_id)]) as Hest.
  { intros rw' n' E. destruct (establish frames r w fuel c rw') as [y l] eqn:Ee. apply establish_held in Ee.
    destruct y as [[]|e| |]; injection E as <- <-; (split; [done|]); intros ss; [|done..]. intros [= <-]. by split. }
  destruct rw as [rw|].
  { intros E. destruct (Hest rw n E) as [<- Hss]. exists []. split_and!; [apply traffic_refl|done|done]. }
  destruct (ConnectFunc c) as [dial|] eqn:Ed.
  2: { intros [= <- <-]. exists []. split_and!; ledger. }
  unfold bind at 1, wrap. destruct (dial (c_Module (dc_client c)) n) as [y n2] eqn:Ey. pose proof (traffic_dial _ _ _ _ _ eq_refl Ey) as Ht.
  destruct y as [rw|e| |]; intros E; [destruct (Hest rw n2 E) as [<- Hss]|injection E as <- <-..];
    eexists; (split; [exact Ht|]); by split; [cbn; lia|].
Qed.

Lemma acquireLive_accounted (c : dialing_Client N S) `{!Ledger c.(ConnectFunc)} fuel ss n x ss' n' : module_session c ss → acquireLive frames r w fuel (ss, n) = (x, (ss', n')) →
  module_session c ss' ∧ ∃ ds, traffic n n' ds [] ∧ held ss.(ss_link) ++ ds = held ss'.(ss_link) ∧ (length ds ≤ 1)%nat ∧
    (held ss.(ss_link) ≠ [] → ds = []) ∧ (x = Ret tt → ss'.(ss_link) ≠ NoLink).
Proof.
  intros [Hc Hr] E. destruct (ss_link ss) as [|s|sess s] eqn:El.
  2, 3: unfold acquireLive in E; rewrite bind_get, El in E; injection E as <- <- <-; split; [by split|]; exists []; rewrite El;
    split_and!; ledger.
  destruct (ConnectFunc c) as [dial|] eqn:Ed.
  2: { unfold acquireLive in E. rewrite bind_get, El, Hc, Ed in E. injection E as <- <- <-. split; [by split|]. exists [].
       rewrite El. split_and!; ledger. }
  destruct (dial (c_Module (dc_client c)) n) as [y n1] eqn:Ey. pose proof (traffic_dial _ _ _ _ _ eq_refl Ey) as Ht. destruct y as [rw|e| |].
  2, 3, 4: unfold acquireLive in E; rewrite bind_get, El, Hc, Ed in E; unfold wrap, lift, bind in E; rewrite Ey in E; injection E as <- <- <-;
    (split; [by split|]); eexists; (split; [exact Ht|]); rewrite El; split_and!; ledger.
  rewrite (acquireLive_dials fuel ss c dial n rw n1) in E by done.
  destruct (establish frames r w fuel c rw) as [y l] eqn:Ee. apply establish_held in Ee. injection E as <- <- <-. cbn [ss_link set_link].
  split; [by split|]. eexists; (split; [exact Ht|]). rewrite Ee. split_and!; [done|cbn; lia|done|]. by intros _ ->.
Qed.

Lemma session_withEntry_accounted {A} (c : dialing_Client N S) `{!Ledger c.(ConnectFunc)} fuel (op : entry_op A) name : accounted c (session_withEntry frames r w close fuel op name).
Proof.
  intros ss n x ss' n' Hm E. unfold session_withEntry in E.
  destruct (acquireLive frames r w fuel (ss, n)) as [y [ss1 n1]] eqn:Ea.
  destruct (acquireLive_accounted c fuel ss n y ss1 n1 Hm Ea) as (Hm1 & ds & Ht & Hh & Hd & Hone & Hl). unfold bind in E. rewrite Ea in E.
  assert (∀ rw ss2, held ss1.(ss_link) = [rw.(rw_id)] → held ss2.(ss_link) = [] →
    ∃ ds cs, traffic n (close rw n1) ds cs ∧ settles ss ss2 ds cs) as Hclose.
  { intros rw ss2 H1 H2. exists (ds ++ []), ([] ++ [rw.(rw_id)]). split; [by eapply traffic_trans, traffic_close|].
    unfold settles. by rewrite app_nil_r, Hh, H1, H2. }
  assert (∀ ss2, held ss2.(ss_link) = held ss1.(ss_link) → ∃ ds cs, traffic n n1 ds cs ∧ settles ss ss2 ds cs) as Hkeep
    by (intros ss2 H2; exists ds, []; split; [done|]; unfold settles; by rewrite Hh, H2).
  destruct y as [[]|e| |]; [|injection E as <- <- <-; split_and!; [done|by apply Hkeep|done]..].
  specialize (Hl eq_refl). unfold deferred, consume in E. destruct (ss_link ss1) as [|rw|sess rw] eqn:El; [done|..].
  - rewrite El in E. injection E as <- <- <-. split_and!; [by destruct Hm1; split|by apply Hclose|done].
  - destruct (entry_live frames r w op fuel name sess (rw_state rw)) as [z s'] eqn:Ez.
    destruct (joined z); injection E as <- <- <-; (split_and!; [by destruct Hm1; split| |done]); cbn;
      [by apply (Hclose (rw_after rw s'))..|by apply Hkeep].
Qed.

Lemma method_accounted {A} (c : dialing_Client N S) `{!Ledger c.(ConnectFunc)} fuel (op : bytes → entry_op A) ctx root name : accounted c (method frames r w close fuel op ctx root name).
Proof.
  intros ss n x ss' n' Hm E. unfold method in E. rewrite bind_get, (module_not_root c ss) in E by done.
  destruct (ValidPath name); cbn [negb] in E; [by eapply session_withEntry_accounted|].
  injection E as <- <- <-. split_and!; [done| |done]. exists [], []. split; [apply traffic_refl|]. unfold settles. rewrite app_nil_r. by split_and!; [|cbn; lia|].
Qed.

Lemma Open_method fuel name ss n : ss.(ss_root) = None →
  Open frames r w close fuel name (ss, n) =
  (let* f := method frames r w close fuel (λ _, open_op) "open" (λ _ _ _, panic) name in ret (ModuleFile f)) (ss, n).
Proof.
  intros Hr. assert (in_root ss = None) as Hin by (unfold in_root; by destruct (ss_link ss)).
  unfold Open, method. rewrite bind_get. unfold bind at 2. rewrite bind_get, Hin. by destruct (negb (ValidPath name)).
Qed.

Lemma Open_accounted (c : dialing_Client N S) `{!Ledger c.(ConnectFunc)} fuel name : accounted c (Open frames r w close fuel name).
Proof.
  intros ss n x ss' n' Hm E. rewrite Open_method in E by apply Hm. unfold bind in E.
  destruct (method _ _ _ _ _ _ _ _ _ (ss, n)) as [y [ss1 n1]] eqn:Ey.
  destruct (method_accounted c _ _ _ _ _ _ _ _ _ _ Hm Ey) as (Hm1 & Ho1 & Hl1).
  destruct y as [f|e| |]; injection E as <- <- <-; split_and!; try done. intros a _. by apply (Hl1 f).
Qed.

(** One call of a Session's methods, and whether it returned a result. *)
Definition succeeded {A} (x : outcome A) : bool := match x with Ret _ => true | _ => false end.
Inductive session_call (fuel : nat) : fs_Session N S * N → bool → fs_Session N S * N → Prop :=
  | call_Open name st x st' : Open frames r w close fuel name st = (x, st') → session_call fuel st (succeeded x) st'
  | call_Lstat name st x st' : Lstat frames r w close fuel name st = (x, st') → session_call fuel st (succeeded x) st'
  | call_ReadLink name st x st' : ReadLink frames r w close fuel name st = (x, st') → session_call fuel st (succeeded x) st'.
Definition session_step (fuel : nat) (st st' : fs_Session N S * N) : Prop := ∃ ok, session_call fuel st ok st'.

Lemma accounted_call (c : dialing_Client N S) {A} (m : M (fs_Session N S * N) A) ss n x ss' n' :
  accounted c m → module_session c ss → m (ss, n) = (x, (ss', n')) →
  module_session c ss' ∧ (∃ ds cs, traffic n n' ds cs ∧ settles ss ss' ds cs) ∧ (succeeded x = true → ss'.(ss_link) = NoLink).
Proof.
  intros Hacc Hm E. destruct (Hacc ss n x ss' n' Hm E) as (? & ? & Hl). split_and!; [done..|]. destruct x; try done. intros _. by eapply Hl.
Qed.

Lemma session_call_accounted (c : dialing_Client N S) `{!Ledger c.(ConnectFunc)} fuel ss n ok ss' n' :
  session_call fuel (ss, n) ok (ss', n') → module_session c ss →
  module_session c ss' ∧ (∃ ds cs, traffic n n' ds cs ∧ settles ss ss' ds cs) ∧ (ok = true → ss'.(ss_link) = NoLink).
Proof.
  intros Hcall Hm. inversion Hcall as [name ? x ? E|name ? x ? E|name ? x ? E]; subst; eapply accounted_call; try done.
  - by apply Open_accounted.
  - by apply method_accounted.
  - by apply method_accounted.
Qed.

Lemma session_steps_accounted (c : dialing_Client N S) `{!Ledger c.(ConnectFunc)} fuel st st' : rtc (session_step fuel) st st' → module_session c st.1 →
  module_session c st'.1 ∧ ∃ ds cs, traffic st.2 st'.2 ds cs ∧ held st.1.(ss_link) ++ ds ≡ₚ cs ++ held st'.1.(ss_link).
Proof.
  induction 1 as [st|[ss n] [ss1 n1] st' [ok Hcall] _ IH]; intros Hm.
  { split; [done|]. exists [], []. split; [apply traffic_refl|by rewrite app_nil_r]. }
  destruct (session_call_accounted c fuel ss n ok ss1 n1 Hcall Hm) as (Hm1 & (ds & cs & Ht & HP & _) & _).
  destruct (IH Hm1) as (Hm' & ds' & cs' & Ht' & HP'). split; [done|]. exists (ds ++ ds'), (cs ++ cs').
  split; [by eapply traffic_trans|]. cbn [fst] in *. rewrite app_assoc, HP, <-!app_assoc. by rewrite HP'.
Qed.

(** ** Root mode: a connection for each call *)

(** The call dialled at most one connection, and closed it unless it failed. *)
Definition own_connection (ok : bool) (ds cs : list nat) : Prop :=
  (length ds ≤ 1)%nat ∧ (cs = ds ∨ cs = [] ∧ ok = false).

Lemma root_withEntry_own {A} (c : dialing_Client N S) `{!Ledger c.(ConnectFunc)} fuel dial v d (op : entry_op A) m path n x n' : c.(ConnectFunc) = Some dial →
  root_withEntry frames r w close fuel (mk_root_mode v d dial) (mk_fs_Session (Some c) NoLink (Some (mk_root_mode v d dial))) op m path n = (x, n') →
  ∃ ds cs, traffic n n' ds cs ∧ own_connection (succeeded x) ds cs.
Proof.
  intros Ed. unfold root_withEntry, wrap. cbn [rt_connectFunc ss_client]. unfold bind at 1.
  destruct (dial m n) as [y n1] eqn:Ey. pose proof (traffic_dial _ _ _ _ _ Ed Ey) as Ht.
  destruct y as [rw|e| |]; [|intros [= <- <-]; eexists _, _; (split; [exact Ht|]); by split; [cbn; lia|left]..].
  unfold bind. destruct (Client_Connect frames r w fuel (with_module m c) (Some rw) n1) as [y n2] eqn:Ec.
  destruct (Client_Connect_accounted (with_module m c) fuel (Some rw) n1 y n2 Ec) as (ds & Ht2 & Hlen & Hss).
  assert (ds = []) as -> by (destruct ds; [done|simpl in Hlen; lia]).
  pose proof (traffic_trans _ _ _ _ _ _ _ Ht Ht2) as Ht'. cbn [app] in Ht'.
  destruct y as [ss|e| |]; [|intros [= <- <-]; eexists _, _; (split; [exact Ht'|]); by split; [cbn; lia|right]..].
  destruct (Hss ss eq_refl) as [Hm Hh]. unfold with_local.
  destruct (session_withEntry frames r w close fuel op path (ss, n2)) as [z [ss' n3]] eqn:Ew. intros [= <- <-].
  destruct (session_withEntry_accounted (with_module m c) fuel op path ss n2 z ss' n3 Hm Ew) as (_ & (ds & cs & Ht3 & HP & _ & Hnil) & Hl).
  rewrite Hh in HP, Hnil. rewrite Hnil in HP, Ht3 by done. clear Hnil. exists [rw.(rw_id)], cs.
  split; [by pose proof (traffic_trans _ _ _ _ _ _ _ Ht' Ht3) as [? ?]|]. split; [cbn; lia|].
  cbn [given app] in HP. apply Permutation_singleton_l in HP. symmetry in HP. apply app_eq_unit in HP as [[-> HP]|[-> HP]]; [|by left].
  right. split; [done|]. destruct z as [a| | |]; try done. rewrite (Hl a) in HP by done. done.
Qed.

Lemma listModules_own (c : dialing_Client N S) `{!Ledger c.(ConnectFunc)} fuel dial v d n x n' : c.(ConnectFunc) = Some dial →
  listModules r w close fuel (mk_root_mode v d dial) (mk_fs_Session (Some c) NoLink (Some (mk_root_mode v d dial))) n = (x, n') →
  ∃ ds cs, traffic n n' ds cs ∧ own_connection (succeeded x) ds cs.
Proof.
  intros Ed. unfold listModules, wrap. cbn [rt_connectFunc ss_client]. unfold bind.
  destruct (dial [] n) as [y n1] eqn:Ey. pose proof (traffic_dial _ _ _ _ _ Ed Ey) as Ht.
  destruct y as [rw|e| |]; [|intros [= <- <-]; eexists _, _; (split; [exact Ht|]); by split; [cbn; lia|left]..].
  destruct (doListRequest fuel r w _ (rw_state rw)) as [z s']. destruct z as [mods|e| |]; intros [= <- <-].
  - exists ([rw.(rw_id)] ++ []), ([] ++ [rw.(rw_id)]). split; [exact (traffic_trans _ _ _ _ _ _ _ Ht (traffic_close (rw_after rw s') n1))|].
    by split; [cbn; lia|left].
  - eexists _, _. split; [exact Ht|]. by split; [cbn; lia|right].
  - eexists _, _. split; [exact Ht|]. by split; [cbn; lia|right].
  - eexists _, _. split; [exact Ht|]. by split; [cbn; lia|right].
Qed.

Lemma own_map {A B} (f : A → B) (m : M N A) n x n' : (∀ y n1, m n = (y, n1) → ∃ ds cs, traffic n n1 ds cs ∧ own_connection (succeeded y) ds cs) →
  (let* a := m in ret (f a)) n = (x, n') → ∃ ds cs, traffic n n' ds cs ∧ own_connection (succeeded x) ds cs.
Proof. intros Hm. unfold bind. destruct (m n) as [y n1]. specialize (Hm y n1 eq_refl). destruct y; by intros [= <- <-]. Qed.

Lemma own_nothing (ok : bool) n : ∃ ds cs, traffic n n ds cs ∧ own_connection ok ds cs.
Proof. exists [], []. split; [apply traffic_refl|]. by split; [cbn; lia|left]. Qed.

Lemma OpenRoot_inv (c : dialing_Client N S) ss : OpenRoot c = Ret ss →
  ∃ dial v d, c.(ConnectFunc) = Some dial ∧ c.(dc_client).(c_Module) = [] ∧
    ss = mk_fs_Session (Some c) NoLink (Some (mk_root_mode v d dial)).
Proof.
  unfold OpenRoot. case_bool_decide; cbn [negb]; [|done]. destruct (ConnectFunc c) as [dial|]; [|done].
  destruct (g_Digests _) as [|d ds]; [done|]. intros [= <-]. by eexists _, _, _.
Qed.

Lemma root_call (c : dialing_Client N S) `{!Ledger c.(ConnectFunc)} fuel ss n ok st' : OpenRoot c = Ret ss → session_call fuel (ss, n) ok st' →
  st'.1 = ss ∧ ∃ ds cs, traffic n st'.2 ds cs ∧ own_connection ok ds cs.
Proof.
  intros (dial & v & d & Ed & _ & ->)%OpenRoot_inv Hcall.
  assert (∀ A (m : M N A) x,
    (let '(y, n') := m n in (y, (mk_fs_Session (Some c) NoLink (Some (mk_root_mode v d dial)), n'))) = (x, st') →
    (∀ y n1, m n = (y, n1) → ∃ ds cs, traffic n n1 ds cs ∧ own_connection (succeeded y) ds cs) →
    st'.1 = mk_fs_Session (Some c) NoLink (Some (mk_root_mode v d dial)) ∧ ∃ ds cs, traffic n st'.2 ds cs ∧ own_connection (succeeded x) ds cs) as Hlift.
  { intros A m x E Hm. destruct (m n) as [y n1]. injection E as <- <-. split; [done|]. by apply Hm. }
  inversion Hcall as [name ? x ? E|name ? x ? E|name ? x ? E]; subst.
  - unfold Open in E. rewrite bind_get in E. cbn [in_root ss_link ss_root] in E. unfold lift in E. eapply Hlift; [exact E|].
    intros y n1. unfold openRoot. destruct (_ || _); [apply own_map; intros; by eapply listModules_own|].
    destruct (root_split name) as [m p]. apply own_map. intros y' n2. by destruct (bool_decide _); apply root_withEntry_own.
  - unfold Lstat, method in E. rewrite bind_get in E. cbn [in_root ss_link ss_root] in E. unfold lift in E. eapply Hlift; [exact E|].
    intros y n1. unfold rootLstat. destruct (root_split name) as [m [[|b p]|]]; [|by apply root_withEntry_own|]; intros [= <- <-]; apply own_nothing.
  - unfold ReadLink, method in E. rewrite bind_get in E. cbn [in_root ss_link ss_root] in E. unfold lift in E. eapply Hlift; [exact E|].
    intros y n1. unfold rootReadLink. destruct (root_split name) as [m [[|b p]|]]; [|by apply root_withEntry_own|]; intros [= <- <-]; apply own_nothing.
Qed.

Lemma root_steps (c : dialing_Client N S) `{!Ledger c.(ConnectFunc)} fuel ss n st' : OpenRoot c = Ret ss → rtc (session_step fuel) (ss, n) st' →
  st'.1 = ss ∧ ∃ ds cs, traffic n st'.2 ds cs ∧ cs `sublist_of` ds.
Proof.
  intros Hroot Hsteps. remember (ss, n) as st eqn:Hst. revert n Hst. induction Hsteps as [st|st [ss1 n1] st' [ok Hcall] _ IH]; intros n ->.
  { split; [done|]. exists [], []. split; [apply traffic_refl|done]. }
  destruct (root_call c fuel ss n ok _ Hroot Hcall) as (Hss & ds & cs & Ht & _ & Hown). cbn [fst snd] in *. subst ss1.
  destruct (IH n1 eq_refl) as (Hss & ds' & cs' & Ht' & Hsub). split; [done|]. exists (ds ++ ds'), (cs ++ cs').
  split; [by eapply traffic_trans|]. destruct Hown as [->|[-> _]]; [by apply sublist_app|by apply sublist_inserts_l].
Qed.

(** C3: The connections of a Session are accounted for, by identity. Take any
    sequence of calls of Open, Lstat and ReadLink on it, with any names, any
    behaviour of the peers, and any outcome of each call, errors and panics
    included. (1) For a Session that Connect returned, on a connection it was given
    or one that ConnectFunc supplied: the connections given or supplied so far are,
    one for one, those closed and the one the Session still holds, so none is lost
    and, identities being distinct, none is closed twice; a call dials at most
    once, and only when the Session holds none, and after a call that returns a
    result the Session holds none. (2) For a Session of OpenRoot, which itself does
    not change: the closed connections are among those supplied, each closed at most
    once; a call dials at most one connection, and it closes that one and no other,
    except that a call that fails may leave its own open. *)
Theorem session_connections (c : dialing_Client N S) `{!Ledger c.(ConnectFunc)} fuel n0 ss ss' n' :
  (∀ rw n, Client_Connect frames r w fuel c rw n0 = (Ret ss, n) → rtc (session_step fuel) (ss, n) (ss', n') →
    (∃ ds cs, traffic n0 n' ds cs ∧ given rw ++ ds ≡ₚ cs ++ held ss'.(ss_link)) ∧
    ∀ ok ss1 n1, session_call fuel (ss', n') ok (ss1, n1) → ∃ ds cs, traffic n' n1 ds cs ∧ (length ds ≤ 1)%nat ∧
      (held ss'.(ss_link) ≠ [] → ds = []) ∧ (ok = true → held ss1.(ss_link) = [])) ∧
  (OpenRoot c = Ret ss → rtc (session_step fuel) (ss, n0) (ss', n') →
    ss' = ss ∧ (∃ ds cs, traffic n0 n' ds cs ∧ cs `sublist_of` ds) ∧
    ∀ ok ss1 n1, session_call fuel (ss', n') ok (ss1, n1) → ∃ ds cs, traffic n' n1 ds cs ∧ (length ds ≤ 1)%nat ∧
      (cs = ds ∨ cs = [] ∧ ok = false)).
Proof.
  split.
  - intros rw n Hconn Hsteps. destruct (Client_Connect_accounted c fuel rw n0 _ n Hconn) as (ds & Ht & _ & Hss).
    destruct (Hss ss eq_refl) as [Hm Hh]. destruct (session_steps_accounted c fuel _ _ Hsteps Hm) as (Hm' & ds' & cs' & Ht' & HP). split.
    + exists (ds ++ ds'), cs'. split; [exact (traffic_trans _ _ _ _ _ _ _ Ht Ht')|]. cbn [fst] in HP. by rewrite Hh, <-app_assoc in HP.
    + intros ok ss1 n1 Hcall. destruct (session_call_accounted c fuel _ _ _ _ _ Hcall Hm') as (_ & (ds1 & cs1 & Ht1 & _ & Hlen & Hd) & Hl).
      exists ds1, cs1. split_and!; [done..|]. intros Hok. by rewrite Hl.
  - intros Hroot Hsteps. destruct (root_steps c fuel _ _ _ Hroot Hsteps) as (Hss & Hsub). cbn [fst snd] in *. subst ss'. split_and!; [done..|].
    intros ok ss1 n1 Hcall. by destruct (root_call c fuel ss n' ok _ Hroot Hcall) as (_ & ds & cs & Ht & Hlen & Hown); exists ds, cs.
Qed.
End proofs.

(** ** A failed reconnection *)
Section failure.
Context {N S : Type} (frames : S → nat) (r : io_Reader S) (w : io_Writer S) `{Digests} (close : io_ReadWriter S → N → N).

(** C39: A failed reconnection breaks the next call. When the handshake on a
    connection that an operation had to dial fails before the filter list, the
    operation returns the handshake's error and keeps the connection with no
    input stream set up; the next Open, Lstat or ReadLink of a valid name takes it
    for a live connection and panics, and only the call after that dials again. *)
Theorem failed_reconnect_panics fuel (ss : fs_Session N S) c dial n conn n1 e s1 name :
  ss.(ss_client) = Some c → c.(ConnectFunc) = Some dial → ss.(ss_root) = None → ss.(ss_link) = NoLink →
  ValidPath name = true → dial c.(dc_client).(c_Module) n = (Ret conn, n1) →
  before_filter fuel frames r w c.(dc_client) conn.(rw_state) = (Fail e, s1) →
  ∃ ss', Open frames r w close fuel name (ss, n) = (Fail e, (ss', n1)) ∧
    Open frames r w close fuel name (ss', n1) = (Panic, (ss, close (rw_after conn s1) n1)) ∧
    Lstat frames r w close fuel name (ss', n1) = (Panic, (ss, close (rw_after conn s1) n1)) ∧
    ReadLink frames r w close fuel name (ss', n1) = (Panic, (ss, close (rw_after conn s1) n1)).
Proof.
  intros Hc Hd Hr Hl Hv Hdial Hf. exists (set_link (HalfOpen (rw_after conn s1)) ss).
  assert (in_root ss = None) as Hin by (unfold in_root; by rewrite Hl).
  assert (set_link NoLink (set_link (HalfOpen (rw_after conn s1)) ss) = ss) as Hss by (destruct ss; cbn in *; by subst).
  assert (∀ A (op : entry_op A), session_withEntry frames r w close fuel op name (set_link (HalfOpen (rw_after conn s1)) ss, n1) =
    (Panic, (ss, close (rw_after conn s1) n1))) as Hpanic.
  { intros A op. unfold session_withEntry, bind, acquireLive. rewrite bind_get. cbn. by rewrite Hss. }
  split_and?.
  - unfold Open. rewrite bind_get, Hin, Hv. cbn [negb]. unfold session_withEntry, bind at 1 2.
    rewrite (acquireLive_dials frames r w fuel ss c dial n conn n1) by done. unfold establish. by rewrite Hf.
  - unfold Open. rewrite bind_get. cbn [in_root ss_link set_link]. rewrite Hv. cbn [negb]. unfold bind. by rewrite Hpanic.
  - unfold Lstat, method. rewrite bind_get. cbn [in_root ss_link set_link]. rewrite Hv. cbn [negb]. apply Hpanic.
  - unfold ReadLink, method. rewrite bind_get. cbn [in_root ss_link set_link]. rewrite Hv. cbn [negb]. apply Hpanic.
Qed.
End failure.

(** ** Sequences of operations *)
Inductive request := AskOpen (name : bytes) | AskLstat (name : bytes) | AskReadLink (name : bytes).
Inductive response := Opened (f : opened_file) | Info (i : flistFileInfo) | Target (t : bytes).

Definition asked_name (q : request) : bytes :=
  match q with AskOpen n | AskLstat n | AskReadLink n => n end.

(** What an operation needs of the entry with the name asked for. *)
Definition request_needs (q : request) : file_system → fileEntry → Prop :=
  match q with AskOpen _ => openable | AskLstat _ | AskReadLink _ => λ _ _, True end.

(** The answer that fits the files of the module. *)
Definition answered (q : request) (raw : list fileEntry) (v : Z) (fsys : file_system) (res : error + response) : Prop :=
  match q with
  | AskOpen name => ∃ a, opened raw v fsys name a ∧ res = match a with inl e => inl e | inr f => inr (Opened (ModuleFile f)) end
  | AskLstat name => ∃ a, statted raw v name a ∧ res = match a with inl e => inl e | inr i => inr (Info i) end
  | AskReadLink name => ∃ a, linked name raw name a ∧ res = match a with inl e => inl e | inr t => inr (Target t) end
  end.

Section requests.
Context {N S : Type} (frames : S → nat) (r : io_Reader S) (w : io_Writer S) `{Digests} (close : io_ReadWriter S → N → N) (fuel : nat).

Definition run_request (q : request) : M (fs_Session N S * N) response :=
  match q with
  | AskOpen name => let* f := Open frames r w close fuel name in ret (Opened f)
  | AskLstat name => let* i := Lstat frames r w close fuel name in ret (Info i)
  | AskReadLink name => let* t := ReadLink frames r w close fuel name in ret (Target t)
  end.

(** The program's calls one after the other, the errors as values. *)
Fixpoint run_requests (qs : list request) : M (fs_Session N S * N) (list (error + response)) :=
  match qs with
  | [] => ret []
  | q :: qs' => let* x := attempt (run_request q) in let* xs := run_requests qs' in ret (x :: xs)
  end.
End requests.

Section answers.
Context {N S T : Type} (frames : S → nat) (r : io_Reader S) (w : io_Writer S) (close : io_ReadWriter S → N → N).
Context `{!ReaderSpec r} `{!WriterSpec w} `{!Duplex r w} `{!EnoughFuel r frames}.
Context (frames' : T → nat) (r' : io_Reader T) (w' : io_Writer T).
Context `{!ReaderSpec r'} `{!WriterSpec w'} `{!Duplex r' w'} `{!EnoughFuel r' frames'} `{Digests}.
Context (c : dialing_Client N S) (dial : bytes → M N (io_ReadWriter S)) (Hdial : c.(ConnectFunc) = Some dial).

(** A Session whose connection was used up. *)
Definition idle : fs_Session N S := mk_fs_Session (Some c) NoLink None.

(** About to use a new connection: idle, or fresh from Connect. *)
Definition at_start (fuel : nat) (n : N) (st : fs_Session N S * N) : Prop :=
  st = (idle, n) ∨ Client_Connect frames r w fuel c None n = (Ret st.1, st.2).

(** Connect and an operation on a new connection, as the Session does it; an
    idle Session connects just as Connect does. *)
Lemma start_withEntry {A} (op : entry_op A) fuel name n conn n1 res s' :
  c.(dc_client).(c_Module) ≠ [] → dial c.(dc_client).(c_Module) n = (Ret conn, n1) →
  connect_and frames r w op fuel c.(dc_client) name conn.(rw_state) = (Ret res, s') →
  (∃ ss, Client_Connect frames r w fuel c None n = (Ret ss, n1)) ∧
  ∀ st, at_start fuel n st →
    st.1.(ss_root) = None ∧ session_withEntry frames r w close fuel op name st = (joined (Ret res), (idle, close (rw_after conn s') n1)).
Proof.
  intros Hm Hd E. unfold connect_and, Connection.Connect in E. rewrite bool_decide_false in E by done.
  apply bind_inv_Ret in E as (sess & s1 & E1 & E2). apply (establish_Ret frames r w fuel c) in E1.
  assert (Client_Connect frames r w fuel c None n = (Ret (mk_fs_Session (Some c) (Live sess (rw_after conn s1)) None), n1)) as Hc.
  { unfold Client_Connect. rewrite bool_decide_false, Hdial by done. unfold bind, wrap. by rewrite Hd, E1. }
  split; [by eexists|]. intros st [->|Hst].
  - split; [done|]. unfold session_withEntry, bind. rewrite (acquireLive_dials frames r w fuel _ c dial n conn n1) by done.
    rewrite E1. unfold deferred. cbn [ss_link set_link rw_state rw_after]. rewrite E2. by destruct res.
  - destruct st as [ss n2]. rewrite Hc in Hst. simplify_eq/=. split; [done|]. unfold session_withEntry, bind, acquireLive.
    rewrite bind_get. cbn. unfold deferred. cbn [ss_link set_link rw_state rw_after]. rewrite E2. by destruct res.
Qed.

(** The client's side of one operation: the connection delivers [hs] and frames
    whose data is [sb]; the session's output is [hc] and then carries [cb]. *)
Record transcript := mk_transcript { t_hc : bytes; t_hs : bytes; t_cb : bytes; t_sb : bytes; t_res : error + response }.

Definition delivers (t : transcript) (s : S) : Prop :=
  written w s = [] ∧ writable w s ∧ ∃ wire, stream r s (t.(t_hs) ++ wire) ∧ demux wire (fin r s) = (t.(t_sb), fin r s).
Definition sent (v : Z) (t : transcript) (s : S) : Prop :=
  ∃ wire, written w s = t.(t_hc) ++ wire ∧ ∀ e, carries v wire (PutUint32 0 ++ t.(t_cb)) e.

Context (o : outside) (sv : Server) (fss : module_files) (m : ServerModule) (v sub : Z) (d : bytes) (tree : node).
Context (Hgc : greeting_ok (ApplyDefaults c.(dc_client).(c_Greeting))) (Hgs : greeting_ok (ApplyDefaults sv.(sv_Greeting))).
Context (Hneg : Negotiate (ApplyDefaults c.(dc_client).(c_Greeting)) (ApplyDefaults sv.(sv_Greeting)) = Ret (v, sub, d)).
Context (Hname : module_ok c.(dc_client).(c_Module)) (Hm : sv.(modules) !! c.(dc_client).(c_Module) = Some m) (Hroot : m.(sm_root) = None).
Context (Hauth : auth_ok o c.(dc_client) m d).

(** The server's side of it. *)
Definition served (fuel : nat) (t : transcript) : Prop :=
  ∀ s wire, written w' s = [] → stream r' s (t.(t_hc) ++ wire) → writable w' s →
    carries v wire (PutUint32 0 ++ t.(t_cb)) (fin r' s) →
    ∃ s' wire', HandleConnection frames' r' w' fuel o fss sv s = (Ret tt, s') ∧
      written w' s' = t.(t_hs) ++ wire' ∧ ∀ e, demux wire' e = (t.(t_sb), e).

Lemma op_completes {A} (op : entry_op A) `{!EntryOp op} (inj : A → response) name :
  module_ready fss m v tree name (op_needs op) →
  ∃ t a k, op_answer op (listing fss m tree) v (fss.(fs_of) m).(fs_Open) name a ∧
    t.(t_res) = match a with inl e => inl e | inr x => inr (inj x) end ∧ ∀ fuel, (k ≤ fuel)%nat → served fuel t ∧
    ∀ n conn n1, dial c.(dc_client).(c_Module) n = (Ret conn, n1) → delivers t conn.(rw_state) →
      ∃ s', sent v t s' ∧ (∃ ss, Client_Connect frames r w fuel c None n = (Ret ss, n1)) ∧
        ∀ st, at_start fuel n st →
          st.1.(ss_root) = None ∧ session_withEntry frames r w close fuel op name st = (joined (Ret a), (idle, close (rw_after conn s') n1)).
Proof.
  intros Hready.
  destruct (connection_completes frames r w frames' r' w' op [] [] o c.(dc_client) sv fss m v sub d tree name
              Hgc Hgs Hneg Hname Hm Hroot Hauth Hready) as (hc & hs & cb & sb & a & k & Ha & Hrun).
  exists (mk_transcript hc hs cb sb (match a with inl e => inl e | inr x => inr (inj x) end)), a, k.
  split_and?; [done|done|]. intros fuel Hf. destruct (Hrun fuel Hf) as [Hc Hs]. split.
  - intros s wire Hw Hst Hwr Hcar. by apply (Hs s wire).
  - intros n conn n1 Hd (Hw & Hwr & wire & Hst & Hdem). destruct (Hc conn.(rw_state) wire Hw Hst Hwr Hdem) as (s' & wire' & E & Ew & Hcar).
    exists s'. split; [by exists wire'|]. apply (start_withEntry op fuel name n conn n1 a s'); [apply Hname|done|done].
Qed.

(** A request and the transcript of its connection. *)
Definition fulfils (q : request) (t : transcript) (k : nat) : Prop :=
  answered q (listing fss m tree) v (fss.(fs_of) m).(fs_Open) t.(t_res) ∧ ∀ fuel, (k ≤ fuel)%nat → served fuel t ∧
    ∀ n conn n1, dial c.(dc_client).(c_Module) n = (Ret conn, n1) → delivers t conn.(rw_state) →
      ∃ s', sent v t s' ∧ (∃ ss, Client_Connect frames r w fuel c None n = (Ret ss, n1)) ∧
        ∀ st, at_start fuel n st →
          attempt (run_request frames r w close fuel q) st = (Ret t.(t_res), (idle, close (rw_after conn s') n1)).

(** A method in module mode is withEntry with the callback of its operation. *)
Lemma op_fulfils {A} (op : entry_op A) `{!EntryOp op} (inj : A → response) q :
  (∀ fuel st, st.1.(ss_root) = None → run_request frames r w close fuel q st =
     (let* x := session_withEntry frames r w close fuel op (asked_name q) in ret (inj x)) st) →
  (∀ a, op_answer op (listing fss m tree) v (fss.(fs_of) m).(fs_Open) (asked_name q) a →
     answered q (listing fss m tree) v (fss.(fs_of) m).(fs_Open) match a with inl e => inl e | inr x => inr (inj x) end) →
  module_ready fss m v tree (asked_name q) (op_needs op) → ∃ t k, fulfils q t k.
Proof.
  intros Hq Hans Hready. destruct (op_completes op inj (asked_name q) Hready) as (t & a & k & Ha & Hres & Hrun).
  exists t, k. split; [rewrite Hres; by apply Hans|]. intros fuel Hf. destruct (Hrun fuel Hf) as [Hs Hc]. split; [done|].
  intros n conn n1 Hd Hdel. destruct (Hc n conn n1 Hd Hdel) as (s' & Hsent & Hcon & Hst). exists s'. split_and?; [done..|].
  intros st [Hr E]%Hst. unfold attempt. rewrite Hq by done. unfold bind. rewrite E, Hres. by destruct a.
Qed.

Lemma request_fulfilled q : ValidPath (asked_name q) = true → module_ready fss m v tree (asked_name q) (request_needs q) →
  ∃ t k, fulfils q t k.
Proof.
  intros Hvalid.
  assert (∀ ss : fs_Session N S, ss.(ss_root) = None → in_root ss = None) as Hin by (intros ss; unfold in_root; by destruct (ss_link ss)).
  destruct q as [name|name|name]; cbn [asked_name request_needs] in *.
  - apply (op_fulfils open_op (λ f, Opened (ModuleFile f)) (AskOpen name)); [|intros a Ha; by exists a].
    intros fuel [ss n] Hr. cbn in Hr. unfold run_request, Open, bind. cbn. rewrite Hin, Hvalid by done. cbn. by destruct (session_withEntry _ _ _ _ _ _ _ _) as [[] ?].
  - apply (op_fulfils lstat_op Info (AskLstat name)); [|intros a Ha; by exists a].
    intros fuel [ss n] Hr. cbn in Hr. unfold run_request, Lstat, method, bind. cbn. by rewrite Hin, Hvalid.
  - apply (op_fulfils (readlink_op name) Target (AskReadLink name)); [|intros a Ha; by exists a].
    intros fuel [ss n] Hr. cbn in Hr. unfold run_request, ReadLink, method, bind. cbn. by rewrite Hin, Hvalid.
Qed.

(** ConnectFunc supplies, from [n] on, a connection for each transcript. *)
Fixpoint supplied (n : N) (ts : list transcript) : Prop :=
  match ts with
  | [] => True
  | t :: ts' => ∃ conn n1, dial c.(dc_client).(c_Module) n = (Ret conn, n1) ∧ delivers t conn.(rw_state) ∧
      ∀ s', sent v t s' → supplied (close (rw_after conn s') n1) ts'
  end.

Lemma requests_run fuel qs ts : Forall2 (λ q t, ∃ k, (k ≤ fuel)%nat ∧ fulfils q t k) qs ts → ∀ n st, supplied n ts →
  (qs ≠ [] → at_start fuel n st) → (qs = [] → st.1 = idle) →
  ∃ n', run_requests frames r w close fuel qs st = (Ret (t_res <$> ts), (idle, n')).
Proof.
  induction 1 as [|q t qs ts (k & Hk & Hans & Hrun) _ IH]; intros n st Hsup Hst Hnil.
  - destruct st as [ss n']. exists n'. cbn in *. by rewrite Hnil.
  - destruct Hsup as (conn & n1 & Hd & Hdel & Hnext). destruct (Hrun fuel Hk) as [_ Hc].
    destruct (Hc n conn n1 Hd Hdel) as (s' & Hsent & _ & Hq). cbn [run_requests fmap list_fmap].
    rewrite (bind_Ret _ _ _ _ _ (Hq st (Hst ltac:(done)))).
    destruct (IH (close (rw_after conn s') n1) (idle, close (rw_after conn s') n1) (Hnext s' Hsent)) as (n' & E); [by left|done|].
    exists n'. unfold bind. by rewrite E.
Qed.

(** C2: A Session answers any sequence of operations. A program connects, then
    calls Open, Lstat and ReadLink in any order on valid names, where a file to
    be opened is one the server can serve. There are transcripts, one per call,
    such that (1) every call's answer is what the module's files are; (2) the
    server's HandleConnection, given the client's bytes of a transcript, completes
    and sends the server's; (3) if ConnectFunc supplies one connection after the
    other, each delivering what the server sends in the corresponding transcript,
    then Connect succeeds, every call returns the transcript's answer, the first
    on the connection of Connect and each later one on a connection of its own,
    and the Session ends up without a connection. *)
Theorem session_answers qs : qs ≠ [] →
  Forall (λ q, ValidPath (asked_name q) = true ∧ module_ready fss m v tree (asked_name q) (request_needs q)) qs →
  ∃ ts k, Forall2 (λ q t, answered q (listing fss m tree) v (fss.(fs_of) m).(fs_Open) t.(t_res)) qs ts ∧
    ∀ fuel, (k ≤ fuel)%nat → Forall (served fuel) ts ∧
      ∀ n, supplied n ts → ∃ ss n1 n', Client_Connect frames r w fuel c None n = (Ret ss, n1) ∧
        run_requests frames r w close fuel qs (ss, n1) = (Ret (t_res <$> ts), (idle, n')).
Proof.
  intros Hne Hqs.
  assert (∃ ts k, Forall2 (λ q t, ∃ k', (k' ≤ k)%nat ∧ fulfils q t k') qs ts) as (ts & k & Hall).
  { clear Hne. induction Hqs as [|q qs [Hvalid Hready] _ (ts & k & IH)]; [by exists [], O|].
    destruct (request_fulfilled q Hvalid Hready) as (t & k1 & Ht). exists (t :: ts), (k + k1)%nat. constructor.
    - exists k1. split; [lia|done].
    - eapply Forall2_impl; [exact IH|]. intros q' t' (k' & Hk & Hf). exists k'. split; [lia|done]. }
  exists ts, k. split; [eapply Forall2_impl; [exact Hall|]; by intros q t (k' & _ & Ha & _)|]. intros fuel Hf. split.
  - clear -Hall Hf. induction Hall as [|q t qs ts (k' & Hk & _ & Hrun) _ IH]; constructor; [|done]. apply Hrun. lia.
  - intros n Hsup. destruct Hall as [|q t qs ts (k' & Hk & Hq) Hall]; [done|].
    pose proof Hsup as (conn & n1 & Hd & Hdel & _). destruct (proj2 Hq fuel) as [_ Hc]; [lia|].
    destruct (Hc n conn n1 Hd Hdel) as (s' & _ & (ss & Hcon) & _). exists ss, n1.
    destruct (requests_run fuel (q :: qs) (t :: ts)) with (n := n) (st := (ss, n1)) as (n' & E); [|done|by right|done|by exists n'].
    constructor; [by exists k'; split; [lia|]|]. eapply Forall2_impl; [exact Hall|].
    intros q' t' (k'' & Hk' & Hf'). exists k''. split; [lia|done].
Qed.
End answers.

(** ** Witnesses *)

(** An environment that holds the connections ConnectFunc will return, numbers
    them, and records which were returned and which closed. *)
Record net := mk_net { upcoming : list conn; n_dialled : list nat; n_closed : list nat }.
Definition net_dial (m : bytes) : M net (io_ReadWriter conn) := λ n,
  match n.(upcoming) with
  | [] => (Fail (Errorf "connection refused" []), n)
  | s :: l => let id := length n.(n_dialled) in (Ret (mk_rw id s), mk_net l (n.(n_dialled) ++ [id]) n.(n_closed))
  end.
Definition net_close (rw : io_ReadWriter conn) (n : net) : net :=
  mk_net n.(upcoming) n.(n_dialled) (n.(n_closed) ++ [rw.(rw_id)]).

#[global] Instance net_ledger : Ledger net_close n_dialled n_closed (Some net_dial).
Proof.
  split; [|done]. intros f m n x n1 [= <-]. unfold net_dial. destruct (upcoming n) as [|s l]; intros [= <- <-]; [by rewrite app_nil_r|done].
Qed.

Definition example_dialing : dialing_Client net conn := mk_dialing_Client example_client (Some net_dial).

(** The bytes a server sends to a client that asks for file [req] or for none. *)
Definition example_reply (req : option Z) : conn :=
  let request := client_bytes (ApplyDefaults example_client.(c_Greeting))
                   (str "alice YWxpY2UHBwcHBwcHBwcHBwcHBwcH" ++ [10]) (str "pub") 31 in
  let payload := PutUint32 0 ++ ask_bytes 31 req ++ dones 31 3 ++ goodbye_client 31 in
  conn_of (HandleConnection conn_fuel conn_reader conn_writer (H := pad_digests) 200 example_outside example_files
             example_server (conn_of (request ++ frame_bytes MsgData payload))).2.(tx).

(** Connecting, reading a file, then a link, then asking for a file that is not
    there: three connections, all closed. *)
Example session_runs_thrice :
  let n := mk_net [example_reply (Some 1); example_reply None; example_reply None] [] [] in
  match Client_Connect conn_fuel conn_reader conn_writer 200 example_dialing None n with
  | (Ret ss, n1) =>
    match run_requests conn_fuel conn_reader conn_writer (H := pad_digests) net_close 200
            [AskOpen (str "a.txt"); AskReadLink (str "sub/link"); AskLstat (str "b.txt")] (ss, n1) with
    | (Ret [inr (Opened (ModuleFile (flistFile _ data))); inr (Target target); inl e], (ss', n')) =>
        data = str "hello, world" ∧ target = str "../a.txt" ∧ e = Errorf "open: file does not exist" (str "b.txt") ∧
        ss'.(ss_link) = NoLink ∧ n' = mk_net [] [0; 1; 2]%nat [0; 1; 2]%nat
    | _ => False
    end
  | _ => False
  end.
Proof. by vm_compute. Qed.

Definition example_root : dialing_Client net conn := with_module [] example_dialing.
Definition example_root_session : fs_Session net conn :=
  mk_fs_Session (Some example_root) NoLink (Some (mk_root_mode 32 (str "md5") net_dial)).

(** A connection of Connect that Open uses up; and in root mode two calls, of
    which the first meets a peer that hangs up and leaves its connection open. *)
Lemma session_connections_witness :
  let step := session_step conn_fuel conn_reader conn_writer (H := pad_digests) net_close 200 in
  let n0 := mk_net [example_reply (Some 1)] [] [] in
  let n2 := mk_net [conn_of []; example_reply (Some 1)] [] [] in
  (∃ ss n ss' n', Client_Connect conn_fuel conn_reader conn_writer 200 example_dialing None n0 = (Ret ss, n) ∧ rtc step (ss, n) (ss', n') ∧
    n' = mk_net [] [0%nat] [0%nat] ∧
    ∃ ds cs, traffic n_dialled n_closed n0 n' ds cs ∧ given (S := conn) None ++ ds ≡ₚ cs ++ held ss'.(ss_link)) ∧
  (∃ n', rtc step (example_root_session, n2) (example_root_session, n') ∧ n' = mk_net [] [0; 1]%nat [1%nat] ∧
    ∃ ds cs, traffic n_dialled n_closed n2 n' ds cs ∧ cs `sublist_of` ds).
Proof.
  intros step n0 n2. split.
  - destruct (Client_Connect conn_fuel conn_reader conn_writer 200 example_dialing None n0) as [[ss|e| |] n] eqn:Ec;
      [|by vm_compute in Ec..].
    destruct (Open conn_fuel conn_reader conn_writer (H := pad_digests) net_close 200 (str "a.txt") (ss, n)) as [x [ss' n']] eqn:Eo.
    assert (rtc step (ss, n) (ss', n')) as Hstep by (apply rtc_once; eexists; eapply call_Open; exact Eo).
    exists ss, n, ss', n'. split_and!; [done|done| |].
    + vm_compute in Ec. injection Ec as <- <-. vm_compute in Eo. by injection Eo as <- <- <-.
    + by apply (session_connections conn_fuel conn_reader conn_writer (H := pad_digests) net_close n_dialled n_closed example_dialing
                  200 n0 ss ss' n') with (n := n).
  - destruct (Open conn_fuel conn_reader conn_writer (H := pad_digests) net_close 200 (str "pub/a.txt") (example_root_session, n2)) as [x [ss' n']] eqn:Eo.
    destruct (Open conn_fuel conn_reader conn_writer (H := pad_digests) net_close 200 (str "pub/a.txt") (ss', n')) as [x1 [ss1 n1]] eqn:Eo1.
    assert (rtc step (example_root_session, n2) (ss1, n1)) as Hstep
      by (eapply rtc_l; [eexists; eapply call_Open; exact Eo|]; apply rtc_once; eexists; eapply call_Open; exact Eo1).
    destruct (session_connections conn_fuel conn_reader conn_writer (H := pad_digests) net_close n_dialled n_closed example_root
                200 n2 example_root_session ss1 n1) as [_ Hroot].
    destruct (Hroot ltac:(by vm_compute) Hstep) as (-> & Hsub & _). exists n1. split_and!; [done| |done].
    vm_compute in Eo. injection Eo as <- <- <-. vm_compute in Eo1. by injection Eo1 as <- <-.
Defined.

(** A Session that was used, with a peer that hangs up at once. *)
Lemma failed_reconnect_panics_witness :
  let ss := mk_fs_Session (Some example_dialing) NoLink None in
  let n := mk_net [conn_of []] [0%nat] [0%nat] in
  ∃ s1 ss', Open conn_fuel conn_reader conn_writer (H := pad_digests) net_close 200 (str "a.txt") (ss, n) =
      (Fail (Wrap "read server greeting" (Wrap "read greeting" EOF)), (ss', mk_net [] [0; 1]%nat [0%nat])) ∧
    Open conn_fuel conn_reader conn_writer (H := pad_digests) net_close 200 (str "a.txt") (ss', mk_net [] [0; 1]%nat [0%nat]) =
      (Panic, (ss, net_close (mk_rw 1 s1) (mk_net [] [0; 1]%nat [0%nat]))).
Proof.
  intros ss n.
  destruct (before_filter 200 conn_fuel conn_reader conn_writer example_client (conn_of [])) as [x s1] eqn:Ef.
  assert (x = Fail (Wrap "read server greeting" (Wrap "read greeting" EOF))) as -> by (vm_compute in Ef; by injection Ef as <- _).
  destruct (failed_reconnect_panics conn_fuel conn_reader conn_writer (H := pad_digests) net_close 200 ss example_dialing net_dial n
              (mk_rw 1 (conn_of [])) (mk_net [] [0; 1]%nat [0%nat]) (Wrap "read server greeting" (Wrap "read greeting" EOF)) s1 (str "a.txt"))
    as (ss' & H1 & H2 & _); [done..|by vm_compute|done|done|].
  exists s1, ss'. by split.
Defined.

Lemma session_answers_witness :
  let qs := [AskOpen (str "a.txt"); AskReadLink (str "sub/link"); AskLstat (str "b.txt")] in
  ∃ ts k, Forall2 (λ q t, answered q (listing example_files example_module example_tree) 31 example_module_fs.(fs_Open) t.(t_res)) qs ts ∧
    ∀ fuel, (k ≤ fuel)%nat →
      Forall (served conn_fuel conn_reader conn_writer (H := pad_digests) example_outside example_server example_files 31 fuel) ts ∧
      ∀ n, supplied conn_reader conn_writer net_close example_dialing net_dial 31 n ts → ∃ ss n1 n',
        Client_Connect conn_fuel conn_reader conn_writer fuel example_dialing None n = (Ret ss, n1) ∧
        run_requests conn_fuel conn_reader conn_writer (H := pad_digests) net_close fuel qs (ss, n1) =
          (Ret (t_res <$> ts), (idle example_dialing, n')).
Proof.
  intros qs. apply (session_answers conn_fuel conn_reader conn_writer net_close conn_fuel conn_reader conn_writer (H := pad_digests)
    example_dialing net_dial eq_refl example_outside example_server example_files example_module 31 0 (str "md5") example_tree).
  - apply (bool_decide_unpack _). by vm_compute.
  - apply (bool_decide_unpack _). by vm_compute.
  - by vm_compute.
  - unfold module_ok. apply (bool_decide_unpack _). by vm_compute.
  - by vm_compute.
  - done.
  - exists (replicate 16 7), (str "alice" ++ replicate 16 7), (λ _ challenge, Ret (str "alice" ++ challenge)).
    split_and!; try done; apply (bool_decide_unpack _); by vm_compute.
  - done.
  - repeat apply Forall_cons_2; [..|apply Forall_nil_2]; (split; [by vm_compute|]).
    + exact example_module_ready.
    + by apply example_module_fits.
    + by apply example_module_fits.
Defined.
