(* ===== verification/RootMode.v ===== *)
(** * Root mode (client-open.go: openRoot, rootLstat, rootReadLink, listModules)

    What a Session of OpenRoot promises: an operation on [module/path] is the
    operation on [path] of a Session connected to that module, up to the text of
    errors ([runs_alike]), and the root lists the modules of the server. The operations themselves are in [Lifecycle]. *)
From S2P Require Import Prelude.
From S2P Require Import GoIO.
From S2P Require Import GoStrings.
From S2P Require Import Dialogue.
From S2P Require Import Checksum.
From S2P Require Import Mux.
From S2P Require Import HashSearchProofs.
From S2P Require Import Sort.
From S2P Require Import FileList.
From S2P Require Import Greet.
From S2P Require Import Handshake.
From S2P Require Import Connect.
From S2P Require Import Receiver.
From S2P Require Import Transfer.
From S2P Require Import Connection.
From S2P Require Import Files.
From S2P Require Import ModuleList.
From S2P Require Import Lifecycle.
#[local] Open Scope Z_scope.
#[local] Open Scope go_scope.

(** Outcomes that agree up to [R] on results, errors differing at most in their
    text, and programs that do so and leave the same state. *)
Definition alike {A B} (R : A → B → Prop) (x : outcome A) (y : outcome B) : Prop :=
  match x, y with
  | Ret a, Ret b => R a b
  | Fail _, Fail _ => True
  | Panic, Panic => True
  | NoFuel, NoFuel => True
  | _, _ => False
  end.


(** The same outcome but for the text of an error. *)
Definition same_outcome {A} : outcome A → outcome A → Prop := alike eq.

Lemma same_outcome_refl {A} (x : outcome A) : same_outcome x x.
Proof. by destruct x. Qed.

#[global] Instance same_outcome_equivalence {A} : Equivalence (@same_outcome A).
Proof.
  split; [intros x; apply same_outcome_refl|..].
  - intros [] []; cbn; congruence.
  - intros [] [] []; cbn; intuition congruence.
Qed.











Section root.
Context {N S : Type} (frames : S → nat) (r : io_Reader S) (w : io_Writer S) `{Digests} (close : io_ReadWriter S → N → N) (fuel : nat).









End root.

(** ** Listing the root *)
Section list.
Context {N S T : Type} (frames : S → nat) (r : io_Reader S) (w : io_Writer S) (close : io_ReadWriter S → N → N).
Context `{!ReaderSpec r} `{!WriterSpec w} `{!Duplex r w} (r' : io_Reader T) (w' : io_Writer T).
Context `{!ReaderSpec r'} `{!WriterSpec w'} `{!Duplex r' w'} `{Digests}.

(** C9: Opening the root lists the server. Take a server with the modules that
    NewServer accepted, each with a line that can be read back, and a Session of
    OpenRoot whose greeting negotiates version 25 or later with it. Open of the root
    dials once with an empty module name; the request and doHandshake complete on
    each other's bytes, in whatever order the server ranges over its modules; the
    connection is closed; and the directory that Open returns lists, in strictly
    ascending order of the names, a directory and a comment link for each of the
    server's modules and nothing else. *)
Theorem root_lists_modules (c : dialing_Client N S) dial ss o mods sv0 sv v sub d :
  OpenRoot c = Ret ss → c.(ConnectFunc) = Some dial → NewServer mods = Ret sv0 → sv.(modules) = sv0.(modules) →
  greeting_ok (ApplyDefaults c.(dc_client).(c_Greeting)) → greeting_ok (ApplyDefaults sv.(sv_Greeting)) →
  Negotiate (ApplyDefaults c.(dc_client).(c_Greeting)) (ApplyDefaults sv.(sv_Greeting)) = Ret (v, sub, d) → 25 ≤ v →
  Forall (λ m, listed_ok (mk_ModuleInfo m.(sm_Name) m.(sm_Comment))) mods →
  ∃ cb sb k entries, (∀ fuel, (k ≤ fuel)%nat →
      dialogue r' w' (doHandshake fuel r' w' o sv) cb sb None ∧
      ∀ n conn n1, dial [] n = (Ret conn, n1) → open r w conn.(rw_state) sb → ∃ s' root,
        Open frames r w close fuel (str ".") (ss, n) = (Ret (RootFile root), (ss, close (rw_after conn s') n1)) ∧
        written w s' = written w conn.(rw_state) ++ cb ∧ (rootDir_ReadDir 0 root).1 = Ret (entries, None)) ∧
    (∀ e, e ∈ entries ↔ ∃ m, m ∈ mods ∧
       (e = mk_rootDirEntry m.(sm_Name) ModeDir [] ∨
        e = mk_rootDirEntry (str "." ++ m.(sm_Name) ++ [9] ++ m.(sm_Comment)) ModeSymlink m.(sm_Name))) ∧
    ascending re_name entries.
Proof.
  intros (dial' & ver & dg & Hd' & Hmod & ->)%OpenRoot_inv Hd Hnew Hmods Hgc Hgs Hneg Hv Hok. rewrite Hd' in Hd. injection Hd as ->.
  destruct (NewServer_modules _ _ Hnew) as (_ & HP & Hnd). rewrite <-Hmods, <-(ranged_modules o) in HP.
  destruct (listing_completes r w r' w' o c.(dc_client) sv v sub d Hgc Hgs Hneg Hv) as (cb & sb & k & Hrun); [by rewrite HP|].
  assert (with_module [] c = c) as Hself by (destruct c as [[] f]; cbn in *; by subst).
  set (infos := (λ m, mk_moduleInfo m.(sm_Name) m.(sm_Comment)) <$> ranged o sv) in *.
  exists cb, sb, k, (root_entries infos). split_and!.
  - intros fuel Hf. destruct (Hrun fuel Hf) as [Hc Hs]. split; [done|]. intros n conn n1 Hdial Hopen.
    rewrite <-(app_nil_r sb) in Hopen. destruct (Hc conn.(rw_state) [] Hopen) as (s' & E & _ & Ew & _).
    exists s', (mk_rootDir infos 0). split_and!; [|done|by rewrite rootDir_ReadDir_all].
    unfold Open. rewrite bind_get. cbn [in_root ss_link ss_root]. unfold openRoot. rewrite bool_decide_true by done. cbn [orb].
    unfold lift, bind, listModules, wrap. cbn [ss_client rt_connectFunc]. unfold bind. rewrite Hdial.
    by rewrite Hself, E.
  - intros e. rewrite root_entries_elem. unfold infos. setoid_rewrite list_elem_of_fmap. setoid_rewrite HP. naive_solver.
  - apply root_entries_ascending.
    + unfold infos. rewrite <-list_fmap_compose. by rewrite HP.
    + unfold infos. rewrite HP. apply Forall_fmap. eapply Forall_impl; [exact Hok|]. intros m (?&?&?&?&?&?&?&?). done.
Qed.
End list.


(** A leading slash is accepted in root mode, and the connection is closed. *)
Example root_runs :
  match Open conn_fuel conn_reader conn_writer (H := pad_digests) net_close 200 (str "/pub/a.txt")
          (example_root_session, mk_net [example_reply (Some 1)] [] []) with
  | (Ret (ModuleFile (flistFile _ data)), (_, n')) => data = str "hello, world" ∧ n' = mk_net [] [0%nat] [0%nat]
  | _ => False
  end ∧ ValidPath (str "/pub/a.txt") = false.
Proof. by vm_compute. Qed.

(** A server with two modules, which it may list in either order. *)
Definition example_modules_two : list ServerModule :=
  [example_module; mk_ServerModule (str "home") [] None None].
Definition example_server_two (ms : gmap bytes ServerModule) : Server := mk_Server ms (mk_Greeting 31 0 []).

Lemma root_lists_modules_witness :
  ∃ ms, NewServer example_modules_two = Ret (mk_Server ms (mk_Greeting 0 0 [])) ∧
  ∃ cb sb k entries, (∀ fuel, (k ≤ fuel)%nat →
      dialogue conn_reader conn_writer (doHandshake fuel conn_reader conn_writer example_outside (example_server_two ms)) cb sb None ∧
      ∀ n rw n1, net_dial [] n = (Ret rw, n1) → open conn_reader conn_writer rw.(rw_state) sb → ∃ s' root,
        Open conn_fuel conn_reader conn_writer (H := pad_digests) net_close fuel (str ".") (example_root_session, n) =
          (Ret (RootFile root), (example_root_session, net_close (rw_after rw s') n1)) ∧
        written conn_writer s' = written conn_writer rw.(rw_state) ++ cb ∧ (rootDir_ReadDir 0 root).1 = Ret (entries, None)) ∧
    (∀ e, e ∈ entries ↔ ∃ m, m ∈ example_modules_two ∧
       (e = mk_rootDirEntry m.(sm_Name) ModeDir [] ∨
        e = mk_rootDirEntry (str "." ++ m.(sm_Name) ++ [9] ++ m.(sm_Comment)) ModeSymlink m.(sm_Name))) ∧
    ascending re_name entries.
Proof.
  destruct (NewServer example_modules_two) as [[ms g]|e| |] eqn:Hnew; [|by vm_compute in Hnew..].
  exists ms. assert (g = mk_Greeting 0 0 []) as -> by (by vm_compute in Hnew; injection Hnew as _ <-). split; [done|].
  apply (root_lists_modules conn_fuel conn_reader conn_writer net_close conn_reader conn_writer (H := pad_digests)
           example_root net_dial example_root_session example_outside example_modules_two _ (example_server_two ms) 31 0 (str "md5")
           ltac:(by vm_compute) eq_refl Hnew eq_refl).
  - apply (bool_decide_unpack _). by vm_compute.
  - apply (bool_decide_unpack _). by vm_compute.
  - by vm_compute.
  - lia.
  - apply Forall_cons_2; [|apply Forall_singleton].
    + exists 112, (str "ub"). split_and!; try done; try (apply (bool_decide_unpack _); by vm_compute). right. exists (str "u"), 98. by vm_compute.
    + exists 104, (str "ome"). split_and!; try done; try (apply (bool_decide_unpack _); by vm_compute). right. exists (str "om"), 101. by vm_compute.
Defined.
